(* ===== verification/_CoqProject ===== *)
-Q . S2P
Prelude.v
Openai.v
Store.v
StoreOps.v
Ownership.v
Fencing.v
Lifecycle.v
Examples.v
Planner.v
Preprocess.v
Files.v
ResultStore.v
Entries.v
Finalizer.v
Assembly.v
JobRunner.v
Handover.v
Pipeline.v
Dispatch.v
Runs.v
Query.v
Reconciler.v
Collector.v
Semaphore.v
Flow.v
Throttle.v
Sweeps.v
Events.v
Listener.v
Wakeups.v
Rest.v
FileItems.v
BatchHandlers.v
Cancellation.v
Keyset.v
Statements.v
Writes.v
Connection.v
ApiBatches.v
FileHandlers.v
Input.v
ApiRuns.v
Config.v
Server.v
Startup.v
S3.v
Buckets.v
Tracing.v
Gateways.v
Routes.v
GatewayRuns.v
HttpClient.v
Source.v
AsyncRun.v
AsyncResults.v
AsyncRuns.v
Execution.v
SyncRun.v
SyncResults.v
EndToEnd.v
EndToEndRuns.v
PodWatcher.v
GcLife.v
ProcessorLife.v
