(* ===== verification/Prelude.v ===== *)
(** * Batch Gateway: a verification of its core

    Batch Gateway accepts OpenAI-style batches (a JSONL file of requests),
    executes them against inference endpoints and returns one output and one
    error file.  Its parts share two stores: PostgreSQL (the tables
    [batch_items], [batch_entries], [batch_events], [file_items]) and a file
    store (a directory or an S3 bucket).
    - The API server ([internal/apiserver]) takes uploads, inserts batches,
      lists and cancels them; a cancellation of a running batch is an event.
    - Processors ([internal/processor]) dequeue a batch, ingest its input into
      plan files and a manifest, activate it (one [batch_entries] row per
      request, in one statement), execute the requests through a pipeline of
      concurrent actors that checkpoints every result, and assemble the
      artifacts.  Requests go out over HTTP under concurrency limits, or over a
      queue whose results come back on routes shared by all jobs.  A processor
      owns a batch under a lease and an epoch; it can crash, stall or be
      replaced at any moment.
    - The garbage collector process ([internal/gc]) deletes what has expired
      and gives the batches of lost processors back to the queue.

    ** The model

    Everything is executable.  Operations that read and write a store are
    functions in the state-and-error monad below; a Go error is the sentinel it
    wraps.  The outcome of a remote call is an argument ([net] and records of
    them): the response arrives, or it is lost before or after the effect was
    committed.  Clocks are arguments too.  What other clients do meanwhile is a
    list of statements executed between two steps, so a theorem about a
    sequence of statements speaks of every interleaving of any number of
    processors.  Where actors run concurrently in one process (the dispatchers,
    the event channel, the routers, the registry of recovery routes) a [step]
    function executes one atomic action of any of them, and theorems quantify
    over all lists of actions.  Integers are [Z]; widths are kept where values
    reach a binary format, a column or an overflow ([Planner],
    [Openai.Duration], [Store.parse_bigint], [Semaphore.Float], [wrap64]).

    ** Files and what they model (paths under [src/])
    - [Prelude]: errors, the monad, shared tactics and lemmas.
    - [Openai]: [internal/shared/openai/batch.go],
      [shared/batch_utils/status_utils.go]: statuses, the status document,
      validation of create requests, status transitions.
    - [Store]: the tables of [database/postgresql/batch_schema.sql] and one
      definition per SQL statement that writes them.  [StoreOps]: the Go
      methods of [batch_resumable.go], [batch_queue.go], [batch_db.go] and
      [db_core.go] around those statements.  [Query], [Keyset]: [DBGet] with
      offset and keyset pagination.  [Statements], [Writes]: the SELECT, INSERT
      and UPDATE that [db_core.go] assembles at run time for the tables of
      [batch_db.go] and [file_db.go] (class [TableDescriptor]), with their
      placeholders, arguments and scanned columns.  [Connection]:
      [db_postgresql.go], opening and closing a client, span names.
    - [Ownership]: [Stmt] and [run_all], arbitrary interleavings of statements,
      reduced to the step relations [row_step] and [entry_step].
    - [Fencing], [Lifecycle]: theorems about the store.
    - [Planner], [Preprocess]: [processor/worker/planner.go], [plan_reader.go],
      [preprocessor.go], [manifest.go]: ingestion.  [Input]: [fileio.go], the
      file a batch names as the processor reads it.
    - [Files]: [files_store/fs/client.go], [io/reader.go],
      [retryclient/client.go], [util/retry].  [S3]: [files_store/s3/client.go]
      over the interface of the AWS SDK, the contract of a file store
      ([FilesLaws]) that both backends and the retrying wrapper keep.
      [Buckets]: a bucket in memory.  [Tracing]: [files_store/tracing].
    - [ResultStore]: [worker/result_store.go], [resumable_runner.go]: durable
      result lines and activation.
    - [Entries]: [worker/recovery.go]: listing, resume seed, integrity check.
    - [Finalizer], [Assembly]: [worker/finalizer_resumable.go],
      [finalizer.go], [status_updater.go]: the artifacts and their exactness.
    - [JobRunner], [Handover]: [worker/worker.go], [job_runner.go],
      [poller.go], [cancel.go], [recovery.go]: polling, [runJob], error
      routing, startup recovery, and their theorems.
    - [Pipeline], [Dispatch]: [processor/pipeline] and the code of [worker]
      that assembles it: request source, ownership fence, asynchronous
      dispatch, routing of deliveries, checkpointer, progress; and their
      theorems.  [Routes]: [worker/broadcasters.go].
    - [Source]: [worker/source_planfile.go] over all plan files of a batch.
    - [AsyncRun], [AsyncResults]: the actors of [pipeline/executor.go],
      [dispatcher_pre.go], [dispatcher_async.go], [result_checkpointer.go] and
      [result_router.go] with [pkg/clients/inference/async_shared_client.go],
      all at once, and their theorems.
    - [SyncRun], [SyncResults]: the same with synchronous dispatch, where the
      jobs of a processor share its endpoints ([Flow]).
    - [Execution]: the interface that both modes implement: what may happen to
      the stores while jobs run, and what a job that ends cleanly has done.
    - [EndToEnd]: ingestion, activation, source, execution and finalization
      composed, against that interface.
    - [Semaphore], [Flow], [Throttle]: [util/semaphore],
      [pipeline/dispatcher_aimd.go], [dispatcher_direct.go]: concurrency
      limits as a step relation over all running jobs, and their theorems.
    - [HttpClient], [Gateways]: [pkg/clients/http], [pkg/clients/inference],
      [util/clientset]: retries and their delays, error classes, which client
      serves which model, construction and release of all clients.
    - [Events]: [database/postgresql/batch_event.go]: the table, the channels
      and the steps of a delivery.  [Listener]: [pg_listen.go] and the
      dispatcher, which start deliveries; [Wakeups]: their theorem.
    - [Rest], [FileItems], [BatchHandlers], [FileHandlers]: the handlers of
      [internal/apiserver] with [shared/converter] and
      [database/postgresql/file_db.go].  [Cancellation], [ApiBatches]: their
      theorems.
    - [Server], [Startup]: routing, middleware and probes of
      [internal/apiserver], its configuration, [internal/tls/tls.go], start-up
      and shutdown ([server.go]).
    - [Config]: [processor/config/config.go], [gc/config/config.go].
    - [ProcessorLife]: [cmd/batch-processor/main.go] and [Run], [Stop] and
      [validate] of [worker/worker.go]: from the configuration to a running
      processor, its readiness and its shutdown.
    - [Reconciler], [Collector]: [gc/reconciler/reconciler.go],
      [gc/collector/collector.go], with their theorems.  [PodWatcher]:
      [gc/podwatcher/watcher.go] and the reconciler's loop, as
      [cmd/batch-gc/main.go] wires them.  [GcLife]: that entry point, from its
      start-up to its exit.
    - [Examples], [Runs], [Sweeps], [ApiRuns], [Buckets], [GatewayRuns],
      [AsyncRuns], [EndToEndRuns]: concrete runs that instantiate the theorems,
      and instances of the interfaces.

    ** What the theorems show
    - The whole: if ingestion, activation and an asynchronous execution of a
      batch report success, its finalization answers every line of the input
      exactly once, in input order ([batch_is_answered], with
      [source_yields_every_line] for the hand-over from ingestion to execution);
      the same holds of a batch that was interrupted and taken over
      ([resumed_batch_is_answered]) and with synchronous dispatch
      ([sync_batch_is_answered]).
    - Ownership: epochs are fencing tokens; a processor that lost a batch
      changes nothing more, statement by statement ([zombie_is_fenced_out]) and
      through a whole run ([lost_run_is_inert]); claims are exclusive and
      ordered by priority; terminal batches are inert.
    - The statements built at run time are the transitions the other theorems
      speak of: placeholders and arguments line up, conditions group as meant,
      columns are written and scanned in place, for every iteration order of the
      Go maps ([batch_get_refines], [batch_update_refines],
      [stored_item_reads_back], [file_get_refines]).  A client that fails to open
      leaves no pool behind ([pool_opened_or_returned]).
    - Exactly-once accounting: the first checkpoint of a request wins
      ([checkpoint_first_wins]), every terminal entry has its intact result
      object ([checkpoint_keeps_results], [activation_results_intact]), and
      progress counts, acknowledgements and the pending set follow the entry
      table ([drain_books]).
    - Asynchronous execution: no completed result is lost
      ([completed_results_survive]), a run that reports success has recorded
      every request ([clean_run_settles_everything]), and failures made up
      while a run ends are never recorded ([given_up_is_never_recorded]).  The
      same of synchronous execution ([sync_run_settles_everything],
      [sync_given_up_is_never_recorded]).
    - Ingestion: manifest and plan files are exact ([preprocess_sound]), form a
      valid activation ([manifest_activates]) and read back
      ([plan_file_roundtrip]); activation is all or nothing.
    - Resumption: the seed accounts for every entry, a resumed source sends
      exactly the unfinished requests, and the integrity check holds.
    - Finalization: after any failed attempts the artifacts are exactly the
      lines in ordinal order, never with work left, and a lost commit response
      is safe to retry.
    - Dispatch: slots are conserved, limits respected, every run ends with one
      result per request ([slots_conserved], [dispatch_delivers]); the signal
      the controller receives is that of the responses ([aimd_signal_exact]).
    - API: a created batch is queued, cancelling never overwrites a result,
      tenants are isolated, following the cursor lists everything, uploads
      come back unchanged; cancellation events are delivered at least once
      ([events_at_least_once]) without a send on a closed channel, and no
      wake-up for one is lost while a processor listens
      ([wakeups_are_not_lost]).  Every response carries its request's ID and
      the security headers ([responses_are_tagged]), the status of a response
      is the recorded one ([recorded_status_is_sent]) unless the handler
      panicked ([panic_is_recorded_as_success]), and the server is ready only
      while its listener is open ([readiness_is_honest]).
    - File store: S3 client and retrying wrapper keep the contract of a file
      store; streams are published once and whole.
    - Configuration: a validated configuration starts, the worker cap is exact,
      configured models resolve to clients, nothing leaks on failure.  A
      processor that starts passes its pre-flight check, and one that does not
      start leaves nothing open ([startup_prepared_or_nothing_open]); it is
      ready only while [Run] runs ([ready_only_while_running]), and once its
      context has ended it shuts down ([shutdown_completes]).
    - Collection: orphans are recovered, live owners and unexpired data spared;
      whatever the pods, the watcher and the reconciler's loop do, a batch is
      taken away only when its owner was not Ready in the last pod listing or
      its lease has expired ([displaced_owner_was_not_ready]).  The process
      ends without an error exactly when it was told to stop, and its clients
      outlive its members ([gc_exit_is_the_signal],
      [gc_clients_outlive_members]).
    - What is uploaded is what a processor reads ([upload_roundtrip],
      [uploaded_file_is_the_input]).
    - Defects found while proving are theorems as well
      ([undecodable_line_blocks_batch], [fresh_replica_is_displaced],
      [guard_shutdown_hangs], [gc_failed_startup_closes_clients_in_use],
      [undispatched_failure_breaks_resume], [async_failure_loses_custom_id],
      [tenant_routing_fails_async], [global_limit_is_per_job],
      [gc_skips_every_second_page], [fetch_failure_strands_resumable],
      [null_priority_claim_is_lost], [api_batches_never_expire],
      [lost_insert_dangles], [failed_commit_leaks], [file_db_failure_leaks],
      [zero_timeout_is_five_minutes], [nan_backoff_accepted]).

    ** Fuel and bounds
    Loops of the code that are not structural take fuel, and a theorem that
    the loop delivers its result states how much is enough: ingestion one
    round per input line and one for EOF; listings the number of entries plus
    one; name interning the number of interned names plus one; a
    reconciliation cycle [orphan_rows / pageSize] pages; a collection cycle
    more pages than [expired_batches / pageSize]; deleting a prefix more rounds
    than it has objects; dispatch the measure [weight] of the requests it
    starts with.  The controller's limits are below 2^53 so that a float64
    holds them exactly.

    ** Parameters
    SHA-256, SHA-1 UUIDs, the JSON decoder of request lines and the JSON encoder
    of result lines are arguments; what is needed of them (for instance that
    the UUID separates the names of one batch) is a hypothesis of the theorems
    that use it, with a concrete instance in their runs; that the two decoders
    of a request line agree is one of them ([decodes_alike]), and
    [undecodable_line_blocks_batch] says what happens where they do not.  Libraries behind an
    interface are classes with laws and an instance: the AWS SDK ([S3API],
    [S3Laws]) and the asynchronous queue ([Transport], [TransportLaws]).  The
    attempts that the resty library makes, the Kubernetes quantity parser,
    mounted secrets, the multipart parser and HTTP dates are inputs.

    ** Not modelled
    The HTTP library, YAML decoding, the pgx pool, the
    Kubernetes client and its informers (their outcomes are inputs), metrics,
    the tracer, logging, test doubles, and the entry point of the API server,
    which only wires what is modelled. *)

From stdpp Require Import base gmap strings list sorting relations.
From Stdlib Require Import ZArith Lia.

(** ** Errors

    Go wraps errors with [fmt.Errorf("...: %w", err)] and tests them with
    [errors.Is]; an error is therefore modelled by the sentinel it wraps
    ([ErrConflict], the [batchctx] causes, [ErrFileExists], ...).  An error
    that wraps no sentinel is [ErrOther] with a tag naming the branch that
    built it; a failure of the pgx pool, the file store or the network is
    [ErrIO]. *)
Inductive err :=
| ErrConflict
| ErrExpired
| ErrCancelled
| ErrShutdown
| ErrFileExists
| ErrFileNotFound
| ErrIO
| ErrOther (tag : string).

#[export] Instance err_eq_dec : EqDecision err.
Proof. solve_decision. Defined.

(** A Go return pair [(value, error)] whose value is meaningful only when the
    error is nil. *)
Inductive result (A : Type) :=
| Ok (a : A)
| Err (e : err).
Arguments Ok {A} a.
Arguments Err {A} e.

Definition is_ok {A} (r : result A) : bool :=
  match r with Ok _ => true | Err _ => false end.

(** Validation code: the first condition that holds is the error returned. *)
Fixpoint first_failure (checks : list (bool * string)) : result unit :=
  match checks with
  | [] => Ok tt
  | (bad, msg) :: checks' => if bad then Err (ErrOther msg) else first_failure checks'
  end.
Definition and_then {A B} (r : result A) (k : A → result B) : result B :=
  match r with Ok a => k a | Err e => Err e end.

(** Go's signed 64-bit integers. *)
Definition wrap64 (x : Z) : Z := ((x + 2 ^ 63) mod 2 ^ 64 - 2 ^ 63)%Z.

(** ** A small state-and-error monad

    Operations that read and write a shared store of type [S]. *)
Definition M (S A : Type) : Type := S → S * result A.

Definition ret {S A} (a : A) : M S A := λ s, (s, Ok a).
Definition throw {S A} (e : err) : M S A := λ s, (s, Err e).
Definition bindM {S A B} (m : M S A) (k : A → M S B) : M S B :=
  λ s, match m s with
       | (s', Ok a) => k a s'
       | (s', Err e) => (s', Err e)
       end.
(** [try m] never fails: it hands the outcome of [m] to its continuation, as
    [if err := ...; err != nil] does. *)
Definition try {S A} (m : M S A) : M S (result A) :=
  λ s, let '(s', r) := m s in (s', Ok r).

Declare Scope gateway_scope.
Delimit Scope gateway_scope with gw.
Notation "x <- m ;; k" := (bindM m (λ x, k))
  (at level 100, m at next level, right associativity) : gateway_scope.
Notation "m ;;; k" := (bindM m (λ _, k))
  (at level 100, right associativity) : gateway_scope.
Open Scope gateway_scope.

(** ** Proof automation *)

(** Case analysis on every [match] of the goal, innermost first, keeping the
    equations. *)
Ltac destruct_match :=
  match goal with
  | |- context [match ?x with _ => _ end] =>
      lazymatch x with
      | context [match _ with _ => _ end] => fail
      | _ => destruct x eqn:?
      end
  end.
Ltac destruct_match_in H :=
  match type of H with
  | context [match ?x with _ => _ end] =>
      lazymatch x with
      | context [match _ with _ => _ end] => fail
      | _ => destruct x eqn:?
      end
  end.

(** Turn boolean tests of the code into propositions. *)
Ltac boolify :=
  repeat match goal with
  | H : _ && _ = true |- _ => apply andb_true_iff in H; destruct H
  | H : negb _ = true |- _ => apply negb_true_iff in H
  | H : negb _ = false |- _ => apply negb_false_iff in H
  | H : bool_decide _ = true |- _ => apply bool_decide_eq_true in H
  | H : bool_decide _ = false |- _ => apply bool_decide_eq_false in H
  | H : (_ =? _)%Z = true |- _ => apply Z.eqb_eq in H
  | H : (_ =? _)%Z = false |- _ => apply Z.eqb_neq in H
  | H : (_ <? _)%Z = true |- _ => apply Z.ltb_lt in H
  | H : (_ <? _)%Z = false |- _ => apply Z.ltb_ge in H
  | H : (_ <=? _)%Z = true |- _ => apply Z.leb_le in H
  | H : (_ <=? _)%Z = false |- _ => apply Z.leb_gt in H
  end.

Create HintDb gateway.
Create Rewrite HintDb gateway_rw.

(** ** Generic lemmas *)

Lemma first_failure_ok checks : first_failure checks = Ok tt ↔ Forall (λ c, c.1 = false) checks.
Proof.
  induction checks as [|[bad msg] checks IH]; cbn; [done|].
  rewrite Forall_cons. destruct bad; cbn; [naive_solver congruence|]. rewrite IH. naive_solver.
Qed.
Lemma and_then_ok {A B} (r : result A) (k : A → result B) b :
  and_then r k = Ok b ↔ ∃ a, r = Ok a ∧ k a = Ok b.
Proof. destruct r; cbn; naive_solver. Qed.
Lemma wrap64_small x : (- 2 ^ 63 ≤ x < 2 ^ 63)%Z → wrap64 x = x.
Proof. intros. unfold wrap64. rewrite Z.mod_small by lia. lia. Qed.

Lemma bindM_ok {S A B} (m : M S A) (k : A → M S B) s s' b :
  bindM m k s = (s', Ok b) →
  ∃ s1 a, m s = (s1, Ok a) ∧ k a s1 = (s', Ok b).
Proof.
  unfold bindM. destruct (m s) as [s1 [a|e]] eqn:Hm; intros H; [eauto|discriminate].
Qed.

Lemma bindM_err {S A B} (m : M S A) (k : A → M S B) s s' e :
  bindM m k s = (s', Err e) →
  m s = (s', Err e) ∨ ∃ s1 a, m s = (s1, Ok a) ∧ k a s1 = (s', Err e).
Proof.
  unfold bindM. destruct (m s) as [s1 [a|e']] eqn:Hm; intros H; [eauto|].
  left. congruence.
Qed.

(** ** Sums over maps *)
Section map_total.
Context {K A : Type} `{Countable K}.
Implicit Types (f : A → Z) (m : gmap K A).
Local Open Scope Z_scope.

Definition map_total f m : Z := map_fold (λ _ x acc, f x + acc) 0 m.

Lemma map_total_insert f m k x : m !! k = None → map_total f (<[k := x]> m) = f x + map_total f m.
Proof. intros Hk. unfold map_total. rewrite map_fold_insert_L; [done| |done]. intros. lia. Qed.
Lemma map_total_delete f m k x : m !! k = Some x → map_total f m = f x + map_total f (delete k m).
Proof.
  intros Hk. rewrite <- (insert_delete_id m k x Hk) at 1. by rewrite map_total_insert by apply lookup_delete_eq.
Qed.
Lemma map_total_update f m k x y : m !! k = Some x → map_total f (<[k := y]> m) = map_total f m + f y - f x.
Proof.
  intros Hk. rewrite <- insert_delete_eq, map_total_insert by apply lookup_delete_eq.
  rewrite (map_total_delete f m k x Hk). lia.
Qed.
Lemma map_total_nonneg f m : (∀ x, 0 ≤ f x) → 0 ≤ map_total f m.
Proof.
  intros Hf. induction m as [|k x m Hk IH] using map_ind; [done|].
  rewrite map_total_insert by done. specialize (Hf x). lia.
Qed.
Lemma map_total_ge f m k x : (∀ x, 0 ≤ f x) → m !! k = Some x → f x ≤ map_total f m.
Proof. intros Hf Hk. rewrite (map_total_delete f m k x Hk). pose proof (map_total_nonneg f (delete k m) Hf). lia. Qed.
Lemma map_total_pos f m : 0 < map_total f m → ∃ k x, m !! k = Some x ∧ 0 < f x.
Proof.
  induction m as [|k x m Hk IH] using map_ind; [done|]. rewrite map_total_insert by done. intros Ht.
  destruct (decide (0 < f x)) as [Hp|Hp]; [exists k, x; by rewrite lookup_insert_eq|].
  destruct IH as (k' & x' & Hx' & Hp'); [lia|]. exists k', x'. split; [|done].
  rewrite lookup_insert_ne; [done|]. intros ->. by rewrite Hk in Hx'.
Qed.
End map_total.
