(* ===== verification/Openai.v ===== *)
(** * OpenAI-compatible batch objects

    The data of [internal/shared/openai/batch.go] and the status helpers of
    [internal/shared/batch_utils/status_utils.go]: batch statuses, the status
    document, request counts, the endpoint allowlist, the validation of a
    create request, and [BuildUpdatedStatusInfo].  [time.ParseDuration] is the
    Go standard library function the validation relies on. *)

From Stdlib Require Import ZArith Lia Ascii String.
From stdpp Require Import base gmap strings list.
From S2P Require Import Prelude.
Local Open Scope string_scope.
Local Open Scope Z_scope.

(** ** Endpoints *)
Definition EndpointResponses := "/v1/responses".
Definition EndpointChatCompletions := "/v1/chat/completions".
Definition EndpointEmbeddings := "/v1/embeddings".
Definition EndpointCompletions := "/v1/completions".
Definition EndpointModerations := "/v1/moderations".

Definition isDefaultEndpoint (endpoint : string) : bool :=
  bool_decide (endpoint ∈ [EndpointResponses; EndpointChatCompletions;
                           EndpointEmbeddings; EndpointCompletions; EndpointModerations]).

(** The zero value accepts exactly the default endpoints. *)
Record EndpointAllowlist := { extra : gset string }.
Definition emptyAllowlist : EndpointAllowlist := {| extra := ∅ |}.

Definition IsValid (a : EndpointAllowlist) (endpoint : string) : bool :=
  if isDefaultEndpoint endpoint then true else bool_decide (endpoint ∈ extra a).

Definition IsValidEndpoint (endpoint : string) : bool := IsValid emptyAllowlist endpoint.

(** Standard library: the byte tests and string splitting the checks use. *)
Definition char_in (cs : list ascii) (c : ascii) : bool := bool_decide (c ∈ cs).
Definition chars (s : string) : list ascii := list_ascii_of_string s.
Definition is_ctl (c : ascii) : bool :=
  let n := Z.of_nat (nat_of_ascii c) in (n <? 32) || (n =? 127).

(** [url.ParseRequestURI(s)] followed by [parsed.Path != s], for an [s] that
    starts with a single slash and contains neither '?' nor '#': parsing fails
    on a control byte or a malformed escape, and a well-formed escape makes
    [Path] (unescaped) differ from [s]; so the two checks pass exactly when
    there is no control byte and no '%'. *)
Definition url_path_verbatim (s : string) : bool :=
  forallb (λ c, negb (is_ctl c) && negb (char_in ["%"%char] c)) (chars s).

(** Segments between slashes; [split_slash] of "/a/b" is ["", "a", "b"]. *)
Fixpoint split_slash (cur : string) (s : list ascii) : list string :=
  match s with
  | [] => [cur]
  | c :: s' => if bool_decide (c = "/"%char) then cur :: split_slash "" s'
               else split_slash (cur +:+ String c "") s'
  end.

(** [path.Clean] on a rooted path: drop empty and "." segments, let ".."
    remove the previous one (nothing above the root). *)
Definition clean_step (acc : list string) (seg : string) : list string :=
  if bool_decide (seg = "") || bool_decide (seg = ".") then acc
  else if bool_decide (seg = "..") then removelast acc
  else app acc [seg].
Definition path_Clean (s : string) : string :=
  match foldl clean_step [] (split_slash "" (chars s)) with
  | [] => "/"
  | segs => foldl (λ acc seg, acc +:+ "/" +:+ seg) "" segs
  end.

Definition validateEndpointPath (endpoint : string) : result unit :=
  match chars endpoint with
  | [] => Err (ErrOther "path cannot be empty")
  | c0 :: rest =>
      if negb (bool_decide (c0 = "/"%char)) ||
         match rest with c1 :: _ => bool_decide (c1 = "/"%char) | [] => false end
      then Err (ErrOther "must be an absolute path beginning with exactly one slash")
      else if existsb (char_in ["?"%char; "#"%char]) (c0 :: rest)
      then Err (ErrOther "must not contain a query string or fragment")
      else if negb (url_path_verbatim endpoint)
      then Err (ErrOther "must be a valid URL path without escapes")
      else if negb (bool_decide (path_Clean endpoint = endpoint))
      then Err (ErrOther "must be a canonical path")
      else Ok tt
  end.

(** The loop stops at the first malformed entry. *)
Fixpoint NewEndpointAllowlist_loop (a : EndpointAllowlist) (es : list string) : result EndpointAllowlist :=
  match es with
  | [] => Ok a
  | e :: es' =>
      match validateEndpointPath e with
      | Err x => Err x
      | Ok _ => if isDefaultEndpoint e then NewEndpointAllowlist_loop a es'
                else NewEndpointAllowlist_loop {| extra := {[e]} ∪ extra a |} es'
      end
  end.
Definition NewEndpointAllowlist (es : list string) : result EndpointAllowlist :=
  NewEndpointAllowlist_loop emptyAllowlist es.

(** ** Batch statuses ([type BatchStatus string]) *)
Abbreviation BatchStatus := string (only parsing).
Definition BatchStatusValidating : BatchStatus := "validating".
Definition BatchStatusFailed : BatchStatus := "failed".
Definition BatchStatusInProgress : BatchStatus := "in_progress".
Definition BatchStatusFinalizing : BatchStatus := "finalizing".
Definition BatchStatusCompleted : BatchStatus := "completed".
Definition BatchStatusExpired : BatchStatus := "expired".
Definition BatchStatusCancelling : BatchStatus := "cancelling".
Definition BatchStatusCancelled : BatchStatus := "cancelled".

Definition terminalStatuses : list BatchStatus :=
  [BatchStatusCompleted; BatchStatusFailed; BatchStatusExpired; BatchStatusCancelled].

Definition IsTerminal (s : BatchStatus) : bool :=
  existsb (λ ts, bool_decide (s = ts)) terminalStatuses.

Definition IsCancellable (s : BatchStatus) : bool :=
  bool_decide (s = BatchStatusValidating) || bool_decide (s = BatchStatusInProgress)
  || bool_decide (s = BatchStatusCancelling).

(** ** The status document *)
Record BatchRequestCounts := { Total : Z; Completed : Z; Failed : Z }.

Definition AllSucceeded (c : BatchRequestCounts) : bool :=
  (Failed c =? 0) && (Completed c =? Total c).

Record BatchError := {
  be_Code : string; be_Message : string; be_Param : option string; be_Line : option Z }.
Record BatchErrors := { bes_Object : string; bes_Data : list BatchError }.
Record BatchUsage := {
  InputTokens : Z; CachedTokens : Z; OutputTokens : Z; ReasoningTokens : Z; TotalTokens : Z }.

Record BatchStatusInfo := {
  Status : BatchStatus;
  OutputFileID : option string;
  ErrorFileID : option string;
  CancelledAt : option Z;
  CancellingAt : option Z;
  CompletedAt : option Z;
  ExpiredAt : option Z;
  ExpiresAt : option Z;
  FailedAt : option Z;
  FinalizingAt : option Z;
  InProgressAt : option Z;
  Model : string;
  RequestCounts : BatchRequestCounts;
  Errors : option BatchErrors;
  Usage : option BatchUsage }.

#[export] Instance counts_eq_dec : EqDecision BatchRequestCounts.
Proof. solve_decision. Defined.
#[export] Instance batch_error_eq_dec : EqDecision BatchError.
Proof. solve_decision. Defined.
#[export] Instance batch_errors_eq_dec : EqDecision BatchErrors.
Proof. solve_decision. Defined.
#[export] Instance batch_usage_eq_dec : EqDecision BatchUsage.
Proof. solve_decision. Defined.
#[export] Instance status_info_eq_dec : EqDecision BatchStatusInfo.
Proof. solve_decision. Defined.

(** Assignments to one field of a copied document. *)
Definition set_Status (v : BatchStatus) (i : BatchStatusInfo) : BatchStatusInfo :=
  {| Status := v;
     OutputFileID := OutputFileID i; ErrorFileID := ErrorFileID i;
     CancelledAt := CancelledAt i; CancellingAt := CancellingAt i;
     CompletedAt := CompletedAt i; ExpiredAt := ExpiredAt i; ExpiresAt := ExpiresAt i;
     FailedAt := FailedAt i; FinalizingAt := FinalizingAt i; InProgressAt := InProgressAt i;
     Model := Model i; RequestCounts := RequestCounts i; Errors := Errors i; Usage := Usage i |}.
Definition set_OutputFileID (v : option string) (i : BatchStatusInfo) : BatchStatusInfo :=
  {| Status := Status i;
     OutputFileID := v; ErrorFileID := ErrorFileID i; CancelledAt := CancelledAt i;
     CancellingAt := CancellingAt i; CompletedAt := CompletedAt i; ExpiredAt := ExpiredAt i;
     ExpiresAt := ExpiresAt i; FailedAt := FailedAt i; FinalizingAt := FinalizingAt i;
     InProgressAt := InProgressAt i; Model := Model i; RequestCounts := RequestCounts i;
     Errors := Errors i; Usage := Usage i |}.
Definition set_ErrorFileID (v : option string) (i : BatchStatusInfo) : BatchStatusInfo :=
  {| Status := Status i;
     OutputFileID := OutputFileID i; ErrorFileID := v; CancelledAt := CancelledAt i;
     CancellingAt := CancellingAt i; CompletedAt := CompletedAt i; ExpiredAt := ExpiredAt i;
     ExpiresAt := ExpiresAt i; FailedAt := FailedAt i; FinalizingAt := FinalizingAt i;
     InProgressAt := InProgressAt i; Model := Model i; RequestCounts := RequestCounts i;
     Errors := Errors i; Usage := Usage i |}.
Definition set_CancelledAt (v : option Z) (i : BatchStatusInfo) : BatchStatusInfo :=
  {| Status := Status i;
     OutputFileID := OutputFileID i; ErrorFileID := ErrorFileID i; CancelledAt := v;
     CancellingAt := CancellingAt i; CompletedAt := CompletedAt i; ExpiredAt := ExpiredAt i;
     ExpiresAt := ExpiresAt i; FailedAt := FailedAt i; FinalizingAt := FinalizingAt i;
     InProgressAt := InProgressAt i; Model := Model i; RequestCounts := RequestCounts i;
     Errors := Errors i; Usage := Usage i |}.
Definition set_CancellingAt (v : option Z) (i : BatchStatusInfo) : BatchStatusInfo :=
  {| Status := Status i;
     OutputFileID := OutputFileID i; ErrorFileID := ErrorFileID i;
     CancelledAt := CancelledAt i; CancellingAt := v; CompletedAt := CompletedAt i;
     ExpiredAt := ExpiredAt i; ExpiresAt := ExpiresAt i; FailedAt := FailedAt i;
     FinalizingAt := FinalizingAt i; InProgressAt := InProgressAt i; Model := Model i;
     RequestCounts := RequestCounts i; Errors := Errors i; Usage := Usage i |}.
Definition set_CompletedAt (v : option Z) (i : BatchStatusInfo) : BatchStatusInfo :=
  {| Status := Status i;
     OutputFileID := OutputFileID i; ErrorFileID := ErrorFileID i;
     CancelledAt := CancelledAt i; CancellingAt := CancellingAt i; CompletedAt := v;
     ExpiredAt := ExpiredAt i; ExpiresAt := ExpiresAt i; FailedAt := FailedAt i;
     FinalizingAt := FinalizingAt i; InProgressAt := InProgressAt i; Model := Model i;
     RequestCounts := RequestCounts i; Errors := Errors i; Usage := Usage i |}.
Definition set_ExpiredAt (v : option Z) (i : BatchStatusInfo) : BatchStatusInfo :=
  {| Status := Status i;
     OutputFileID := OutputFileID i; ErrorFileID := ErrorFileID i;
     CancelledAt := CancelledAt i; CancellingAt := CancellingAt i;
     CompletedAt := CompletedAt i; ExpiredAt := v; ExpiresAt := ExpiresAt i;
     FailedAt := FailedAt i; FinalizingAt := FinalizingAt i; InProgressAt := InProgressAt i;
     Model := Model i; RequestCounts := RequestCounts i; Errors := Errors i; Usage := Usage i |}.
Definition set_ExpiresAt (v : option Z) (i : BatchStatusInfo) : BatchStatusInfo :=
  {| Status := Status i;
     OutputFileID := OutputFileID i; ErrorFileID := ErrorFileID i;
     CancelledAt := CancelledAt i; CancellingAt := CancellingAt i;
     CompletedAt := CompletedAt i; ExpiredAt := ExpiredAt i; ExpiresAt := v;
     FailedAt := FailedAt i; FinalizingAt := FinalizingAt i; InProgressAt := InProgressAt i;
     Model := Model i; RequestCounts := RequestCounts i; Errors := Errors i; Usage := Usage i |}.
Definition set_FailedAt (v : option Z) (i : BatchStatusInfo) : BatchStatusInfo :=
  {| Status := Status i;
     OutputFileID := OutputFileID i; ErrorFileID := ErrorFileID i;
     CancelledAt := CancelledAt i; CancellingAt := CancellingAt i;
     CompletedAt := CompletedAt i; ExpiredAt := ExpiredAt i; ExpiresAt := ExpiresAt i;
     FailedAt := v; FinalizingAt := FinalizingAt i; InProgressAt := InProgressAt i;
     Model := Model i; RequestCounts := RequestCounts i; Errors := Errors i; Usage := Usage i |}.
Definition set_FinalizingAt (v : option Z) (i : BatchStatusInfo) : BatchStatusInfo :=
  {| Status := Status i;
     OutputFileID := OutputFileID i; ErrorFileID := ErrorFileID i;
     CancelledAt := CancelledAt i; CancellingAt := CancellingAt i;
     CompletedAt := CompletedAt i; ExpiredAt := ExpiredAt i; ExpiresAt := ExpiresAt i;
     FailedAt := FailedAt i; FinalizingAt := v; InProgressAt := InProgressAt i;
     Model := Model i; RequestCounts := RequestCounts i; Errors := Errors i; Usage := Usage i |}.
Definition set_InProgressAt (v : option Z) (i : BatchStatusInfo) : BatchStatusInfo :=
  {| Status := Status i;
     OutputFileID := OutputFileID i; ErrorFileID := ErrorFileID i;
     CancelledAt := CancelledAt i; CancellingAt := CancellingAt i;
     CompletedAt := CompletedAt i; ExpiredAt := ExpiredAt i; ExpiresAt := ExpiresAt i;
     FailedAt := FailedAt i; FinalizingAt := FinalizingAt i; InProgressAt := v;
     Model := Model i; RequestCounts := RequestCounts i; Errors := Errors i; Usage := Usage i |}.
Definition set_RequestCounts (v : BatchRequestCounts) (i : BatchStatusInfo) : BatchStatusInfo :=
  {| Status := Status i;
     OutputFileID := OutputFileID i; ErrorFileID := ErrorFileID i;
     CancelledAt := CancelledAt i; CancellingAt := CancellingAt i;
     CompletedAt := CompletedAt i; ExpiredAt := ExpiredAt i; ExpiresAt := ExpiresAt i;
     FailedAt := FailedAt i; FinalizingAt := FinalizingAt i; InProgressAt := InProgressAt i;
     Model := Model i; RequestCounts := v; Errors := Errors i; Usage := Usage i |}.

(** [BuildUpdatedStatusInfo]: [now] is [time.Now().Unix()], [slo] the Unix
    seconds of the SLO when given. *)
Definition BuildUpdatedStatusInfo (now : Z) (originalStatus : BatchStatusInfo)
    (newStatus : BatchStatus) (counts : option BatchRequestCounts) (slo : option Z)
    : result BatchStatusInfo :=
  let updated := set_Status newStatus originalStatus in
  let stamped :=
    if bool_decide (newStatus = BatchStatusInProgress) then Ok (set_InProgressAt (Some now) updated)
    else if bool_decide (newStatus = BatchStatusCompleted) then Ok (set_CompletedAt (Some now) updated)
    else if bool_decide (newStatus = BatchStatusFailed) then Ok (set_FailedAt (Some now) updated)
    else if bool_decide (newStatus = BatchStatusCancelled) then Ok (set_CancelledAt (Some now) updated)
    else if bool_decide (newStatus = BatchStatusExpired) then Ok (set_ExpiredAt (Some now) updated)
    else if bool_decide (newStatus = BatchStatusFinalizing) then Ok (set_FinalizingAt (Some now) updated)
    else if bool_decide (newStatus = BatchStatusCancelling) then Ok (set_CancellingAt (Some now) updated)
    else if bool_decide (newStatus = BatchStatusValidating) then
      match slo with
      | None => Err (ErrOther "SLO is required")
      | Some expiresAt => Ok (set_ExpiresAt (Some expiresAt) updated)
      end
    else Err (ErrOther "invalid status") in
  match stamped with
  | Err e => Err e
  | Ok u => Ok (match counts with
                | Some c => set_RequestCounts
                    {| Total := Total c; Completed := Completed c; Failed := Failed c |} u
                | None => u
                end)
  end.

Definition IsJobRunnable (status : BatchStatus) : bool :=
  bool_decide (status = BatchStatusValidating) || bool_decide (status = BatchStatusInProgress).

(** [IsJobExpired]: the zero SLO ([None]) never expires. *)
Definition IsJobExpired (now : Z) (slo : option Z) : bool :=
  match slo with Some t => t <? now | None => false end.

(** ** [time.ParseDuration] (Go standard library)

    An optional sign, then one or more decimal numbers (with an optional
    fraction) each followed by a unit; in nanoseconds.  The magnitude is kept
    below 2^63 at every step, as the library does.  The fraction of a unit,
    which the library computes in [float64], is the exact floor here. *)
Module Duration.

Definition max63 : Z := 9223372036854775808.

Definition is_digit (c : ascii) : bool :=
  let n := Z.of_nat (nat_of_ascii c) in (48 <=? n) && (n <=? 57).
Definition digit (c : ascii) : Z := Z.of_nat (nat_of_ascii c) - 48.
Definition is_dot (c : ascii) : bool := bool_decide (c = "."%char).

(** [None] on overflow. *)
Fixpoint leadingInt (x : Z) (s : list ascii) : option (Z * list ascii) :=
  match s with
  | c :: s' =>
      if is_digit c then
        if max63 / 10 <? x then None
        else let x' := x * 10 + digit c in
             if max63 <? x' then None else leadingInt x' s'
      else Some (x, s)
  | [] => Some (x, [])
  end.

(** After an overflow the remaining digits are consumed and ignored. *)
Fixpoint leadingFraction (x scale : Z) (overflow : bool) (s : list ascii) : Z * Z * list ascii :=
  match s with
  | c :: s' =>
      if is_digit c then
        if overflow then leadingFraction x scale true s'
        else if (max63 - 1) / 10 <? x then leadingFraction x scale true s'
        else let y := x * 10 + digit c in
             if max63 <? y then leadingFraction x scale true s'
             else leadingFraction y (scale * 10) false s'
      else (x, scale, s)
  | [] => (x, scale, [])
  end.

Fixpoint span_unit (s : list ascii) : list ascii * list ascii :=
  match s with
  | c :: s' => if is_dot c || is_digit c then ([], s)
               else let '(u, r) := span_unit s' in (c :: u, r)
  | [] => ([], [])
  end.

Definition unitMap (u : string) : option Z :=
  if bool_decide (u = "ns") then Some 1
  else if bool_decide (u = "us") then Some 1000
  else if bool_decide (u = String (ascii_of_nat 194) (String (ascii_of_nat 181) "s")) then Some 1000
  else if bool_decide (u = String (ascii_of_nat 206) (String (ascii_of_nat 188) "s")) then Some 1000
  else if bool_decide (u = "ms") then Some 1000000
  else if bool_decide (u = "s") then Some 1000000000
  else if bool_decide (u = "m") then Some 60000000000
  else if bool_decide (u = "h") then Some 3600000000000
  else None.

(** One iteration of the loop body: number, unit, and the rest of the input. *)
Definition component (d : Z) (s : list ascii) : option (Z * list ascii) :=
  match s with
  | [] => None
  | c :: _ =>
      if negb (is_dot c || is_digit c) then None else
      match leadingInt 0 s with
      | None => None
      | Some (v, s1) =>
          let pre := negb (length s =? length s1)%nat in
          let '(f, scale, s2, post) :=
            match s1 with
            | c1 :: s1' =>
                if is_dot c1 then
                  let '(f, scale, r) := leadingFraction 0 1 false s1' in
                  (f, scale, r, negb (length s1' =? length r)%nat)
                else (0, 1, s1, false)
            | [] => (0, 1, [], false)
            end in
          if negb pre && negb post then None else
          let '(u, s3) := span_unit s2 in
          match u with
          | [] => None
          | _ =>
              match unitMap (string_of_list_ascii u) with
              | None => None
              | Some unit =>
                  if max63 / unit <? v then None else
                  let v' := v * unit + (if 0 <? f then f * unit / scale else 0) in
                  if max63 <? v' then None
                  else if max63 <? d + v' then None
                  else Some (d + v', s3)
              end
          end
      end
  end.

(** Every iteration consumes input, so the length of the input is enough fuel. *)
Fixpoint loop (fuel : nat) (d : Z) (s : list ascii) : option Z :=
  match s with
  | [] => Some d
  | _ => match fuel with
         | O => None
         | S fuel' => match component d s with
                      | None => None
                      | Some (d', s') => loop fuel' d' s'
                      end
         end
  end.

Definition ParseDuration (str : string) : option Z :=
  let s0 := chars str in
  let '(neg, s) :=
    match s0 with
    | c :: s' => if bool_decide (c = "-"%char) then (true, s')
                 else if bool_decide (c = "+"%char) then (false, s') else (false, s0)
    | [] => (false, [])
    end in
  if bool_decide (s = chars "0") then Some 0
  else match s with
       | [] => None
       | _ => match loop (length s) 0 s with
              | None => None
              | Some d => if neg then Some (- d)
                          else if max63 - 1 <? d then None else Some d
              end
       end.

Example parse_24h : ParseDuration "24h" = Some 86400000000000.
Proof. reflexivity. Qed.
Example parse_1h30m : ParseDuration "1h30.5m" = Some 5430000000000.
Proof. reflexivity. Qed.
Example parse_bad : ParseDuration "24" = None ∧ ParseDuration "" = None ∧ ParseDuration "1d" = None.
Proof. repeat split. Qed.

End Duration.

(** ** Create request *)
Record OutputExpiresAfter := { Seconds : Z; Anchor : string }.
Record CreateBatchRequest := {
  InputFileID : string;
  Endpoint : string;
  CompletionWindow : string;
  Metadata : gmap string string;
  cbr_OutputExpiresAfter : option OutputExpiresAfter }.

Definition MinExpirationSeconds : Z := 3600.
Definition MaxExpirationSeconds : Z := 2592000.

(** The Go loop ranges over the metadata map in an unspecified order and
    returns the first offending pair; only which message is returned depends
    on that order. *)
Definition metadata_pair_error (kv : string * string) : option err :=
  if (64 <? String.length kv.1)%nat then Some (ErrOther "metadata: key exceeds 64 characters")
  else if (512 <? String.length kv.2)%nat then Some (ErrOther "metadata: value exceeds 512 characters")
  else None.

Definition ValidateWithEndpointAllowlist (allowlist : EndpointAllowlist) (r : CreateBatchRequest)
    : result unit :=
  if bool_decide (CompletionWindow r = "") then Err (ErrOther "completion_window is required")
  else match Duration.ParseDuration (CompletionWindow r) with
  | None => Err (ErrOther "completion_window must be a valid duration (e.g., 24h)")
  | Some _ =>
  if bool_decide (Endpoint r = "") then Err (ErrOther "endpoint is required")
  else if negb (IsValid allowlist (Endpoint r)) then Err (ErrOther "invalid endpoint")
  else if bool_decide (InputFileID r = "") then Err (ErrOther "input_file_id is required")
  else if (16 <? size (Metadata r))%nat then Err (ErrOther "metadata: too many keys")
  else match head (omap metadata_pair_error (map_to_list (Metadata r))) with
  | Some e => Err e
  | None =>
  match cbr_OutputExpiresAfter r with
  | Some oea =>
      if negb (bool_decide (Anchor oea = "created_at"))
      then Err (ErrOther "output_expires_after.anchor must be 'created_at'")
      else if (Seconds oea <? MinExpirationSeconds) || (MaxExpirationSeconds <? Seconds oea)
      then Err (ErrOther "output_expires_after.seconds out of range")
      else Ok tt
  | None => Ok tt
  end end end.

Definition Validate (r : CreateBatchRequest) : result unit :=
  ValidateWithEndpointAllowlist emptyAllowlist r.
