(* ===== verification/Store.v ===== *)
(** * The PostgreSQL store: tables and statements

    The tables [batch_items] and [batch_entries] of
    [internal/database/postgresql/batch_schema.sql] and one definition per SQL
    statement that writes them ([batch_db.go], [db_core.go], [batch_queue.go],
    [batch_resumable.go]).  A statement is atomic: the single-row updates hold
    the row lock, and the entry writes lock the batch row first.  The Go
    methods of [StoreOps] are built from these statements.

    The database clock [NOW()] is an argument [now] in microseconds; a JSONB
    status document is the record it marshals ([None] is SQL NULL), and a
    comparison with NULL selects no row. *)

From Stdlib Require Import ZArith Lia.
From stdpp Require Import base gmap strings list sorting.
From S2P Require Import Prelude Openai.
Local Open Scope string_scope.
Local Open Scope Z_scope.

(** ** Rows *)
Record Row := {
  r_tenant : string;
  r_expiry : Z;
  r_tags : gmap string string;
  r_spec : string;
  r_status : option BatchStatusInfo;
  r_processor : option string;
  r_priority : option Z;
  r_epoch : Z;
  r_attempts : Z;
  r_resumable : bool;
  r_lease : option Z }.

(** [ResumableEntryStatus], restricted by the table's CHECK constraint. *)
Inductive EntryStatus := EPending | EInFlight | ECompleted | EFailed.

(** [ResumableEntryStatus.IsTerminal]. *)
Definition entry_terminal (s : EntryStatus) : bool :=
  match s with ECompleted | EFailed => true | EPending | EInFlight => false end.

(** One [batch_entries] row; the key is (batch_id, request_id).  The
    write-only columns created_at, updated_at and completed_at are left out. *)
Record Entry := {
  e_ordinal : Z;
  e_custom_id : string;
  e_status : EntryStatus;
  e_attempts : Z;
  e_submitted_by : option string;
  e_result_key : option string;
  e_result_bytes : option Z;
  e_result_sha256 : option string;
  e_error_code : option string }.

Record DB := { items : gmap string Row; entries : gmap (string * string) Entry }.

#[export] Instance row_eq_dec : EqDecision Row.
Proof. solve_decision. Defined.
#[export] Instance entry_status_eq_dec : EqDecision EntryStatus.
Proof. solve_decision. Defined.
#[export] Instance entry_eq_dec : EqDecision Entry.
Proof. solve_decision. Defined.

(** Column assignments. *)
Definition set_r_tags (x : gmap string string) (r : Row) : Row :=
  {| r_tenant := r_tenant r; r_expiry := r_expiry r; r_tags := x; r_spec := r_spec r;
     r_status := r_status r; r_processor := r_processor r; r_priority := r_priority r;
     r_epoch := r_epoch r; r_attempts := r_attempts r; r_resumable := r_resumable r;
     r_lease := r_lease r |}.
Definition set_r_status (x : option BatchStatusInfo) (r : Row) : Row :=
  {| r_tenant := r_tenant r; r_expiry := r_expiry r; r_tags := r_tags r; r_spec := r_spec r;
     r_status := x; r_processor := r_processor r; r_priority := r_priority r;
     r_epoch := r_epoch r; r_attempts := r_attempts r; r_resumable := r_resumable r;
     r_lease := r_lease r |}.
Definition set_r_processor (x : option string) (r : Row) : Row :=
  {| r_tenant := r_tenant r; r_expiry := r_expiry r; r_tags := r_tags r; r_spec := r_spec r;
     r_status := r_status r; r_processor := x; r_priority := r_priority r;
     r_epoch := r_epoch r; r_attempts := r_attempts r; r_resumable := r_resumable r;
     r_lease := r_lease r |}.
Definition set_r_epoch (x : Z) (r : Row) : Row :=
  {| r_tenant := r_tenant r; r_expiry := r_expiry r; r_tags := r_tags r; r_spec := r_spec r;
     r_status := r_status r; r_processor := r_processor r; r_priority := r_priority r;
     r_epoch := x; r_attempts := r_attempts r; r_resumable := r_resumable r;
     r_lease := r_lease r |}.
Definition set_r_attempts (x : Z) (r : Row) : Row :=
  {| r_tenant := r_tenant r; r_expiry := r_expiry r; r_tags := r_tags r; r_spec := r_spec r;
     r_status := r_status r; r_processor := r_processor r; r_priority := r_priority r;
     r_epoch := r_epoch r; r_attempts := x; r_resumable := r_resumable r; r_lease := r_lease r |}.
Definition set_r_resumable (x : bool) (r : Row) : Row :=
  {| r_tenant := r_tenant r; r_expiry := r_expiry r; r_tags := r_tags r; r_spec := r_spec r;
     r_status := r_status r; r_processor := r_processor r; r_priority := r_priority r;
     r_epoch := r_epoch r; r_attempts := r_attempts r; r_resumable := x; r_lease := r_lease r |}.
Definition set_r_lease (x : option Z) (r : Row) : Row :=
  {| r_tenant := r_tenant r; r_expiry := r_expiry r; r_tags := r_tags r; r_spec := r_spec r;
     r_status := r_status r; r_processor := r_processor r; r_priority := r_priority r;
     r_epoch := r_epoch r; r_attempts := r_attempts r; r_resumable := r_resumable r;
     r_lease := x |}.
Definition set_e_submitted_by (x : option string) (e : Entry) : Entry :=
  {| e_ordinal := e_ordinal e; e_custom_id := e_custom_id e; e_status := e_status e;
     e_attempts := e_attempts e; e_submitted_by := x; e_result_key := e_result_key e;
     e_result_bytes := e_result_bytes e; e_result_sha256 := e_result_sha256 e;
     e_error_code := e_error_code e |}.

(** ** Conditions *)

(** [status::jsonb->>'status' = s]. *)
Definition status_is (s : BatchStatus) (r : Row) : bool :=
  match r_status r with Some d => bool_decide (Status d = s) | None => false end.

(** [nonTerminalCondition]: NULL NOT IN (...) is NULL, hence no match. *)
Definition nonTerminalCondition (r : Row) : bool :=
  match r_status r with Some d => negb (IsTerminal (Status d)) | None => false end.

Definition owner_is (processorID : string) (epoch : Z) (r : Row) : bool :=
  bool_decide (r_processor r = Some processorID) && (r_epoch r =? epoch).

Definition lease_valid (now : Z) (r : Row) : bool :=
  match r_lease r with Some t => now <? t | None => false end.
Definition lease_expired (now : Z) (r : Row) : bool :=
  match r_lease r with Some t => t <=? now | None => false end.

(** [ownerLockCTE]: the ownership fence of every entry write. *)
Definition ownerLockCTE (now : Z) (processorID : string) (epoch : Z) (r : Row) : bool :=
  owner_is processorID epoch r && lease_valid now r && r_resumable r && nonTerminalCondition r.

(** ** Helpers shared by the statements *)

(** [int64(d.Seconds())] of a Go duration in nanoseconds, then
    [NOW() + make_interval(secs => ...)]. *)
Definition duration_seconds (d : Z) : Z := Z.quot d 1000000000.
Definition lease_until (now secs : Z) : Z := now + secs * 1000000.

(** [UPDATE batch_items ... WHERE id = $1 AND g]: rows affected is 0 or 1. *)
Definition update_row (g : Row → bool) (f : Row → Row) (id : string) (db : DB) : DB * nat :=
  match items db !! id with
  | Some r => if g r then ({| items := <[id := f r]> (items db); entries := entries db |}, 1%nat)
              else (db, 0%nat)
  | None => (db, 0%nat)
  end.

Definition batch_entries (batchID : string) (db : DB) : gmap (string * string) Entry :=
  filter (λ kv, kv.1.1 = batchID) (entries db).

(** An empty Go string or a zero count is stored as NULL. *)
Definition null_string (s : string) : option string := if bool_decide (s = "") then None else Some s.
Definition null_int (z : Z) : option Z := if z =? 0 then None else Some z.

(** ** [batch_resumable.go] *)

Record ActivationEntry := {
  a_request_id : string; a_ordinal : Z; a_custom_id : string; a_status : EntryStatus;
  a_error_code : string; a_result_key : string; a_result_bytes : Z; a_result_sha256 : string }.

Record ResumableActivation := {
  ra_BatchID : string; ra_ProcessorID : string; ra_Epoch : Z; ra_LeaseTTL : Z;
  ra_Entries : list ActivationEntry }.

(** The inserted row: never dispatched, so attempts is 0 and submitted_by NULL. *)
Definition new_entry (a : ActivationEntry) : Entry :=
  {| e_ordinal := a_ordinal a; e_custom_id := a_custom_id a; e_status := a_status a;
     e_attempts := 0; e_submitted_by := None;
     e_result_key := null_string (a_result_key a); e_result_bytes := null_int (a_result_bytes a);
     e_result_sha256 := null_string (a_result_sha256 a); e_error_code := null_string (a_error_code a) |}.

Definition insert_entries (batchID : string) (es : list ActivationEntry)
    (m : gmap (string * string) Entry) : gmap (string * string) Entry :=
  foldr (λ a m, <[(batchID, a_request_id a) := new_entry a]> m) m es.

(** [candidate]: claimed by the caller, still validating, never activated. *)
Definition activation_candidate (act : ResumableActivation) (db : DB) (r : Row) : bool :=
  owner_is (ra_ProcessorID act) (ra_Epoch act) r && status_is BatchStatusValidating r
  && negb (r_resumable r) && bool_decide (batch_entries (ra_BatchID act) db = ∅).

Definition activate_row (now secs : Z) (r : Row) : Row :=
  set_r_lease (Some (lease_until now secs))
    (set_r_resumable true
      (set_r_status ((λ d, set_InProgressAt (Some (now / 1000000)) (set_Status BatchStatusInProgress d))
                       <$> r_status r) r)).

(** A duplicate request ID violates the primary key and fails the statement. *)
Definition sql_activate (now : Z) (act : ResumableActivation) (db : DB) : DB * result nat :=
  match items db !! ra_BatchID act with
  | Some r =>
      if activation_candidate act db r then
        if bool_decide (NoDup (a_request_id <$> ra_Entries act)) then
          ({| items := <[ra_BatchID act := activate_row now (duration_seconds (ra_LeaseTTL act)) r]> (items db);
              entries := insert_entries (ra_BatchID act) (ra_Entries act) (entries db) |}, Ok 1%nat)
        else (db, Err (ErrOther "unique violation"))
      else (db, Ok 0%nat)
  | None => (db, Ok 0%nat)
  end.

Definition sql_renew (now : Z) (batchID processorID : string) (epoch ttl : Z) (db : DB) : DB * nat :=
  update_row (λ r, owner_is processorID epoch r && r_resumable r && lease_valid now r
                   && nonTerminalCondition r)
             (set_r_lease (Some (lease_until now (duration_seconds ttl)))) batchID db.

Definition requeue_row (bumpAttempts : bool) (r : Row) : Row :=
  set_r_attempts (if bumpAttempts then r_attempts r + 1 else r_attempts r)
    (set_r_epoch (r_epoch r + 1) (set_r_lease None (set_r_processor None r))).

Definition sql_requeue (now : Z) (batchID processorID : string) (epoch : Z)
    (requireExpiredLease bumpAttempts : bool) (db : DB) : DB * nat :=
  update_row (λ r, owner_is processorID epoch r && r_resumable r && nonTerminalCondition r
                   && (negb requireExpiredLease || lease_expired now r))
             (requeue_row bumpAttempts) batchID db.

(** The orphaned owner becomes the submitter of in-flight entries without one. *)
Definition backfill_entry (batchID processorID : string) (k : string * string) (e : Entry) : Entry :=
  if bool_decide (k.1 = batchID) && bool_decide (e_status e = EInFlight)
     && bool_decide (e_submitted_by e = None)
  then set_e_submitted_by (Some processorID) e else e.
Definition sql_backfill_submitter (batchID processorID : string) (db : DB) : DB :=
  {| items := items db;
     entries := map_imap (λ k e, Some (backfill_entry batchID processorID k e)) (entries db) |}.

Record ResumableFinalization := {
  rf_BatchID : string; rf_ProcessorID : string; rf_Epoch : Z;
  rf_ExpectedStatus : BatchStatus; rf_Status : option BatchStatusInfo }.

Definition finalize_row (doc : BatchStatusInfo) (r : Row) : Row :=
  set_r_lease None (set_r_resumable false (set_r_status (Some doc) r)).

Definition sql_finalize (now : Z) (fin : ResumableFinalization) (doc : BatchStatusInfo) (db : DB) : DB * nat :=
  update_row (λ r, owner_is (rf_ProcessorID fin) (rf_Epoch fin) r && r_resumable r
                   && lease_valid now r && status_is (rf_ExpectedStatus fin) r)
             (finalize_row doc) (rf_BatchID fin) db.

Definition entry_open (e : Entry) : bool := negb (entry_terminal (e_status e)).

(** A fenced write of one open entry. *)
Definition update_entry (now : Z) (batchID requestID processorID : string) (epoch : Z)
    (f : Entry → Entry) (db : DB) : DB * nat :=
  match items db !! batchID with
  | Some r =>
      if ownerLockCTE now processorID epoch r then
        match entries db !! (batchID, requestID) with
        | Some e => if entry_open e
                    then ({| items := items db; entries := <[(batchID, requestID) := f e]> (entries db) |}, 1%nat)
                    else (db, 0%nat)
        | None => (db, 0%nat)
        end
      else (db, 0%nat)
  | None => (db, 0%nat)
  end.

Definition mark_entry (processorID : string) (e : Entry) : Entry :=
  {| e_ordinal := e_ordinal e; e_custom_id := e_custom_id e; e_status := EInFlight;
     e_attempts := e_attempts e + 1; e_submitted_by := Some processorID;
     e_result_key := e_result_key e; e_result_bytes := e_result_bytes e;
     e_result_sha256 := e_result_sha256 e; e_error_code := e_error_code e |}.

Definition sql_mark (now : Z) (batchID requestID processorID : string) (epoch : Z) (db : DB) : DB * nat :=
  update_entry now batchID requestID processorID epoch (mark_entry processorID) db.

Record ResumableResult := {
  rr_Status : EntryStatus; rr_ResultKey : string; rr_ResultBytes : Z;
  rr_ResultSHA256 : string; rr_ErrorCode : string }.

Definition checkpoint_entry (res : ResumableResult) (e : Entry) : Entry :=
  {| e_ordinal := e_ordinal e; e_custom_id := e_custom_id e; e_status := rr_Status res;
     e_attempts := e_attempts e; e_submitted_by := e_submitted_by e;
     e_result_key := null_string (rr_ResultKey res);
     e_result_bytes := if 0 <? rr_ResultBytes res then Some (rr_ResultBytes res) else None;
     e_result_sha256 := null_string (rr_ResultSHA256 res);
     e_error_code := null_string (rr_ErrorCode res) |}.

Definition sql_checkpoint (now : Z) (batchID requestID processorID : string) (epoch : Z)
    (res : ResumableResult) (db : DB) : DB * nat :=
  update_entry now batchID requestID processorID epoch (checkpoint_entry res) db.

(** ** [batch_queue.go] *)

Definition enqueue_row (r : Row) : Row :=
  set_r_epoch (r_epoch r + 1)
    (set_r_status (set_Status BatchStatusValidating <$> r_status r) (set_r_processor None r)).

Definition sql_enqueue (id processorID : string) (epoch : Z) (expectedStatus : BatchStatus) (db : DB) : DB * nat :=
  update_row (λ r, owner_is processorID epoch r && status_is expectedStatus r
                   && negb (r_resumable r) && nonTerminalCondition r) enqueue_row id db.

(** Unclaimed rows of either queue class; [secs] is the lease in seconds. *)
Definition claimable (secs : Z) (r : Row) : bool :=
  bool_decide (r_processor r = None) &&
  ((negb (r_resumable r) && status_is BatchStatusValidating r)
   || (r_resumable r && (0 <? secs) && nonTerminalCondition r)).

(** [ORDER BY priority ASC], NULLs last. *)
Definition priority_le (a b : string * Row) : Prop :=
  match r_priority a.2, r_priority b.2 with
  | Some x, Some y => x ≤ y
  | None, Some _ => False
  | _, None => True
  end.
#[export] Instance priority_le_dec : RelDecision priority_le.
Proof.
  intros a b. unfold priority_le.
  destruct (r_priority a.2), (r_priority b.2); apply _.
Defined.

(** [FOR UPDATE SKIP LOCKED]: rows locked by a concurrent transaction are
    passed over. *)
Definition dequeue_candidates (locked : gset string) (secs : Z) (db : DB) : list (string * Row) :=
  merge_sort priority_le
    (filter (λ kr, kr.1 ∉ locked ∧ claimable secs kr.2 = true) (map_to_list (items db))).
Definition dequeue_chosen (locked : gset string) (secs : Z) (maxItems : nat) (db : DB) : list string :=
  fst <$> take maxItems (dequeue_candidates locked secs db).

Definition claim_row (now secs : Z) (processorID : string) (r : Row) : Row :=
  set_r_lease (if r_resumable r then Some (lease_until now secs) else None)
    (set_r_attempts (if r_resumable r then r_attempts r else 0)
      (set_r_epoch (r_epoch r + 1) (set_r_processor (Some processorID) r))).

(** [UPDATE ... RETURNING]: the affected rows, with their new values.  SQL
    leaves their order open; they are listed in the order they were chosen, and
    no theorem depends on it. *)
Definition update_rows (sel : string → Row → bool) (f : Row → Row) (db : DB) : DB :=
  {| items := map_imap (λ id r, Some (if sel id r then f r else r)) (items db); entries := entries db |}.

Definition sql_dequeue (now : Z) (locked : gset string) (secs : Z) (processorID : string)
    (maxItems : nat) (db : DB) : DB * list (string * Row) :=
  let chosen := dequeue_chosen locked secs maxItems db in
  let db' := update_rows (λ id _, bool_decide (id ∈ chosen)) (claim_row now secs processorID) db in
  (db', omap (λ id, (λ r, (id, r)) <$> items db' !! id) chosen).

Definition claim_owned_row (r : Row) : Row :=
  set_r_attempts (r_attempts r + 1) (set_r_epoch (r_epoch r + 1) r).
Definition owned_nonterminal (processorID : string) (r : Row) : bool :=
  bool_decide (r_processor r = Some processorID) && nonTerminalCondition r.

Definition sql_claim_owned (processorID : string) (db : DB) : DB * list (string * Row) :=
  (update_rows (λ _, owned_nonterminal processorID) claim_owned_row db,
   (λ kr, (kr.1, claim_owned_row kr.2)) <$>
     (filter (λ kr, owned_nonterminal processorID kr.2 = true) (map_to_list (items db)))).

Definition cancel_queued_row (nowSec : Z) (r : Row) : Row :=
  set_r_epoch (r_epoch r + 1)
    (set_r_status ((λ d, set_CancelledAt (Some nowSec) (set_Status BatchStatusCancelled d))
                     <$> r_status r) r).
Definition queued (r : Row) : bool :=
  bool_decide (r_processor r = None) && negb (r_resumable r) && status_is BatchStatusValidating r.

Definition sql_pqdelete (locked : gset string) (nowSec : Z) (id : string) (db : DB) : DB * nat :=
  if bool_decide (id ∈ locked) then (db, 0%nat)
  else update_row queued (cancel_queued_row nowSec) id db.

(** ** [db_core.go], [batch_db.go] *)

(** INSERT: an existing primary key fails the statement. *)
Definition sql_insert (id : string) (r : Row) (db : DB) : DB * result unit :=
  match items db !! id with
  | Some _ => (db, Err (ErrOther "unique violation"))
  | None => ({| items := <[id := r]> (items db); entries := entries db |}, Ok tt)
  end.

(** The dynamic UPDATE of [pgCore.update] as [DBUpdate] uses it. *)
Record UpdateConditions := {
  uc_status : option BatchStatusInfo; uc_epoch : option Z; uc_resumable : option bool }.
Definition update_guard (c : UpdateConditions) (r : Row) : bool :=
  match uc_status c with Some d => bool_decide (r_status r = Some d) | None => true end
  && match uc_epoch c with Some e => r_epoch r =? e | None => true end
  && match uc_resumable c with Some b => bool_decide (r_resumable r = b) | None => true end.
Definition update_set (status : option BatchStatusInfo) (tags : gmap string string) (bumpEpoch : bool)
    (r : Row) : Row :=
  let r1 := match status with Some d => set_r_status (Some d) r | None => r end in
  let r2 := if bool_decide (tags = ∅) then r1 else set_r_tags tags r1 in
  if bumpEpoch then set_r_epoch (r_epoch r2 + 1) r2 else r2.
Definition sql_update (id : string) (status : option BatchStatusInfo) (tags : gmap string string)
    (c : UpdateConditions) (bumpEpoch : bool) (db : DB) : DB * nat :=
  update_row (update_guard c) (update_set status tags bumpEpoch) id db.

(** DELETE with the cascade of the [batch_entries] foreign key. *)
Definition sql_delete (ids : list string) (db : DB) : DB * list string :=
  ({| items := filter (λ kr, kr.1 ∉ ids) (items db);
      entries := filter (λ ke, ke.1.1 ∉ ids) (entries db) |},
   (filter (λ id, is_Some (items db !! id)) (remove_dups ids))).

Definition sql_progress (id : string) (epoch : Z) (counts : BatchRequestCounts) (db : DB) : DB * nat :=
  update_row (λ r, nonTerminalCondition r && (r_epoch r =? epoch))
             (λ r, set_r_status (set_RequestCounts counts <$> r_status r) r) id db.

(** The data migration of [batch_schema.sql], run by [ensureSchema] whenever a
    client is constructed.  A malformed tag fails the cast and with it the
    whole script. *)
Definition parse_bigint (s : string) : option Z :=
  match chars s with
  | [] => None
  | cs => match Duration.leadingInt 0 cs with
          | Some (x, []) => if x <? 2 ^ 63 then Some x else None
          | _ => None
          end
  end.
Definition migrate_owner (r : Row) : Row :=
  if bool_decide (r_processor r = None) && negb (r_resumable r)
     && (status_is BatchStatusInProgress r || status_is BatchStatusFinalizing r
         || status_is BatchStatusCancelling r)
  then set_r_processor (Some "pre-migration") r else r.
Definition set_r_priority (x : option Z) (r : Row) : Row :=
  {| r_tenant := r_tenant r; r_expiry := r_expiry r; r_tags := r_tags r; r_spec := r_spec r;
     r_status := r_status r; r_processor := r_processor r; r_priority := x; r_epoch := r_epoch r;
     r_attempts := r_attempts r; r_resumable := r_resumable r; r_lease := r_lease r |}.
Definition migrate_priority (r : Row) : option Row :=
  match r_priority r, r_tags r !! "slo_unix_micro" with
  | None, Some t => (λ p, set_r_priority (Some p) r) <$> parse_bigint t
  | _, _ => Some r
  end.
Definition sql_migrate (db : DB) : DB * result unit :=
  if bool_decide (map_Forall (λ _ r, is_Some (migrate_priority r)) (items db)) then
    ({| items := map_imap (λ _ r, migrate_owner <$> migrate_priority r) (items db);
        entries := entries db |}, Ok tt)
  else (db, Err (ErrOther "invalid input syntax for type bigint")).
