(* ===== verification/StoreOps.v ===== *)
(** * The PostgreSQL clients' methods

    The Go methods of [PostgresResumableStore], [PostgresBatchQueueClient] and
    [PostgresBatchDBClient] that read or write the tables of [Store]: argument
    checks, the statement, and the interpretation of the affected-row count.

    Every call to the pgx pool may fail: a [net] value says whether the
    statement's response arrived, and if not whether the statement had been
    committed before the response was lost. *)

From Stdlib Require Import ZArith Lia.
From stdpp Require Import base gmap strings list sorting.
From S2P Require Import Prelude Openai Store.
Local Open Scope string_scope.
Local Open Scope Z_scope.

Inductive net := NetOk | NetErr (committed : bool).

(** [c.pool.Exec] / [c.pool.Query] of one statement. *)
Definition exec {A} (n : net) (stmt : DB → DB * result A) : M DB A :=
  λ db, let '(db', a) := stmt db in
        match n with
        | NetOk => (db', a)
        | NetErr true => (db', Err ErrIO)
        | NetErr false => (db, Err ErrIO)
        end.
Definition total {A} (stmt : DB → DB * A) : DB → DB * result A :=
  λ db, let '(db', a) := stmt db in (db', Ok a).
Definition query {A} (n : net) (f : DB → A) : M DB A := exec n (λ db, (db, Ok (f db))).

(** [if result.RowsAffected() == 0 { return ErrConflict }]. *)
Definition conflict_if_zero (n : nat) : M DB unit :=
  match n with O => throw ErrConflict | S _ => ret tt end.

(** ** PostgresResumableStore *)

(** A Go nil pointer argument is [None]. *)
Definition ActivateResumableBatch (now : Z) (n : net) (activation : option ResumableActivation) : M DB unit :=
  match activation with
  | None => throw (ErrOther "nil activation")
  | Some act =>
      if bool_decide (ra_BatchID act = "") || bool_decide (ra_ProcessorID act = "")
      then throw (ErrOther "batch ID and processor ID are required")
      else if ra_LeaseTTL act <=? 0 then throw (ErrOther "lease TTL must be > 0")
      else if (length (ra_Entries act) =? 0)%nat then throw (ErrOther "empty entry set")
      else k <- exec n (sql_activate now act) ;; conflict_if_zero k
  end.

Definition RenewResumableBatchLease (now : Z) (n : net) (batchID processorID : string) (epoch ttl : Z) : M DB unit :=
  if ttl <=? 0 then throw (ErrOther "lease TTL must be > 0")
  else k <- exec n (total (sql_renew now batchID processorID epoch ttl)) ;; conflict_if_zero k.

(** Zero rows is a no-op success; the submitter is recorded in a second
    statement. *)
Definition RequeueResumableOrphan (now : Z) (n1 n2 : net) (batchID processorID : string) (epoch : Z)
    (requireExpiredLease bumpAttempts : bool) : M DB unit :=
  k <- exec n1 (total (sql_requeue now batchID processorID epoch requireExpiredLease bumpAttempts)) ;;
  match k with
  | O => ret tt
  | S _ => exec n2 (λ db, (sql_backfill_submitter batchID processorID db, Ok tt))
  end.

Definition FinalizeResumableBatch (now : Z) (n1 n2 : net) (fin : option ResumableFinalization) : M DB unit :=
  match fin with
  | None => throw (ErrOther "nil finalization")
  | Some fin =>
      if bool_decide (rf_BatchID fin = "") || bool_decide (rf_ProcessorID fin = "")
      then throw (ErrOther "batch ID and processor ID are required")
      else match rf_Status fin with
      | None => throw (ErrOther "expected and target status are required")
      | Some doc =>
          if bool_decide (rf_ExpectedStatus fin = "")
          then throw (ErrOther "expected and target status are required")
          else
            k <- exec n1 (total (sql_finalize now fin doc)) ;;
            match k with
            | S _ => ret tt
            | O =>
                (* verification read; a missing row or a NULL document is no proof *)
                committed <- query n2 (λ db, r ← items db !! rf_BatchID fin; r_status r) ;;
                if bool_decide (committed = Some doc) then ret tt else throw ErrConflict
            end
      end
  end.

(** Disambiguates a zero-row entry write.  Every query error, ErrNoRows
    included, is reported as an ownership conflict. *)
Definition entryNotUpdatable (n : net) (batchID requestID processorID : string) (epoch : Z) : M DB unit :=
  r <- try (query n (λ db,
         r ← items db !! batchID;
         if owner_is processorID epoch r then e_status <$> entries db !! (batchID, requestID) else None)) ;;
  match r with
  | Ok (Some st) => if entry_terminal st then ret tt else throw ErrConflict
  | Ok None | Err _ => throw ErrConflict
  end.

Definition MarkEntryInFlight (now : Z) (n1 n2 : net) (batchID requestID processorID : string) (epoch : Z) : M DB bool :=
  k <- exec n1 (total (sql_mark now batchID requestID processorID epoch)) ;;
  match k with
  | S _ => ret true
  | O => entryNotUpdatable n2 batchID requestID processorID epoch ;;; ret false
  end.

Definition CheckpointEntryResult (now : Z) (n1 n2 : net) (batchID requestID processorID : string) (epoch : Z)
    (res : option ResumableResult) : M DB bool :=
  match res with
  | None => throw (ErrOther "nil result")
  | Some res =>
      if negb (entry_terminal (rr_Status res)) then throw (ErrOther "status must be completed or failed")
      else
        k <- exec n1 (total (sql_checkpoint now batchID requestID processorID epoch res)) ;;
        match k with
        | S _ => ret true
        | O => entryNotUpdatable n2 batchID requestID processorID epoch ;;; ret false
        end
  end.

(** [ResumableEntry] as [scanEntryRow] builds it: NULL becomes the zero value. *)
Record ResumableEntry := {
  re_BatchID : string; re_RequestID : string; re_Ordinal : Z; re_CustomID : string;
  re_Status : EntryStatus; re_Attempts : Z; re_SubmittedBy : string;
  re_ResultKey : string; re_ResultBytes : Z; re_ResultSHA256 : string; re_ErrorCode : string }.

Definition scanEntryRow (kv : (string * string) * Entry) : ResumableEntry :=
  {| re_BatchID := kv.1.1; re_RequestID := kv.1.2; re_Ordinal := e_ordinal kv.2;
     re_CustomID := e_custom_id kv.2; re_Status := e_status kv.2; re_Attempts := e_attempts kv.2;
     re_SubmittedBy := default "" (e_submitted_by kv.2);
     re_ResultKey := default "" (e_result_key kv.2);
     re_ResultBytes := default 0 (e_result_bytes kv.2);
     re_ResultSHA256 := default "" (e_result_sha256 kv.2);
     re_ErrorCode := default "" (e_error_code kv.2) |}.

Definition ordinal_le (a b : (string * string) * Entry) : Prop := e_ordinal a.2 ≤ e_ordinal b.2.
#[export] Instance ordinal_le_dec : RelDecision ordinal_le.
Proof. unfold ordinal_le. intros a b. apply _. Defined.

(** The rows of a batch in ordinal order. *)
Definition entries_by_ordinal (batchID : string) (db : DB) : list ((string * string) * Entry) :=
  merge_sort ordinal_le (map_to_list (batch_entries batchID db)).

Definition list_page (batchID : string) (afterOrdinal : Z) (limit : nat) (db : DB) : list ResumableEntry :=
  scanEntryRow <$> take limit (filter (λ kv, afterOrdinal < e_ordinal kv.2) (entries_by_ordinal batchID db)).

Definition ListBatchEntries (n : net) (batchID : string) (afterOrdinal : Z) (limit : nat) : M DB (list ResumableEntry) :=
  if (limit =? 0)%nat then throw (ErrOther "limit must be > 0")
  else query n (list_page batchID afterOrdinal limit).

Definition FindEntryByRequestID (n : net) (batchID requestID : string) : M DB (option ResumableEntry) :=
  query n (λ db, (λ e, scanEntryRow ((batchID, requestID), e)) <$> entries db !! (batchID, requestID)).

Definition HasOpenEntryByRequest (n : net) (requestID : string) : M DB bool :=
  query n (λ db, existsb (λ kv, bool_decide (kv.1.2 = requestID) && entry_open kv.2)
                   (map_to_list (entries db))).

Record ResumableResumeState := {
  rs_Pending : Z; rs_InFlight : Z; rs_Completed : Z; rs_Failed : Z;
  rs_TerminalRequestIDs : list string; rs_InFlightSubmittedBy : gmap string string }.

Definition count_status (st : EntryStatus) (l : list ((string * string) * Entry)) : Z :=
  Z.of_nat (length (filter (λ kv, e_status kv.2 = st) l)).

(** Two queries; the submitter map is left empty. *)
Definition EntryResumeState (n1 n2 : net) (batchID : string) : M DB ResumableResumeState :=
  counts <- query n1 (λ db, let l := entries_by_ordinal batchID db in
    (count_status EPending l, count_status EInFlight l, count_status ECompleted l, count_status EFailed l)) ;;
  ids <- query n2 (λ db, (λ kv, kv.1.2) <$>
    (filter (λ kv, entry_terminal (e_status kv.2) = true) (entries_by_ordinal batchID db))) ;;
  let '(p, i, c, f) := counts in
  ret {| rs_Pending := p; rs_InFlight := i; rs_Completed := c; rs_Failed := f;
         rs_TerminalRequestIDs := ids; rs_InFlightSubmittedBy := ∅ |}.

(** ** PostgresBatchQueueClient *)

(** [BatchJobPriority]; [SLO] is [None] for the zero time, else microseconds. *)
Record BatchJobPriority := {
  bj_ID : string; bj_SLO : option Z; bj_Epoch : Z; bj_ProcessorID : string;
  bj_ExpectedStatus : string; bj_RecoveryAttempts : Z; bj_Resumable : bool }.

Definition PQEnqueue (n : net) (job : option BatchJobPriority) : M DB unit :=
  match job with
  | None => throw (ErrOther "nil job priority")
  | Some j =>
      if bool_decide (bj_ID j = "") then throw (ErrOther "empty job ID")
      else if bj_Epoch j <? 0 then throw (ErrOther "invalid epoch")
      else if bool_decide (bj_ProcessorID j = "") then throw (ErrOther "empty processor ID")
      else if bool_decide (bj_ExpectedStatus j = "") then throw (ErrOther "empty expected status")
      else k <- exec n (total (sql_enqueue (bj_ID j) (bj_ProcessorID j) (bj_Epoch j) (bj_ExpectedStatus j))) ;;
           conflict_if_zero k
  end.

(** Scanning a NULL priority into an int64 fails, after the claim committed. *)
Definition scan_claimed (processorID : string) (kr : string * Row) : option BatchJobPriority :=
  match r_priority kr.2, r_status kr.2 with
  | Some p, Some d =>
      Some {| bj_ID := kr.1; bj_SLO := Some p; bj_Epoch := r_epoch kr.2; bj_ProcessorID := processorID;
              bj_ExpectedStatus := Status d; bj_RecoveryAttempts := 0; bj_Resumable := r_resumable kr.2 |}
  | _, _ => None
  end.
Definition scan_all {A B} (f : A → option B) (l : list A) : M DB (list B) :=
  match mapM f l with Some bs => ret bs | None => throw (ErrOther "scan") end.

Definition PQDequeue (now : Z) (n : net) (locked : gset string) (processorID : string) (lease : Z)
    (maxItems : nat) : M DB (list BatchJobPriority) :=
  if bool_decide (processorID = "") then throw (ErrOther "processor ID is empty")
  else rows <- exec n (total (sql_dequeue now locked (duration_seconds lease) processorID maxItems)) ;;
       scan_all (scan_claimed processorID) rows.

Definition PQClaimOwned (n : net) (processorID : string) : M DB (list BatchJobPriority) :=
  if bool_decide (processorID = "") then throw (ErrOther "processor ID is empty")
  else rows <- exec n (total (sql_claim_owned processorID)) ;;
       ret ((λ kr : string * Row,
               {| bj_ID := kr.1; bj_SLO := Some (default 0 (r_priority kr.2)); bj_Epoch := r_epoch kr.2;
                  bj_ProcessorID := ""; bj_ExpectedStatus := "";
                  bj_RecoveryAttempts := r_attempts kr.2; bj_Resumable := r_resumable kr.2 |}) <$> rows).

Definition PQDelete (nowSec : Z) (n : net) (locked : gset string) (job : option BatchJobPriority) : M DB nat :=
  match job with
  | None => throw (ErrOther "nil job priority")
  | Some j => exec n (total (sql_pqdelete locked nowSec (bj_ID j)))
  end.

Definition PQGetIDs (n : net) : M DB (gset string) :=
  query n (λ db, dom (filter (λ kr, r_processor kr.2 = None ∧ status_is BatchStatusValidating kr.2 = true)
                        (items db))).

(** ** PostgresBatchDBClient *)

(** [BatchItem]: the row with its ID, and the two fields that only drive
    [DBUpdate]. The empty Go processor ID and the zero lease are NULL. *)
Record BatchItem := {
  bi_ID : string; bi_row : Row; bi_BumpEpoch : bool; bi_ExpectedResumable : option bool }.

Definition DBStore (n : net) (item : option BatchItem) : M DB unit :=
  match item with
  | None => throw (ErrOther "item is nil")
  | Some it => if bool_decide (bi_ID it = "") then throw (ErrOther "ID is empty")
               else exec n (sql_insert (bi_ID it) (bi_row it))
  end.

Definition DBUpdate (n : net) (item : option BatchItem) (expectedStatus : option BatchStatusInfo) : M DB unit :=
  match item with
  | None => throw (ErrOther "item is nil")
  | Some it =>
      if bool_decide (bi_ID it = "") then throw (ErrOther "ID is empty") else
      let row := bi_row it in
      let c := {| uc_status := expectedStatus;
                  uc_epoch := if (0 <? r_epoch row) || bi_BumpEpoch it then Some (r_epoch row) else None;
                  uc_resumable := bi_ExpectedResumable it |} in
      if bool_decide (r_status row = None) && bool_decide (r_tags row = ∅) then ret tt else
      k <- exec n (total (sql_update (bi_ID it) (r_status row) (r_tags row) c (bi_BumpEpoch it))) ;;
      match k with
      | S _ => ret tt
      | O => if bool_decide (uc_status c = None) && bool_decide (uc_epoch c = None)
                && bool_decide (uc_resumable c = None)
             then throw (ErrOther "item not found") else throw ErrConflict
      end
  end.

Definition DBDelete (n : net) (ids : list string) : M DB (list string) :=
  match ids with
  | [] => ret []
  | _ => exec n (total (sql_delete ids))
  end.

Definition DBUpdateProgress (n : net) (id : string) (epoch : Z) (counts : BatchRequestCounts) : M DB unit :=
  if bool_decide (id = "") then throw (ErrOther "empty ID")
  else k <- exec n (total (sql_progress id epoch counts)) ;; conflict_if_zero k.

(** [ensureSchema], run when a client is constructed. *)
Definition ensureSchema (n : net) : M DB unit := exec n sql_migrate.
