(* ===== verification/Ownership.v ===== *)
(** * Ownership and fencing over arbitrary interleavings

    Every writer of the store (processors, their zombies, the reconciler, the
    API server, the collector, a schema migration) acts through the statements
    of [Store].  [Stmt] lists them with their arguments and [run] executes one;
    a list of statements is an interleaving of any number of actors.  The
    statements are reduced to two small relations, [row_step] on a batch row
    and [entry_step] on an entry, from which the invariants follow by case
    analysis. *)

From Stdlib Require Import ZArith Lia.
From stdpp Require Import base gmap strings list sorting relations.
From S2P Require Import Prelude Openai Store StoreOps.
Local Open Scope string_scope.
Local Open Scope Z_scope.

Inductive Stmt :=
| SActivate (now : Z) (act : ResumableActivation)
| SRenew (now : Z) (batchID processorID : string) (epoch ttl : Z)
| SRequeue (now : Z) (batchID processorID : string) (epoch : Z) (expired bump : bool)
| SBackfill (batchID processorID : string)
| SFinalize (now : Z) (fin : ResumableFinalization) (doc : BatchStatusInfo)
| SMark (now : Z) (batchID requestID processorID : string) (epoch : Z)
| SCheckpoint (now : Z) (batchID requestID processorID : string) (epoch : Z) (res : ResumableResult)
| SEnqueue (id processorID : string) (epoch : Z) (expectedStatus : BatchStatus)
| SDequeue (now : Z) (locked : gset string) (secs : Z) (processorID : string) (maxItems : nat)
| SClaimOwned (processorID : string)
| SPQDelete (locked : gset string) (nowSec : Z) (id : string)
| SInsert (id : string) (r : Row)
| SUpdate (id : string) (status : option BatchStatusInfo) (tags : gmap string string)
          (c : UpdateConditions) (bumpEpoch : bool)
| SDelete (ids : list string)
| SProgress (id : string) (epoch : Z) (counts : BatchRequestCounts)
| SMigrate.

Definition run (s : Stmt) (db : DB) : DB :=
  match s with
  | SActivate now act => (sql_activate now act db).1
  | SRenew now b p e ttl => (sql_renew now b p e ttl db).1
  | SRequeue now b p e x u => (sql_requeue now b p e x u db).1
  | SBackfill b p => sql_backfill_submitter b p db
  | SFinalize now fin doc => (sql_finalize now fin doc db).1
  | SMark now b q p e => (sql_mark now b q p e db).1
  | SCheckpoint now b q p e res => (sql_checkpoint now b q p e res db).1
  | SEnqueue i p e st => (sql_enqueue i p e st db).1
  | SDequeue now l secs p m => (sql_dequeue now l secs p m db).1
  | SClaimOwned p => (sql_claim_owned p db).1
  | SPQDelete l now i => (sql_pqdelete l now i db).1
  | SInsert i r => (sql_insert i r db).1
  | SUpdate i st tags c b => (sql_update i st tags c b db).1
  | SDelete ids => (sql_delete ids db).1
  | SProgress i e c => (sql_progress i e c db).1
  | SMigrate => (sql_migrate db).1
  end.

Definition run_all (ss : list Stmt) (db : DB) : DB := foldl (λ d s, run s d) db ss.

(** The lease columns are consistent: only activated rows carry a lease, and
    an activated row has a lease exactly when it has an owner. *)
Definition row_wf (r : Row) : Prop :=
  match r_resumable r with
  | false => r_lease r = None
  | true => is_Some (r_processor r) ↔ is_Some (r_lease r)
  end.

(** What the Go callers guarantee of the arguments: only terminal results are
    checkpointed ([CheckpointEntryResult]'s guard), inserted rows are fresh
    batches, an activation seeds pending and rejected (failed) entries, and a finalization goes from a non-terminal status to a terminal
    one. *)
Definition admissible (s : Stmt) : Prop :=
  match s with
  | SCheckpoint _ _ _ _ _ res => entry_terminal (rr_Status res) = true
  | SInsert _ r => row_wf r
  | SActivate _ act => Forall (λ a, a_status a = EPending ∨ a_status a = EFailed) (ra_Entries act)
  | SFinalize _ fin doc => IsTerminal (rf_ExpectedStatus fin) = false ∧ IsTerminal (Status doc) = true
  | _ => True
  end.

(** The statement does not remove batch [id]. *)
Definition keeps (id : string) (s : Stmt) : Prop :=
  match s with SDelete ids => id ∉ ids | _ => True end.
#[export] Instance keeps_dec id s : Decision (keeps id s).
Proof. destruct s; simpl; apply _. Defined.

(** ** Row transitions *)
Inductive row_step : Row → Row → Prop :=
| rs_activate now secs p r :
    r_processor r = Some p → status_is BatchStatusValidating r = true → r_resumable r = false →
    row_step r (activate_row now secs r)
| rs_renew t p r :
    r_processor r = Some p → r_resumable r = true → nonTerminalCondition r = true →
    row_step r (set_r_lease (Some t) r)
| rs_requeue bump p r :
    r_processor r = Some p → r_resumable r = true → nonTerminalCondition r = true →
    row_step r (requeue_row bump r)
| rs_finalize doc now p r :
    r_processor r = Some p → r_resumable r = true → lease_valid now r = true →
    nonTerminalCondition r = true → IsTerminal (Status doc) = true →
    row_step r (finalize_row doc r)
| rs_enqueue p r :
    r_processor r = Some p → r_resumable r = false → nonTerminalCondition r = true →
    row_step r (enqueue_row r)
| rs_claim now secs p r :
    claimable secs r = true → row_step r (claim_row now secs p r)
| rs_claim_owned p r :
    owned_nonterminal p r = true → row_step r (claim_owned_row r)
| rs_cancel_queued now r :
    queued r = true → row_step r (cancel_queued_row now r)
| rs_update st tags c bump r :
    update_guard c r = true → row_step r (update_set st tags bump r)
| rs_progress counts r :
    nonTerminalCondition r = true →
    row_step r (set_r_status (set_RequestCounts counts <$> r_status r) r)
| rs_migrate r r1 :
    migrate_priority r = Some r1 → row_step r (migrate_owner r1).

(** ** Entry transitions *)
Inductive entry_step : Entry → Entry → Prop :=
| es_mark p e : entry_open e = true → entry_step e (mark_entry p e)
| es_checkpoint res e :
    entry_open e = true → entry_terminal (rr_Status res) = true → entry_step e (checkpoint_entry res e)
| es_backfill p e :
    e_status e = EInFlight → e_submitted_by e = None → entry_step e (set_e_submitted_by (Some p) e).

#[export] Hint Constructors row_step entry_step : gateway.

Lemma update_row_items g f id db k r r' :
  items db !! k = Some r → items (update_row g f id db).1 !! k = Some r' →
  r' = r ∨ (k = id ∧ g r = true ∧ r' = f r).
Proof.
  unfold update_row. intros Hk.
  destruct (items db !! id) as [x|] eqn:Hid; [|simpl; intros; left; congruence].
  destruct (g x) eqn:Hg; simpl; [|intros; left; congruence].
  rewrite lookup_insert. case_decide as Hd; [subst|intros; left; congruence].
  intros [= <-]. right. simplify_eq. auto.
Qed.

Lemma update_row_entries g f id db : entries (update_row g f id db).1 = entries db.
Proof. unfold update_row. by repeat destruct_match. Qed.

Lemma update_row_none g f id db k :
  items db !! k = None → items (update_row g f id db).1 !! k = None.
Proof.
  unfold update_row. intros Hk. destruct (items db !! id) as [x|] eqn:Hid; [|done].
  destruct (g x); simpl; [|done]. rewrite lookup_insert_ne; [done|congruence].
Qed.

Lemma update_entry_items now b q p e f db : items (update_entry now b q p e f db).1 = items db.
Proof. unfold update_entry. by repeat destruct_match. Qed.

Lemma update_rows_lookup sel f db k :
  items (update_rows sel f db) !! k = (λ r, if sel k r then f r else r) <$> items db !! k.
Proof. unfold update_rows; simpl. rewrite map_lookup_imap. by destruct (items db !! k). Qed.

Lemma sql_dequeue_lookup now locked secs p m db k :
  items (sql_dequeue now locked secs p m db).1 !! k =
  (λ r, if bool_decide (k ∈ dequeue_chosen locked secs m db) then claim_row now secs p r else r)
    <$> items db !! k.
Proof. unfold sql_dequeue. cbn [fst]. by rewrite update_rows_lookup. Qed.

Lemma sql_claim_owned_lookup p db k :
  items (sql_claim_owned p db).1 !! k =
  (λ r, if owned_nonterminal p r then claim_owned_row r else r) <$> items db !! k.
Proof. unfold sql_claim_owned. cbn [fst]. by rewrite update_rows_lookup. Qed.
#[export] Hint Rewrite update_row_entries update_entry_items update_rows_lookup : gateway_rw.

(** A chosen row satisfies the queue condition. *)
Lemma dequeue_chosen_claimable locked secs m db id :
  id ∈ dequeue_chosen locked secs m db → ∃ r, items db !! id = Some r ∧ claimable secs r = true ∧ id ∉ locked.
Proof.
  unfold dequeue_chosen. intros ([k r] & -> & Hin)%list_elem_of_fmap.
  apply elem_of_take in Hin as (i & Hi & _).
  apply list_elem_of_lookup_2 in Hi. unfold dequeue_candidates in Hi.
  rewrite merge_sort_Permutation in Hi.
  apply list_elem_of_filter in Hi as [[? ?] Hm]. apply elem_of_map_to_list in Hm. eauto.
Qed.

(** ** Every statement is a row step on each batch it keeps *)
Lemma status_is_nonterminal st r :
  status_is st r = true → IsTerminal st = false → nonTerminalCondition r = true.
Proof.
  unfold status_is, nonTerminalCondition. destruct (r_status r); [|done].
  intros ?%bool_decide_eq_true ?. subst. by apply negb_true_iff.
Qed.

Lemma run_row s db k r r' :
  admissible s → items db !! k = Some r → items (run s db) !! k = Some r' → r' = r ∨ row_step r r'.
Proof.
  intros Hadm Hk. destruct s; cbn [run admissible] in *.
  all: try (intros H; apply (update_row_items _ _ _ _ _ _ _ Hk) in H as [->|(-> & Hg & ->)]; [by left|right];
            unfold owner_is in *; boolify; destruct_and?; by eauto using status_is_nonterminal with gateway).
  - unfold sql_activate. destruct (items db !! ra_BatchID act) as [x|] eqn:Hx; simpl; [|intros; left; congruence].
    destruct (activation_candidate act db x) eqn:Hc; simpl; [|intros; left; congruence].
    case_bool_decide; simpl; [|intros; left; congruence].
    rewrite lookup_insert. case_decide; subst; [|intros; left; congruence].
    intros [= <-]. right. simplify_eq. unfold activation_candidate, owner_is in Hc. boolify.
    eauto with gateway.
  - simpl. intros. left; congruence.
  - unfold sql_mark. rewrite update_entry_items. intros; left; congruence.
  - unfold sql_checkpoint. rewrite update_entry_items. intros; left; congruence.
  - rewrite sql_dequeue_lookup, Hk; simpl. intros [= <-].
    case_bool_decide as Hin; [right|by left].
    apply dequeue_chosen_claimable in Hin as (x & Hx & Hc & _). simplify_eq. by constructor.
  - rewrite sql_claim_owned_lookup, Hk; simpl. intros [= <-].
    destruct (owned_nonterminal processorID r) eqn:Ho; [right|by left]. by econstructor.
  - unfold sql_pqdelete. case_bool_decide; [simpl; intros; left; congruence|].
    intros Hq; apply (update_row_items _ _ _ _ _ _ _ Hk) in Hq as [->|(-> & Hg & ->)]; [by left|right].
    by constructor.
  - unfold sql_insert. destruct (items db !! id) eqn:Hid; simpl; [intros; left; congruence|].
    rewrite lookup_insert_ne by congruence. intros; left; congruence.
  - unfold sql_delete. cbn [fst items entries]. rewrite map_lookup_filter_Some. intros [? _]. left; congruence.
  - unfold sql_migrate. case_bool_decide; simpl; [|intros; left; congruence].
    rewrite map_lookup_imap, Hk. simpl. destruct (migrate_priority r) as [r1|] eqn:Hm; simpl; [|done].
    intros [= <-]. right. by constructor.
Qed.

(** The sequence of statements without a deletion of [k] keeps row [k]. *)
Lemma run_keeps s db k :
  keeps k s → is_Some (items db !! k) → is_Some (items (run s db) !! k).
Proof.
  intros Hkeep [r Hk].
  assert (Hupd : ∀ g f id, is_Some (items (update_row g f id db).1 !! k)).
  { intros g f id. unfold update_row. destruct (items db !! id) as [x|] eqn:Hid; [|by eauto].
    destruct (g x); simpl; [|by eauto]. rewrite lookup_insert. case_decide; eauto. }
  destruct s; cbn [run]; eauto.
  - unfold sql_activate. repeat destruct_match; simpl; rewrite ?lookup_insert; try case_decide; eauto.
  - unfold sql_mark. rewrite update_entry_items; eauto.
  - unfold sql_checkpoint. rewrite update_entry_items; eauto.
  - rewrite sql_dequeue_lookup, Hk. simpl; eauto.
  - rewrite sql_claim_owned_lookup, Hk. simpl; eauto.
  - unfold sql_pqdelete. case_bool_decide; eauto.
  - unfold sql_insert. destruct (items db !! id) eqn:?; simpl; rewrite ?lookup_insert; try case_decide; eauto.
  - exists r. by apply map_lookup_filter_Some.
  - unfold sql_migrate. case_bool_decide as Hall; simpl; eauto.
    rewrite map_lookup_imap, Hk. simpl. destruct (Hall _ _ Hk) as [r1 ->]. eauto.
Qed.

(** ** Every statement is an entry step on each entry it keeps *)
Lemma insert_entries_other b es m k :
  k.1 ≠ b → insert_entries b es m !! k = m !! k.
Proof.
  intros Hne. unfold insert_entries. induction es as [|a es IH]; simpl; [done|].
  rewrite lookup_insert_ne; [done|]. intros <-. by apply Hne.
Qed.

Lemma batch_entries_empty b db k : batch_entries b db = ∅ → k.1 = b → entries db !! k = None.
Proof.
  intros He Hb. destruct (entries db !! k) as [e|] eqn:Hk; [|done].
  assert (batch_entries b db !! k = Some e) as H by by apply map_lookup_filter_Some.
  rewrite He in H. by apply lookup_empty_Some in H.
Qed.

Lemma update_entry_lookup now b q p e f db k x x' :
  entries db !! k = Some x → entries (update_entry now b q p e f db).1 !! k = Some x' →
  x' = x ∨ (k = (b, q) ∧ entry_open x = true ∧ x' = f x).
Proof.
  intros Hk. unfold update_entry.
  repeat destruct_match; simpl; try (intros; left; congruence).
  rewrite lookup_insert. case_decide; subst; [|intros; left; congruence].
  intros [= <-]. right. simplify_eq. auto.
Qed.

Lemma run_entry s db k e e' :
  admissible s → entries db !! k = Some e → entries (run s db) !! k = Some e' →
  e' = e ∨ entry_step e e'.
Proof.
  intros Hadm Hk. destruct s; cbn [run admissible] in *.
  all: try (unfold sql_renew, sql_requeue, sql_finalize, sql_enqueue, sql_update, sql_progress;
            rewrite update_row_entries; intros; left; congruence).
  all: try (intros; left; congruence).
  - unfold sql_activate. destruct (items db !! ra_BatchID act) as [x|] eqn:Hx; simpl; [|intros; left; congruence].
    destruct (activation_candidate act db x) eqn:Hc; simpl; [|intros; left; congruence].
    case_bool_decide; simpl; [|intros; left; congruence].
    unfold activation_candidate in Hc. boolify.
    destruct (decide (k.1 = ra_BatchID act)) as [Heq|Hne].
    + exfalso. by rewrite (batch_entries_empty (ra_BatchID act) db k) in Hk.
    + rewrite insert_entries_other by done. intros; left; congruence.
  - unfold sql_backfill_submitter. cbn [entries]. rewrite map_lookup_imap, Hk. simpl. intros [= <-]. unfold backfill_entry.
    destruct (_ && _) eqn:Hb; [right|by left]. boolify. by constructor.
  - intros H. apply (update_entry_lookup _ _ _ _ _ _ _ _ _ _ Hk) in H as [->|(-> & Ho & ->)]; [by left|right].
    by constructor.
  - intros H. apply (update_entry_lookup _ _ _ _ _ _ _ _ _ _ Hk) in H as [->|(-> & Ho & ->)]; [by left|right].
    by constructor.
  - change (entries db !! k = Some e' → e' = e ∨ entry_step e e'). intros; left; congruence.
  - change (entries db !! k = Some e' → e' = e ∨ entry_step e e'). intros; left; congruence.
  - unfold sql_pqdelete. case_bool_decide; simpl; rewrite ?update_row_entries; intros; left; congruence.
  - unfold sql_insert. destruct_match; simpl; intros; left; congruence.
  - unfold sql_delete. cbn [fst items entries]. rewrite map_lookup_filter_Some. intros [? _]. left; congruence.
  - unfold sql_migrate. case_bool_decide; simpl; intros; left; congruence.
Qed.

(** ** Row invariants *)

Ltac row_cases H := destruct H; unfold activate_row, requeue_row, finalize_row, enqueue_row, claim_row,
  claim_owned_row, cancel_queued_row, update_set, migrate_owner, claimable, owned_nonterminal, queued,
  owner_is in *; boolify.

Lemma migrate_priority_fields r r1 :
  migrate_priority r = Some r1 →
  r_epoch r1 = r_epoch r ∧ r_processor r1 = r_processor r ∧ r_resumable r1 = r_resumable r ∧
  r_lease r1 = r_lease r ∧ r_status r1 = r_status r ∧ r_attempts r1 = r_attempts r.
Proof.
  unfold migrate_priority. intros H.
  destruct (r_priority r); [by simplify_eq|].
  destruct (r_tags r !! _) as [t|]; [|by simplify_eq].
  destruct (parse_bigint t); by simplify_eq/=.
Qed.

Lemma update_set_fields st tags bump r :
  r_processor (update_set st tags bump r) = r_processor r ∧
  r_resumable (update_set st tags bump r) = r_resumable r ∧
  r_lease (update_set st tags bump r) = r_lease r ∧
  r_epoch (update_set st tags bump r) = r_epoch r + (if bump then 1 else 0).
Proof. unfold update_set. destruct st, (bool_decide (tags = ∅)), bump; simpl; repeat split; lia. Qed.

Lemma row_step_epoch r r' : row_step r r' → r_epoch r ≤ r_epoch r'.
Proof.
  intros H. destruct H; simpl; try lia.
  - unfold update_set. destruct st, (bool_decide (tags = ∅)), bump; simpl; lia.
  - destruct (migrate_priority_fields _ _ H) as [He _]. unfold migrate_owner. destruct_match; simpl; lia.
Qed.

(** A row that had an owner changes hands only with a larger epoch. *)
Lemma row_step_owner r r' p :
  row_step r r' → r_processor r = Some p → r_processor r' ≠ Some p → r_epoch r < r_epoch r'.
Proof.
  intros H Hp Hne. destruct H; simpl in *; try lia; try congruence.
  - destruct (update_set_fields st tags bump r) as (? & _). congruence.
  - destruct (migrate_priority_fields _ _ H) as (? & Hp1 & _). exfalso. apply Hne.
    unfold migrate_owner. rewrite Hp1, Hp. rewrite bool_decide_eq_false_2 by done. simpl. by rewrite Hp1.
Qed.

Lemma row_step_wf r r' : row_step r r' → row_wf r → row_wf r'.
Proof.
  intros H Hwf. destruct H; unfold row_wf in *; simpl in *.
  - split; eauto.
  - rewrite H0 in *. split; eauto.
  - rewrite H0 in *. split; intros [? [=]].
  - done.
  - by rewrite H0 in *.
  - unfold claimable in H. destruct (r_resumable r); [split; eauto|done].
  - done.
  - done.
  - destruct (update_set_fields st tags bump r) as (-> & -> & -> & _). done.
  - done.
  - destruct (migrate_priority_fields _ _ H) as (_ & Hp & Hr & Hl & _).
    unfold migrate_owner. destruct (_ && _) eqn:Hc; simpl; rewrite ?Hr, ?Hl, ?Hp in *; [|done].
    boolify. rewrite H2 in *. done.
Qed.

(** A terminal document is only touched by an explicit update or a migration. *)
Definition terminal_row (r : Row) : Prop := ∃ d, r_status r = Some d ∧ IsTerminal (Status d) = true.

Lemma terminal_row_conds r :
  terminal_row r →
  nonTerminalCondition r = false ∧ status_is BatchStatusValidating r = false.
Proof.
  intros (d & Hd & Ht). unfold nonTerminalCondition, status_is. rewrite Hd, Ht. split; [done|].
  apply bool_decide_eq_false. intros Hs. by rewrite Hs in Ht.
Qed.

Lemma row_step_terminal r r' :
  row_step r r' → terminal_row r →
  (∃ st tags c bump, update_guard c r = true ∧ r' = update_set st tags bump r)
  ∨ (∃ r1, migrate_priority r = Some r1 ∧ r' = migrate_owner r1).
Proof.
  intros H (Hn & Hv)%terminal_row_conds. destruct H; try congruence; eauto 10.
  - unfold claimable in H. rewrite Hn, Hv in H. destruct (r_resumable r); simpl in H;
      rewrite ?andb_false_r in H; done.
  - unfold owned_nonterminal in H. rewrite Hn, andb_false_r in H. done.
  - unfold queued in H. rewrite Hv, andb_false_r in H. done.
Qed.

(** ** Entry invariants *)

Lemma entry_step_terminal e e' : entry_step e e' → entry_terminal (e_status e) = false.
Proof.
  intros H. destruct H; unfold entry_open in *; boolify; try done. by rewrite H.
Qed.

(** Identity and the dispatch counter. *)
Lemma entry_step_identity e e' :
  entry_step e e' →
  e_ordinal e' = e_ordinal e ∧ e_custom_id e' = e_custom_id e ∧ e_attempts e ≤ e_attempts e'.
Proof. intros H. destruct H; simpl; repeat split; lia. Qed.

(** ** Interleavings *)

Lemma run_all_app ss1 ss2 db : run_all (ss1 ++ ss2) db = run_all ss2 (run_all ss1 db).
Proof. unfold run_all. by rewrite foldl_app. Qed.

(** A reflexive and transitive relation kept by every statement on row [id] is
    kept by every interleaving. *)
Lemma run_all_row (R : Row → Row → Prop) ss db id r r' :
  (∀ x, R x x) → (∀ x y z, R x y → R y z → R x z) →
  (∀ r r', row_step r r' → R r r') →
  Forall admissible ss → Forall (keeps id) ss →
  items db !! id = Some r → items (run_all ss db) !! id = Some r' → R r r'.
Proof.
  intros Hrefl Htrans Hstep. revert db r. induction ss as [|s ss IH]; intros db r Ha Hk Hr Hr'; simpl in *.
  { by simplify_eq. }
  inv Ha. inv Hk.
  destruct (run_keeps s db id) as [r1 Hr1]; [done|by eauto|].
  apply (Htrans r r1); [|by eauto].
  edestruct (run_row s db id r r1) as [->|]; eauto.
Qed.

Lemma run_all_keeps ss db id :
  Forall (keeps id) ss → is_Some (items db !! id) → is_Some (items (run_all ss db) !! id).
Proof.
  revert db. induction ss as [|s ss IH]; intros db Hk Hr; simpl; [done|].
  inv Hk. apply IH; [done|]. by apply run_keeps.
Qed.

Lemma run_entry_keeps s db k :
  keeps k.1 s → is_Some (entries db !! k) → is_Some (entries (run s db) !! k).
Proof.
  intros Hkeep [e Hk].
  assert (Hupd : ∀ g f id, is_Some (entries (update_row g f id db).1 !! k)).
  { intros. rewrite update_row_entries. eauto. }
  assert (Hue : ∀ now b q p x f, is_Some (entries (update_entry now b q p x f db).1 !! k)).
  { intros. unfold update_entry. repeat destruct_match; simpl; rewrite ?lookup_insert;
      try case_decide; eauto. }
  destruct s; cbn [run]; eauto.
  - unfold sql_activate. destruct (items db !! _) as [x|]; simpl; [|by eauto].
    destruct (activation_candidate act db x) eqn:Hc; simpl; [|by eauto].
    case_bool_decide; simpl; [|by eauto].
    unfold activation_candidate in Hc. boolify.
    rewrite insert_entries_other; [by eauto|]. intros Hb.
    by rewrite (batch_entries_empty (ra_BatchID act) db k) in Hk.
  - unfold sql_backfill_submitter. cbn [entries]. rewrite map_lookup_imap, Hk. simpl. eauto.
  - unfold sql_pqdelete. case_bool_decide; eauto.
  - unfold sql_insert. destruct_match; simpl; eauto.
  - exists e. by apply map_lookup_filter_Some.
  - unfold sql_migrate. case_bool_decide; simpl; eauto.
Qed.

Lemma run_all_entry (R : Entry → Entry → Prop) ss db k e :
  (∀ x, R x x) → (∀ x y z, R x y → R y z → R x z) →
  (∀ e e', entry_step e e' → R e e') →
  Forall admissible ss → Forall (keeps k.1) ss →
  entries db !! k = Some e → ∃ e', entries (run_all ss db) !! k = Some e' ∧ R e e'.
Proof.
  intros Hrefl Htrans Hstep. revert db e. induction ss as [|s ss IH]; intros db e Ha Hk He; simpl in *; [by eauto|].
  inv Ha. inv Hk.
  destruct (run_entry_keeps s db k) as [e1 He1]; [done|by eauto|].
  destruct (IH (run s db) e1) as (e2 & ? & ?); [done..|].
  exists e2. split; [done|]. apply (Htrans e e1); [|done].
  edestruct (run_entry s db k e e1) as [->|]; eauto.
Qed.

(** ** The invariant of the two tables *)

(** An in-flight entry was dispatched at least once and knows its submitter. *)
Definition entry_wf (e : Entry) : Prop :=
  0 ≤ e_attempts e ∧ (e_status e = EInFlight → 1 ≤ e_attempts e ∧ is_Some (e_submitted_by e)).

Definition db_wf (db : DB) : Prop :=
  (∀ id r, items db !! id = Some r → row_wf r) ∧
  (∀ k e, entries db !! k = Some e → entry_wf e ∧ is_Some (items db !! k.1)).

Definition empty_db : DB := {| items := ∅; entries := ∅ |}.

Lemma entry_step_wf e e' : entry_step e e' → entry_wf e → entry_wf e'.
Proof.
  intros H [Ha Hf]. destruct H; unfold entry_wf; simpl; split; try lia; try done.
  - intros _. split; [lia|by eauto].
  - intros Hs. by rewrite Hs in H0.
  - intros Hs. destruct (Hf Hs). split; [lia|by eauto].
Qed.

Lemma new_entry_wf a : a_status a = EPending ∨ a_status a = EFailed → entry_wf (new_entry a).
Proof. intros Hs. split; simpl; [lia|]. intros H. destruct Hs; congruence. Qed.

(** New rows and entries only come from an insert and an activation. *)
Lemma run_new_row s db k r :
  admissible s → items db !! k = None → items (run s db) !! k = Some r → row_wf r.
Proof.
  intros Ha Hk. destruct s; cbn [run admissible] in *.
  all: try (unfold sql_renew, sql_requeue, sql_finalize, sql_enqueue, sql_update, sql_progress;
            intros H; rewrite update_row_none in H by done; done).
  - unfold sql_activate. repeat destruct_match; simpl; rewrite ?lookup_insert; try case_decide; naive_solver.
  - simpl. congruence.
  - unfold sql_mark. rewrite update_entry_items. naive_solver.
  - unfold sql_checkpoint. rewrite update_entry_items. naive_solver.
  - rewrite sql_dequeue_lookup, Hk. naive_solver.
  - rewrite sql_claim_owned_lookup, Hk. naive_solver.
  - unfold sql_pqdelete. case_bool_decide; [simpl; congruence|]. intros Hq. by rewrite update_row_none in Hq.
  - unfold sql_insert. destruct (items db !! id); simpl; [naive_solver|].
    rewrite lookup_insert. case_decide; naive_solver.
  - unfold sql_delete. cbn [fst items]. rewrite map_lookup_filter_Some. intros [? _]; congruence.
  - unfold sql_migrate. case_bool_decide; simpl; [|naive_solver]. rewrite map_lookup_imap, Hk. naive_solver.
Qed.

Lemma insert_entries_lookup b es m k e :
  insert_entries b es m !! k = Some e →
  m !! k = Some e ∨ ∃ a, a ∈ es ∧ k = (b, a_request_id a) ∧ e = new_entry a.
Proof.
  unfold insert_entries. induction es as [|a es IH]; simpl; [by left|].
  rewrite lookup_insert. case_decide; subst.
  - intros [= <-]. right. exists a. split; [left|done].
  - intros [?|(x & ? & ?)]%IH; [by left|]. right. exists x. split; [by right|done].
Qed.

(** Entries are created by activations only. *)
Lemma run_entry_origin s db k e :
  entries db !! k = None → entries (run s db) !! k = Some e →
  ∃ now act a, s = SActivate now act ∧ a ∈ ra_Entries act ∧ k = (ra_BatchID act, a_request_id a) ∧ e = new_entry a ∧
    is_Some (items (run s db) !! ra_BatchID act).
Proof.
  intros Hk. destruct s; cbn [run] in *.
  all: try (unfold sql_renew, sql_requeue, sql_finalize, sql_enqueue, sql_update, sql_progress;
            rewrite update_row_entries; congruence).
  - unfold sql_activate. destruct (items db !! ra_BatchID act) as [x|] eqn:Hx; simpl; [|congruence].
    destruct (activation_candidate act db x) eqn:Hc; simpl; [|congruence].
    case_bool_decide; simpl; [|congruence].
    intros [?|(a & Hin & -> & ->)]%insert_entries_lookup; [congruence|].
    exists now, act, a. split_and!; try done. rewrite lookup_insert. case_decide; naive_solver.
  - unfold sql_backfill_submitter. cbn [entries]. rewrite map_lookup_imap, Hk. done.
  - unfold sql_mark, update_entry. repeat destruct_match; simpl; try congruence.
    rewrite lookup_insert. case_decide; congruence.
  - unfold sql_checkpoint, update_entry. repeat destruct_match; simpl; try congruence.
    rewrite lookup_insert. case_decide; congruence.
  - unfold sql_dequeue, update_rows. cbn [fst entries]. congruence.
  - unfold sql_claim_owned, update_rows. cbn [fst entries]. congruence.
  - unfold sql_pqdelete. case_bool_decide; simpl; rewrite ?update_row_entries; congruence.
  - unfold sql_insert. destruct_match; simpl; congruence.
  - unfold sql_delete. cbn [fst entries]. rewrite map_lookup_filter_Some. intros [? _]; congruence.
  - unfold sql_migrate. case_bool_decide; simpl; congruence.
Qed.

Lemma run_new_entry s db k e :
  admissible s → entries db !! k = None → entries (run s db) !! k = Some e →
  entry_wf e ∧ is_Some (items (run s db) !! k.1).
Proof.
  intros Ha Hk (now & act & a & -> & Hin & -> & -> & Hrow)%run_entry_origin; [|done].
  cbn in Ha. rewrite Forall_forall in Ha. split; [by apply new_entry_wf, Ha|done].
Qed.

(** An entry that survives a deletion belongs to a batch that survives it. *)
Lemma run_entry_parent s db k e :
  is_Some (items db !! k.1) → entries (run s db) !! k = Some e → is_Some (items (run s db) !! k.1).
Proof.
  intros Hp He. destruct (decide (keeps k.1 s)) as [Hk|Hk]; [by apply run_keeps|].
  destruct s; try done. exfalso. cbn [run keeps] in *. unfold sql_delete in He. cbn [fst entries] in He.
  apply map_lookup_filter_Some in He as [_ Hni]. by apply Hk.
Qed.

Lemma run_wf s db : admissible s → db_wf db → db_wf (run s db).
Proof.
  intros Ha [Hrows Hents]. split.
  - intros id r' Hr'. destruct (items db !! id) as [r|] eqn:Hr; [|by eapply run_new_row].
    destruct (run_row _ _ _ _ _ Ha Hr Hr') as [->|Hs]; [by eauto|]. eapply row_step_wf; eauto.
  - intros k e' He'. destruct (entries db !! k) as [e|] eqn:He; [|by eapply run_new_entry].
    destruct (Hents k e He) as [Hw Hp]. split; [|by eapply run_entry_parent].
    destruct (run_entry _ _ _ _ _ Ha He He') as [->|Hs]; [done|]. by eapply entry_step_wf.
Qed.

Lemma run_all_wf ss db : Forall admissible ss → db_wf db → db_wf (run_all ss db).
Proof.
  revert db. induction ss as [|s ss IH]; intros db Ha Hw; simpl; [done|].
  inv Ha. by apply IH, run_wf.
Qed.
