(* ===== verification/Lifecycle.v ===== *)
(** * Functional behaviour of the store methods

    What each method of the queue and of the durable pipeline does to the
    tables: dequeue, activation, requeue and finalization. *)

From Stdlib Require Import ZArith Lia.
From stdpp Require Import base gmap strings list sorting relations.
From S2P Require Import Prelude Openai Store StoreOps Ownership Fencing.
Local Open Scope string_scope.
Local Open Scope Z_scope.

(** ** Dequeue *)

#[export] Instance priority_le_total : base.Total priority_le.
Proof.
  intros a b. unfold priority_le. destruct (r_priority a.2), (r_priority b.2); auto. lia.
Qed.
#[export] Instance priority_le_trans : Transitive priority_le.
Proof.
  intros a b c. unfold priority_le.
  destruct (r_priority a.2), (r_priority b.2), (r_priority c.2); auto; try done. lia.
Qed.

Lemma dequeue_candidates_spec locked secs db id r :
  (id, r) ∈ dequeue_candidates locked secs db ↔
  items db !! id = Some r ∧ claimable secs r = true ∧ id ∉ locked.
Proof.
  unfold dequeue_candidates. rewrite merge_sort_Permutation, list_elem_of_filter, elem_of_map_to_list.
  split; [intros [[??] ?]|intros (? & ? & ?)]; auto.
Qed.

Lemma dequeue_candidates_NoDup locked secs db : NoDup ((dequeue_candidates locked secs db).*1).
Proof.
  unfold dequeue_candidates. rewrite merge_sort_Permutation.
  assert (∀ l : list (string * Row), NoDup l.*1 →
    NoDup (fst <$> filter (λ kr, kr.1 ∉ locked ∧ claimable secs kr.2 = true) l)) as Hf.
  { induction l as [|[k x] l IH]; intros Hnd; [done|].
    rewrite fmap_cons, NoDup_cons in Hnd. destruct Hnd as [Hni Hnd]. rewrite filter_cons.
    case_decide; [|by apply IH]. rewrite fmap_cons, NoDup_cons. split; [|by apply IH].
    simpl in *. intros ([k' y] & -> & [_ Hin]%list_elem_of_filter)%list_elem_of_fmap.
    apply Hni. apply list_elem_of_fmap. by exists (k', y). }
  apply Hf, NoDup_fst_map_to_list.
Qed.

(** The priority a job is returned with; NULL sorts last and never scans. *)
Definition prio (r : Row) (z : Z) : Prop := ∀ x, r_priority r = Some x → z ≤ x.

Lemma sql_dequeue_rows now locked secs p m db :
  (sql_dequeue now locked secs p m db).2 =
  (λ kr, (kr.1, claim_row now secs p kr.2)) <$> take m (dequeue_candidates locked secs db).
Proof.
  unfold sql_dequeue, dequeue_chosen. cbn [snd].
  set (sel := λ id _, bool_decide (id ∈ (take m (dequeue_candidates locked secs db)).*1)).
  assert (∀ l, (∀ kr, kr ∈ l → kr ∈ take m (dequeue_candidates locked secs db)) →
    omap (λ id, (λ r, (id, r)) <$> items (update_rows sel (claim_row now secs p) db) !! id) l.*1 =
    (λ kr, (kr.1, claim_row now secs p kr.2)) <$> l) as H; [|by apply H].
  induction l as [|[k r] l IH]; intros Hin; [done|].
  assert ((k, r) ∈ take m (dequeue_candidates locked secs db)) as Hk by (apply Hin; left).
  assert (items db !! k = Some r) as Hr.
  { apply elem_of_take in Hk as (i & Hi & _). apply list_elem_of_lookup_2 in Hi.
    by apply dequeue_candidates_spec in Hi as (? & _). }
  cbn [fmap list_fmap fst omap list_omap]. rewrite update_rows_lookup, Hr. unfold sel at 1. cbn.
  rewrite bool_decide_eq_true_2 by (apply list_elem_of_fmap; by exists (k, r)).
  f_equal. apply IH. intros. apply Hin. by right.
Qed.

Lemma scan_claimed_id p kr j : scan_claimed p kr = Some j → bj_ID j = kr.1.
Proof. unfold scan_claimed. intros. repeat destruct_match_in H; by simplify_eq. Qed.

Lemma PQDequeue_ok now locked p lease m db db' jobs :
  PQDequeue now NetOk locked p lease m db = (db', Ok jobs) →
  db' = (sql_dequeue now locked (duration_seconds lease) p m db).1 ∧
  Forall2 (λ kr j, scan_claimed p (kr.1, claim_row now (duration_seconds lease) p kr.2) = Some j)
    (take m (dequeue_candidates locked (duration_seconds lease) db)) jobs.
Proof.
  unfold PQDequeue. case_bool_decide; [done|].
  unfold bindM, exec, total.
  destruct (sql_dequeue now locked (duration_seconds lease) p m db) as [d rows] eqn:Hd.
  pose proof (sql_dequeue_rows now locked (duration_seconds lease) p m db) as Hrows.
  rewrite Hd in Hrows. cbn [snd fst] in *. unfold scan_all.
  destruct (mapM (scan_claimed p) rows) as [js|] eqn:Hm; [|done].
  intros [= <- <-]. split; [done|]. apply mapM_Some in Hm. subst rows. by apply (Forall2_fmap_l _ _) in Hm.
Qed.

Lemma dequeued_ids now locked p lease m db db' jobs :
  PQDequeue now NetOk locked p lease m db = (db', Ok jobs) →
  bj_ID <$> jobs = dequeue_chosen locked (duration_seconds lease) m db.
Proof.
  intros [_ HF]%PQDequeue_ok. unfold dequeue_chosen.
  induction HF as [|kr j l js Hs _ IH]; [done|]. cbn. rewrite IH. f_equal. by apply scan_claimed_id in Hs.
Qed.

(** What a returned job says about its row. *)
Lemma dequeued_job now locked p lease m db db' jobs j :
  PQDequeue now NetOk locked p lease m db = (db', Ok jobs) → j ∈ jobs →
  ∃ r, items db !! bj_ID j = Some r ∧ claimable (duration_seconds lease) r = true ∧ bj_ID j ∉ locked ∧
    items db' !! bj_ID j = Some (claim_row now (duration_seconds lease) p r) ∧
    bj_Epoch j = r_epoch r + 1 ∧ bj_ProcessorID j = p ∧ bj_Resumable j = r_resumable r ∧
    bj_SLO j = r_priority r ∧ status_is (bj_ExpectedStatus j) r = true.
Proof.
  intros Hd Hj. destruct (PQDequeue_ok _ _ _ _ _ _ _ _ Hd) as [Hdb HF].
  apply list_elem_of_lookup in Hj as [i Hi].
  destruct (Forall2_lookup_r _ _ _ _ _ HF Hi) as ([k r] & Hkr & Hs).
  assert ((k, r) ∈ take m (dequeue_candidates locked (duration_seconds lease) db)) as Hin
    by by eapply list_elem_of_lookup_2.
  assert (k ∈ dequeue_chosen locked (duration_seconds lease) m db) as Hch
    by (apply list_elem_of_fmap; by exists (k, r)).
  apply elem_of_take in Hin as (x & Hx & _). apply list_elem_of_lookup_2, dequeue_candidates_spec in Hx as (Hr & Hc & Hl).
  unfold scan_claimed in Hs. cbn in Hs.
  destruct (r_priority r) eqn:Hp; [|done]. destruct (r_status r) as [d|] eqn:Hst; [|done]. simplify_eq.
  cbn [bj_ID bj_Epoch bj_ProcessorID bj_Resumable bj_SLO bj_ExpectedStatus].
  exists r. rewrite sql_dequeue_lookup, Hr. cbn [fmap option_fmap option_map]. rewrite bool_decide_eq_true_2 by done.
  repeat split; try done. unfold status_is. rewrite Hst. by apply bool_decide_eq_true.
Qed.

(** PQDequeue claims exclusively and exactly: with the response received,
    the returned jobs have pairwise distinct IDs, at most [maxItems] of them;
    each was unclaimed, unlocked and in one of the two queue classes, is now
    owned by the caller under the epoch it was returned with (old epoch + 1),
    with a lease exactly for the requeued class; every other row and every
    entry is untouched. *)
Theorem dequeue_claims_exclusively now locked p lease m db db' jobs :
  PQDequeue now NetOk locked p lease m db = (db', Ok jobs) →
  NoDup (bj_ID <$> jobs) ∧ (length jobs ≤ m)%nat ∧
  (∀ j, j ∈ jobs → ∃ r r', items db !! bj_ID j = Some r ∧ items db' !! bj_ID j = Some r' ∧
     r_processor r = None ∧ bj_ID j ∉ locked ∧ claimable (duration_seconds lease) r = true ∧
     owner_is p (bj_Epoch j) r' = true ∧ r_epoch r' = r_epoch r + 1 ∧ r_status r' = r_status r ∧
     r_resumable r' = r_resumable r ∧
     r_lease r' = (if r_resumable r then Some (lease_until now (duration_seconds lease)) else None) ∧
     r_attempts r' = (if r_resumable r then r_attempts r else 0)) ∧
  (∀ id, id ∉ bj_ID <$> jobs → items db' !! id = items db !! id) ∧
  entries db' = entries db.
Proof.
  intros Hd. pose proof (dequeued_ids _ _ _ _ _ _ _ _ Hd) as Hids.
  destruct (PQDequeue_ok _ _ _ _ _ _ _ _ Hd) as [-> HF]. split_and!.
  - rewrite Hids. unfold dequeue_chosen. rewrite fmap_take.
    eapply sublist_NoDup; [apply dequeue_candidates_NoDup|apply sublist_take].
  - apply Forall2_length in HF. rewrite <- HF, length_take. lia.
  - intros j Hj. destruct (dequeued_job _ _ _ _ _ _ _ _ _ Hd Hj) as (r & Hr & Hc & Hl & Hr' & He & _).
    exists r, (claim_row now (duration_seconds lease) p r). split_and!; try done.
    + unfold claimable in Hc. by boolify.
    + unfold owner_is. cbn. rewrite bool_decide_eq_true_2 by done. cbn. apply Z.eqb_eq. lia.
  - intros id Hni. rewrite Hids in Hni. rewrite sql_dequeue_lookup, bool_decide_eq_false_2 by done.
    by destruct (items db !! id).
  - done.
Qed.

(** PQDequeue respects priority and never leaves work behind: a
    claimable, unlocked row that was not returned exists only when the call
    returned [maxItems] jobs, all of them with an SLO no later than that
    row's. *)
Theorem dequeue_by_priority now locked p lease m db db' jobs :
  PQDequeue now NetOk locked p lease m db = (db', Ok jobs) →
  ∀ id r, items db !! id = Some r → claimable (duration_seconds lease) r = true → id ∉ locked →
    id ∉ bj_ID <$> jobs →
    length jobs = m ∧ ∀ j, j ∈ jobs → ∃ s, bj_SLO j = Some s ∧ prio r s.
Proof.
  intros Hd. pose proof (dequeued_ids _ _ _ _ _ _ _ _ Hd) as Hids.
  destruct (PQDequeue_ok _ _ _ _ _ _ _ _ Hd) as [-> HF].
  set (cs := dequeue_candidates locked (duration_seconds lease) db) in *.
  assert (StronglySorted priority_le cs) as Hsort by (apply StronglySorted_merge_sort; apply _).
  rewrite <- (take_drop m cs) in Hsort. apply StronglySorted_app in Hsort as (Hcross & Htake & _).
  intros id r Hr Hc Hl Hni. rewrite Hids in Hni.
  assert ((id, r) ∈ drop m cs) as Hdrop.
  { assert ((id, r) ∈ cs) as Hin by by apply dequeue_candidates_spec.
    rewrite <- (take_drop m cs) in Hin. apply elem_of_app in Hin as [Hin|]; [|done].
    exfalso. apply Hni. apply list_elem_of_fmap. by exists (id, r). }
  split.
  - apply Forall2_length in HF. rewrite <- HF, length_take.
    assert (drop m cs ≠ []) as Hne by (intros Heq; rewrite Heq in Hdrop; by apply elem_of_nil in Hdrop).
    assert (m < length cs)%nat by (destruct (decide (m < length cs)%nat); [done|];
      exfalso; apply Hne, drop_ge; lia). lia.
  - intros j Hj. apply list_elem_of_lookup in Hj as [i Hi].
    destruct (Forall2_lookup_r _ _ _ _ _ HF Hi) as (kr & Hkr & Hs).
    specialize (Hcross kr (id, r) (list_elem_of_lookup_2 _ _ _ Hkr) Hdrop).
    unfold scan_claimed, priority_le, prio in *. cbn in *. repeat destruct_match_in Hs; simplify_eq.
    cbn. eexists. split; [done|]. intros x Hx. by rewrite Hx in Hcross.
Qed.

(** [C24] A claim is unique: after a dequeue returned a job and any
    interleaving of statements that keeps the batch, a later dequeue that
    returns the same batch hands out a strictly larger epoch, so no two claims
    of a batch ever share their fencing token; a dequeue that follows directly
    shares no batch with the first. *)
Theorem claim_tokens_unique now1 now2 l1 l2 p1 p2 lease1 lease2 m1 m2 ss db db1 db3 jobs1 jobs2 j1 j2 :
  PQDequeue now1 NetOk l1 p1 lease1 m1 db = (db1, Ok jobs1) →
  Forall admissible ss → Forall (keeps (bj_ID j1)) ss →
  PQDequeue now2 NetOk l2 p2 lease2 m2 (run_all ss db1) = (db3, Ok jobs2) →
  j1 ∈ jobs1 → j2 ∈ jobs2 → bj_ID j1 = bj_ID j2 →
  bj_Epoch j1 < bj_Epoch j2 ∧ ss ≠ [].
Proof.
  intros Hd1 Ha Hk Hd2 Hj1 Hj2 Hid.
  destruct (dequeued_job _ _ _ _ _ _ _ _ _ Hd1 Hj1) as (r1 & _ & _ & _ & Hr1 & He1 & _).
  destruct (dequeued_job _ _ _ _ _ _ _ _ _ Hd2 Hj2) as (r2 & Hr2 & Hc2 & _ & _ & He2 & _).
  rewrite <- Hid in Hr2. split.
  - pose proof (epoch_monotone _ _ _ _ _ Ha Hk Hr1 Hr2) as Hle. cbn in Hle. lia.
  - intros ->. cbn in Hr2. rewrite Hr1 in Hr2. injection Hr2 as <-. unfold claimable in Hc2. cbn in Hc2. done.
Qed.

(** ** Activation *)

Lemma insert_entries_in b es m a :
  NoDup (a_request_id <$> es) → a ∈ es → insert_entries b es m !! (b, a_request_id a) = Some (new_entry a).
Proof.
  unfold insert_entries. induction es as [|x es IH]; intros Hnd Hin; [by apply elem_of_nil in Hin|].
  rewrite fmap_cons, NoDup_cons in Hnd. destruct Hnd as [Hx Hnd]. cbn.
  apply elem_of_cons in Hin as [->|Hin]; [by rewrite lookup_insert_eq|].
  rewrite lookup_insert_ne; [by apply IH|]. intros [= Heq]. apply Hx. rewrite Heq.
  by apply list_elem_of_fmap_2.
Qed.

Lemma ActivateResumableBatch_ok now n act db db' :
  ActivateResumableBatch now n (Some act) db = (db', Ok tt) →
  n = NetOk ∧ 0 < ra_LeaseTTL act ∧ ra_Entries act ≠ [] ∧ ∃ r, items db !! ra_BatchID act = Some r ∧
  activation_candidate act db r = true ∧ NoDup (a_request_id <$> ra_Entries act) ∧
  db' = {| items := <[ra_BatchID act := activate_row now (duration_seconds (ra_LeaseTTL act)) r]> (items db);
           entries := insert_entries (ra_BatchID act) (ra_Entries act) (entries db) |}.
Proof.
  unfold ActivateResumableBatch. destruct (_ || _); [done|].
  destruct (ra_LeaseTTL act <=? 0) eqn:Hl; [done|]. destruct (_ =? 0)%nat eqn:He; [done|].
  unfold bindM, exec, sql_activate. boolify. apply Nat.eqb_neq in He.
  assert (ra_Entries act ≠ []) by by destruct (ra_Entries act).
  destruct (items db !! ra_BatchID act) as [r|]; [|destruct n as [|[]]; done].
  destruct (activation_candidate act db r) eqn:Hc; [|destruct n as [|[]]; done].
  case_bool_decide; [|destruct n as [|[]]; done].
  destruct n as [|[]]; try done. intros [= <-]. split_and!; eauto 10.
Qed.

(** [C25] Activation is all or nothing: when ActivateResumableBatch returns nil
    the caller owned the claimed, still validating, never activated row, the
    row is now in_progress, resumable and leased to the same owner and epoch,
    and the batch's entries are exactly the planned ones (each never
    dispatched), every other batch's entries being untouched; when it returns
    an error that did reach the caller from the server, nothing changed. *)
Theorem activation_all_or_nothing now act db db' res :
  ActivateResumableBatch now NetOk (Some act) db = (db', res) →
  match res with
  | Err _ => db' = db
  | Ok _ =>
      ∃ r r', items db !! ra_BatchID act = Some r ∧ items db' = <[ra_BatchID act := r']> (items db) ∧
        owner_is (ra_ProcessorID act) (ra_Epoch act) r = true ∧ status_is BatchStatusValidating r = true ∧
        owner_is (ra_ProcessorID act) (ra_Epoch act) r' = true ∧ status_is BatchStatusInProgress r' = true ∧
        r_resumable r = false ∧ r_resumable r' = true ∧
        r_lease r' = Some (lease_until now (duration_seconds (ra_LeaseTTL act))) ∧
        (∀ q e, entries db' !! (ra_BatchID act, q) = Some e ↔
           ∃ a, a ∈ ra_Entries act ∧ q = a_request_id a ∧ e = new_entry a) ∧
        (∀ k, k.1 ≠ ra_BatchID act → entries db' !! k = entries db !! k)
  end.
Proof.
  destruct res as [[]|x].
  - intros (_ & Hl & Hne & r & Hr & Hc & Hnd & ->)%ActivateResumableBatch_ok.
    exists r. eexists. unfold activation_candidate in Hc. boolify.
    split; [done|]. split; [done|]. split_and!; try done.
    + unfold status_is in *. cbn. destruct (r_status r); [|done]. by apply bool_decide_eq_true.
    + intros q e. cbn [entries]. split.
      * intros [Hq|(a & Ha & Hk & He)]%insert_entries_lookup; [|naive_solver].
        by rewrite (batch_entries_empty (ra_BatchID act) db) in Hq.
      * intros (a & Ha & -> & ->). by apply insert_entries_in.
    + intros k Hk. cbn [entries]. by apply insert_entries_other.
  - unfold ActivateResumableBatch, bindM, exec, sql_activate, conflict_if_zero, throw, ret.
    intros H. repeat destruct_match_in H; by simplify_eq.
Qed.

(** A batch is activated at most once: after a successful activation and
    any interleaving of statements that keeps the batch, every activation
    attempt of it, by any processor, writes nothing and fails; no entry set
    is ever replaced or extended. *)
Theorem activation_at_most_once now n act db db1 ss now' n' act' :
  ActivateResumableBatch now n (Some act) db = (db1, Ok tt) →
  Forall admissible ss → Forall (keeps (ra_BatchID act)) ss →
  ra_BatchID act' = ra_BatchID act →
  let db2 := run_all ss db1 in
  ∃ x, ActivateResumableBatch now' n' (Some act') db2 = (db2, Err x).
Proof.
  intros (_ & _ & Hne & r & Hr & Hc & Hnd & ->)%ActivateResumableBatch_ok Ha Hk Hid db2.
  destruct (ra_Entries act) as [|a es] eqn:Hes; [done|].
  assert (∃ e, entries db2 !! (ra_BatchID act, a_request_id a) = Some e) as [e He].
  { destruct (run_all_entry (λ _ _, True) ss {| items := <[ra_BatchID act :=
        activate_row now (duration_seconds (ra_LeaseTTL act)) r]> (items db);
      entries := insert_entries (ra_BatchID act) (a :: es) (entries db) |}
      (ra_BatchID act, a_request_id a) (new_entry a)) as (e & He & _); eauto.
    apply insert_entries_in; [done|left]. }
  unfold ActivateResumableBatch, throw. repeat (destruct_match; [by eauto|]).
  unfold bindM, exec, sql_activate.
  destruct (items db2 !! ra_BatchID act') as [r'|] eqn:Hr'; [|destruct n' as [|[]]; cbn; by eauto].
  assert (activation_candidate act' db2 r' = false) as ->.
  { unfold activation_candidate. apply andb_false_iff. right. apply bool_decide_eq_false. intros Hemp.
    rewrite (batch_entries_empty _ _ (ra_BatchID act, a_request_id a) Hemp) in He; [done|]. by rewrite Hid. }
  destruct n' as [|[]]; cbn; by eauto.
Qed.

(** ** Finalization *)

(** The arguments [FinalizeResumableBatch] accepts. *)
Definition finalization_valid (fin : ResumableFinalization) (doc : BatchStatusInfo) : Prop :=
  rf_BatchID fin ≠ "" ∧ rf_ProcessorID fin ≠ "" ∧ rf_Status fin = Some doc ∧ rf_ExpectedStatus fin ≠ "".

Lemma FinalizeResumableBatch_valid now n1 n2 fin doc :
  finalization_valid fin doc →
  FinalizeResumableBatch now n1 n2 (Some fin) =
  (k <- exec n1 (total (sql_finalize now fin doc)) ;;
   match k with
   | S _ => ret tt
   | O => committed <- query n2 (λ db, r ← items db !! rf_BatchID fin; r_status r) ;;
          if bool_decide (committed = Some doc) then ret tt else throw ErrConflict
   end).
Proof.
  intros (? & ? & Hd & ?). unfold FinalizeResumableBatch. rewrite Hd.
  by rewrite !bool_decide_eq_false_2 by done.
Qed.

(** The row is no longer resumable, so the guarded update matches nothing. *)
Lemma sql_finalize_refused now fin doc db r :
  items db !! rf_BatchID fin = Some r → r_resumable r = false →
  sql_finalize now fin doc db = (db, 0%nat).
Proof.
  intros Hr Hf. unfold sql_finalize. apply (update_row_refused _ _ _ _ r); [done|].
  rewrite Hf. by destruct (owner_is _ _ _).
Qed.

(** A lost commit response is safe to retry: once the finalizing update
    has been committed, whether or not its response arrived, and after any
    interleaving of statements that neither deletes the batch nor rewrites it
    explicitly, the owner's retry with the same document returns nil and
    changes nothing, while an attempt to finalize with any other document
    returns ErrConflict and changes nothing.  The committed row keeps owner
    and epoch, drops the resumable flag and the lease, and holds the document. *)
Theorem finalize_retry_safe now n n2 now' fin doc r db db1 ss :
  finalization_valid fin doc → IsTerminal (Status doc) = true →
  n = NetOk ∨ n = NetErr true →
  items db !! rf_BatchID fin = Some r →
  owner_is (rf_ProcessorID fin) (rf_Epoch fin) r && r_resumable r && lease_valid now r
    && status_is (rf_ExpectedStatus fin) r = true →
  (FinalizeResumableBatch now n n2 (Some fin) db).1 = db1 →
  Forall admissible ss → Forall (keeps (rf_BatchID fin)) ss →
  Forall (λ s, ¬ explicit_update (rf_BatchID fin) s) ss →
  let db2 := run_all ss db1 in
  items db2 !! rf_BatchID fin = Some (finalize_row doc r) ∧
  FinalizeResumableBatch now' NetOk NetOk (Some fin) db2 = (db2, Ok tt) ∧
  ∀ fin' doc', rf_BatchID fin' = rf_BatchID fin → finalization_valid fin' doc' → doc' ≠ doc →
    FinalizeResumableBatch now' NetOk NetOk (Some fin') db2 = (db2, Err ErrConflict).
Proof.
  intros Hv Ht Hn Hr Hg Hdb1 Ha Hk Hu db2.
  assert (items db1 !! rf_BatchID fin = Some (finalize_row doc r)) as Hr1.
  { subst db1. rewrite (FinalizeResumableBatch_valid _ _ _ _ _ Hv).
    unfold bindM, exec, total, sql_finalize, update_row. rewrite Hr, Hg.
    destruct Hn as [->| ->]; cbn; by rewrite lookup_insert_eq. }
  assert (items db2 !! rf_BatchID fin = Some (finalize_row doc r)) as Hr2.
  { apply terminal_row_kept; try done. exists doc. done. }
  assert (∀ f d, rf_BatchID f = rf_BatchID fin → finalization_valid f d →
    FinalizeResumableBatch now' NetOk NetOk (Some f) db2 =
    (if bool_decide (d = doc) then (db2, Ok tt) else (db2, Err ErrConflict))) as Hretry.
  { intros f d Hf Hvf. rewrite (FinalizeResumableBatch_valid _ _ _ _ _ Hvf).
    unfold bindM, exec at 1, total.
    rewrite (sql_finalize_refused _ _ _ _ (finalize_row doc r)) by (by rewrite ?Hf).
    unfold query, exec. rewrite Hf, Hr2. cbn. by repeat case_bool_decide; simplify_eq. }
  split; [done|]. split.
  - rewrite (Hretry fin doc) by done. by rewrite bool_decide_eq_true_2.
  - intros fin' doc' Hf Hvf Hne. rewrite (Hretry fin' doc') by done. by rewrite bool_decide_eq_false_2.
Qed.

(** ** Orphan requeue *)

Lemma backfill_lookup b p db k :
  entries (sql_backfill_submitter b p db) !! k = backfill_entry b p k <$> entries db !! k.
Proof. cbn. rewrite map_lookup_imap. by destruct (entries db !! k). Qed.

(** An orphan goes back to the queue with nothing lost: when the
    reconciler's requeue of an owned, activated, non-terminal row reaches the
    server (lease expired when that is required), the row becomes unowned
    with a new epoch and no lease, keeps its status and stays resumable, its
    recovery budget is charged by exactly one if asked, every in-flight entry
    of the batch names a submitter, no entry changes otherwise; and the row is
    claimable by every dequeue with a lease of at least one second. *)
Theorem requeue_keeps_progress now b p e x u db r :
  items db !! b = Some r →
  owner_is p e r = true → r_resumable r = true → nonTerminalCondition r = true →
  (x = true → lease_expired now r = true) →
  ∃ db' r', RequeueResumableOrphan now NetOk NetOk b p e x u db = (db', Ok tt) ∧
    items db' = <[b := r']> (items db) ∧
    r_processor r' = None ∧ r_lease r' = None ∧ r_epoch r' = e + 1 ∧ r_resumable r' = true ∧
    r_status r' = r_status r ∧ r_attempts r' = r_attempts r + (if u then 1 else 0) ∧
    (∀ secs, 0 < secs → claimable secs r' = true) ∧
    (∀ q ent, entries db !! (b, q) = Some ent → ∃ ent', entries db' !! (b, q) = Some ent' ∧
       e_status ent' = e_status ent ∧ e_attempts ent' = e_attempts ent ∧
       (e_status ent = EInFlight → e_submitted_by ent' = Some (default p (e_submitted_by ent))) ∧
       (e_status ent ≠ EInFlight → ent' = ent)) ∧
    (∀ k, k.1 ≠ b → entries db' !! k = entries db !! k).
Proof.
  intros Hr Ho Hres Hnt Hx. eexists. exists (requeue_row u r).
  assert (negb x || lease_expired now r = true) as Hg by (destruct x; [by apply Hx|done]).
  split.
  { unfold RequeueResumableOrphan, bindM, exec at 1, total, sql_requeue, update_row.
    rewrite Hr, Ho, Hres, Hnt, Hg. cbn [andb]. unfold exec. reflexivity. }
  cbn [items]. unfold owner_is in Ho. boolify. split_and!; try done.
  - cbn. lia.
  - destruct u; cbn; lia.
  - intros secs Hs. change (nonTerminalCondition (requeue_row u r) = true) in Hnt.
    unfold claimable. rewrite Hnt. cbn. rewrite Hres. cbn. rewrite andb_true_r. by apply Z.ltb_lt.
  - intros q ent He. rewrite backfill_lookup. cbn [entries]. rewrite He. cbn [fmap option_fmap option_map]. eexists. split; [done|].
    unfold backfill_entry. cbn [fst]. rewrite bool_decide_eq_true_2 by done. cbn [andb].
    destruct (decide (e_status ent = EInFlight)) as [Hi|Hi].
    + rewrite bool_decide_eq_true_2 by done. cbn [andb].
      destruct (e_submitted_by ent) eqn:Hsub; case_bool_decide; try done; cbn; by rewrite ?Hsub.
    + rewrite bool_decide_eq_false_2 by done. done.
  - intros k Hk. rewrite backfill_lookup. cbn [entries]. unfold backfill_entry.
    rewrite bool_decide_eq_false_2 by done. cbn. by destruct (entries db !! k).
Qed.

(** ** Lease resolution *)

(** Leases have whole-second resolution: a TTL that passes the "> 0"
    guard but is shorter than one second is stored as a lease that is already
    over, so the renewed (or just activated) row fails the ownership fence at
    once, and a dequeue with such a lease never returns a resumable row. *)
Theorem subsecond_lease_is_void ttl now :
  0 < ttl < 1000000000 →
  (∀ b p e db db', RenewResumableBatchLease now NetOk b p e ttl db = (db', Ok tt) →
     ∃ r', items db' !! b = Some r' ∧ lease_valid now r' = false ∧ ownerLockCTE now p e r' = false) ∧
  (∀ act db db', ra_LeaseTTL act = ttl → ActivateResumableBatch now NetOk (Some act) db = (db', Ok tt) →
     ∃ r', items db' !! ra_BatchID act = Some r' ∧
           ownerLockCTE now (ra_ProcessorID act) (ra_Epoch act) r' = false) ∧
  (∀ locked p m db db' jobs j, PQDequeue now NetOk locked p ttl m db = (db', Ok jobs) →
     j ∈ jobs → bj_Resumable j = false).
Proof.
  intros Httl.
  assert (duration_seconds ttl = 0) as Hs by (apply Z.quot_small; lia).
  assert (∀ r, lease_valid now (set_r_lease (Some (lease_until now 0)) r) = false) as Hnv.
  { intros r. apply Z.ltb_ge. unfold lease_until. lia. }
  assert (∀ p e r, lease_valid now r = false → ownerLockCTE now p e r = false) as Hl.
  { intros p e r H. unfold ownerLockCTE. rewrite H. by destruct (owner_is p e r). }
  split_and!.
  - intros b p e db db'. unfold RenewResumableBatchLease. destruct (ttl <=? 0); [done|].
    unfold bindM, exec, total, sql_renew, update_row. rewrite Hs.
    destruct (items db !! b) as [r|]; [|done]. destruct (_ && _); [|done].
    intros [= <-]. eexists. cbn [items]. rewrite lookup_insert_eq. eauto.
  - intros act db db' Hact (_ & _ & _ & r & _ & _ & _ & ->)%ActivateResumableBatch_ok.
    eexists. cbn [items]. rewrite lookup_insert_eq, Hact, Hs. split; [done|]. apply Hl, Hnv.
  - intros locked p m db db' jobs j Hd Hj.
    destruct (dequeued_job _ _ _ _ _ _ _ _ _ Hd Hj) as (r & _ & Hc & _ & _ & _ & _ & -> & _).
    rewrite Hs in Hc. unfold claimable in Hc. boolify. by destruct (r_resumable r).
Qed.

(** ** A claimed row without a priority *)

(** A queued row whose priority column is NULL is claimed but never
    returned: a dequeue that chooses it commits the claim and then fails on
    scanning the row, so the job is left owned by a caller that received an
    error and knows neither its ID nor its epoch. *)
Theorem null_priority_claim_is_lost now locked p lease m db id r :
  p ≠ "" → items db !! id = Some r → r_priority r = None →
  id ∈ dequeue_chosen locked (duration_seconds lease) m db →
  ∃ db' r', PQDequeue now NetOk locked p lease m db = (db', Err (ErrOther "scan")) ∧
    items db' !! id = Some r' ∧ owner_is p (r_epoch r + 1) r' = true.
Proof.
  intros Hp Hr Hnull Hin. exists (sql_dequeue now locked (duration_seconds lease) p m db).1.
  exists (claim_row now (duration_seconds lease) p r). split_and!.
  - unfold PQDequeue. rewrite bool_decide_eq_false_2 by done. unfold bindM, exec, total.
    pose proof (sql_dequeue_rows now locked (duration_seconds lease) p m db) as Hrows.
    destruct (sql_dequeue _ _ _ _ _ _) as [d rows]. cbn [fst snd] in *. subst rows. unfold scan_all.
    destruct (mapM _ _) as [js|] eqn:Hm; [|done]. exfalso.
    apply mapM_Some in Hm. apply list_elem_of_fmap in Hin as ([k r0] & -> & Hin).
    assert (r0 = r) as ->.
    { apply elem_of_take in Hin as (i & Hi & _). apply list_elem_of_lookup_2, dequeue_candidates_spec in Hi as (? & _).
      cbn in Hr. congruence. }
    apply list_elem_of_lookup in Hin as [i Hi]. apply (Forall2_fmap_l _ _) in Hm.
    destruct (Forall2_lookup_l _ _ _ _ _ Hm Hi) as (j & _ & Hj). unfold scan_claimed in Hj. cbn in Hj.
    by rewrite Hnull in Hj.
  - rewrite sql_dequeue_lookup, Hr, bool_decide_eq_true_2 by done. done.
  - unfold owner_is. cbn. rewrite bool_decide_eq_true_2 by done. cbn. apply Z.eqb_refl.
Qed.
