(* ===== verification/Examples.v ===== *)
(** * Concrete runs of the store

    A two-batch store and short runs of the clients' methods on it, each
    instantiating a theorem of [Fencing] or [Lifecycle]. *)

From Stdlib Require Import ZArith Lia.
From stdpp Require Import base gmap strings list sorting relations.
From S2P Require Import Prelude Openai Store StoreOps Ownership Fencing Lifecycle.
Local Open Scope string_scope.
Local Open Scope Z_scope.

Definition doc (s : BatchStatus) : BatchStatusInfo :=
  {| Status := s; OutputFileID := None; ErrorFileID := None; CancelledAt := None; CancellingAt := None;
     CompletedAt := None; ExpiredAt := None; ExpiresAt := None; FailedAt := None; FinalizingAt := None;
     InProgressAt := None; Model := "m"; RequestCounts := {| Total := 2; Completed := 0; Failed := 0 |};
     Errors := None; Usage := None |}.

(** A queued batch, as [DBStore] inserts it. *)
Definition queued_row (priority : option Z) : Row :=
  {| r_tenant := "t"; r_expiry := 0; r_tags := ∅; r_spec := "{}"; r_status := Some (doc BatchStatusValidating);
     r_processor := None; r_priority := priority; r_epoch := 0; r_attempts := 0; r_resumable := false;
     r_lease := None |}.
Definition queue_db : DB :=
  {| items := <["b1" := queued_row (Some 20)]> (<["b2" := queued_row (Some 10)]> ∅); entries := ∅ |}.

(** The owned, activated batch of processor p1 at epoch 1, and its entries. *)
Definition active_row : Row :=
  set_r_lease (Some 60000000) (set_r_resumable true
    (set_r_status (Some (doc BatchStatusInProgress))
      (set_r_epoch 1 (set_r_processor (Some "p1") (queued_row (Some 20)))))).
Definition entry (st : EntryStatus) (ordinal attempts : Z) (by_ : option string) : Entry :=
  {| e_ordinal := ordinal; e_custom_id := "c"; e_status := st; e_attempts := attempts; e_submitted_by := by_;
     e_result_key := None; e_result_bytes := None; e_result_sha256 := None; e_error_code := None |}.
Definition active_db : DB :=
  {| items := <["b1" := active_row]> ∅;
     entries := <[("b1", "q1") := entry EInFlight 1 1 (Some "p1")]>
                  (<[("b1", "q2") := entry EPending 2 0 None]> ∅) |}.

Definition ok_result : ResumableResult :=
  {| rr_Status := ECompleted; rr_ResultKey := "k"; rr_ResultBytes := 3; rr_ResultSHA256 := "s"; rr_ErrorCode := "" |}.

(** The reconciler requeues the orphan, another processor claims it. *)
Definition takeover : list Stmt :=
  [SRequeue 70000000 "b1" "p1" 1 true true; SBackfill "b1" "p1"; SDequeue 80000000 ∅ 30 "p2" 5].

Lemma same_epoch_same_owner_run :
  ∃ r', items (run_all takeover active_db) !! "b1" = Some r' ∧ r_epoch active_row ≤ r_epoch r'.
Proof.
  eexists. split; [vm_compute; reflexivity|].
  eapply (same_epoch_same_owner takeover active_db "b1" active_row _ "p1");
    [repeat constructor|repeat constructor|reflexivity|vm_compute; reflexivity].
Defined.


Lemma checkpoint_first_wins_run :
  ∃ db1, CheckpointEntryResult 1000 NetOk NetOk "b1" "q1" "p1" 1 (Some ok_result) active_db = (db1, Ok true) ∧
  (CheckpointEntryResult 85000000 NetOk NetOk "b1" "q1" "p2" 3 (Some ok_result) (run_all takeover db1)).2 ≠ Ok true.
Proof.
  eexists. split; [reflexivity|].
  destruct (checkpoint_first_wins 1000 NetOk "b1" "q1" "p1" 1 ok_result active_db _ takeover
    ltac:(reflexivity) ltac:(repeat constructor) ltac:(repeat constructor)) as (r & x & _ & _ & _ & _ & _ & H).
  apply (H 85000000 NetOk NetOk "p2" 3 (Some ok_result)).
Defined.


Lemma terminal_batch_is_inert_run :
  items (run_all (SEnqueue "b1" "p1" 1 BatchStatusCompleted :: takeover)
           {| items := <["b1" := finalize_row (doc BatchStatusCompleted) active_row]> ∅; entries := ∅ |}) !! "b1"
  = Some (finalize_row (doc BatchStatusCompleted) active_row).
Proof.
  apply terminal_batch_is_inert; [repeat constructor..| |reflexivity|by exists (doc BatchStatusCompleted)].
  repeat constructor; by intros [].
Defined.

(** Two processors dequeue from the same queue. *)
Definition no_locks : gset string := ∅.
Definition first_claim := PQDequeue 0 NetOk no_locks "p1" 30000000000 1 queue_db.
Definition jobs_of (x : DB * result (list BatchJobPriority)) : list BatchJobPriority :=
  match snd x with Ok jobs => jobs | Err _ => [] end.

Lemma dequeue_claims_exclusively_run :
  bj_ID <$> jobs_of first_claim = ["b2"] ∧ items (fst first_claim) !! "b1" = items queue_db !! "b1".
Proof.
  split; [vm_compute; reflexivity|].
  destruct (dequeue_claims_exclusively 0 no_locks "p1" 30000000000 1 queue_db (fst first_claim) (jobs_of first_claim)
    ltac:(vm_compute; reflexivity)) as (_ & _ & _ & H & _).
  apply H. vm_compute. apply not_elem_of_cons. split; [discriminate|apply not_elem_of_nil].
Defined.

Lemma dequeue_by_priority_run :
  length (jobs_of first_claim) = 1%nat ∧
  ∀ j, j ∈ jobs_of first_claim → ∃ s, bj_SLO j = Some s ∧ prio (queued_row (Some 20)) s.
Proof.
  apply (dequeue_by_priority 0 no_locks "p1" 30000000000 1 queue_db (fst first_claim) (jobs_of first_claim)
    ltac:(vm_compute; reflexivity) "b1"); [reflexivity|reflexivity|apply not_elem_of_empty|].
  vm_compute. apply not_elem_of_cons. split; [discriminate|apply not_elem_of_nil].
Defined.

(** p1 claims b2, gives it back, and p2 claims it again. *)
Definition reclaim : list Stmt := [SEnqueue "b2" "p1" 1 BatchStatusValidating].
Lemma claim_tokens_unique_run :
  ∃ j1 j2, snd first_claim = Ok [j1] ∧
    snd (PQDequeue 9 NetOk no_locks "p2" 30000000000 1 (run_all reclaim (fst first_claim))) = Ok [j2] ∧
    bj_Epoch j1 < bj_Epoch j2.
Proof.
  eexists _, _. split; [vm_compute; reflexivity|]. split; [vm_compute; reflexivity|].
  eapply (claim_tokens_unique 0 9 no_locks no_locks "p1" "p2" 30000000000 30000000000 1 1 reclaim queue_db (fst first_claim)
    (fst (PQDequeue 9 NetOk no_locks "p2" 30000000000 1 (run_all reclaim (fst first_claim)))));
    [vm_compute; reflexivity|repeat constructor|repeat constructor|vm_compute; reflexivity|left|left|reflexivity].
Defined.

Definition act1 : ResumableActivation :=
  {| ra_BatchID := "b2"; ra_ProcessorID := "p1"; ra_Epoch := 1; ra_LeaseTTL := 30000000000;
     ra_Entries := [ {| a_request_id := "q1"; a_ordinal := 1; a_custom_id := "c1"; a_status := EPending;
                        a_error_code := ""; a_result_key := ""; a_result_bytes := 0; a_result_sha256 := "" |} ] |}.
Definition activated := ActivateResumableBatch 10 NetOk (Some act1) (fst first_claim).

Lemma activation_all_or_nothing_run :
  snd activated = Ok tt ∧ is_Some (entries (fst activated) !! ("b2", "q1")).
Proof.
  split; [reflexivity|].
  destruct (activation_all_or_nothing 10 act1 (fst first_claim) (fst activated) (Ok tt) ltac:(reflexivity))
    as (r & r' & _ & _ & _ & _ & _ & _ & _ & _ & _ & H & _).
  exists (new_entry (List.hd (List.hd (Build_ActivationEntry "" 0 "" EPending "" "" 0 "") []) (ra_Entries act1))).
  apply (H "q1"). eexists. split; [left|]. split; reflexivity.
Defined.

Lemma activation_at_most_once_run :
  ∃ x, ActivateResumableBatch 20 NetOk (Some act1) (fst activated) = (fst activated, Err x).
Proof.
  apply (activation_at_most_once 10 NetOk act1 (fst first_claim) (fst activated) [] 20 NetOk act1);
    [reflexivity|constructor|constructor|reflexivity].
Defined.

Definition fin1 : ResumableFinalization :=
  {| rf_BatchID := "b1"; rf_ProcessorID := "p1"; rf_Epoch := 1; rf_ExpectedStatus := BatchStatusInProgress;
     rf_Status := Some (doc BatchStatusCompleted) |}.
Lemma finalize_retry_safe_run :
  let lost := FinalizeResumableBatch 10 (NetErr true) NetOk (Some fin1) active_db in
  snd lost = Err ErrIO ∧
  FinalizeResumableBatch 20 NetOk NetOk (Some fin1) (run_all takeover (fst lost))
  = (run_all takeover (fst lost), Ok tt).
Proof.
  split; [reflexivity|].
  apply (finalize_retry_safe 10 (NetErr true) NetOk 20 fin1 (doc BatchStatusCompleted) active_row active_db _ takeover);
    [repeat split; discriminate|reflexivity|by right|reflexivity..|repeat constructor|repeat constructor|].
  repeat constructor; by intros [].
Defined.

Lemma requeue_keeps_progress_run :
  ∃ db', RequeueResumableOrphan 70000000 NetOk NetOk "b1" "p1" 1 true true active_db = (db', Ok tt).
Proof.
  destruct (requeue_keeps_progress 70000000 "b1" "p1" 1 true true active_db active_row)
    as (db' & r' & H & _); [reflexivity|reflexivity|reflexivity|reflexivity|reflexivity|].
  exists db'. exact H.
Defined.

Lemma subsecond_lease_is_void_run :
  ∃ db' r', RenewResumableBatchLease 10 NetOk "b1" "p1" 1 500000000 active_db = (db', Ok tt) ∧
    items db' !! "b1" = Some r' ∧ ownerLockCTE 10 "p1" 1 r' = false.
Proof.
  destruct (subsecond_lease_is_void 500000000 10 ltac:(lia)) as (H & _ & _).
  destruct (H "b1" "p1" 1 active_db _ ltac:(reflexivity)) as (r' & Hr & _ & Ho).
  eexists _, r'. split; [reflexivity|]. exact (conj Hr Ho).
Defined.

Lemma null_priority_claim_is_lost_run :
  let db := {| items := <["b9" := queued_row None]> ∅; entries := ∅ |} in
  ∃ db' r', PQDequeue 0 NetOk no_locks "p1" 30000000000 5 db = (db', Err (ErrOther "scan")) ∧
    items db' !! "b9" = Some r' ∧ owner_is "p1" 1 r' = true.
Proof.
  apply (null_priority_claim_is_lost 0 no_locks "p1" 30000000000 5 _ "b9" (queued_row None));
    [discriminate|reflexivity|reflexivity|left].
Defined.
