(* ===== verification/Planner.v ===== *)
(** * Plan files

    [internal/processor/worker/planner.go] and [plan_reader.go]: the per-model
    plan entries accumulated while a batch input is ingested, the safe file
    names model IDs are interned to, the binary plan files and their reader.

    A byte is a [Z] in [0, 256); the local disk is a map from path to content.
    Go's [int] counters are 64 bits wide and count names in memory, so they are
    unbounded here; the integers that reach the disk keep their width. *)

From Stdlib Require Import ZArith Lia Ascii String.
From stdpp Require Import base gmap strings list sorting pretty.
From S2P Require Import Prelude.
Local Open Scope string_scope.
Local Open Scope Z_scope.

Abbreviation bytes := (list Z).

(** ** Little-endian integers ([encoding/binary]) *)
Fixpoint PutUint (n : nat) (v : Z) : bytes :=
  match n with
  | O => []
  | S n' => Z.land v 255 :: PutUint n' (Z.shiftr v 8)
  end.
Fixpoint Uint (bs : bytes) : Z :=
  match bs with
  | [] => 0
  | b :: bs' => Z.lor b (Z.shiftl (Uint bs') 8)
  end.

(** The conversions [uint64(x)] and [int64(x)]. *)
Definition to_uint64 (x : Z) : Z := x mod 2 ^ 64.
Definition to_int64 (x : Z) : Z := if x <? 2 ^ 63 then x else x - 2 ^ 64.
Definition to_uint32 (x : Z) : Z := x mod 2 ^ 32.

(** ** Plan entries *)
Record planEntry := { Offset : Z; Length : Z; PrefixHash : Z }.
#[export] Instance planEntry_eq_dec : EqDecision planEntry.
Proof. solve_decision. Defined.

Definition planEntrySize : nat := 16.
Definition NoPrefixHash : Z := 4294967295.

Definition marshalBinary (e : planEntry) : bytes :=
  app (PutUint 8 (to_uint64 (Offset e))) (app (PutUint 4 (Length e)) (PutUint 4 (PrefixHash e))).

Definition unmarshalPlanEntry (buf : bytes) : planEntry :=
  {| Offset := to_int64 (Uint (take 8 buf));
     Length := Uint (take 4 (drop 8 buf));
     PrefixHash := Uint (take 4 (drop 12 buf)) |}.

(** The field ranges of the Go struct. *)
Definition plan_entry_ok (e : planEntry) : Prop :=
  - 2 ^ 63 ≤ Offset e < 2 ^ 63 ∧ 0 ≤ Length e < 2 ^ 32 ∧ 0 ≤ PrefixHash e < 2 ^ 32.

(** ** Disk *)
Abbreviation disk := (gmap string bytes).

(** The read loop of [readPlanEntries]: whole 16-byte records until EOF; a
    short record is [io.ErrUnexpectedEOF]. *)
Fixpoint read_records (fuel : nat) (content : bytes) : result (list planEntry) :=
  match content with
  | [] => Ok []
  | _ =>
      match fuel with
      | O => Err ErrIO
      | S fuel' =>
          if (length content <? planEntrySize)%nat then Err (ErrOther "failed to read plan entry")
          else match read_records fuel' (drop planEntrySize content) with
               | Ok es => Ok (unmarshalPlanEntry (take planEntrySize content) :: es)
               | Err e => Err e
               end
      end
  end.

Definition readPlanEntries (d : disk) (planFilePath : string) : result (list planEntry) :=
  match d !! planFilePath with
  | None => Err (ErrOther "failed to open plan file")
  | Some content =>
      if negb (Nat.modulo (length content) planEntrySize =? 0)%nat
      then Err (ErrOther "plan file size is not a multiple")
      else read_records (length content) content
  end.

(** ** Safe file names *)

(** [[a-zA-Z0-9._-]] *)
Definition safe_char (c : ascii) : bool :=
  let n := Z.of_nat (nat_of_ascii c) in
  ((97 <=? n) && (n <=? 122)) || ((65 <=? n) && (n <=? 90)) || ((48 <=? n) && (n <=? 57))
  || (n =? 46) || (n =? 95) || (n =? 45).

(** [safeFileNameRegex.ReplaceAllString(_, "_")]: each maximal run of other
    bytes becomes one underscore; [in_run] says the previous byte was replaced. *)
Fixpoint sanitize (in_run : bool) (s : string) : string :=
  match s with
  | EmptyString => EmptyString
  | String c s' =>
      if safe_char c then String c (sanitize false s')
      else if in_run then sanitize true s' else String "_" (sanitize true s')
  end.

Definition used_count (used : gmap string Z) (k : string) : Z := default 0 (used !! k).

Definition candidate (base : string) (n : Z) : string := base +:+ "_" +:+ pretty n.

(** The unbounded [for] loop, with fuel. *)
Fixpoint intern_loop (fuel : nat) (base : string) (used : gmap string Z) : option (string * gmap string Z) :=
  match fuel with
  | O => None
  | S fuel' =>
      let n := used_count used base + 1 in
      let used1 := <[base := n]> used in
      let cand := candidate base n in
      if used_count used1 cand =? 0 then Some (cand, <[cand := 1]> used1)
      else intern_loop fuel' base used1
  end.

Definition internModelID (modelID : string) (used : gmap string Z) : option (string * gmap string Z) :=
  let base0 := sanitize false modelID in
  let base := if bool_decide (base0 = "") then "unknown" else base0 in
  if used_count used base =? 0 then Some (base, <[base := 1]> used)
  else intern_loop (S (size used)) base used.

(** ** Accumulation *)
Record PlanState := {
  acc_entries : gmap string (list planEntry);
  modelToSafe : gmap string string;
  used : gmap string Z }.

Definition newPlanState : PlanState := {| acc_entries := ∅; modelToSafe := ∅; used := ∅ |}.

Definition Append (safeModelID : string) (e : planEntry) (m : gmap string (list planEntry))
    : gmap string (list planEntry) :=
  <[safeModelID := app (default [] (m !! safeModelID)) [e]]> m.

(** Returns the next offset; [None] only if interning ran out of fuel. *)
Definition accumulatePlanEntry (st : PlanState) (modelID : string) (offset length prefixHash : Z)
    : option (PlanState * Z) :=
  match match modelToSafe st !! modelID with
        | Some safe => Some (safe, modelToSafe st, used st)
        | None => '(safe, used') ← internModelID modelID (used st);
                  Some (safe, <[modelID := safe]> (modelToSafe st), used')
        end with
  | None => None
  | Some (safe, m2s, u) =>
      Some ({| acc_entries := Append safe {| Offset := offset; Length := length; PrefixHash := prefixHash |}
                                (acc_entries st);
               modelToSafe := m2s; used := u |}, offset + length)
  end.

(** ** Writing the plan files *)

(** How writing one plan file ends: every step may fail. *)
Inductive plan_io := PlanOk | PlanCreateFails | PlanWriteFails (k : nat) | PlanCloseFails | PlanRenameFails.

Definition hash_le (a b : planEntry) : Prop := PrefixHash a ≤ PrefixHash b.
#[export] Instance hash_le_dec : RelDecision hash_le.
Proof. unfold hash_le. intros a b. apply _. Defined.

(** [sort.Slice] orders by hash and leaves the order of equal hashes open. *)
Definition sort_plan (es : list planEntry) : list planEntry := merge_sort hash_le es.

Definition plan_content (es : list planEntry) : bytes := mjoin (marshalBinary <$> es).
Definition plan_path (plansDir safe : string) : string := plansDir +:+ "/" +:+ safe +:+ ".plan".
Definition plan_tmp (plansDir safe : string) : string := plansDir +:+ "/" +:+ safe +:+ ".plan.tmp".

Definition write_plan (plansDir : string) (io : string → plan_io) (safe : string) (es : list planEntry)
    (d : disk) : disk * result unit :=
  let tmp := plan_tmp plansDir safe in
  let sorted := sort_plan es in
  match io safe with
  | PlanCreateFails => (d, Err (ErrOther "create plan file"))
  | PlanWriteFails k => (delete tmp (<[tmp := plan_content (take k sorted)]> d), Err (ErrOther "write plan entry"))
  | PlanCloseFails => (delete tmp (<[tmp := plan_content sorted]> d), Err (ErrOther "close plan file"))
  | PlanRenameFails => (delete tmp (<[tmp := plan_content sorted]> d), Err (ErrOther "rename plan file"))
  | PlanOk => (delete tmp (<[plan_path plansDir safe := plan_content sorted]>
                            (<[tmp := plan_content sorted]> d)), Ok tt)
  end.

Fixpoint Finalize_loop (plansDir : string) (io : string → plan_io) (m : gmap string (list planEntry))
    (modelIDs : list string) (d : disk) : disk * result unit :=
  match modelIDs with
  | [] => (d, Ok tt)
  | safe :: rest =>
      match default [] (m !! safe) with
      | [] => Finalize_loop plansDir io m rest d
      | es => match write_plan plansDir io safe es d with
              | (d', Ok _) => Finalize_loop plansDir io m rest d'
              | (d', Err e) => (d', Err e)
              end
      end
  end.

Definition Finalize (mkdir : bool) (plansDir : string) (io : string → plan_io)
    (m : gmap string (list planEntry)) (modelIDs : list string) (d : disk) : disk * result unit :=
  if negb mkdir then (d, Err ErrIO) else Finalize_loop plansDir io m modelIDs d.

(** [sort.Strings]. *)
Definition string_le (a b : string) : Prop := String.leb a b = true.
#[export] Instance string_le_dec : RelDecision string_le.
Proof. unfold string_le. intros a b. apply _. Defined.

Definition finalizePlanFiles (mkdir : bool) (plansDir : string) (io : string → plan_io) (st : PlanState)
    (d : disk) : disk * result unit :=
  Finalize mkdir plansDir io (acc_entries st)
    (merge_sort string_le ((map_to_list (modelToSafe st)).*2)) d.

(** ** Encoding round trip *)

Lemma lor_byte b x : 0 ≤ b < 256 → Z.lor b (Z.shiftl x 8) = b + 256 * x.
Proof.
  intros Hb. rewrite <- Z.add_nocarry_lor; [rewrite Z.shiftl_mul_pow2 by lia; lia|].
  apply Z.bits_inj'. intros n Hn. rewrite Z.land_spec, Z.bits_0.
  destruct (decide (n < 8)).
  - rewrite Z.shiftl_spec_low by lia. apply andb_false_r.
  - destruct (decide (b = 0)) as [->|]; [by rewrite Z.bits_0|].
    rewrite (Z.bits_above_log2 b n); [done|lia|].
    assert (Z.log2 b < 8) by (apply Z.log2_lt_pow2; lia). lia.
Qed.

Lemma land_255 v : Z.land v 255 = v mod 256.
Proof. change 255 with (Z.ones 8). by rewrite Z.land_ones by lia. Qed.

Lemma Uint_PutUint n v : 0 ≤ v < 2 ^ (8 * Z.of_nat n) → Uint (PutUint n v) = v.
Proof.
  revert v. induction n as [|n IH]; intros v Hv; [cbn in *; lia|]. cbn [PutUint Uint].
  rewrite land_255, lor_byte by (apply Z.mod_pos_bound; lia).
  rewrite IH.
  - rewrite Z.shiftr_div_pow2 by lia. change (2 ^ 8) with 256. pose proof (Z.div_mod v 256). lia.
  - rewrite Z.shiftr_div_pow2 by lia. change (2 ^ 8) with 256.
    rewrite Nat2Z.inj_succ, Z.mul_succ_r, Z.pow_add_r in Hv by lia. change (2 ^ 8) with 256 in Hv.
    split; [apply Z.div_pos; lia|apply Z.div_lt_upper_bound; lia].
Qed.

Lemma PutUint_length n v : length (PutUint n v) = n.
Proof. revert v. induction n; intros; cbn; auto. Qed.

Lemma marshalBinary_length e : length (marshalBinary e) = planEntrySize.
Proof. unfold marshalBinary. by rewrite !length_app, !PutUint_length. Qed.

Lemma marshal_unmarshal e : plan_entry_ok e → unmarshalPlanEntry (marshalBinary e) = e.
Proof.
  intros (Ho & Hl & Hh). unfold unmarshalPlanEntry, marshalBinary.
  rewrite take_app_length' by by rewrite PutUint_length.
  rewrite drop_app_length' by by rewrite PutUint_length.
  rewrite take_app_length' by by rewrite PutUint_length.
  rewrite app_assoc, drop_app_length' by by rewrite length_app, !PutUint_length.
  rewrite take_ge by by rewrite PutUint_length.
  rewrite !Uint_PutUint; [|cbn; lia|cbn; lia|apply Z.mod_pos_bound; lia].
  destruct e as [o l h]. cbn in *. f_equal. unfold to_int64, to_uint64.
  destruct (decide (0 ≤ o)).
  - rewrite Z.mod_small by lia. destruct (Z.ltb_spec o (2 ^ 63)); lia.
  - rewrite <- (Z.mod_unique o (2 ^ 64) (-1) (o + 2 ^ 64)) by lia.
    destruct (Z.ltb_spec (o + 2 ^ 64) (2 ^ 63)); lia.
Qed.

Lemma read_records_content es fuel :
  Forall plan_entry_ok es → (length (plan_content es) ≤ fuel)%nat →
  read_records fuel (plan_content es) = Ok es.
Proof.
  revert fuel. induction es as [|e es IH]; intros fuel Hok Hf; [by destruct fuel|].
  inv Hok. assert (plan_content (e :: es) = app (marshalBinary e) (plan_content es)) as Hc by done.
  rewrite Hc in *. rewrite length_app, marshalBinary_length in Hf.
  destruct fuel as [|fuel]; [unfold planEntrySize in Hf; lia|].
  destruct (app _ _) as [|b bs] eqn:Happ.
  { apply (f_equal length) in Happ. rewrite length_app, marshalBinary_length in Happ. done. }
  cbn [read_records]. rewrite <- Happ.
  rewrite length_app, marshalBinary_length. destruct (Nat.ltb_spec (planEntrySize + length (plan_content es)) planEntrySize); [lia|].
  rewrite drop_app_length' by (by rewrite marshalBinary_length).
  rewrite take_app_length' by (by rewrite marshalBinary_length).
  rewrite IH; [|done|unfold planEntrySize in Hf; lia]. by rewrite marshal_unmarshal.
Qed.

Lemma plan_content_length es : length (plan_content es) = (length es * planEntrySize)%nat.
Proof.
  induction es as [|e es IH]; [done|].
  change (plan_content (e :: es)) with (app (marshalBinary e) (plan_content es)).
  rewrite length_app, marshalBinary_length, IH. cbn. lia.
Qed.

Lemma readPlanEntries_content d path es :
  Forall plan_entry_ok es → d !! path = Some (plan_content es) → readPlanEntries d path = Ok es.
Proof.
  intros Hok Hd. unfold readPlanEntries. rewrite Hd, plan_content_length, Nat.Div0.mod_mul. cbn [Nat.eqb negb].
  by rewrite read_records_content by (rewrite ?plan_content_length; done).
Qed.

(** A plan file written by Finalize reads back exactly: every record is
    16 bytes and decodes to the entry it encodes, for every int64 offset and
    every uint32 length and hash, and a file holding the encoding of a list of
    entries is read as that list. *)
Theorem plan_file_roundtrip d path es :
  Forall plan_entry_ok es → d !! path = Some (plan_content es) →
  Forall (λ e, length (marshalBinary e) = planEntrySize ∧ unmarshalPlanEntry (marshalBinary e) = e) es ∧
  readPlanEntries d path = Ok es.
Proof.
  intros Hok Hd. split; [|by apply readPlanEntries_content].
  eapply Forall_impl; [apply Hok|]. intros e He.
  split; [apply marshalBinary_length|by apply marshal_unmarshal].
Qed.

(** ** Interning *)

(** A file name the plan directory can hold: the regex's characters only, so
    in particular no slash. *)
Fixpoint safe_name (s : string) : bool :=
  match s with EmptyString => true | String c s' => safe_char c && safe_name s' end.

Lemma safe_name_app a b : safe_name (a +:+ b) = safe_name a && safe_name b.
Proof.
  induction a as [|c a IH]; [done|]. change (String c a +:+ b) with (String c (a +:+ b)).
  cbn [safe_name]. by rewrite IH, andb_assoc.
Qed.

Lemma sanitize_safe b s : safe_name (sanitize b s) = true.
Proof.
  revert b. induction s as [|c s IH]; intros b; cbn; [done|].
  destruct (safe_char c) eqn:Hc; cbn [safe_name]; [by rewrite Hc, IH|].
  destruct b; [apply IH|]. cbn [safe_name]. by rewrite IH.
Qed.

Lemma pretty_N_safe (n : N) : safe_name (pretty n) = true.
Proof.
  assert (∀ s, safe_name s = true → safe_name (pretty_N_go n s) = true) as Hgo.
  { induction (N.lt_wf_0 n) as [x _ IH]. intros s Hs.
    destruct (decide (0 < x)%N); [|assert (x = 0%N) as -> by lia; by rewrite pretty_N_go_0].
    rewrite pretty_N_go_step by done. apply IH; [by apply N.div_lt|]. cbn. rewrite Hs.
    unfold pretty_N_char. by repeat case_match. }
  unfold pretty, pretty_N. case_decide; [done|]. by apply Hgo.
Qed.

Lemma candidate_safe base n : 0 < n → safe_name base = true → safe_name (candidate base n) = true.
Proof.
  intros Hn Hb. unfold candidate. rewrite !safe_name_app, Hb. destruct n as [|n|n]; [lia| |lia].
  apply pretty_N_safe.
Qed.

Lemma string_length_app a b : String.length (a +:+ b) = (String.length a + String.length b)%nat.
Proof.
  induction a as [|c a IH]; [done|]. change (String c a +:+ b) with (String c (a +:+ b)).
  cbn [String.length]. by rewrite IH.
Qed.

Lemma candidate_ne base n : candidate base n ≠ base.
Proof.
  intros H. apply (f_equal String.length) in H. unfold candidate in H.
  rewrite !string_length_app in H. cbn in H. lia.
Qed.

Lemma candidate_inj base n m : candidate base n = candidate base m → n = m.
Proof. unfold candidate. intros H%(inj (String.append base)). by apply (inj (String.append "_")), (inj pretty) in H. Qed.

(** Every recorded name has a positive count. *)
Definition used_wf (u : gmap string Z) : Prop := map_Forall (λ _ n, 1 ≤ n) u.

Lemma used_count_0 u k : used_wf u → used_count u k = 0 ↔ u !! k = None.
Proof.
  intros Hw. unfold used_count. destruct (u !! k) eqn:Hk; [|done]. cbn. specialize (Hw _ _ Hk). cbn in Hw.
  split; [lia|done].
Qed.

(** As long as the loop runs, the names base_(c+1), base_(c+2), ... are taken;
    they are distinct, so it stops within [size used + 1] rounds. *)
Lemma intern_loop_spec fuel base u :
  used_wf u → is_Some (u !! base) → safe_name base = true →
  (∃ seen : gset string, seen ⊆ dom u ∧ base ∈ seen ∧
     (∀ k, k ∈ seen → k ≠ base → ∃ n, n ≤ used_count u base ∧ k = candidate base n) ∧
     (size u < fuel + size seen)%nat) →
  ∃ safe u', intern_loop fuel base u = Some (safe, u') ∧ used_wf u' ∧ u !! safe = None ∧
    dom u' = {[safe]} ∪ dom u ∧ safe_name safe = true.
Proof.
  revert u. induction fuel as [|fuel IH]; intros u Hw [c Hc] Hs (seen & Hsub & Hbase & Hseen & Hsize).
  { exfalso. apply subseteq_size in Hsub. rewrite size_dom in Hsub. lia. }
  cbn [intern_loop]. assert (used_count u base = c) as Hcnt by (unfold used_count; by rewrite Hc).
  rewrite Hcnt in *. assert (1 ≤ c) by by apply (Hw base).
  set (u1 := <[base := c + 1]> u). assert (used_wf u1) as Hw1 by (apply map_Forall_insert_2; [lia|done]).
  assert (dom u1 = dom u) as Hd1.
  { unfold u1. rewrite dom_insert_L. apply subseteq_union_1_L, singleton_subseteq_l, elem_of_dom. eauto. }
  destruct (used_count u1 (candidate base (c + 1)) =? 0) eqn:Hz; boolify.
  - apply used_count_0 in Hz; [|done]. unfold u1 in Hz. rewrite lookup_insert_ne in Hz by (intros Heq; by apply (candidate_ne base (c + 1))).
    eexists _, _. split; [done|]. split_and!; [apply map_Forall_insert_2; [lia|done]|done|by rewrite dom_insert_L, Hd1|].
    apply candidate_safe; [lia|done].
  - assert (is_Some (u !! candidate base (c + 1))) as Hcand.
    { destruct (u !! candidate base (c + 1)) eqn:He; [by eauto|]. exfalso. apply Hz, used_count_0; [done|].
      unfold u1. rewrite lookup_insert_ne by (intros Heq; by apply (candidate_ne base (c + 1))). done. }
    assert (used_count u1 base = c + 1) as Hc1 by (unfold used_count, u1; by rewrite lookup_insert_eq).
    destruct (IH u1) as (safe & u' & Hl & Hw' & Hn & Hd & Hsf); [done|unfold u1; rewrite lookup_insert_eq; by eauto|done| |].
    + exists ({[candidate base (c + 1)]} ∪ seen). rewrite Hc1, Hd1. split_and!.
      * apply union_subseteq. split; [|done]. by apply singleton_subseteq_l, elem_of_dom.
      * set_solver.
      * intros k [->%elem_of_singleton|Hk]%elem_of_union Hne; [exists (c + 1); split; [lia|done]|].
        destruct (Hseen k Hk Hne) as (n & ? & ->). exists n. split; [lia|done].
      * rewrite size_union, size_singleton.
        -- rewrite <- (size_dom u1), Hd1, size_dom. lia.
        -- apply disjoint_singleton_l. intros Hin. destruct (Hseen _ Hin (candidate_ne _ _)) as (n & Hn & Heq).
           apply candidate_inj in Heq. lia.
    + exists safe, u'. rewrite Hd, Hd1. split_and!; try done.
      unfold u1 in Hn. destruct (decide (safe = base)) as [->|]; [by rewrite lookup_insert_eq in Hn|].
      by rewrite lookup_insert_ne in Hn.
Qed.

Lemma internModelID_spec modelID u :
  used_wf u →
  ∃ safe u', internModelID modelID u = Some (safe, u') ∧ used_wf u' ∧ u !! safe = None ∧
    dom u' = {[safe]} ∪ dom u ∧ safe_name safe = true.
Proof.
  intros Hw. unfold internModelID. set (base := if bool_decide _ then "unknown" else _).
  assert (safe_name base = true) as Hs by (unfold base; case_bool_decide; [done|apply sanitize_safe]).
  destruct (used_count u base =? 0) eqn:Hz; boolify.
  - apply used_count_0 in Hz; [|done]. eexists _, _. split; [done|].
    split_and!; [apply map_Forall_insert_2; [lia|done]|done|by rewrite dom_insert_L|done].
  - assert (is_Some (u !! base)) as Hb.
    { destruct (u !! base) eqn:He; [by eauto|]. exfalso. by apply Hz, used_count_0. }
    apply intern_loop_spec; try done. exists {[base]}. rewrite size_singleton. split_and!; try lia.
    + by apply singleton_subseteq_l, elem_of_dom.
    + set_solver.
    + intros k ->%elem_of_singleton. done.
Qed.

(** ** Accumulated state *)

Definition plan_wf (st : PlanState) : Prop :=
  used_wf (used st) ∧
  (∀ m1 m2 s, modelToSafe st !! m1 = Some s → modelToSafe st !! m2 = Some s → m1 = m2) ∧
  (∀ m s, modelToSafe st !! m = Some s → is_Some (used st !! s) ∧ safe_name s = true) ∧
  (∀ s es, acc_entries st !! s = Some es → ∃ m, modelToSafe st !! m = Some s).

(** The entries accumulated for a model, in input order. *)
Definition model_entries (st : PlanState) (m : string) : list planEntry :=
  match modelToSafe st !! m with Some s => default [] (acc_entries st !! s) | None => [] end.

Lemma newPlanState_wf : plan_wf newPlanState.
Proof.
  split_and!; cbn.
  - apply map_Forall_empty.
  - intros ??? H. by apply lookup_empty_Some in H.
  - intros ?? H. by apply lookup_empty_Some in H.
  - intros ?? H. by apply lookup_empty_Some in H.
Qed.

Lemma accumulate_known st m s o l h :
  plan_wf st → modelToSafe st !! m = Some s →
  let e := {| Offset := o; Length := l; PrefixHash := h |} in
  let st' := {| acc_entries := Append s e (acc_entries st); modelToSafe := modelToSafe st; used := used st |} in
  plan_wf st' ∧ ∀ m', model_entries st' m' = app (model_entries st m') (if decide (m' = m) then [e] else []).
Proof.
  intros (Hu & Hinj & Hused & Hacc) Hm. split.
  - split_and!; cbn; try done. unfold Append. intros s' es.
    destruct (decide (s = s')) as [->|]; [by eauto|]. rewrite lookup_insert_ne by done. eauto.
  - intros m'. unfold model_entries, Append. cbn. destruct (modelToSafe st !! m') as [s'|] eqn:Hm'.
    + destruct (decide (m' = m)) as [->|Hne].
      * assert (s' = s) as -> by congruence. by rewrite lookup_insert_eq.
      * rewrite lookup_insert_ne by (intros ->; apply Hne; by eapply Hinj). by rewrite app_nil_r.
    + rewrite decide_False by congruence. done.
Qed.

Lemma accumulate_spec st m o l h :
  plan_wf st →
  ∃ st', accumulatePlanEntry st m o l h = Some (st', o + l) ∧ plan_wf st' ∧
    (∀ m', model_entries st' m' =
           app (model_entries st m')
             (if decide (m' = m) then [{| Offset := o; Length := l; PrefixHash := h |}] else [])) ∧
    is_Some (modelToSafe st' !! m) ∧ modelToSafe st ⊆ modelToSafe st' ∧
    (∀ m', is_Some (modelToSafe st' !! m') → is_Some (modelToSafe st !! m') ∨ m' = m).
Proof.
  intros Hwf. unfold accumulatePlanEntry. destruct (modelToSafe st !! m) as [s|] eqn:Hm.
  { destruct (accumulate_known st m s o l h Hwf Hm) as [Hwf' Hme].
    eexists. split; [reflexivity|]. split_and!; try done. by left. }
  pose proof Hwf as (Hu & Hinj & Hused & Hacc).
  destruct (internModelID_spec m (used st) Hu) as (s & u' & Hint & Hu' & Hfresh & Hdom & Hsafe).
  rewrite Hint. cbn.
  set (st1 := {| acc_entries := acc_entries st; modelToSafe := <[m := s]> (modelToSafe st); used := u' |}).
  assert (∀ m' s', modelToSafe st !! m' = Some s' → s' ≠ s) as Hne.
  { intros m' s' Hm' ->. destruct (Hused _ _ Hm') as [[? ?] _]. congruence. }
  assert (plan_wf st1) as Hwf1.
  { split_and!; cbn; try done.
    - intros m1 m2 s'. rewrite !lookup_insert. repeat case_decide; intros; simplify_eq; try done.
      + exfalso. by eapply Hne.
      + exfalso. by eapply Hne.
      + by eapply Hinj.
    - intros m' s'. rewrite lookup_insert. case_decide.
      + intros [= <-]. split; [|done]. apply elem_of_dom. set_solver.
      + intros [Hin ?]%Hused. split; [|done]. apply elem_of_dom. apply elem_of_dom in Hin. set_solver.
    - intros s' es [m' Hm']%Hacc. exists m'. rewrite lookup_insert_ne; [done|congruence]. }
  destruct (accumulate_known st1 m s o l h Hwf1 ltac:(cbn; by rewrite lookup_insert_eq)) as [Hwf' Hme].
  eexists. split; [reflexivity|]. split_and!; try done.
  - intros m'. rewrite Hme. f_equal. unfold model_entries, st1. cbn.
    rewrite lookup_insert. case_decide; [|done]. subst. rewrite Hm.
    destruct (acc_entries st !! s) eqn:Ha; [|done]. destruct (Hacc _ _ Ha) as [m0 Hm0]. exfalso. by eapply Hne.
  - cbn. rewrite lookup_insert_eq. eauto.
  - cbn. by apply insert_subseteq.
  - intros m'. cbn. rewrite lookup_insert. case_decide; auto.
Qed.

(** ** Plan files on disk *)

Lemma chars_app (a b : string) : list_ascii_of_string (a +:+ b) = app (list_ascii_of_string a) (list_ascii_of_string b).
Proof.
  induction a as [|c a IH]; [done|]. change (String c a +:+ b) with (String c (a +:+ b)). cbn. by rewrite IH.
Qed.

Lemma plan_path_inj dir s1 s2 : plan_path dir s1 = plan_path dir s2 → s1 = s2.
Proof.
  unfold plan_path. intros H. apply (f_equal list_ascii_of_string) in H. rewrite !chars_app in H.
  apply app_inv_head, app_inv_head, app_inv_tail in H.
  rewrite <- (string_of_list_ascii_of_string s1), <- (string_of_list_ascii_of_string s2). by rewrite H.
Qed.

Lemma plan_tmp_ne_path dir s1 s2 : plan_tmp dir s1 ≠ plan_path dir s2.
Proof.
  unfold plan_path, plan_tmp. intros H. apply (f_equal list_ascii_of_string), (f_equal last) in H.
  rewrite !chars_app, !app_assoc in H. rewrite !last_app in H. cbn in H. congruence.
Qed.

Lemma write_plan_sound dir io s es d d' :
  write_plan dir io s es d = (d', Ok tt) →
  d' = delete (plan_tmp dir s) (<[plan_path dir s := plan_content (sort_plan es)]>
         (<[plan_tmp dir s := plan_content (sort_plan es)]> d)).
Proof. unfold write_plan. destruct (io s); by intros [= <-]. Qed.

Lemma Finalize_loop_succeeds dir io m ids d :
  (∀ s, io s = PlanOk) → ∃ d', Finalize_loop dir io m ids d = (d', Ok tt).
Proof.
  intros Hio. revert d. induction ids as [|s ids IH]; intros d; cbn; [by eauto|].
  destruct (default [] (m !! s)) as [|e es]; [by eauto|]. unfold write_plan at 1. rewrite Hio. eauto.
Qed.

Lemma Finalize_loop_sound dir io m ids d d' :
  NoDup ids → Finalize_loop dir io m ids d = (d', Ok tt) →
    (∀ s es, s ∈ ids → m !! s = Some es → es ≠ [] →
       d' !! plan_path dir s = Some (plan_content (sort_plan es))) ∧
    (∀ s, s ∉ ids → d' !! plan_path dir s = d !! plan_path dir s).
Proof.
  revert d. induction ids as [|s ids IH]; intros d Hnd; cbn.
  { intros [= <-]. split; [|done]. intros ?? H. by apply elem_of_nil in H. }
  apply NoDup_cons in Hnd as [Hni Hnd].
  destruct (default [] (m !! s)) as [|e es] eqn:Hes.
  - intros [Hin Hout]%IH; [|done]. split.
    + intros s' es' [->|Hs']%elem_of_cons Hm Hne; [|by eauto]. rewrite Hm in Hes. done.
    + intros s' Hs'. apply Hout. set_solver.
  - destruct (write_plan dir io s (e :: es) d) as [d1 [[]|]] eqn:Hw; [|done].
    apply write_plan_sound in Hw. intros [Hin Hout]%IH; [|done]. split.
    + intros s' es' [->|Hs']%elem_of_cons Hm Hne; [|by eauto]. rewrite Hout by done. subst d1.
      rewrite lookup_delete_ne by apply plan_tmp_ne_path. rewrite lookup_insert_eq.
      rewrite Hm in Hes. cbn in Hes. by subst.
    + intros s' Hs'. rewrite Hout by set_solver. subst d1.
      rewrite lookup_delete_ne by apply plan_tmp_ne_path.
      rewrite lookup_insert_ne by (intros Heq%plan_path_inj; set_solver).
      by rewrite lookup_insert_ne by apply plan_tmp_ne_path.
Qed.

#[export] Instance hash_le_total : Total hash_le.
Proof. intros a b. unfold hash_le. lia. Qed.
#[export] Instance hash_le_trans : Transitive hash_le.
Proof. intros a b c. unfold hash_le. lia. Qed.

Lemma safe_ids_NoDup st :
  plan_wf st → NoDup (merge_sort string_le ((map_to_list (modelToSafe st)).*2)).
Proof.
  intros (_ & Hinj & _). rewrite merge_sort_Permutation. apply NoDup_fmap_2_strong; [|apply NoDup_map_to_list].
  intros [m1 s1] [m2 s2] H1%elem_of_map_to_list H2%elem_of_map_to_list Heq. cbn in Heq. subst.
  by rewrite (Hinj m1 m2 s2).
Qed.

Lemma finalize_reads_back mkdir st dir io d d' :
  plan_wf st → finalizePlanFiles mkdir dir io st d = (d', Ok tt) →
  ∀ m s, modelToSafe st !! m = Some s → model_entries st m ≠ [] → Forall plan_entry_ok (model_entries st m) →
    readPlanEntries d' (plan_path dir s) = Ok (sort_plan (model_entries st m)).
Proof.
  intros Hwf. unfold finalizePlanFiles, Finalize. destruct mkdir; cbn [negb]; [|done].
  intros Hd' m s Hm Hne Hok.
  destruct (Finalize_loop_sound _ _ _ _ _ _ (safe_ids_NoDup st Hwf) Hd') as [Hin _].
  unfold model_entries in *. rewrite Hm in *.
  destruct (acc_entries st !! s) as [es|] eqn:Hes; [|done]. cbn in *.
  apply readPlanEntries_content.
  - unfold sort_plan. by rewrite merge_sort_Permutation.
  - apply Hin; try done. rewrite merge_sort_Permutation. apply list_elem_of_fmap.
    exists (m, s). by rewrite elem_of_map_to_list.
Qed.

(** Model IDs are interned safely: interning a sequence of model IDs, from
    an empty table and with the loop's own fuel, always succeeds; every plan
    file name consists of [a-zA-Z0-9._-] only (so it cannot leave the plan
    directory), and distinct models never share a file name, even when their
    IDs sanitize to the same text or to an already suffixed name. *)
Theorem interned_names_unique (calls : list (string * planEntry)) :
  ∃ st, foldl (λ o c, st ← o; fst <$> accumulatePlanEntry st c.1 (Offset c.2) (Length c.2) (PrefixHash c.2))
          (Some newPlanState) calls = Some st ∧
    (∀ c, c ∈ calls → ∃ s, modelToSafe st !! c.1 = Some s ∧ safe_name s = true) ∧
    (∀ m1 m2 s, modelToSafe st !! m1 = Some s → modelToSafe st !! m2 = Some s → m1 = m2).
Proof.
  assert (∀ st0, plan_wf st0 → ∃ st,
    foldl (λ o c, st ← o; fst <$> accumulatePlanEntry st c.1 (Offset c.2) (Length c.2) (PrefixHash c.2))
      (Some st0) calls = Some st ∧ plan_wf st ∧ modelToSafe st0 ⊆ modelToSafe st ∧
    (∀ c, c ∈ calls → is_Some (modelToSafe st !! c.1))) as H.
  { induction calls as [|c calls IH]; intros st0 Hwf.
    { exists st0. split_and!; try done. intros ? Hin. by apply elem_of_nil in Hin. }
    destruct (accumulate_spec st0 c.1 (Offset c.2) (Length c.2) (PrefixHash c.2) Hwf)
      as (st1 & Hacc & Hwf1 & _ & Hsome & Hsub & _).
    cbn [foldl]. cbn. rewrite Hacc. cbn. destruct (IH st1 Hwf1) as (st & Hst & Hw & Hs & Hin).
    exists st. split_and!; [done|done|by trans (modelToSafe st1)|].
    intros c' [->|Hc']%elem_of_cons; [|by apply Hin]. destruct Hsome as [s Hs0].
    exists s. by eapply lookup_weaken. }
  destruct (H newPlanState newPlanState_wf) as (st & Hst & (_ & Hinj & Hused & _) & _ & Hin).
  exists st. split_and!; try done. intros c Hc. destruct (Hin c Hc) as [s Hs].
  exists s. split; [done|]. by apply (Hused c.1).
Qed.

Definition demo_entries : list planEntry :=
  [ {| Offset := 0; Length := 120; PrefixHash := NoPrefixHash |};
    {| Offset := 120; Length := 4294967295; PrefixHash := 7 |} ].
Lemma plan_file_roundtrip_run :
  readPlanEntries (<["p.plan" := plan_content demo_entries]> ∅) "p.plan" = Ok demo_entries.
Proof.
  apply (plan_file_roundtrip _ "p.plan" demo_entries); [|reflexivity].
  repeat apply Forall_cons_2; try apply Forall_nil_2; unfold plan_entry_ok, NoPrefixHash; cbn; lia.
Defined.
