(* ===== verification/Preprocess.v ===== *)
(** * Ingestion of a batch input

    [internal/processor/worker/preprocessor.go] and [manifest.go]: the
    streaming loop that validates every input line, rejects lines of
    unregistered models, accumulates the per-model plans and the request
    manifest, and writes the local copy of the input.

    What lies outside the repository is a parameter of the section: the JSON
    decoder of a request line, the UUID behind stable request IDs, the
    marshalled error line of a rejected request and its SHA-256, and the
    gateway registry.  The outcomes of I/O are a record. *)

From Stdlib Require Import ZArith Lia Ascii String.
From stdpp Require Import base gmap strings list sorting pretty.
From S2P Require Import Prelude Openai Store Planner.
Local Open Scope string_scope.
Local Open Scope Z_scope.

(** ** Manifest *)
Record manifestEntry := {
  me_Ordinal : Z; me_CustomID : string; me_RequestID : string; me_Rejected : bool;
  me_ErrorCode : string; me_ResultKey : string; me_ResultBytes : Z; me_ResultSHA256 : string;
  me_ErrLine : bytes }.
Abbreviation requestManifest := (list manifestEntry).

Definition resumableResultKey (batchID requestID : string) : string :=
  "results/" +:+ batchID +:+ "/" +:+ requestID +:+ ".jsonl".

Definition activationEntry (e : manifestEntry) : ActivationEntry :=
  if me_Rejected e then
    {| a_request_id := me_RequestID e; a_ordinal := me_Ordinal e; a_custom_id := me_CustomID e;
       a_status := EFailed; a_error_code := me_ErrorCode e; a_result_key := me_ResultKey e;
       a_result_bytes := me_ResultBytes e; a_result_sha256 := me_ResultSHA256 e |}
  else
    {| a_request_id := me_RequestID e; a_ordinal := me_Ordinal e; a_custom_id := me_CustomID e;
       a_status := EPending; a_error_code := ""; a_result_key := ""; a_result_bytes := 0;
       a_result_sha256 := "" |}.
Definition activationEntries (m : requestManifest) : list ActivationEntry := activationEntry <$> m.

(** ** Request lines *)

(** A [json.RawMessage] of a message content, as far as [messageText] looks
    into it; [RawArray None] is an array whose elements do not decode. *)
Inductive raw_content :=
| RawEmpty | RawNull | RawString (text : string)
| RawArray (parts : option (list (string * string))) | RawOther.

Record planRequestLine := {
  pr_CustomID : string; pr_Method : string; pr_URL : string; pr_Model : string;
  pr_Stream : option bool; pr_Messages : list (string * raw_content) }.

Definition messageText (content : raw_content) : result string :=
  match content with
  | RawEmpty | RawNull => Ok ""
  | RawString text => Ok text
  | RawArray None => Err (ErrOther "json")
  | RawArray (Some parts) =>
      Ok (foldr (λ p acc, if bool_decide (p.1 = "text") then p.2 +:+ acc else acc) "" parts)
  | RawOther => Err (ErrOther "must be a string or an array of content parts")
  end.

(** FNV-32a ([hash/fnv]). *)
Definition fnv32a (text : string) : Z :=
  foldl (λ h c, (Z.lxor h (Z.of_nat (nat_of_ascii c)) * 16777619) mod 2 ^ 32) 2166136261
    (list_ascii_of_string text).

(** The first system message with a non-empty text decides the hash. *)
Fixpoint prefixHashOf (msgs : list (string * raw_content)) : result Z :=
  match msgs with
  | [] => Ok NoPrefixHash
  | (role, content) :: rest =>
      if negb (bool_decide (role = "system")) then prefixHashOf rest
      else match messageText content with
           | Err e => Err e
           | Ok text => if bool_decide (text = "") then prefixHashOf rest else Ok (fnv32a text)
           end
  end.

Record requestMeta := { rm_CustomID : string; rm_ModelID : string; rm_PrefixHash : Z }.

Definition has_prefix (p s : string) : bool := String.prefix p s.
Definition contains (sub s : string) : bool :=
  match String.index 0 sub s with Some _ => true | None => false end.

(** [bytes.TrimSuffix(line, "\n")]. *)
Definition trim_newline (line : bytes) : bytes :=
  match last line with Some 10 => removelast line | _ => line end.

(** ** Route keys *)
Inductive RouteKeyMethod := RouteKeyMethodModel | RouteKeyMethodTenant.
Definition routeKey (method : RouteKeyMethod) (tenantID modelID : string) : string :=
  match method with
  | RouteKeyMethodTenant => if bool_decide (tenantID = "") then modelID else tenantID +:+ "/" +:+ modelID
  | RouteKeyMethodModel => modelID
  end.

(** The three cases of [lookupModel]: no check, per-model sync gateways, async
    pools. *)
Inductive Lookup :=
| LookupNone
| LookupSync (method : RouteKeyMethod) (clientFor : string → bool)
| LookupAsync (sharedClientFor : string → bool).

(** ** The input stream *)

(** A download: its bytes, then EOF ([None]) or a read error. *)
Record Reader := { rd_data : bytes; rd_err : option err }.

(** [ReadBytes('\n')]: the bytes up to and including the delimiter. *)
Fixpoint break_newline (data : bytes) : bytes * bytes * bool :=
  match data with
  | [] => ([], [], false)
  | b :: rest => if b =? 10 then ([b], rest, true)
                 else let '(l, r, f) := break_newline rest in (b :: l, r, f)
  end.

Definition readNormalizedLine (r : Reader) : Reader * result (option bytes) :=
  let '(line, rest, found) := break_newline (rd_data r) in
  let r' := {| rd_data := rest; rd_err := rd_err r |} in
  if found then (r', Ok (Some line))
  else match rd_err r with
       | Some e => (r', Err e)
       | None => match line with
                 | [] => (r', Ok None)
                 | _ => (r', Ok (Some (app line [10])))
                 end
       end.

Record modelMapFile := {
  mm_ModelToSafe : gmap string string; mm_SafeToModel : gmap string string;
  mm_LineCount : Z; mm_RejectedCount : Z }.

(** The job directory: the plan files, the local input copy and the model map. *)
Record JobDir := { jd_plans : disk; jd_input : option bytes; jd_map : option modelMapFile }.

(** Outcomes of the environment: the cancellation cause seen by iteration
    [i], the cause when an error is returned, and every I/O step. *)
Record Env := {
  env_cause : nat → option err;
  env_cause_end : option err;
  env_root : result unit; env_mkdir : result unit; env_open : result Reader; env_create : result unit;
  env_write_fails : Z → bool;
  env_flushed : nat;
  env_flush : bool;
  env_plans_mkdir : bool; env_plan_io : string → plan_io;
  env_map_ok : bool }.

Section Preprocess.
Context (unmarshal : bytes → option planRequestLine).
Context (uuidSHA1 : string → string).
Context (errorLine : string → string → string → bytes).
Context (sha256hex : bytes → string).
Context (allowlist : EndpointAllowlist) (batchEndpoint : string) (jobID tenantID : string).
Context (lookup : Lookup) (plansDir : string).

Definition newBatchRequestID (requestID : string) : string := "batch_req_" +:+ requestID.
Definition stableBatchRequestID (batchID customID : string) : string :=
  newBatchRequestID (uuidSHA1 (batchID +:+ String Ascii.zero customID)).

Definition rejectedEntry (batchID : string) (ordinal : Z) (customID requestID errorCode : string)
    (errLine : bytes) : manifestEntry :=
  {| me_Ordinal := ordinal; me_CustomID := customID; me_RequestID := requestID; me_Rejected := true;
     me_ErrorCode := errorCode; me_ResultKey := resumableResultKey batchID requestID;
     me_ResultBytes := Z.of_nat (length errLine); me_ResultSHA256 := sha256hex errLine;
     me_ErrLine := errLine |}.

Definition acceptedEntry (ordinal : Z) (customID requestID : string) : manifestEntry :=
  {| me_Ordinal := ordinal; me_CustomID := customID; me_RequestID := requestID; me_Rejected := false;
     me_ErrorCode := ""; me_ResultKey := ""; me_ResultBytes := 0; me_ResultSHA256 := ""; me_ErrLine := [] |}.

Definition extractAndValidateLine (line : bytes) : result requestMeta :=
  match unmarshal (trim_newline line) with
  | None => Err (ErrOther "json")
  | Some req =>
      if bool_decide (pr_CustomID req = "") then Err (ErrOther "custom_id is required")
      else if bool_decide (pr_Method req = "") then Err (ErrOther "method is required")
      else if negb (bool_decide (pr_Method req = "POST")) then Err (ErrOther "invalid method")
      else if bool_decide (pr_URL req = "") then Err (ErrOther "url is required")
      else if negb (has_prefix "/" (pr_URL req)) || has_prefix "//" (pr_URL req)
              || contains "://" (pr_URL req)
      then Err (ErrOther "url must be a relative path")
      else if negb (IsValid allowlist (pr_URL req)) then Err (ErrOther "invalid endpoint")
      else if negb (bool_decide (pr_URL req = batchEndpoint))
      then Err (ErrOther "request endpoint does not match batch endpoint")
      else if bool_decide (pr_Model req = "") then Err (ErrOther "model id is empty")
      else match pr_Stream req with
      | Some true => Err (ErrOther "streaming is not supported in batch requests")
      | _ => match prefixHashOf (pr_Messages req) with
             | Err e => Err e
             | Ok h => Ok {| rm_CustomID := pr_CustomID req; rm_ModelID := pr_Model req; rm_PrefixHash := h |}
             end
      end
  end.

(** The variables of the streaming loop. *)
Record PP := {
  pp_offset : Z; pp_lineCount : Z; pp_rejected : Z; pp_plan : PlanState; pp_seen : gset string;
  pp_registered : gmap string bool; pp_manifest : requestManifest; pp_written : bytes }.
Definition PP_init : PP :=
  {| pp_offset := 0; pp_lineCount := 0; pp_rejected := 0; pp_plan := newPlanState; pp_seen := ∅;
     pp_registered := ∅; pp_manifest := []; pp_written := [] |}.

(** [lookupModel], with the memo table of the sync case. *)
Definition lookupModel (cache : gmap string bool) (modelID : string) : bool * gmap string bool :=
  match lookup with
  | LookupNone => (true, cache)
  | LookupSync method clientFor =>
      let key := routeKey method tenantID modelID in
      match cache !! key with
      | Some registered => (registered, cache)
      | None => (clientFor key, <[key := clientFor key]> cache)
      end
  | LookupAsync shared => (shared modelID, cache)
  end.

(** One iteration, after the line has been read. *)
Definition process_line (env : Env) (st : PP) (line : bytes) : result PP :=
  let n := pp_lineCount st + 1 in
  if env_write_fails env n then Err (ErrOther "write line")
  else
  match extractAndValidateLine line with
  | Err e => Err e
  | Ok meta =>
      let cid := rm_CustomID meta in
      if bool_decide (cid ∈ pp_seen st) then Err (ErrOther "duplicate custom_id")
      else
      let rid := stableBatchRequestID jobID cid in
      let '(registered, cache) := lookupModel (pp_registered st) (rm_ModelID meta) in
      if negb registered then
        Ok {| pp_offset := pp_offset st + Z.of_nat (length line); pp_lineCount := n;
              pp_rejected := pp_rejected st + 1; pp_plan := pp_plan st; pp_seen := {[cid]} ∪ pp_seen st;
              pp_registered := cache;
              pp_manifest := app (pp_manifest st)
                [rejectedEntry jobID (n - 1) cid rid "model_not_found" (errorLine rid cid (rm_ModelID meta))];
              pp_written := app (pp_written st) line |}
      else
        match accumulatePlanEntry (pp_plan st) (rm_ModelID meta) (pp_offset st)
                (to_uint32 (Z.of_nat (length line))) (rm_PrefixHash meta) with
        | None => Err (ErrOther "intern")
        | Some (plan, nextOffset) =>
            Ok {| pp_offset := nextOffset; pp_lineCount := n; pp_rejected := pp_rejected st;
                  pp_plan := plan; pp_seen := {[cid]} ∪ pp_seen st; pp_registered := cache;
                  pp_manifest := app (pp_manifest st) [acceptedEntry (n - 1) cid rid];
                  pp_written := app (pp_written st) line |}
        end
  end.

(** The streaming loop; every iteration consumes input, so the number of
    remaining bytes plus one is enough fuel.  The bytes written so far are
    returned with an error. *)
Fixpoint preprocess_loop (env : Env) (fuel : nat) (i : nat) (st : PP) (r : Reader) : bytes * result PP :=
  match fuel with
  | O => (pp_written st, Err (ErrOther "fuel"))
  | S fuel' =>
      match env_cause env i with
      | Some s => (pp_written st, Err s)
      | None =>
          let '(r', res) := readNormalizedLine r in
          match res with
          | Err e => (pp_written st, Err e)
          | Ok None => (pp_written st, Ok st)
          | Ok (Some line) =>
              match process_line env st line with
              | Err e => (app (pp_written st) line, Err e)
              | Ok st' => preprocess_loop env fuel' (S i) st' r'
              end
          end
      end
  end.

(** [writeModelMappings]: the file replaces the old one by a rename, or not at
    all. *)
Definition invert (m : gmap string string) : gmap string string :=
  list_to_map ((λ ms, (ms.2, ms.1)) <$> map_to_list m).
Definition writeModelMappings (ok : bool) (m : gmap string string) (lineCount rejectedCount : Z) (d : JobDir)
    : JobDir * result unit :=
  if ok then ({| jd_plans := jd_plans d; jd_input := jd_input d;
                 jd_map := Some {| mm_ModelToSafe := m; mm_SafeToModel := invert m;
                                   mm_LineCount := lineCount; mm_RejectedCount := rejectedCount |} |}, Ok tt)
  else (d, Err ErrIO).

Definition set_input (x : option bytes) (d : JobDir) : JobDir :=
  {| jd_plans := jd_plans d; jd_input := x; jd_map := jd_map d |}.

Definition preprocess_body (env : Env) (inputFileID : string) (d : JobDir) : JobDir * result requestManifest :=
  if bool_decide (inputFileID = "") then (d, Err (ErrOther "input file ID is empty")) else
  match env_root env, env_mkdir env, env_open env, env_create env with
  | Err e, _, _, _ | Ok _, Err e, _, _ | Ok _, Ok _, Err e, _ | Ok _, Ok _, Ok _, Err e => (d, Err e)
  | Ok _, Ok _, Ok reader, Ok _ =>
      match preprocess_loop env (S (length (rd_data reader))) 0 PP_init reader with
      | (w, Err e) => (set_input (Some (take (env_flushed env) w)) d, Err e)
      | (w, Ok st) =>
          if negb (env_flush env) then (set_input (Some (take (env_flushed env) w)) d, Err ErrIO)
          else
          match finalizePlanFiles (env_plans_mkdir env) plansDir (env_plan_io env) (pp_plan st) (jd_plans d) with
          | (plans, Err e) => ({| jd_plans := plans; jd_input := Some w; jd_map := jd_map d |}, Err e)
          | (plans, Ok _) =>
              match writeModelMappings (env_map_ok env) (modelToSafe (pp_plan st)) (pp_lineCount st)
                      (pp_rejected st) {| jd_plans := plans; jd_input := Some w; jd_map := jd_map d |} with
              | (d', Ok _) => (d', Ok (pp_manifest st))
              | (d', Err e) => (d', Err e)
              end
          end
      end
  end.

(** The deferred reclassification: an error that stems from the context's
    cancellation becomes the routing sentinel, if there is one. *)
Definition is_ctx_error (e : err) : bool :=
  bool_decide (e = ErrOther "context canceled") || bool_decide (e = ErrOther "context deadline exceeded").
Definition preProcessJob (env : Env) (inputFileID : string) (d : JobDir) : JobDir * result requestManifest :=
  match preprocess_body env inputFileID d with
  | (d', Err e) => if is_ctx_error e then
                     match env_cause_end env with Some s => (d', Err s) | None => (d', Err e) end
                   else (d', Err e)
  | r => r
  end.

(** ** What ingestion computes *)

(** The normalized lines of the input: every line ends with a newline. *)
Fixpoint split_lines (cur : bytes) (data : bytes) : list bytes :=
  match data with
  | [] => match cur with [] => [] | _ => [app cur [10]] end
  | b :: rest => if b =? 10 then app cur [b] :: split_lines [] rest else split_lines (app cur [b]) rest
  end.
Definition input_lines (data : bytes) : list bytes := split_lines [] data.

Definition registered (modelID : string) : bool :=
  match lookup with
  | LookupNone => true
  | LookupSync method clientFor => clientFor (routeKey method tenantID modelID)
  | LookupAsync shared => shared modelID
  end.

Definition manifest_entry (i : nat) (meta : requestMeta) : manifestEntry :=
  let cid := rm_CustomID meta in
  let rid := stableBatchRequestID jobID cid in
  if registered (rm_ModelID meta) then acceptedEntry (Z.of_nat i) cid rid
  else rejectedEntry jobID (Z.of_nat i) cid rid "model_not_found" (errorLine rid cid (rm_ModelID meta)).

(** The plan entries of model [m] among the lines [ls], the first of which
    starts at [off]. *)
Definition planned_line (m : string) (off : Z) (l : bytes) : list planEntry :=
  match extractAndValidateLine l with
  | Ok meta => if bool_decide (rm_ModelID meta = m) && registered m
               then [{| Offset := off; Length := Z.of_nat (length l); PrefixHash := rm_PrefixHash meta |}]
               else []
  | Err _ => []
  end.
Fixpoint planned (m : string) (off : Z) (ls : list bytes) : list planEntry :=
  match ls with
  | [] => []
  | l :: ls' => app (planned_line m off l) (planned m (off + Z.of_nat (length l)) ls')
  end.

(** ** The loop reads the lines *)

Fixpoint fold_lines (env : Env) (st : PP) (ls : list bytes) : result PP :=
  match ls with
  | [] => Ok st
  | l :: ls' => match process_line env st l with Ok st' => fold_lines env st' ls' | Err e => Err e end
  end.

Lemma break_newline_split data cur :
  let '(l, rest, found) := break_newline data in
  if found then split_lines cur data = app cur l :: split_lines [] rest ∧ (length rest < length data)%nat
  else rest = [] ∧ l = data ∧ split_lines cur data = match app cur data with [] => [] | x => [app x [10]] end.
Proof.
  revert cur. induction data as [|b data IH]; intros cur; cbn; [rewrite app_nil_r; by destruct cur|].
  destruct (Z.eqb_spec b 10) as [->|Hb]; [split; [done|lia]|].
  specialize (IH (app cur [b])). destruct (break_newline data) as [[l rest] [|]].
  - destruct IH as [-> ?]. rewrite <- app_assoc. split; [done|lia].
  - destruct IH as (-> & -> & ->). split; [done|]. split; [done|].
    rewrite <- app_assoc. cbn. by destruct cur.
Qed.

Lemma preprocess_loop_fold env fuel i st r :
  rd_err r = None → (∀ j, env_cause env j = None) → (length (rd_data r) < fuel)%nat →
  (preprocess_loop env fuel i st r).2 = fold_lines env st (input_lines (rd_data r)).
Proof.
  revert i st r. induction fuel as [|fuel IH]; intros i st [data e] He Hc Hf; cbn in *; [lia|].
  rewrite Hc. subst e. unfold readNormalizedLine. cbn [rd_data rd_err].
  pose proof (break_newline_split data []) as Hb. unfold input_lines.
  destruct (break_newline data) as [[l rest] [|]].
  - destruct Hb as [-> Hlt]. cbn [fold_lines app]. destruct (process_line env st l) as [st'|x]; [|done].
    apply IH; cbn; [done|done|lia].
  - destruct Hb as (-> & -> & ->). cbn [app]. destruct data as [|b data]; [done|]. cbn [fold_lines].
    destruct (process_line env st _) as [st'|x]; [|done].
    rewrite IH; [done|done|done|cbn in *; lia].
Qed.

Lemma preprocess_loop_sound env fuel i st r w st' :
  preprocess_loop env fuel i st r = (w, Ok st') →
  rd_err r = None ∧ fold_lines env st (input_lines (rd_data r)) = Ok st' ∧ w = pp_written st'.
Proof.
  revert i st r. induction fuel as [|fuel IH]; intros i st [data e]; cbn [preprocess_loop]; [done|].
  destruct (env_cause env i); [done|]. unfold readNormalizedLine. cbn [rd_data rd_err].
  pose proof (break_newline_split data []) as Hb. unfold input_lines.
  destruct (break_newline data) as [[l rest] [|]].
  - destruct Hb as [-> Hlt]. cbn [fold_lines app]. destruct (process_line env st l) as [st1|x]; [|done].
    intros H%IH. done.
  - destruct Hb as (-> & -> & ->). destruct e; [done|]. cbn [app]. destruct data as [|b data].
    { by intros [= <- <-]. }
    cbn [fold_lines]. destruct (process_line env st _) as [st1|x]; [|done].
    intros (_ & Hfold & Hw)%IH. done.
Qed.

(** ** The loop invariant *)

Definition cache_ok (cache : gmap string bool) : Prop :=
  match lookup with
  | LookupSync _ clientFor => ∀ key b, cache !! key = Some b → b = clientFor key
  | _ => True
  end.

Lemma lookupModel_spec cache m :
  cache_ok cache → ∃ cache', lookupModel cache m = (registered m, cache') ∧ cache_ok cache'.
Proof.
  unfold cache_ok, lookupModel, registered. destruct lookup as [|method cf|sh]; eauto.
  intros Hc. destruct (cache !! _) as [b|] eqn:Hk; [rewrite (Hc _ _ Hk); by eauto|].
  eexists. split; [done|]. intros key b. rewrite lookup_insert. case_decide; naive_solver.
Qed.

Record pp_inv (ls : list bytes) (st : PP) : Prop := {
  inv_written : pp_written st = mjoin ls;
  inv_offset : pp_offset st = Z.of_nat (length (mjoin ls));
  inv_count : pp_lineCount st = Z.of_nat (length ls);
  inv_lines : ∀ i l, ls !! i = Some l → ∃ meta, extractAndValidateLine l = Ok meta ∧
                pp_manifest st !! i = Some (manifest_entry i meta);
  inv_length : length (pp_manifest st) = length ls;
  inv_seen : ∀ c, c ∈ pp_seen st ↔ c ∈ me_CustomID <$> pp_manifest st;
  inv_nodup : NoDup (me_CustomID <$> pp_manifest st);
  inv_rejected : pp_rejected st = Z.of_nat (length (filter (λ e, me_Rejected e = true) (pp_manifest st)));
  inv_plan : plan_wf (pp_plan st);
  inv_entries : ∀ m, model_entries (pp_plan st) m = planned m 0 ls;
  inv_interned : ∀ m, is_Some (modelToSafe (pp_plan st) !! m) → planned m 0 ls ≠ [];
  inv_cache : cache_ok (pp_registered st) }.

Lemma planned_snoc m off ls l :
  planned m off (app ls [l]) = app (planned m off ls) (planned_line m (off + Z.of_nat (length (mjoin ls))) l).
Proof.
  revert off. induction ls as [|x ls IH]; intros off; cbn [planned app].
  - cbn. by rewrite Z.add_0_r, app_nil_r.
  - rewrite IH, app_assoc. do 2 f_equal. change (mjoin (x :: ls)) with (app x (mjoin ls)).
    rewrite length_app. lia.
Qed.

Lemma manifest_entry_custom i meta : me_CustomID (manifest_entry i meta) = rm_CustomID meta.
Proof. unfold manifest_entry. by destruct (registered _). Qed.
Lemma manifest_entry_rejected i meta : me_Rejected (manifest_entry i meta) = negb (registered (rm_ModelID meta)).
Proof. unfold manifest_entry. by destruct (registered _). Qed.

Lemma PP_init_inv : pp_inv [] PP_init.
Proof.
  split; cbn [pp_plan pp_registered pp_seen pp_manifest PP_init]; try done.
  - intros c. set_solver.
  - apply NoDup_nil_2.
  - intros m [? Hm]. cbn in Hm. by rewrite lookup_empty in Hm.
  - unfold cache_ok. destruct lookup; done.
Qed.

(** What a processed line adds to the manifest. *)
Lemma inv_lines_snoc ls l m meta :
  length m = length ls → extractAndValidateLine l = Ok meta →
  (∀ i l, ls !! i = Some l → ∃ meta, extractAndValidateLine l = Ok meta ∧ m !! i = Some (manifest_entry i meta)) →
  ∀ i x, app ls [l] !! i = Some x → ∃ meta', extractAndValidateLine x = Ok meta' ∧
    app m [manifest_entry (length ls) meta] !! i = Some (manifest_entry i meta').
Proof.
  intros Hlen Hx Hold i x Hi. apply lookup_app_Some in Hi as [Hi|[Hge Hi]].
  - destruct (Hold i x Hi) as (meta' & ? & Hm). exists meta'. split; [done|].
    apply lookup_app_l_Some. done.
  - apply list_lookup_singleton_Some in Hi as [Hz <-]. assert (i = length ls) as -> by lia.
    exists meta. split; [done|]. rewrite lookup_app_r by lia. by rewrite Hlen, Nat.sub_diag.
Qed.

(** Appending one validated line with a new custom ID. *)
Lemma pp_inv_snoc ls st l st' meta :
  pp_inv ls st → extractAndValidateLine l = Ok meta → rm_CustomID meta ∉ pp_seen st →
  pp_written st' = app (pp_written st) l → pp_offset st' = pp_offset st + Z.of_nat (length l) →
  pp_lineCount st' = pp_lineCount st + 1 → pp_seen st' = {[rm_CustomID meta]} ∪ pp_seen st →
  pp_manifest st' = app (pp_manifest st) [manifest_entry (length ls) meta] →
  pp_rejected st' = pp_rejected st + (if registered (rm_ModelID meta) then 0 else 1) →
  plan_wf (pp_plan st') →
  (∀ m, model_entries (pp_plan st') m = app (model_entries (pp_plan st) m) (planned_line m (pp_offset st) l)) →
  (∀ m, is_Some (modelToSafe (pp_plan st') !! m) →
     is_Some (modelToSafe (pp_plan st) !! m) ∨ planned_line m (pp_offset st) l ≠ []) →
  cache_ok (pp_registered st') → pp_inv (app ls [l]) st'.
Proof.
  intros Hi Hx Hnew Hw Ho Hc Hs Hm Hr Hwf He Hint Hca.
  assert (mjoin (app ls [l]) = app (mjoin ls) l) as Hj by (rewrite join_app; cbn; by rewrite app_nil_r).
  assert (me_CustomID <$> pp_manifest st' = app (me_CustomID <$> pp_manifest st) [rm_CustomID meta]) as Hcids.
  { by rewrite Hm, fmap_app, fmap_cons, manifest_entry_custom. }
  split; try done.
  - by rewrite Hw, Hj, (inv_written _ _ Hi).
  - rewrite Ho, Hj, length_app, (inv_offset _ _ Hi). lia.
  - rewrite Hc, length_app, (inv_count _ _ Hi). cbn. lia.
  - rewrite Hm. by apply inv_lines_snoc; [apply (inv_length _ _ Hi)|..|apply (inv_lines _ _ Hi)].
  - rewrite Hm, !length_app, (inv_length _ _ Hi). done.
  - intros c. rewrite Hcids, Hs, elem_of_app, elem_of_union, (inv_seen _ _ Hi), elem_of_singleton,
      list_elem_of_singleton. tauto.
  - rewrite Hcids. apply NoDup_app. split; [apply (inv_nodup _ _ Hi)|]. split; [|apply NoDup_singleton].
    intros c Hin ->%list_elem_of_singleton. by apply Hnew, (inv_seen _ _ Hi).
  - rewrite Hr, Hm, filter_app, length_app, (inv_rejected _ _ Hi), filter_cons, filter_nil, manifest_entry_rejected.
    destruct (registered (rm_ModelID meta)); [rewrite decide_False by done|rewrite decide_True by done]; cbn; lia.
  - intros m. rewrite He, planned_snoc, (inv_entries _ _ Hi), (inv_offset _ _ Hi), Z.add_0_l. done.
  - intros m Hsome. rewrite planned_snoc. destruct (Hint m Hsome) as [Hold|Hnew'].
    + intros [Hnil _]%app_eq_nil. by apply (inv_interned _ _ Hi m Hold).
    + rewrite <- (inv_offset _ _ Hi). by intros [_ ?]%app_eq_nil.
Qed.

Lemma process_line_inv env ls st l st' :
  pp_inv ls st → Z.of_nat (length l) < 2 ^ 32 → process_line env st l = Ok st' → pp_inv (app ls [l]) st'.
Proof.
  intros Hi Hl. unfold process_line. destruct (env_write_fails _ _); [done|].
  destruct (extractAndValidateLine l) as [meta|] eqn:Hx; [|done].
  case_bool_decide as Hseen; [done|].
  destruct (lookupModel_spec (pp_registered st) (rm_ModelID meta) (inv_cache _ _ Hi)) as (cache & -> & Hcache).
  assert (pp_lineCount st + 1 - 1 = Z.of_nat (length ls)) as -> by (rewrite (inv_count _ _ Hi); lia).
  destruct (registered (rm_ModelID meta)) eqn:Hreg; cbn [negb].
  - unfold to_uint32. rewrite Z.mod_small by lia.
    destruct (accumulate_spec (pp_plan st) (rm_ModelID meta) (pp_offset st) (Z.of_nat (length l))
      (rm_PrefixHash meta) (inv_plan _ _ Hi)) as (plan & -> & Hwf & Hents & _ & _ & Hnew).
    intros [= <-]. apply (pp_inv_snoc ls st l _ meta Hi Hx Hseen); try done.
    + unfold manifest_entry. by rewrite Hreg.
    + rewrite Hreg. cbn. lia.
    + intros m. cbn. rewrite Hents. f_equal. unfold planned_line. rewrite Hx.
      destruct (decide (m = rm_ModelID meta)) as [->|Hne].
      * by rewrite Hreg, bool_decide_eq_true_2.
      * by rewrite bool_decide_eq_false_2 by congruence.
    + cbn. intros m [?| ->]%Hnew; [by left|right]. unfold planned_line. by rewrite Hx, Hreg, bool_decide_eq_true_2.
  - intros [= <-]. apply (pp_inv_snoc ls st l _ meta Hi Hx Hseen); try done.
    + unfold manifest_entry. by rewrite Hreg.
    + by rewrite Hreg.
    + apply (inv_plan _ _ Hi).
    + intros m. cbn. unfold planned_line. rewrite Hx.
      case_bool_decide as Hm; [|by rewrite app_nil_r]. rewrite <- Hm, Hreg. cbn. by rewrite app_nil_r.
    + by left.
Qed.

Definition lines_small (ls : list bytes) : Prop := Forall (λ l, Z.of_nat (length l) < 2 ^ 32) ls.

Lemma fold_lines_inv env done_ ls st st' :
  pp_inv done_ st → lines_small ls → fold_lines env st ls = Ok st' → pp_inv (app done_ ls) st'.
Proof.
  revert done_ st. induction ls as [|l ls IH]; intros done_ st Hi Hs Hf.
  { cbn in Hf. rewrite app_nil_r. congruence. }
  inv Hs. cbn in Hf. destruct (process_line env st l) as [st1|] eqn:Hp; [|done].
  rewrite (cons_middle l), app_assoc. apply (IH _ st1); [by eapply process_line_inv|done|done].
Qed.

(** Every line of the input as the output files see it: its place in the local
    input copy. *)
Lemma planned_in m off ls e :
  e ∈ planned m off ls →
  ∃ i l meta, ls !! i = Some l ∧ extractAndValidateLine l = Ok meta ∧ rm_ModelID meta = m ∧ registered m = true ∧
    e = {| Offset := off + Z.of_nat (length (mjoin (take i ls))); Length := Z.of_nat (length l);
           PrefixHash := rm_PrefixHash meta |}.
Proof.
  revert off. induction ls as [|l ls IH]; intros off; cbn [planned]; [by intros ?%elem_of_nil|].
  intros [He|He]%elem_of_app.
  - unfold planned_line in He. destruct (extractAndValidateLine l) as [meta|] eqn:Hx; [|by apply elem_of_nil in He].
    destruct (_ && _) eqn:Hc; [|by apply elem_of_nil in He]. boolify.
    apply list_elem_of_singleton in He as ->. exists 0%nat, l, meta. split_and!; try done. cbn. by rewrite Z.add_0_r.
  - apply IH in He as (i & l' & meta & Hi & Hx & Hm & Hr & ->).
    exists (S i), l', meta. split_and!; try done. f_equal. cbn [take].
    change (mjoin (l :: take i ls)) with (app l (mjoin (take i ls))). rewrite length_app. lia.
Qed.

Lemma slice_of_join (ls : list bytes) i l :
  ls !! i = Some l → take (length l) (drop (length (mjoin (take i ls))) (mjoin ls)) = l.
Proof.
  intros Hi. rewrite <- (take_drop_middle ls i l Hi) at 2. rewrite join_app.
  rewrite drop_app_length. change (mjoin (l :: drop (S i) ls)) with (app l (mjoin (drop (S i) ls))).
  apply take_app_length.
Qed.

Lemma fnv32a_range text : 0 ≤ fnv32a text < 2 ^ 32.
Proof.
  unfold fnv32a. assert (0 ≤ 2166136261 < 2 ^ 32) as H by lia. revert H. generalize 2166136261.
  induction (list_ascii_of_string text) as [|c cs IH]; intros h Hh; [done|]. cbn [foldl]. apply IH.
  apply Z.mod_pos_bound. lia.
Qed.

Lemma prefixHash_range msgs h : prefixHashOf msgs = Ok h → 0 ≤ h < 2 ^ 32.
Proof.
  induction msgs as [|[role c] msgs IH]; cbn [prefixHashOf]; [intros [= <-]; unfold NoPrefixHash; lia|].
  destruct (negb _); [done|]. destruct (messageText c) as [text|]; [|done].
  case_bool_decide; [done|]. intros [= <-]. apply fnv32a_range.
Qed.

Lemma extract_hash_range l meta : extractAndValidateLine l = Ok meta → 0 ≤ rm_PrefixHash meta < 2 ^ 32.
Proof.
  unfold extractAndValidateLine. intros H. destruct (unmarshal _) as [req|]; [|done].
  destruct (prefixHashOf (pr_Messages req)) as [h|] eqn:Hh;
    repeat destruct_match_in H; simplify_eq; by eapply prefixHash_range.
Qed.

Lemma planned_ok m ls :
  Forall (λ l, Z.of_nat (length l) < 2 ^ 32) ls → Z.of_nat (length (mjoin ls)) < 2 ^ 63 →
  Forall plan_entry_ok (planned m 0 ls).
Proof.
  intros Hs Ht. apply Forall_forall. intros e (i & l & meta & Hi & Hx & _ & _ & ->)%planned_in.
  apply extract_hash_range in Hx. rewrite Forall_forall in Hs.
  specialize (Hs l (list_elem_of_lookup_2 _ _ _ Hi)).
  assert (length (mjoin (take i ls)) ≤ length (mjoin ls))%nat.
  { rewrite <- (take_drop i ls) at 2. rewrite join_app, length_app. lia. }
  unfold plan_entry_ok. cbn. lia.
Qed.

Lemma invert_lookup st m s : plan_wf st → modelToSafe st !! m = Some s → invert (modelToSafe st) !! s = Some m.
Proof.
  intros (_ & Hinj & _) Hm. unfold invert. apply elem_of_list_to_map_1.
  - rewrite <- list_fmap_compose. apply NoDup_fmap_2_strong; [|apply NoDup_map_to_list].
    intros [m1 s1] [m2 s2] H1%elem_of_map_to_list H2%elem_of_map_to_list Heq. cbn in Heq. subst.
    by rewrite (Hinj m1 m2 s2).
  - apply list_elem_of_fmap. exists (m, s). by rewrite elem_of_map_to_list.
Qed.

Lemma preprocess_ok_inv env inputFileID d d' manifest :
  preProcessJob env inputFileID d = (d', Ok manifest) →
  ∃ reader st plans, env_open env = Ok reader ∧ rd_err reader = None ∧
    fold_lines env PP_init (input_lines (rd_data reader)) = Ok st ∧
    finalizePlanFiles (env_plans_mkdir env) plansDir (env_plan_io env) (pp_plan st) (jd_plans d) = (plans, Ok tt) ∧
    manifest = pp_manifest st ∧
    d' = {| jd_plans := plans; jd_input := Some (pp_written st);
            jd_map := Some {| mm_ModelToSafe := modelToSafe (pp_plan st);
                              mm_SafeToModel := invert (modelToSafe (pp_plan st));
                              mm_LineCount := pp_lineCount st; mm_RejectedCount := pp_rejected st |} |}.
Proof.
  unfold preProcessJob. destruct (preprocess_body env inputFileID d) as [d1 [m|e]] eqn:Hb;
    [|intros H; repeat destruct_match_in H; done].
  intros [= <- <-]. unfold preprocess_body in Hb. case_bool_decide; [done|].
  destruct (env_root env), (env_mkdir env), (env_open env) as [reader|], (env_create env); try done.
  destruct (preprocess_loop _ _ _ _ _) as [w [st|e]] eqn:Hl; [|done].
  apply preprocess_loop_sound in Hl as (Hr & Hf & ->).
  destruct (env_flush env); cbn [negb] in Hb; [|done].
  destruct (finalizePlanFiles _ _ _ _ _) as [plans [[]|e]] eqn:Hp; [|done].
  unfold writeModelMappings in Hb. destruct (env_map_ok env); [|done]. simplify_eq.
  exists reader, st, plans. by rewrite Hp.
Qed.


(** ** Inputs that are accepted *)

(** No step of the environment fails and nothing cancels the job. *)
Definition env_calm (env : Env) : Prop :=
  (∀ i, env_cause env i = None) ∧ env_root env = Ok tt ∧ env_mkdir env = Ok tt ∧ env_create env = Ok tt ∧
  (∀ n, env_write_fails env n = false) ∧ env_flush env = true ∧ env_plans_mkdir env = true ∧
  (∀ s, env_plan_io env s = PlanOk) ∧ env_map_ok env = true.

Lemma process_line_succeeds env ls st l meta :
  pp_inv ls st → (∀ n, env_write_fails env n = false) →
  extractAndValidateLine l = Ok meta → rm_CustomID meta ∉ pp_seen st →
  ∃ st', process_line env st l = Ok st' ∧ pp_seen st' = {[rm_CustomID meta]} ∪ pp_seen st.
Proof.
  intros Hi Hw Hx Hnew. unfold process_line. rewrite Hw, Hx, bool_decide_eq_false_2 by done.
  destruct (lookupModel_spec (pp_registered st) (rm_ModelID meta) (inv_cache _ _ Hi)) as (cache & -> & _).
  destruct (registered _); cbn [negb]; [|by eauto].
  destruct (accumulate_spec (pp_plan st) (rm_ModelID meta) (pp_offset st) (to_uint32 (Z.of_nat (length l)))
    (rm_PrefixHash meta) (inv_plan _ _ Hi)) as (plan & -> & _). eauto.
Qed.

Lemma fold_lines_succeeds env prefix ls metas st :
  pp_inv prefix st → (∀ n, env_write_fails env n = false) → lines_small ls →
  Forall2 (λ l meta, extractAndValidateLine l = Ok meta) ls metas →
  NoDup (rm_CustomID <$> metas) → (∀ meta, meta ∈ metas → rm_CustomID meta ∉ pp_seen st) →
  ∃ st', fold_lines env st ls = Ok st'.
Proof.
  intros Hi Hw Hs HF. revert prefix st Hi. induction HF as [|l meta ls metas Hx HF IH]; intros prefix st Hi Hnd Hnew.
  { cbn. eauto. }
  inv Hs. rewrite fmap_cons, NoDup_cons in Hnd. destruct Hnd as [Hni Hnd].
  destruct (process_line_succeeds env prefix st l meta Hi Hw Hx (Hnew _ (list_elem_of_here _ _))) as (st1 & Hp & Hseen).
  cbn. rewrite Hp. eapply (IH H2 (app prefix [l]) st1); [by eapply process_line_inv|done|].
  intros meta' Hin. rewrite Hseen. apply not_elem_of_union. split.
  - apply not_elem_of_singleton. intros Heq. apply Hni. rewrite <- Heq. by apply list_elem_of_fmap_2.
  - apply Hnew. by right.
Qed.

(** Every valid input is ingested: with a named input file, no failing
    I/O step, no cancellation and a stream that ends with EOF, an input whose
    lines all validate and carry distinct custom IDs is accepted; the loop
    terminates within its fuel (one round per line and one for EOF). *)
Theorem preprocess_accepts env inputFileID data metas d :
  inputFileID ≠ "" → env_calm env → env_open env = Ok {| rd_data := data; rd_err := None |} →
  lines_small (input_lines data) →
  Forall2 (λ l meta, extractAndValidateLine l = Ok meta) (input_lines data) metas →
  NoDup (rm_CustomID <$> metas) →
  ∃ d' manifest, preProcessJob env inputFileID d = (d', Ok manifest).
Proof.
  intros Hid (Hc & Hr & Hm & Hcr & Hw & Hfl & Hpm & Hio & Hmap) Ho Hs HF Hnd.
  destruct (fold_lines_succeeds env [] (input_lines data) metas PP_init PP_init_inv Hw Hs HF Hnd) as [st Hst].
  { intros meta _. apply not_elem_of_empty. }
  unfold preProcessJob, preprocess_body. rewrite bool_decide_eq_false_2 by done.
  rewrite Hr, Hm, Ho, Hcr.
  pose proof (preprocess_loop_fold env (S (length data)) 0 PP_init {| rd_data := data; rd_err := None |}
    eq_refl Hc ltac:(cbn; lia)) as Hl. cbn [rd_data] in *.
  destruct (preprocess_loop _ _ _ _ _) as [w res]. cbn [snd] in Hl. rewrite Hst in Hl. subst res.
  rewrite Hfl. cbn [negb]. unfold finalizePlanFiles, Finalize. rewrite Hpm. cbn [negb].
  destruct (Finalize_loop_succeeds plansDir (env_plan_io env) (acc_entries (pp_plan st))
    (merge_sort string_le ((map_to_list (modelToSafe (pp_plan st))).*2)) (jd_plans d) Hio) as [plans ->].
  unfold writeModelMappings. rewrite Hmap. eauto.
Qed.

(** The manifest of an ingested batch is a valid activation entry set:
    request IDs are pairwise distinct (given that the UUID separates the names
    of this batch's custom IDs), every entry starts pending or, if it was
    rejected, failed with the size, digest and key of its error line, and the
    ordinals are 0, 1, 2, ... in input order. *)
Theorem manifest_activates env inputFileID d d' manifest reader :
  preProcessJob env inputFileID d = (d', Ok manifest) → env_open env = Ok reader →
  lines_small (input_lines (rd_data reader)) →
  (∀ c1 c2, c1 ∈ me_CustomID <$> manifest → c2 ∈ me_CustomID <$> manifest →
     uuidSHA1 (jobID +:+ String Ascii.zero c1) = uuidSHA1 (jobID +:+ String Ascii.zero c2) → c1 = c2) →
  NoDup (a_request_id <$> activationEntries manifest) ∧
  (∀ i a, activationEntries manifest !! i = Some a →
     a_ordinal a = Z.of_nat i ∧
     (a_status a = EPending ∨
      a_status a = EFailed ∧ a_error_code a = "model_not_found" ∧
      ∃ me, manifest !! i = Some me ∧ a_result_key a = resumableResultKey jobID (a_request_id a) ∧
        a_result_bytes a = Z.of_nat (length (me_ErrLine me)) ∧ a_result_sha256 a = sha256hex (me_ErrLine me))).
Proof.
  intros (reader' & st & plans & Hopen & _ & Hf & _ & -> & _)%preprocess_ok_inv Hopen' Hs Huuid.
  assert (reader' = reader) as -> by congruence.
  pose proof (fold_lines_inv env [] _ PP_init st PP_init_inv Hs Hf) as Hi. cbn [app] in Hi.
  assert (∀ i me, pp_manifest st !! i = Some me → ∃ meta, me = manifest_entry i meta) as Hentry.
  { intros i me Hme. destruct (lookup_lt_is_Some_2 (input_lines (rd_data reader)) i) as [l Hl].
    { rewrite <- (inv_length _ _ Hi). by eapply lookup_lt_Some. }
    destruct (inv_lines _ _ Hi i l Hl) as (meta & _ & Hm). exists meta. congruence. }
  split.
  - assert (a_request_id <$> activationEntries (pp_manifest st)
            = stableBatchRequestID jobID <$> (me_CustomID <$> pp_manifest st)) as ->.
    { unfold activationEntries. rewrite <- !list_fmap_compose. apply list_fmap_ext. intros i me Hme.
      destruct (Hentry i me Hme) as [meta ->]. cbn. unfold activationEntry, manifest_entry.
      by destruct (registered (rm_ModelID meta)). }
    apply NoDup_fmap_2_strong; [|apply (inv_nodup _ _ Hi)].
    intros c1 c2 H1 H2 Heq. apply Huuid; [done|done|]. unfold stableBatchRequestID, newBatchRequestID in Heq.
    by apply (inj (String.append "batch_req_")) in Heq.
  - intros i a. unfold activationEntries. rewrite list_lookup_fmap.
    destruct (pp_manifest st !! i) as [me|] eqn:Hme; [|done]. intros [= <-].
    destruct (Hentry i me Hme) as [meta ->]. unfold activationEntry, manifest_entry.
    destruct (registered (rm_ModelID meta)); cbn; [by auto|]. split; [done|]. right. split_and!; try done.
    eexists. split_and!; [done|done|done|done].
Qed.

End Preprocess.

(** ** A concrete ingestion: two lines, the second for an unregistered model
    and not newline-terminated. *)
Module PreprocessDemo.

Definition decode (l : bytes) : option planRequestLine :=
  let req c m := Some {| pr_CustomID := c; pr_Method := "POST"; pr_URL := EndpointChatCompletions;
                         pr_Model := m; pr_Stream := None; pr_Messages := [("system", RawString "hi")] |} in
  if bool_decide (l = [1]) then req "a" "llama" else if bool_decide (l = [2]) then req "b" "ghost" else None.
Definition uuid (s : string) : string := s.
Definition errline (r c m : string) : bytes := [7; 7; 10].
Definition sha (b : bytes) : string := "00".
Definition registry : Lookup := LookupAsync (λ m, bool_decide (m = "llama")).
Definition reader : Reader := {| rd_data := [1; 10; 2]; rd_err := None |}.
Definition env : Env :=
  {| env_cause := λ _, None; env_cause_end := None; env_root := Ok tt; env_mkdir := Ok tt; env_open := Ok reader;
     env_create := Ok tt; env_write_fails := λ _, false; env_flushed := 0; env_flush := true;
     env_plans_mkdir := true; env_plan_io := λ _, PlanOk; env_map_ok := true |}.
Definition dir0 : JobDir := {| jd_plans := ∅; jd_input := None; jd_map := None |}.
Definition run := preProcessJob decode uuid errline sha emptyAllowlist EndpointChatCompletions "job" "t"
                    registry "plans" env "file" dir0.
Definition manifest : requestManifest := match snd run with Ok m => m | Err _ => [] end.

Lemma preprocess_accepts_run : ∃ d' m, run = (d', Ok m).
Proof.
  apply (preprocess_accepts decode uuid errline sha emptyAllowlist EndpointChatCompletions "job" "t" registry
    "plans" env "file" [1; 10; 2]
    [ {| rm_CustomID := "a"; rm_ModelID := "llama"; rm_PrefixHash := fnv32a "hi" |};
      {| rm_CustomID := "b"; rm_ModelID := "ghost"; rm_PrefixHash := fnv32a "hi" |} ] dir0).
  - discriminate.
  - repeat split.
  - reflexivity.
  - repeat apply Forall_cons_2; try apply Forall_nil_2; cbn; lia.
  - repeat (apply Forall2_cons_2; [vm_compute; reflexivity|]). apply Forall2_nil_2.
  - apply (bool_decide_unpack _). vm_compute. exact I.
Defined.

Lemma small_lines : lines_small (input_lines (rd_data reader)).
Proof. repeat apply Forall_cons_2; try apply Forall_nil_2; cbn; lia. Qed.


Lemma manifest_activates_run :
  NoDup (a_request_id <$> activationEntries manifest) ∧ map a_status (activationEntries manifest) = [EPending; EFailed].
Proof.
  split; [|vm_compute; reflexivity].
  apply (manifest_activates decode uuid errline sha emptyAllowlist EndpointChatCompletions "job" "t" registry
    "plans" env "file" dir0 (fst run) manifest reader ltac:(vm_compute; reflexivity) eq_refl small_lines).
  intros c1 c2 _ _ H. unfold uuid in H. apply (inj (String.append "job")) in H. by injection H.
Defined.

End PreprocessDemo.
