(* ===== verification/Files.v ===== *)
(** * The file store

    [internal/files_store]: the filesystem client ([fs/client.go]) as a map
    from path to content, the limit-enforcing reader ([io/reader.go]), the
    retrying wrapper ([retryclient/client.go]) and [util/retry].

    A file becomes visible by one atomic link, so a store operation is one
    step on the map.  The [net] value of a call says whether its response
    arrived and, if not, whether the file had become visible before the
    failure.  Paths are joined with a slash; the callers' names hold no dot
    segments, so [filepath.Join] does not rewrite them. *)

From Stdlib Require Import ZArith Lia Ascii String.
From stdpp Require Import base gmap strings list sorting pretty.
From S2P Require Import Prelude Openai Store StoreOps Planner Preprocess.
Local Open Scope string_scope.
Local Open Scope Z_scope.

Abbreviation FileStore := (gmap string bytes).

Definition ErrFileTooLarge : err := ErrOther "file size exceeds limit".
Definition ErrTooManyLines : err := ErrOther "file exceeds line limit".

(** ** [LimitedCountingReader] *)
Record CountingReader := { BytesRead : Z; LineCount : Z; hasTrailingContent : bool }.
Definition newCountingReader : CountingReader :=
  {| BytesRead := 0; LineCount := 0; hasTrailingContent := false |}.

(** The byte loop of [Read]: stops at the newline that exceeds the limit. *)
Fixpoint count_lines (lineLimit : Z) (lines : Z) (trailing : bool) (p : bytes) : result (Z * bool) :=
  match p with
  | [] => Ok (lines, trailing)
  | b :: p' =>
      if b =? 10 then
        if (0 <? lineLimit) && (lineLimit <? lines + 1) then Err ErrTooManyLines
        else count_lines lineLimit (lines + 1) false p'
      else count_lines lineLimit lines true p'
  end.

(** One [Read] that delivered chunk [p], with [eof] set when the inner reader
    returned io.EOF. *)
Definition Read (sizeLimit lineLimit : Z) (r : CountingReader) (p : bytes) (eof : bool) : result CountingReader :=
  let n := BytesRead r + Z.of_nat (length p) in
  if (0 <? sizeLimit) && (sizeLimit <? n) then Err ErrFileTooLarge
  else match count_lines lineLimit (LineCount r) (hasTrailingContent r) p with
  | Err e => Err e
  | Ok (lines, trailing) =>
      if eof && trailing then
        if (0 <? lineLimit) && (lineLimit <? lines + 1) then Err ErrTooManyLines
        else Ok {| BytesRead := n; LineCount := lines + 1; hasTrailingContent := trailing |}
      else Ok {| BytesRead := n; LineCount := lines; hasTrailingContent := trailing |}
  end.

(** [io.Copy]: one read per chunk, then the read that reports EOF. *)
Fixpoint copy (sizeLimit lineLimit : Z) (r : CountingReader) (chunks : list bytes) : result CountingReader :=
  match chunks with
  | [] => Read sizeLimit lineLimit r [] true
  | p :: rest => match Read sizeLimit lineLimit r p false with
                 | Err e => Err e
                 | Ok r' => copy sizeLimit lineLimit r' rest
                 end
  end.

(** ** The filesystem client *)
Record BatchFileMetadata := { md_Size : Z; md_LinesNumber : Z }.

Definition join (folderName fileName : string) : string := folderName +:+ "/" +:+ fileName.

Definition resolvePath (folderName fileName : string) : result string :=
  if bool_decide (folderName = "") then Err (ErrOther "folderName must not be empty")
  else if bool_decide (fileName = "") then Err (ErrOther "fileName must not be empty")
  else Ok (join folderName fileName).

(** A step on the map whose response may be lost. *)
Definition fs_step {A} (n : net) (s' : FileStore) (a : A) : M FileStore A := λ s,
  match n with
  | NetOk => (s', Ok a)
  | NetErr true => (s', Err ErrIO)
  | NetErr false => (s, Err ErrIO)
  end.

Definition FStore (n : net) (fileName folderName : string) (sizeLimit lineLimit : Z) (chunks : list bytes)
    : M FileStore BatchFileMetadata := λ s,
  match resolvePath folderName fileName with
  | Err e => (s, Err e)
  | Ok path =>
      match s !! path with
      | Some _ => (s, Err ErrFileExists)
      | None =>
          match copy sizeLimit lineLimit newCountingReader chunks with
          | Err e => (s, Err e)
          | Ok r => fs_step n (<[path := mjoin chunks]> s)
                      {| md_Size := Z.of_nat (length (mjoin chunks)); md_LinesNumber := LineCount r |} s
          end
      end
  end.

Definition FRetrieve (n : net) (fileName folderName : string) : M FileStore (bytes * BatchFileMetadata) := λ s,
  match resolvePath folderName fileName with
  | Err e => (s, Err e)
  | Ok path =>
      match n with
      | NetErr _ => (s, Err ErrIO)
      | NetOk => match s !! path with
                 | None => (s, Err ErrFileNotFound)
                 | Some data => (s, Ok (data, {| md_Size := Z.of_nat (length data); md_LinesNumber := 0 |}))
                 end
      end
  end.

Definition FDelete (n : net) (fileName folderName : string) : M FileStore unit := λ s,
  match resolvePath folderName fileName with
  | Err e => (s, Err e)
  | Ok path => match s !! path with
               | None => (s, Err ErrFileNotFound)
               | Some _ => fs_step n (delete path s) tt s
               end
  end.

(** The prefix is matched as a directory. *)
Definition has_suffix_slash (s : string) : bool :=
  match last (list_ascii_of_string s) with Some c => bool_decide (c = "/"%char) | None => false end.
Definition dir_prefix (folderName prefix : string) : string :=
  join folderName (if has_suffix_slash prefix then prefix else prefix +:+ "/").
(** [failed]: the walk stopped with an error, having removed the files for
    which the function is true. *)
Definition FDeletePrefix (failed : option (string → bool)) (folderName prefix : string) : M FileStore nat := λ s,
  if bool_decide (folderName = "") then (s, Err (ErrOther "folderName must not be empty"))
  else if bool_decide (prefix = "") then (s, Err (ErrOther "prefix must not be empty"))
  else let gone := filter (λ kv : string * bytes, has_prefix (dir_prefix folderName prefix) kv.1 = true) s in
       match failed with
       | None => (s ∖ gone, Ok (size gone))
       | Some removed => (s ∖ filter (λ kv : string * bytes, removed kv.1 = true) gone, Err ErrIO)
       end.

(** ** Streaming writes *)
Record StreamWriter := { sw_path : string; sw_buf : bytes }.

Definition OpenStream (n : net) (fileName folderName : string) : M FileStore StreamWriter := λ s,
  match resolvePath folderName fileName with
  | Err e => (s, Err e)
  | Ok path => match n, s !! path with
               | NetErr _, _ => (s, Err ErrIO)
               | NetOk, Some _ => (s, Err ErrFileExists)
               | NetOk, None => (s, Ok {| sw_path := path; sw_buf := [] |})
               end
  end.
Definition sw_Write (p : bytes) (w : StreamWriter) : StreamWriter :=
  {| sw_path := sw_path w; sw_buf := app (sw_buf w) p |}.
(** Create-only: the link fails if the destination appeared meanwhile. *)
Definition sw_Commit (n : net) (w : StreamWriter) : M FileStore BatchFileMetadata := λ s,
  match s !! sw_path w with
  | Some _ => (s, Err ErrFileExists)
  | None => fs_step n (<[sw_path w := sw_buf w]> s)
              {| md_Size := Z.of_nat (length (sw_buf w)); md_LinesNumber := 0 |} s
  end.

(** ** [retry.Do]

    [fn attempt] returns the result and whether its error is marked
    permanent; [cancelled attempt] says the context ended before that
    attempt. *)
Fixpoint do_loop {T A} (fn : nat → T → T * (result A * bool)) (cancelled : nat → bool) (left attempt : nat)
    (last : err) (s : T) : T * (nat * result A) :=
  match left with
  | O => (s, ((attempt - 1)%nat, Err last))
  | S left' =>
      if cancelled attempt then (s, ((attempt - 1)%nat, Err (ErrOther "context canceled")))
      else match fn attempt s with
           | (s', (Ok a, _)) => (s', (attempt, Ok a))
           | (s', (Err e, true)) => (s', (attempt, Err e))
           | (s', (Err e, false)) => do_loop fn cancelled left' (S attempt) e s'
           end
  end.
Definition Do {T A} (maxRetries : nat) (fn : nat → T → T * (result A * bool)) (cancelled : nat → bool) (s : T)
    : T * (nat * result A) :=
  match fn 1%nat s with
  | (s', (Ok a, _)) => (s', (1%nat, Ok a))
  | (s', (Err e, permanent)) =>
      if (maxRetries =? 0)%nat || permanent then (s', (1%nat, Err e))
      else do_loop fn cancelled maxRetries 2 e s'
  end.

(** [retryclient.Store] of a seekable reader: a failed rewind is permanent. *)
Definition RStore (maxRetries : nat) (net_of : nat → net) (seek_fails cancelled : nat → bool)
    (fileName folderName : string) (sizeLimit lineLimit : Z) (chunks : list bytes)
    : FileStore → FileStore * result BatchFileMetadata := λ s,
  let '(s', (_, r)) :=
    Do maxRetries (λ attempt s,
      if (1 <? attempt)%nat && seek_fails attempt then (s, (Err (ErrOther "seek failed"), true))
      else let '(s', r) := FStore (net_of attempt) fileName folderName sizeLimit lineLimit chunks s in
           (s', (r, false))) cancelled s in
  (s', r).

(** ** The reader counts lines independently of the chunking *)

Fixpoint newlines (p : bytes) : Z :=
  match p with [] => 0 | b :: p' => (if b =? 10 then 1 else 0) + newlines p' end.
(** Whether content follows the last newline, [t] telling whether some did before. *)
Definition trails (t : bool) (p : bytes) : bool :=
  match last p with Some b => negb (b =? 10) | None => t end.

Lemma newlines_nonneg p : 0 ≤ newlines p.
Proof. induction p as [|b p IH]; cbn; [lia|]. destruct (b =? 10); lia. Qed.

Lemma newlines_app p q : newlines (app p q) = newlines p + newlines q.
Proof. induction p as [|b p IH]; cbn; [done|]. rewrite IH. lia. Qed.

Lemma trails_cons t b p : trails t (b :: p) = trails (negb (b =? 10)) p.
Proof. unfold trails. rewrite last_cons. by destruct (last p). Qed.

Lemma trails_app t p q : trails t (app p q) = trails (trails t p) q.
Proof. unfold trails. rewrite last_app. by destruct (last q). Qed.

Lemma count_lines_ok limit n t p :
  (0 < limit → n + newlines p ≤ limit) → count_lines limit n t p = Ok (n + newlines p, trails t p).
Proof.
  revert n t. induction p as [|b p IH]; intros n t Hl; cbn [count_lines newlines]; [by rewrite Z.add_0_r|].
  rewrite trails_cons. pose proof (newlines_nonneg p). cbn in Hl. destruct (b =? 10).
  - destruct (Z.ltb_spec 0 limit), (Z.ltb_spec limit (n + 1)); cbn [andb]; try (exfalso; lia).
    all: rewrite IH by lia; do 2 f_equal; lia.
  - rewrite IH by lia. do 2 f_equal; lia.
Qed.

Lemma count_lines_err limit n t p :
  0 < limit → n ≤ limit → limit < n + newlines p → count_lines limit n t p = Err ErrTooManyLines.
Proof.
  revert n t. induction p as [|b p IH]; intros n t Hp Hn Hl; cbn [count_lines newlines] in *; [lia|].
  destruct (b =? 10); [|apply IH; lia].
  destruct (Z.ltb_spec 0 limit), (Z.ltb_spec limit (n + 1)); cbn [andb]; try lia; [done|]. apply IH; lia.
Qed.

(** Lines of a content, the last one counted even without a newline. *)
Definition line_total (p : bytes) : Z := newlines p + (if trails false p then 1 else 0).

Lemma split_lines_length cur p :
  Z.of_nat (length (split_lines cur p)) =
  newlines p + (if trails (negb (bool_decide (cur = []))) p then 1 else 0).
Proof.
  revert cur. induction p as [|b p IH]; intros cur; [by destruct cur|]. rewrite trails_cons. cbn [split_lines newlines].
  destruct (b =? 10) eqn:Hb.
  - cbn [length]. rewrite Nat2Z.inj_succ, IH. cbn. lia.
  - rewrite IH. rewrite bool_decide_eq_false_2 by by destruct cur. cbn. lia.
Qed.

(** The state after the reads of a prefix [c]. *)
Definition after (c : bytes) : CountingReader :=
  {| BytesRead := Z.of_nat (length c); LineCount := newlines c; hasTrailingContent := trails false c |}.

Lemma copy_spec sl ll c chunks :
  let content := app c (mjoin chunks) in
  (0 < sl → Z.of_nat (length c) ≤ sl) → (0 < ll → newlines c ≤ ll) →
  (0 < sl → Z.of_nat (length content) ≤ sl) ∧ (0 < ll → line_total content ≤ ll) →
  ∃ r, copy sl ll (after c) chunks = Ok r ∧ LineCount r = line_total content.
Proof.
  revert c. induction chunks as [|p chunks IH]; intros c content Hs Hl [Hs' Hl']; cbn [copy].
  - unfold content in *. cbn in *. rewrite app_nil_r in *. unfold Read. cbn [length BytesRead after].
    rewrite Z.add_0_r. destruct (Z.ltb_spec 0 sl), (Z.ltb_spec sl (Z.of_nat (length c))); cbn [andb]; try (exfalso; lia).
    all: cbn [count_lines LineCount hasTrailingContent after andb]; unfold line_total in *;
      destruct (trails false c); [|eexists; split; [done|]; cbn; lia].
    all: destruct (Z.ltb_spec 0 ll), (Z.ltb_spec ll (newlines c + 1)); cbn [andb]; try (exfalso; lia);
      eexists; split; try done; cbn; lia.
  - assert (content = app (app c p) (mjoin chunks)) as Hc by (unfold content; cbn; by rewrite app_assoc).
    rewrite Hc in *. unfold line_total in Hl'. rewrite !length_app, newlines_app in *.
    pose proof (newlines_nonneg (mjoin chunks)). pose proof (newlines_nonneg p).
    assert (Read sl ll (after c) p false = Ok (after (app c p))) as ->.
    { unfold Read. cbn [BytesRead LineCount hasTrailingContent after andb].
      destruct (Z.ltb_spec 0 sl), (Z.ltb_spec sl (Z.of_nat (length c) + Z.of_nat (length p))); cbn [andb]; try (exfalso; lia).
      all: rewrite newlines_app in *; rewrite count_lines_ok by (destruct (trails _ _); lia).
      all: unfold after; rewrite length_app, newlines_app, trails_app, Nat2Z.inj_add; done. }
    apply IH.
    + intros. rewrite length_app. lia.
    + intros. rewrite newlines_app in *. destruct (trails _ _); lia.
    + unfold line_total. rewrite !length_app, !newlines_app in *. split; [lia|done].
Qed.

Lemma Read_sound sl ll c p r :
  Read sl ll (after c) p false = Ok r → (0 < ll → newlines c ≤ ll) →
  r = after (app c p) ∧ (0 < sl → Z.of_nat (length (app c p)) ≤ sl) ∧ (0 < ll → newlines (app c p) ≤ ll).
Proof.
  unfold Read. cbn [BytesRead LineCount hasTrailingContent after andb]. intros H Hl.
  destruct (_ && _) eqn:Hs; [done|].
  destruct (decide (0 < ll ∧ ll < newlines c + newlines p)) as [[H1 H2]|Hn].
  { by rewrite count_lines_err in H by (try lia; auto). }
  rewrite count_lines_ok in H by lia. simplify_eq.
  rewrite !length_app, newlines_app. split_and!.
  - unfold after. by rewrite length_app, newlines_app, trails_app, Nat2Z.inj_add.
  - intros Hp. apply andb_false_iff in Hs as [Hs|Hs]; boolify; lia.
  - lia.
Qed.

Lemma copy_sound sl ll c chunks r :
  (0 < ll → newlines c ≤ ll) → copy sl ll (after c) chunks = Ok r →
  let content := app c (mjoin chunks) in
  (0 < sl → Z.of_nat (length content) ≤ sl) ∧ (0 < ll → line_total content ≤ ll).
Proof.
  revert c. induction chunks as [|p chunks IH]; intros c Hl; cbn [copy].
  - cbn. rewrite app_nil_r. unfold Read. cbn [length BytesRead after]. rewrite Z.add_0_r.
    destruct (_ && _) eqn:Hs; [done|]. cbn [count_lines LineCount hasTrailingContent after andb].
    unfold line_total. intros H. split.
    + intros Hp. apply andb_false_iff in Hs as [Hs|Hs]; boolify; lia.
    + intros Hp. destruct (trails false c); [|specialize (Hl Hp); lia].
      destruct (Z.ltb_spec 0 ll), (Z.ltb_spec ll (newlines c + 1)); cbn [andb] in H; try done; lia.
  - destruct (Read sl ll (after c) p false) as [r'|] eqn:Hr; [|done].
    destruct (Read_sound _ _ _ _ _ Hr Hl) as (-> & Hs & Hl'). intros H%IH; [|done].
    change (mjoin (p :: chunks)) with (app p (mjoin chunks)). by rewrite app_assoc.
Qed.

Lemma copy_errors sl ll r chunks e :
  copy sl ll r chunks = Err e → e = ErrFileTooLarge ∨ e = ErrTooManyLines.
Proof.
  assert (∀ n t p x, count_lines ll n t p = Err x → x = ErrTooManyLines) as Hc.
  { intros n t p. revert n t. induction p as [|b p IH]; intros n t x; cbn; [done|].
    destruct (b =? 10); [|apply IH]. destruct (_ && _); [by intros [= <-]|apply IH]. }
  assert (∀ r p eof x, Read sl ll r p eof = Err x → x = ErrFileTooLarge ∨ x = ErrTooManyLines) as Hr.
  { intros r' p eof x. unfold Read. destruct (_ && _); [intros [= <-]; auto|].
    destruct (count_lines _ _ _ _) as [[l t]|y] eqn:Hy; [|intros [= <-]; right; by eapply Hc].
    destruct (eof && t); [|done]. destruct (_ && _); [|done]. intros [= <-]. auto. }
  revert r. induction chunks as [|p chunks IH]; intros r; cbn [copy]; [apply Hr|].
  destruct (Read sl ll r p false) as [r'|y] eqn:Hy; [apply IH|]. intros [= <-]. by eapply Hr.
Qed.

(** Upload limits are exact and independent of how the upload is chunked:
    storing a file at a free path succeeds exactly when it has at most
    [sizeLimit] bytes and at most [lineLimit] lines (a limit of 0 or less is no
    limit), the reported line count is the number of lines ingestion will read
    from that content, the stored bytes are the content, and a refused upload
    leaves the store unchanged with one of the two limit errors. *)
Theorem store_limits_exact s fileName folderName path sl ll chunks :
  resolvePath folderName fileName = Ok path → s !! path = None →
  let content := mjoin chunks in
  if bool_decide ((0 < sl → Z.of_nat (length content) ≤ sl) ∧
                  (0 < ll → Z.of_nat (length (input_lines content)) ≤ ll))
  then FStore NetOk fileName folderName sl ll chunks s =
         (<[path := content]> s, Ok {| md_Size := Z.of_nat (length content);
                                       md_LinesNumber := Z.of_nat (length (input_lines content)) |})
  else ∃ e, FStore NetOk fileName folderName sl ll chunks s = (s, Err e) ∧
            (e = ErrFileTooLarge ∨ e = ErrTooManyLines).
Proof.
  intros Hp Hs content. unfold FStore. rewrite Hp, Hs.
  assert (Z.of_nat (length (input_lines content)) = line_total content) as Hlt by apply split_lines_length.
  change newCountingReader with (after []).
  destruct (bool_decide_reflect ((0 < sl → Z.of_nat (length content) ≤ sl) ∧
    (0 < ll → Z.of_nat (length (input_lines content)) ≤ ll))) as [Hok|Hbad].
  - destruct (copy_spec sl ll [] chunks) as (r & -> & Hr); [cbn; lia|cbn; lia|change (app [] (mjoin chunks)) with content; by rewrite <- Hlt|].
    cbn [app] in Hr. cbn. by rewrite Hlt, Hr.
  - destruct (copy sl ll (after []) chunks) as [r|e] eqn:Hc.
    + exfalso. apply Hbad. rewrite Hlt. eapply (copy_sound sl ll [] chunks r); [cbn; lia|done].
    + exists e. split; [done|]. by eapply copy_errors.
Qed.

Lemma store_limits_exact_run :
  FStore NetOk "f.jsonl" "t-1" 100 2 [[65; 10]; [66]] ∅ =
    (<["t-1/f.jsonl" := [65; 10; 66]]> ∅, Ok {| md_Size := 3; md_LinesNumber := 2 |}).
Proof.
  apply (store_limits_exact ∅ "f.jsonl" "t-1" "t-1/f.jsonl" 100 2 [[65; 10]; [66]]); reflexivity.
Defined.

(** ** Retried uploads *)

(** What any number of attempts can do to the store: nothing, or make exactly
    this content visible at a path that was free. *)
Definition stored_once (path : string) (content : bytes) (s s' : FileStore) : Prop :=
  s' = s ∨ (s !! path = None ∧ s' = <[path := content]> s).

Lemma FStore_once n f d sl ll chunks s path :
  resolvePath d f = Ok path →
  stored_once path (mjoin chunks) s (FStore n f d sl ll chunks s).1 ∧
  (∀ md, (FStore n f d sl ll chunks s).2 = Ok md →
     s !! path = None ∧ (FStore n f d sl ll chunks s).1 = <[path := mjoin chunks]> s) ∧
  ((FStore n f d sl ll chunks s).2 = Err ErrFileExists → is_Some (s !! path)).
Proof.
  intros Hp. unfold FStore, stored_once. rewrite Hp. destruct (s !! path) eqn:Hs; [cbn; naive_solver|].
  destruct (copy _ _ _ _) as [r|e] eqn:Hc.
  - destruct n as [|[]]; cbn; naive_solver.
  - apply copy_errors in Hc as [-> | ->]; cbn; naive_solver.
Qed.

Section Retry.
Context {T A : Type} (fn : nat → T → T * (result A * bool)) (cancelled : nat → bool).
Context (R : T → T → Prop) (Hrefl : ∀ s, R s s) (Htrans : ∀ s1 s2 s3, R s1 s2 → R s2 s3 → R s1 s3).
Context (Hfn : ∀ n s, R s (fn n s).1).

(** [r] at [s'] is the outcome of an attempt started in a state related to [s]. *)
Definition outcome_of (s s' : T) (r : result A) : Prop :=
  ∃ n s1 b, R s s1 ∧ fn n s1 = (s', (r, b)).

(** A reflexive and transitive relation kept by every attempt is kept by the
    whole retry loop; the result is that of its last attempt, or the context
    was cancelled. *)
Lemma Do_spec maxRetries s :
  let '(s', (attempts, r)) := Do maxRetries fn cancelled s in
  R s s' ∧ (1 ≤ attempts ≤ S maxRetries)%nat ∧ (outcome_of s s' r ∨ r = Err (ErrOther "context canceled")).
Proof.
  assert (∀ left attempt e s0, R s s0 → outcome_of s s0 (Err e) → (2 ≤ attempt)%nat →
    (attempt + left = 2 + maxRetries)%nat →
    let '(s', (attempts, r)) := do_loop fn cancelled left attempt e s0 in
    R s s' ∧ (1 ≤ attempts ≤ S maxRetries)%nat ∧
    (outcome_of s s' r ∨ r = Err (ErrOther "context canceled"))) as Hloop.
  { induction left as [|left IH]; intros attempt e s0 HR Ho Ha Hsum; cbn [do_loop]; [split_and!; auto; lia|].
    destruct (cancelled attempt); [split_and!; auto; lia|].
    pose proof (Hfn attempt s0) as Hs. destruct (fn attempt s0) as [s1 [[a|x] perm]] eqn:Hf.
    - split_and!; [by eapply Htrans|lia|lia|left; by exists attempt, s0, perm].
    - destruct perm; [split_and!; [by eapply Htrans|lia|lia|left; by exists attempt, s0, true]|].
      apply IH; [by eapply Htrans|by exists attempt, s0, false|lia|lia]. }
  unfold Do. pose proof (Hfn 1%nat s) as Hs. destruct (fn 1%nat s) as [s1 [[a|x] perm]] eqn:Hf.
  - split_and!; [done|lia|lia|left; by exists 1%nat, s, perm].
  - destruct (_ || _); [split_and!; [done|lia|lia|left; by exists 1%nat, s, perm]|].
    by apply Hloop; [|exists 1%nat, s, perm|lia|lia].
Qed.
End Retry.

Lemma stored_once_trans path c s1 s2 s3 :
  stored_once path c s1 s2 → stored_once path c s2 s3 → stored_once path c s1 s3.
Proof.
  unfold stored_once. intros [->|[H1 ->]] [->|[H2 ->]]; auto.
  by rewrite lookup_insert_eq in H2.
Qed.

(** A retried upload is idempotent: with any number of retries, lost
    responses, failed rewinds and cancellation, the store ends unchanged or
    with exactly the uploaded content at a path that was free before; success
    means the latter, and if the path was free, "file already exists" can only
    mean that an earlier attempt of this very call stored the content. *)
Theorem retried_store_idempotent maxRetries net_of seek_fails cancelled f d path sl ll chunks s :
  resolvePath d f = Ok path →
  let '(s', r) := RStore maxRetries net_of seek_fails cancelled f d sl ll chunks s in
  stored_once path (mjoin chunks) s s' ∧
  (∀ md, r = Ok md → s !! path = None ∧ s' = <[path := mjoin chunks]> s) ∧
  (r = Err ErrFileExists → s !! path = None → s' = <[path := mjoin chunks]> s).
Proof.
  intros Hp. unfold RStore.
  set (fn := λ attempt s, if (1 <? attempt)%nat && seek_fails attempt then _ else _).
  assert (∀ n s, stored_once path (mjoin chunks) s (fn n s).1 ∧
    (∀ md b, (fn n s).2 = (Ok md, b) → s !! path = None ∧ (fn n s).1 = <[path := mjoin chunks]> s) ∧
    (∀ b, (fn n s).2 = (Err ErrFileExists, b) → is_Some (s !! path) ∧ (fn n s).1 = s)) as Hfn.
  { intros n s0. unfold fn. destruct (_ && _); [unfold stored_once; cbn; naive_solver|].
    pose proof (FStore_once (net_of n) f d sl ll chunks s0 path Hp) as (H1 & H2 & H3).
    destruct (FStore _ _ _ _ _ _ _) as [s1 r]. cbn in *. split_and!; [done|naive_solver|].
    intros b [= ->]. specialize (H3 eq_refl). split; [done|]. destruct H1 as [->|[Hn _]]; [done|].
    rewrite Hn in H3. by destruct H3. }
  pose proof (Do_spec fn cancelled (stored_once path (mjoin chunks)) (λ s, or_introl eq_refl)
    (stored_once_trans path (mjoin chunks)) (λ n s, proj1 (Hfn n s)) maxRetries s) as H.
  destruct (Do maxRetries fn cancelled s) as [s' [k r]]. destruct H as (HR & _ & Hout).
  split; [done|]. split.
  - intros md ->. destruct Hout as [(n & s1 & b & HR1 & Hf)|]; [|done].
    destruct (Hfn n s1) as (_ & Hok & _). rewrite Hf in Hok. destruct (Hok md b eq_refl) as [Hn Hs']. cbn in Hs'.
    destruct HR1 as [->|[_ ->]]; [done|]. by rewrite lookup_insert_eq in Hn.
  - intros -> Hfree. destruct Hout as [(n & s1 & b & HR1 & Hf)|]; [|done].
    destruct (Hfn n s1) as (_ & _ & Hex). rewrite Hf in Hex. destruct (Hex b eq_refl) as [[x Hx] Hs']. cbn in Hs'.
    subst s'. destruct HR1 as [->|[_ ->]]; [congruence|done].
Qed.

(** The response of the first attempt is lost after the link; the retry finds
    its own file. *)
Definition lossy (attempt : nat) : net := if (attempt =? 1)%nat then NetErr true else NetOk.
Lemma retried_store_idempotent_run :
  let out := RStore 3 lossy (λ _, false) (λ _, false) "k" "t-1" 0 0 [[65]] ∅ in
  out.2 = Err ErrFileExists ∧ out.1 = <["t-1/k" := [65]]> ∅.
Proof.
  split; [reflexivity|].
  pose proof (retried_store_idempotent 3 lossy (λ _, false) (λ _, false) "k" "t-1" "t-1/k" 0 0 [[65]] ∅ eq_refl) as H.
  apply H; reflexivity.
Defined.
