(* ===== verification/ResultStore.v ===== *)
(** * Durable results

    [internal/processor/worker/result_store.go]: each result is stored as its
    own object under a canonical key and then committed to its entry with the
    fenced first-wins update of [StoreOps].  [pipeline/result_line.go]
    classifies a result; [resumable_runner.go] activates a batch after storing
    the error objects of rejected lines.

    The world is the pair of database and file store.  SHA-256 (as a hex
    string) is a parameter; random fallback suffixes are arguments. *)

From Stdlib Require Import ZArith Lia Ascii String.
From stdpp Require Import base gmap strings list sorting pretty.
From S2P Require Import Prelude Openai Store StoreOps Ownership Fencing Lifecycle Examples Planner Preprocess Files.
Local Open Scope string_scope.
Local Open Scope Z_scope.

Record World := { w_db : DB; w_fs : FileStore }.

Definition on_db {A} (m : M DB A) : M World A :=
  λ w, let '(db, r) := m (w_db w) in ({| w_db := db; w_fs := w_fs w |}, r).
Definition on_fs {A} (m : M FileStore A) : M World A :=
  λ w, let '(fs, r) := m (w_fs w) in ({| w_db := w_db w; w_fs := fs |}, r).

(** ** Results *)

(** [ResultItem] as far as checkpointing reads it: the HTTP status of the
    response and the code of the error object. *)
Record ResultItem := { ri_RequestID : string; ri_CustomID : string; ri_Status : option Z; ri_Error : option string }.

Definition Succeeded (r : ResultItem) : bool :=
  match ri_Error r, ri_Status r with
  | None, Some code => (200 <=? code) && (code <=? 299)
  | _, _ => false
  end.

Definition ErrorCode (r : ResultItem) : string :=
  match ri_Error r, ri_Status r with
  | Some code, _ => code
  | None, Some st => "http_" +:+ pretty st
  | None, None => "unknown"
  end.

Definition string_bytes (s : string) : bytes := (λ c, Z.of_nat (nat_of_ascii c)) <$> list_ascii_of_string s.

Section ResultStore.
Context (sha256hex : bytes → string).

Definition GetFolderNameByTenantID (tenantID : string) : result string :=
  if bool_decide (tenantID = "") then Err (ErrOther "tenantID cannot be empty")
  else Ok ("t-" +:+ String.substring 0 61 (sha256hex (string_bytes tenantID))).

Record batchResultStore := { rs_batchID : string; rs_folder : string; rs_processorID : string; rs_epoch : Z }.

Definition newBatchResultStore (batchID tenantID processorID : string) (epoch : Z) : result batchResultStore :=
  match GetFolderNameByTenantID tenantID with
  | Err e => Err e
  | Ok folder => Ok {| rs_batchID := batchID; rs_folder := folder; rs_processorID := processorID; rs_epoch := epoch |}
  end.

(** Any failure to read the object, and any difference, is "not verified". *)
Definition verifyStored (s : batchResultStore) (n : net) (key digest : string) (size : Z) : M World bool :=
  r <- try (on_fs (FRetrieve n key (rs_folder s))) ;;
  match r with
  | Err _ => ret false
  | Ok (data, md) => if negb (md_Size md =? size) then ret false
                     else ret (bool_decide (sha256hex data = digest))
  end.

(** The network outcomes of one [Checkpoint]. *)
Record ckpt_net := {
  cn_find : net; cn_store : net; cn_verify : net; cn_fallback : net; cn_commit : net; cn_probe : net;
  cn_delete : net }.

Definition fallbackKey (batchID requestID suffix : string) : string :=
  "results/" +:+ batchID +:+ "/" +:+ requestID +:+ "." +:+ suffix +:+ ".jsonl".

Definition storeObject (s : batchResultStore) (cn : ckpt_net) (suffix requestID : string) (line : bytes)
    (digest : string) (size : Z) : M World string :=
  let key := resumableResultKey (rs_batchID s) requestID in
  r <- try (on_fs (FStore (cn_store cn) key (rs_folder s) 0 0 [line])) ;;
  match r with
  | Ok _ => ret key
  | Err e =>
      if negb (bool_decide (e = ErrFileExists)) then throw e
      else
        ok <- verifyStored s (cn_verify cn) key digest size ;;
        if (ok : bool) then ret key
        else
          let fallback := fallbackKey (rs_batchID s) requestID suffix in
          on_fs (FStore (cn_fallback cn) fallback (rs_folder s) 0 0 [line]) ;;; ret fallback
  end.

Definition result_row (msg : ResultItem) (key digest : string) (size : Z) : ResumableResult :=
  {| rr_Status := if Succeeded msg then ECompleted else EFailed; rr_ResultKey := key; rr_ResultBytes := size;
     rr_ResultSHA256 := digest;
     rr_ErrorCode := if Succeeded msg then "" else default "" (ri_Error msg) |}.

Definition Checkpoint (s : batchResultStore) (now : Z) (cn : ckpt_net) (suffix : string) (msg : ResultItem)
    (line : bytes) (digest : string) (size : Z) : M World bool :=
  entry <- on_db (FindEntryByRequestID (cn_find cn) (rs_batchID s) (ri_RequestID msg)) ;;
  if match entry with Some e => entry_terminal (re_Status e) | None => false end then ret false
  else
    key <- storeObject s cn suffix (ri_RequestID msg) line digest size ;;
    committed <- on_db (CheckpointEntryResult now (cn_commit cn) (cn_probe cn) (rs_batchID s) (ri_RequestID msg)
                          (rs_processorID s) (rs_epoch s) (Some (result_row msg key digest size))) ;;
    if (committed : bool) then ret true
    else if bool_decide (key = resumableResultKey (rs_batchID s) (ri_RequestID msg)) then ret false
    else try (on_fs (FDelete (cn_delete cn) key (rs_folder s))) ;;; ret false.

Definition putRejectedObject (s : batchResultStore) (n1 n2 : net) (e : manifestEntry) : M World unit :=
  r <- try (on_fs (FStore n1 (me_ResultKey e) (rs_folder s) 0 0 [me_ErrLine e])) ;;
  match r with
  | Ok _ => ret tt
  | Err x =>
      if negb (bool_decide (x = ErrFileExists)) then throw x
      else
        ok <- verifyStored s n2 (me_ResultKey e) (me_ResultSHA256 e) (me_ResultBytes e) ;;
        if (ok : bool) then ret tt else throw (ErrOther "rejected result holds unexpected bytes")
  end.

(** ** Activation ([resumable_runner.go]) *)
Fixpoint putRejected (s : batchResultStore) (net_of : string → net * net) (es : list manifestEntry) : M World unit :=
  match es with
  | [] => ret tt
  | e :: rest => if me_Rejected e then
                   let '(n1, n2) := net_of (me_RequestID e) in
                   putRejectedObject s n1 n2 e ;;; putRejected s net_of rest
                 else putRejected s net_of rest
  end.

Definition activateResumable (now leaseDuration : Z) (net_of : string → net * net) (n : net)
    (jobID tenantID jobProcessorID processorID : string) (epoch : Z) (manifest : requestManifest)
    : M World batchResultStore :=
  match newBatchResultStore jobID tenantID processorID epoch with
  | Err e => throw e
  | Ok sink =>
      putRejected sink net_of manifest ;;;
      on_db (ActivateResumableBatch now n (Some
        {| ra_BatchID := jobID; ra_ProcessorID := jobProcessorID; ra_Epoch := epoch; ra_LeaseTTL := leaseDuration;
           ra_Entries := activationEntries manifest |})) ;;;
      ret sink
  end.

(** ** Integrity

    The object an entry points to: present, with the recorded size and digest. *)
Definition intact (folder : string) (fs : FileStore) (e : Entry) : Prop :=
  ∃ key data, e_result_key e = Some key ∧ key ≠ "" ∧ fs !! join folder key = Some data ∧
    Z.of_nat (length data) = default 0 (e_result_bytes e) ∧ sha256hex data = default "" (e_result_sha256 e).

(** Every terminal entry of the batch has its result in the file store. *)
Definition results_intact (batchID folder : string) (w : World) : Prop :=
  ∀ q e, entries (w_db w) !! (batchID, q) = Some e → entry_terminal (e_status e) = true →
    intact folder (w_fs w) e.

Lemma resolvePath_ok folder file : folder ≠ "" → file ≠ "" → resolvePath folder file = Ok (join folder file).
Proof. intros. unfold resolvePath. by rewrite !bool_decide_eq_false_2. Qed.

(** A created file never hides an older object. *)
Definition grows (fs fs' : FileStore) : Prop := fs ⊆ fs'.

Lemma intact_grows folder fs fs' e : grows fs fs' → intact folder fs e → intact folder fs' e.
Proof.
  intros Hsub (key & data & Hk & Hne & Hd & Hs). exists key, data. split_and!; try naive_solver.
  by eapply lookup_weaken.
Qed.

Lemma FStore_grows n f d sl ll chunks fs : grows fs (FStore n f d sl ll chunks fs).1.
Proof.
  unfold grows. unfold FStore. destruct (resolvePath d f) as [path|]; [|done].
  destruct (fs !! path) eqn:Hp; [done|]. destruct (copy _ _ _ _); [|done].
  destruct n as [|[]]; cbn; try done; by apply insert_subseteq.
Qed.

Lemma FStore_ok n f d chunks fs fs' md :
  FStore n f d 0 0 chunks fs = (fs', Ok md) →
  ∃ path, resolvePath d f = Ok path ∧ fs' !! path = Some (mjoin chunks) ∧ fs !! path = None.
Proof.
  unfold FStore. destruct (resolvePath d f) as [path|] eqn:Hp; [|done].
  destruct (fs !! path) eqn:Hf; [done|]. destruct (copy _ _ _ _); [|done].
  destruct n as [|[]]; try done. intros [= <- <-]. exists path. by rewrite lookup_insert_eq.
Qed.

Lemma verifyStored_spec s n key digest size w w' b :
  verifyStored s n key digest size w = (w', Ok b) →
  w' = w ∧ (b = true → ∃ path data, resolvePath (rs_folder s) key = Ok path ∧ w_fs w !! path = Some data ∧
                         Z.of_nat (length data) = size ∧ sha256hex data = digest).
Proof.
  unfold verifyStored, bindM, try, on_fs, FRetrieve. destruct w as [db fs].
  destruct (resolvePath (rs_folder s) key) as [path|]; cbn; [|intros [= <- <-]; done].
  destruct n; cbn; [|intros [= <- <-]; done].
  destruct (fs !! path) as [data|] eqn:Hd; cbn; [|intros [= <- <-]; done].
  destruct (Z.eqb_spec (Z.of_nat (length data)) size); cbn; intros [= <- <-]; [|done].
  split; [done|]. intros Hb%bool_decide_eq_true. by exists path, data.
Qed.

(** The object at [key] holds [size] bytes with the given digest. *)
Definition object_at (folder : string) (fs : FileStore) (key digest : string) (size : Z) : Prop :=
  key ≠ "" ∧ ∃ data, fs !! join folder key = Some data ∧ Z.of_nat (length data) = size ∧ sha256hex data = digest.

Lemma resolvePath_inv folder file path : resolvePath folder file = Ok path → path = join folder file ∧ file ≠ "".
Proof. unfold resolvePath. repeat case_bool_decide; intros; simplify_eq; done. Qed.

Lemma storeObject_spec s cn suffix rid line digest size w w' r :
  sha256hex line = digest → Z.of_nat (length line) = size →
  storeObject s cn suffix rid line digest size w = (w', r) →
  w_db w' = w_db w ∧ grows (w_fs w) (w_fs w') ∧
  ∀ key, r = Ok key → object_at (rs_folder s) (w_fs w') key digest size ∧
    (key = resumableResultKey (rs_batchID s) rid ∨ w_fs w !! join (rs_folder s) key = None).
Proof.
  intros Hdig Hsize. unfold storeObject. set (key0 := resumableResultKey _ _).
  unfold bindM at 1, try at 1, on_fs at 1.
  pose proof (FStore_grows (cn_store cn) key0 (rs_folder s) 0 0 [line] (w_fs w)) as Hg.
  destruct (FStore (cn_store cn) key0 (rs_folder s) 0 0 [line] (w_fs w)) as [fs1 [md|e]] eqn:Hst; cbn in Hg.
  { unfold ret. intros [= <- <-]. cbn. split_and!; [done|done|]. intros key [= <-]. split; [|by left].
    apply FStore_ok in Hst as (path & Hp & Hl & _). apply resolvePath_inv in Hp as [-> Hne].
    split; [done|]. exists (mjoin [line]). split; [done|]. cbn. by rewrite app_nil_r. }
  destruct (negb _); [unfold throw; intros [= <- <-]; by cbn|].
  unfold bindM at 1. set (w1 := {| w_db := w_db w; w_fs := fs1 |}).
  destruct (verifyStored s (cn_verify cn) key0 digest size w1) as [w2 [b|x]] eqn:Hv.
  2: { unfold verifyStored, bindM, try, on_fs in Hv.
       destruct (FRetrieve _ _ _ _) as [? [[? md]|?]]; cbn in Hv; [|done]. destruct (negb _); done. }
  apply verifyStored_spec in Hv as [-> Hb]. destruct b.
  { unfold ret. intros [= <- <-]. cbn. split_and!; [done|done|]. intros key [= <-].
    destruct (Hb eq_refl) as (path & data & Hp & Hd & Hsz & Hsha).
    apply resolvePath_inv in Hp as [-> Hne]. split; [|by left]. split; [done|]. by exists data. }
  unfold bindM, on_fs. cbn [w_fs w_db w1].
  pose proof (FStore_grows (cn_fallback cn) (fallbackKey (rs_batchID s) rid suffix) (rs_folder s) 0 0 [line] fs1) as Hg2.
  destruct (FStore (cn_fallback cn) _ _ _ _ _ fs1) as [fs2 [md|x]] eqn:Hst2; cbn in Hg2;
    unfold ret; intros [= <- <-]; cbn; (split_and!; [done|by etrans|]); [|done].
  intros key [= <-]. apply FStore_ok in Hst2 as (path & Hp & Hl & Hnew). apply resolvePath_inv in Hp as [-> Hne].
  split; [|right; by eapply lookup_weaken_None]. split; [done|]. exists (mjoin [line]). split; [done|]. cbn. by rewrite app_nil_r.
Qed.

(** What [CheckpointEntryResult] can do to the tables, whatever the network. *)
Lemma CheckpointEntryResult_effect now n1 n2 b q p e res db db' r :
  CheckpointEntryResult now n1 n2 b q p e (Some res) db = (db', r) →
  (db' = db ∨ ∃ x, entries db !! (b, q) = Some x ∧
      db' = {| items := items db; entries := <[(b, q) := checkpoint_entry res x]> (entries db) |}) ∧
  (r = Ok false → db' = db) ∧
  (r = Ok true → ∃ x, entries db !! (b, q) = Some x ∧ entry_terminal (rr_Status res) = true ∧
      entries db' !! (b, q) = Some (checkpoint_entry res x)).
Proof.
  unfold CheckpointEntryResult. destruct (entry_terminal (rr_Status res)) eqn:Ht; cbn [negb];
    [|unfold throw; intros [= <- <-]; split_and!; [by left|done|done]].
  unfold bindM at 1, exec, total, sql_checkpoint, update_entry.
  pose proof (entryNotUpdatable_pure n2 b q p e db) as Hp.
  assert (∀ d x, entryNotUpdatable n2 b q p e db = (d, Ok x) → d = db) as Hp2.
  { intros d x Hd. by rewrite Hd in Hp. }
  destruct (items db !! b) as [row|]; [destruct (ownerLockCTE now p e row)|].
  1: destruct (entries db !! (b, q)) as [x|] eqn:Hx; [destruct (entry_open x)|].
  { destruct n1 as [|[]]; cbn; unfold ret; intros [= <- <-]; split_and!; try done; eauto.
    intros _. exists x. split_and!; try done. cbn. by rewrite lookup_insert_eq. }
  all: destruct n1 as [|[]]; cbn; intros H; simplify_eq; try (split_and!; [by left|done|done]).
  all: unfold bindM in H; destruct (entryNotUpdatable n2 b q p e db) as [d [[]|y]] eqn:Hd; cbn in *;
    unfold ret in H; simplify_eq; split_and!; try done; by left.
Qed.

Lemma checkpoint_entry_intact folder fs msg key digest size x :
  object_at folder fs key digest size → 0 ≤ size →
  intact folder fs (checkpoint_entry (result_row msg key digest size) x).
Proof.
  intros (Hne & data & Hd & Hs & Hh) Hsz. exists key, data. cbn. unfold null_string.
  rewrite (bool_decide_eq_false_2 (key = "")) by done. split_and!; try done.
  - destruct (Z.ltb_spec 0 size); cbn; lia.
  - case_bool_decide; cbn; congruence.
Qed.

Lemma FDelete_effect n key folder fs :
  (FDelete n key folder fs).1 = fs ∨ (FDelete n key folder fs).1 = delete (join folder key) fs.
Proof.
  unfold FDelete. destruct (resolvePath folder key) as [path|] eqn:Hp; [|by left].
  apply resolvePath_inv in Hp as [-> _]. destruct (fs !! _); [|by left]. destruct n as [|[]]; cbn; auto.
Qed.

Lemma join_inj folder k1 k2 : join folder k1 = join folder k2 → k1 = k2.
Proof. unfold join. intros H%(inj (String.append folder)). by apply (inj (String.append "/")) in H. Qed.

(** A terminal entry points to its object after the entry was written. *)
Lemma insert_entry_intact b f w fs1 k msg key digest size x :
  results_intact b f w → grows (w_fs w) fs1 → (k.1 = b → object_at f fs1 key digest size) → 0 ≤ size →
  results_intact b f
    {| w_db := {| items := items (w_db w);
                  entries := <[k := checkpoint_entry (result_row msg key digest size) x]> (entries (w_db w)) |}; w_fs := fs1 |}.
Proof.
  intros Hint Hg Ho Hs q e He Ht. cbn [w_db w_fs entries] in *. rewrite lookup_insert in He.
  case_decide as Hq; simplify_eq; [by apply checkpoint_entry_intact; auto|].
  eapply intact_grows; [done|]. by eapply Hint.
Qed.

Lemma find_entry_pure n b q db : (FindEntryByRequestID n b q db).1 = db.
Proof. unfold FindEntryByRequestID, query, exec. by destruct n as [|[]]. Qed.

(** Deleting a file that was not there before loses nothing. *)
Lemma delete_new_grows fs fs1 path : grows fs fs1 → fs !! path = None → grows fs (delete path fs1).
Proof.
  intros Hg Hn. apply map_subseteq_spec. intros k x Hk. rewrite lookup_delete_ne by congruence. by eapply lookup_weaken.
Qed.

(** A checkpoint never removes an object, and keeps the results of every batch
    whose folder is the one this job uses for it. *)
Lemma Checkpoint_keeps s now cn suffix msg line digest size w w' r b f :
  sha256hex line = digest → Z.of_nat (length line) = size → (rs_batchID s = b → rs_folder s = f) →
  results_intact b f w → Checkpoint s now cn suffix msg line digest size w = (w', r) →
  results_intact b f w' ∧ grows (w_fs w) (w_fs w').
Proof.
  intros Hdig Hsize Hbf Hint. unfold Checkpoint. unfold bindM at 1, on_db at 1.
  pose proof (find_entry_pure (cn_find cn) (rs_batchID s) (ri_RequestID msg) (w_db w)) as Hf.
  destruct (FindEntryByRequestID _ _ _ _) as [db0 [entry|x]]; cbn in Hf; subst db0;
    [|intros [= <- <-]; split; [by destruct w|done]].
  destruct (match entry with Some e => _ | None => _ end); [unfold ret; intros [= <- <-]; split; [by destruct w|done]|].
  replace {| w_db := w_db w; w_fs := w_fs w |} with w by by destruct w.
  unfold bindM at 1.
  destruct (storeObject s cn suffix (ri_RequestID msg) line digest size w) as [w1 r1] eqn:Hst.
  apply storeObject_spec in Hst as (Hdb & Hg & Hkey); [|done|done].
  assert (∀ fs, grows (w_fs w) fs → results_intact b f {| w_db := w_db w1; w_fs := fs |}) as Hint1.
  { intros fs Hfs q e He Ht. cbn in He. rewrite Hdb in He. eapply intact_grows; [done|by eapply Hint]. }
  destruct r1 as [key|x]; [|intros [= <- <-]; split; [|done]; replace w1 with {| w_db := w_db w1; w_fs := w_fs w1 |} by (by destruct w1); auto].
  destruct (Hkey key eq_refl) as [Hobj Hname]. unfold bindM at 1, on_db.
  destruct (CheckpointEntryResult _ _ _ _ _ _ _ _ (w_db w1)) as [db2 r2] eqn:Hck.
  apply CheckpointEntryResult_effect in Hck as (Heff & Hfalse & _).
  assert (results_intact b f {| w_db := db2; w_fs := w_fs w1 |}) as Hint2.
  { destruct Heff as [->|(x & Hx & ->)]; [auto|]. rewrite Hdb.
    apply (insert_entry_intact b f w (w_fs w1)); [done|done| |lia]. cbn. intros Hb. by rewrite <- (Hbf Hb). }
  destruct r2 as [[|]|x]; [unfold ret; intros [= <- <-]; done| |intros [= <- <-]; done].
  case_bool_decide as Hcanon; unfold bindM, try, on_fs, ret; cbn [w_db w_fs]; [intros [= <- <-]; done|].
  specialize (Hfalse eq_refl). subst db2. destruct Hname as [|Hname]; [done|].
  pose proof (FDelete_effect (cn_delete cn) key (rs_folder s) (w_fs w1)) as Hdel.
  destruct (FDelete _ _ _ _) as [fs2 r3]. cbn in *. intros [= <- <-]. cbn.
  assert (grows (w_fs w) fs2) as Hg2 by (destruct Hdel as [-> | ->]; [done|by apply delete_new_grows]).
  split; [by apply Hint1|done].
Qed.

(** The objects of a batch lie under its own prefix. *)
Definition result_key (b key : string) : Prop := ∃ rest, key = "results/" +:+ b +:+ "/" +:+ rest.
Definition keys_ok (b : string) (db : DB) : Prop :=
  ∀ q e key, entries db !! (b, q) = Some e → e_result_key e = Some key → result_key b key.

Lemma storeObject_key s cn suffix rid line digest size w w' key :
  storeObject s cn suffix rid line digest size w = (w', Ok key) → result_key (rs_batchID s) key.
Proof.
  assert (result_key (rs_batchID s) (resumableResultKey (rs_batchID s) rid)) as Hc by by eexists.
  assert (result_key (rs_batchID s) (fallbackKey (rs_batchID s) rid suffix)) as Hf by by eexists.
  unfold storeObject, bindM, try, on_fs, ret, throw.
  destruct (FStore (cn_store cn) _ _ _ _ _ _) as [fs1 [md|e]]; [by intros [= <- <-]|]. destruct (negb _); [done|].
  destruct (verifyStored _ _ _ _ _ _) as [w1 [[]|x]]; [by intros [= <- <-]| |done].
  destruct (FStore _ _ _ _ _ _ _) as [fs2 [md|e2]]; [by intros [= <- <-]|done].
Qed.

(** A free key is written at once. *)
Lemma storeObject_free s cn suffix rid line digest size w : cn_store cn = NetOk → rs_folder s ≠ "" →
  w_fs w !! join (rs_folder s) (resumableResultKey (rs_batchID s) rid) = None →
  ∃ w1, storeObject s cn suffix rid line digest size w = (w1, Ok (resumableResultKey (rs_batchID s) rid)) ∧ w_db w1 = w_db w.
Proof.
  intros Hn Hf Hfree. unfold storeObject, bindM at 1, try, on_fs, FStore. rewrite resolvePath_ok by done. rewrite Hfree, Hn.
  destruct (copy_spec 0 0 [] [line]) as (r & Hr & _); [cbn; lia|cbn; lia|split; cbn; lia|].
  change (after []) with newCountingReader in Hr. rewrite Hr. cbn. by eexists.
Qed.
(** A result without an entry is taken for lost ownership. *)
Lemma checkpoint_missing now b q p e res db : entries db !! (b, q) = None → entry_terminal (rr_Status res) = true →
  CheckpointEntryResult now NetOk NetOk b q p e (Some res) db = (db, Err ErrConflict).
Proof.
  intros Hn Ht. unfold CheckpointEntryResult. rewrite Ht. cbn [negb]. unfold bindM, exec, total, sql_checkpoint, update_entry.
  assert (entryNotUpdatable NetOk b q p e db = (db, Err ErrConflict)) as Hu.
  { unfold entryNotUpdatable, bindM, try, query, exec. destruct (items db !! b) as [r|]; cbn; [|done].
    destruct (owner_is p e r); [|done]. rewrite Hn. done. }
  destruct (items db !! b) as [r|]; [|by rewrite Hu]. destruct (ownerLockCTE now p e r); [rewrite Hn|]; by rewrite Hu.
Qed.

Lemma Checkpoint_keys s now cn suffix msg line digest size w w' r b :
  sha256hex line = digest → Z.of_nat (length line) = size →
  keys_ok b (w_db w) → Checkpoint s now cn suffix msg line digest size w = (w', r) → keys_ok b (w_db w').
Proof.
  intros Hdig Hsize Hk. unfold Checkpoint. unfold bindM at 1, on_db at 1.
  pose proof (find_entry_pure (cn_find cn) (rs_batchID s) (ri_RequestID msg) (w_db w)) as Hf.
  destruct (FindEntryByRequestID _ _ _ _) as [db0 [entry|x]]; cbn in Hf; subst db0; [|by intros [= <- <-]].
  destruct (match entry with Some e => _ | None => _ end); [unfold ret; by intros [= <- <-]|]. unfold bindM at 1.
  destruct (storeObject _ _ _ _ _ _ _ _) as [w1 r1] eqn:Hst. pose proof Hst as Hdb.
  apply storeObject_spec in Hdb as (Hdb & _); [|done|done]. cbn in Hdb.
  destruct r1 as [key|x]; [apply storeObject_key in Hst|intros [= <- <-]; by rewrite Hdb].
  unfold bindM at 1, on_db. destruct (CheckpointEntryResult _ _ _ _ _ _ _ _ (w_db w1)) as [db2 r2] eqn:Hck.
  apply CheckpointEntryResult_effect in Hck as (Heff & _). rewrite Hdb in Heff.
  assert (keys_ok b db2) as Hk2.
  { destruct Heff as [->|(x & Hx & ->)]; [done|]. intros q e key' He Hkey. cbn in He. rewrite lookup_insert in He.
    case_decide as Hq; [|by eapply Hk]. simplify_eq. cbn in Hkey. unfold null_string in Hkey. case_bool_decide; naive_solver. }
  destruct r2 as [[|]|x]; [unfold ret; by intros [= <- <-]| |by intros [= <- <-]].
  case_bool_decide; unfold bindM, try, on_fs, ret; [by intros [= <- <-]|]. destruct (FDelete _ _ _ _). by intros [= <- <-].
Qed.

(** No crash loses or corrupts a result: for a marshalled line with its
    size and digest, Checkpoint keeps the invariant that every terminal entry
    of the batch points to an object of the recorded size and digest, under
    every combination of network outcomes of its seven remote calls; and when
    it reports a commit, the request's entry is terminal, completed exactly for
    a success line, and records this line's size and digest. *)
Theorem checkpoint_keeps_results s now cn suffix msg line digest size w w' r :
  sha256hex line = digest → Z.of_nat (length line) = size →
  results_intact (rs_batchID s) (rs_folder s) w →
  Checkpoint s now cn suffix msg line digest size w = (w', r) →
  results_intact (rs_batchID s) (rs_folder s) w' ∧
  (r = Ok true → ∃ e, entries (w_db w') !! (rs_batchID s, ri_RequestID msg) = Some e ∧
     e_status e = (if Succeeded msg then ECompleted else EFailed) ∧
     default 0 (e_result_bytes e) = size ∧ default "" (e_result_sha256 e) = digest).
Proof.
  intros Hdig Hsize Hint Hc. split; [by eapply Checkpoint_keeps|]. intros ->. revert Hc. unfold Checkpoint, bindM, on_db, ret.
  destruct (FindEntryByRequestID _ _ _ _) as [db0 [entry|x]]; [|done]. destruct (match entry with Some e => _ | None => _ end); [done|].
  destruct (storeObject _ _ _ _ _ _ _ _) as [w1 [key|x]]; [|done].
  destruct (CheckpointEntryResult _ _ _ _ _ _ _ _ (w_db w1)) as [db2 r2] eqn:Hck.
  apply CheckpointEntryResult_effect in Hck as (_ & _ & Htrue). destruct r2 as [[|]|x]; [|case_bool_decide|done]; [|done|].
  - intros [= <-]. destruct (Htrue eq_refl) as (x & Hx & Ht & Hx'). exists (checkpoint_entry (result_row msg key digest size) x).
    split_and!; [done|done| |]; cbn; [destruct (Z.ltb_spec 0 size); cbn; lia|]. unfold null_string. case_bool_decide; cbn; congruence.
  - unfold try, on_fs. by destruct (FDelete _ _ _ _).
Qed.

(** ** Activation stores the rejected lines first *)

(** The metadata ingestion records for a rejected line ([rejectedEntry]). *)
Definition rejected_wf (e : manifestEntry) : Prop :=
  me_Rejected e = true →
  me_ResultKey e ≠ "" ∧ me_ResultBytes e = Z.of_nat (length (me_ErrLine e)) ∧
  me_ResultSHA256 e = sha256hex (me_ErrLine e).

Lemma putRejectedObject_spec s n1 n2 e w w' r :
  rejected_wf e → me_Rejected e = true → putRejectedObject s n1 n2 e w = (w', r) →
  w_db w' = w_db w ∧ grows (w_fs w) (w_fs w') ∧
  (r = Ok tt → object_at (rs_folder s) (w_fs w') (me_ResultKey e) (me_ResultSHA256 e) (me_ResultBytes e)).
Proof.
  intros Hwf Hrej. destruct (Hwf Hrej) as (Hne & Hsz & Hsh). unfold putRejectedObject.
  unfold bindM at 1, try, on_fs.
  pose proof (FStore_grows n1 (me_ResultKey e) (rs_folder s) 0 0 [me_ErrLine e] (w_fs w)) as Hg.
  destruct (FStore n1 _ _ _ _ _ _) as [fs1 [md|x]] eqn:Hst; cbn in Hg.
  { unfold ret. intros [= <- <-]. cbn. split_and!; [done|done|]. intros _.
    apply FStore_ok in Hst as (path & [-> _]%resolvePath_inv & Hl & _). split; [done|].
    exists (mjoin [me_ErrLine e]). split; [done|]. cbn. rewrite app_nil_r. by rewrite Hsz, Hsh. }
  destruct (negb _); [unfold throw; intros [= <- <-]; by cbn|].
  unfold bindM. destruct (verifyStored s n2 _ _ _ _) as [w2 [b|y]] eqn:Hv.
  - apply verifyStored_spec in Hv as [-> Hb]. destruct b; unfold ret, throw; intros [= <- <-]; cbn; [|done].
    split_and!; [done|done|]. intros _. destruct (Hb eq_refl) as (path & data & [-> _]%resolvePath_inv & Hd & Hs1 & Hs2).
    split; [done|]. by exists data.
  - intros [= <- <-]. unfold verifyStored, bindM, try, on_fs in Hv.
    destruct (FRetrieve _ _ _ _) as [? [[? md]|?]]; cbn in Hv; [|done]. destruct (negb _); done.
Qed.

Lemma putRejected_spec s net_of es w w' r :
  Forall rejected_wf es → putRejected s net_of es w = (w', r) →
  w_db w' = w_db w ∧ grows (w_fs w) (w_fs w') ∧
  (r = Ok tt → ∀ e, e ∈ es → me_Rejected e = true →
     object_at (rs_folder s) (w_fs w') (me_ResultKey e) (me_ResultSHA256 e) (me_ResultBytes e)).
Proof.
  revert w. induction es as [|e es IH]; intros w Hwf; cbn [putRejected].
  { unfold ret. intros [= <- <-]. split_and!; try done. intros _ e He. by apply elem_of_nil in He. }
  inv Hwf. destruct (me_Rejected e) eqn:Hr.
  - destruct (net_of (me_RequestID e)) as [n1 n2]. unfold bindM.
    destruct (putRejectedObject s n1 n2 e w) as [w1 [[]|x]] eqn:Hp;
      apply putRejectedObject_spec in Hp as (Hdb & Hg & Hobj); try done.
    + intros (Hdb' & Hg' & Hall)%IH; [|done]. split_and!; [congruence|by etrans|].
      intros Hok e' [->|He']%elem_of_cons Hr'; [|by apply Hall].
      destruct (Hobj eq_refl) as (Hne & data & Hd & Hrest). split; [done|]. exists data. split; [|done].
      by eapply lookup_weaken.
    + intros [= <- <-]. done.
  - intros (Hdb & Hg & Hall)%IH; [|done]. split_and!; try done.
    intros Hok e' [->|He']%elem_of_cons Hr'; [congruence|by apply Hall].
Qed.

(** Activation never precedes the results it accounts for: whatever the
    network does at any of its calls, after activateResumable every terminal
    entry of the batch (the rejected lines) still has its error object stored
    with the recorded size and digest; a crash before the activation statement
    leaves at most orphan objects. *)
Theorem activation_results_intact now lease net_of n jobID tenantID owner p epoch manifest folder w w' r :
  GetFolderNameByTenantID tenantID = Ok folder → Forall rejected_wf manifest →
  results_intact jobID folder w →
  activateResumable now lease net_of n jobID tenantID owner p epoch manifest w = (w', r) →
  results_intact jobID folder w' ∧ grows (w_fs w) (w_fs w').
Proof.
  intros Hfolder Hwf Hint. unfold activateResumable, newBatchResultStore. rewrite Hfolder. cbn [rs_folder].
  set (sink := {| rs_batchID := jobID; rs_folder := folder; rs_processorID := p; rs_epoch := epoch |}).
  unfold bindM at 1. destruct (putRejected sink net_of manifest w) as [w1 [[]|x]] eqn:Hp;
    apply putRejected_spec in Hp as (Hdb & Hg & Hobj); try done.
  2: { intros [= <- <-]. split; [|done]. intros q e He Ht. rewrite Hdb in He.
       eapply intact_grows; [done|by eapply Hint]. }
  assert (results_intact jobID folder w1) as Hint1.
  { intros q e He Ht. rewrite Hdb in He. eapply intact_grows; [done|by eapply Hint]. }
  set (act := {| ra_BatchID := jobID; ra_ProcessorID := owner; ra_Epoch := epoch; ra_LeaseTTL := lease;
                 ra_Entries := activationEntries manifest |}).
  unfold bindM, on_db.
  assert ((ActivateResumableBatch now n (Some act) (w_db w1)).1 = w_db w1 ∨
    ∃ its, (ActivateResumableBatch now n (Some act) (w_db w1)).1 =
      {| items := its; entries := insert_entries jobID (activationEntries manifest) (entries (w_db w1)) |}) as Heff.
  { unfold ActivateResumableBatch, throw, bindM, exec, sql_activate, conflict_if_zero, ret.
    destruct n as [|[]]; repeat destruct_match; simplify_eq; cbn; eauto. }
  destruct (ActivateResumableBatch now n (Some act) (w_db w1)) as [db2 r2]. cbn [fst] in Heff.
  assert (results_intact jobID folder {| w_db := db2; w_fs := w_fs w1 |}) as Hint2.
  { destruct Heff as [->|[its ->]]; [done|]. intros q e He Ht. cbn [w_db w_fs entries] in *.
    apply insert_entries_lookup in He as [He|(a & Ha & _ & ->)]; [by eapply Hint1|].
    unfold activationEntries in Ha. apply list_elem_of_fmap in Ha as (me & -> & Hme).
    unfold activationEntry in *. destruct (me_Rejected me) eqn:Hr; [|done].
    destruct (Hobj eq_refl me Hme Hr) as (Hne & data & Hd & Hs & Hh). exists (me_ResultKey me), data.
    cbn. unfold null_string, null_int. rewrite (bool_decide_eq_false_2 (me_ResultKey me = "")) by done.
    split_and!; try done.
    - destruct (Z.eqb_spec (me_ResultBytes me) 0); cbn; lia.
    - case_bool_decide; cbn; congruence. }
  destruct r2; unfold ret; intros [= <- <-]; done.
Qed.

End ResultStore.

(** ** A concrete checkpoint *)
Definition demo_sha (b : bytes) : string := pretty (Z.of_nat (length b)).
Definition demo_sink : batchResultStore :=
  {| rs_batchID := "b1"; rs_folder := "t-1"; rs_processorID := "p1"; rs_epoch := 1 |}.
Definition demo_world : World := {| w_db := active_db; w_fs := ∅ |}.
Definition demo_msg : ResultItem :=
  {| ri_RequestID := "q1"; ri_CustomID := "c"; ri_Status := Some 200; ri_Error := None |}.
Definition calm : ckpt_net :=
  {| cn_find := NetOk; cn_store := NetOk; cn_verify := NetOk; cn_fallback := NetOk; cn_commit := NetOk;
     cn_probe := NetOk; cn_delete := NetOk |}.

Lemma active_entry_open q e :
  entries active_db !! ("b1", q) = Some e → entry_terminal (e_status e) = false ∧ e_result_key e = None.
Proof.
  cbn [active_db entries]. rewrite !lookup_insert. repeat case_decide; intros; simplify_eq; done.
Qed.

Lemma checkpoint_keeps_results_run :
  ∃ w', Checkpoint demo_sha demo_sink 1000 calm "u" demo_msg [65; 10] "2" 2 demo_world = (w', Ok true) ∧
        results_intact demo_sha "b1" "t-1" w'.
Proof.
  eexists. split; [vm_compute; reflexivity|].
  eapply (checkpoint_keeps_results demo_sha demo_sink 1000 calm "u" demo_msg [65; 10] "2" 2 demo_world);
    [reflexivity|reflexivity| |vm_compute; reflexivity].
  intros q e He Ht. destruct (active_entry_open q e He) as [Hn _]. congruence.
Defined.

Definition demo_rejected : manifestEntry :=
  {| me_Ordinal := 0; me_CustomID := "c"; me_RequestID := "r0"; me_Rejected := true; me_ErrorCode := "model_not_found";
     me_ResultKey := "results/b2/r0.jsonl"; me_ResultBytes := 2; me_ResultSHA256 := "2"; me_ErrLine := [69; 10] |}.
Lemma activation_results_intact_run :
  let out := activateResumable demo_sha 10 30000000000 (λ _, (NetOk, NetOk)) NetOk "b2" "t" "p1" "p1" 1
               [demo_rejected] {| w_db := fst first_claim; w_fs := ∅ |} in
  (∃ sink, snd out = Ok sink) ∧ results_intact demo_sha "b2" "t-1" (fst out).
Proof.
  split; [eexists; vm_compute; reflexivity|].
  eapply (activation_results_intact demo_sha 10 30000000000 (λ _, (NetOk, NetOk)) NetOk "b2" "t" "p1" "p1" 1
    [demo_rejected] "t-1" {| w_db := fst first_claim; w_fs := ∅ |});
    [reflexivity| | |apply surjective_pairing].
  - apply Forall_cons_2; [|apply Forall_nil_2]. intros _. repeat split; discriminate.
  - intros q e He. vm_compute in He. discriminate.
Defined.
