(* ===== verification/Entries.v ===== *)
(** * Reading a batch's entry set

    [internal/processor/worker/recovery.go]: the paginated listing of a
    batch's entries ([listResumableEntries]), the comparison of the persisted
    entry set with the manifest re-derived from the input
    ([checkManifestIntegrity]) and the resume seed ([recoverResumable]). *)

From Stdlib Require Import ZArith Lia Ascii String.
From stdpp Require Import base gmap strings list sorting pretty.
From S2P Require Import Prelude Openai Store StoreOps Ownership Fencing Lifecycle Examples Planner Preprocess Files ResultStore.
Local Open Scope string_scope.
Local Open Scope Z_scope.

Definition resumableEntriesPageSize : nat := 500.

(** The pagination loop; each page of full size moves [afterOrdinal] past at
    least one entry, so the number of entries plus one is enough fuel.
    [net_of after] is the outcome of the page read after that ordinal. *)
Fixpoint list_loop (pageSize fuel : nat) (net_of : Z → net) (jobID : string) (afterOrdinal : Z)
    (all : list ResumableEntry) : M DB (list ResumableEntry) :=
  match fuel with
  | O => throw (ErrOther "fuel")
  | S fuel' =>
      entries <- ListBatchEntries (net_of afterOrdinal) jobID afterOrdinal pageSize ;;
      match last entries with
      | None => ret all
      | Some e =>
          if (length entries <? pageSize)%nat then ret (app all entries)
          else list_loop pageSize fuel' net_of jobID (re_Ordinal e) (app all entries)
      end
  end.
Definition listResumableEntries (fuel : nat) (net_of : Z → net) (jobID : string) : M DB (list ResumableEntry) :=
  list_loop resumableEntriesPageSize fuel net_of jobID (-1) [].

(** The index loop compares entry [i] with manifest entry [i]. *)
Definition entry_mismatch (m : manifestEntry) (e : ResumableEntry) : option err :=
  if negb (bool_decide (re_RequestID e = me_RequestID m)) || negb (re_Ordinal e =? me_Ordinal m)
     || negb (bool_decide (re_CustomID e = me_CustomID m))
  then Some (ErrOther "identity mismatch")
  else let rejected := bool_decide (re_Status e = EFailed) && (re_Attempts e =? 0) in
       if negb (Bool.eqb rejected (me_Rejected m)) then Some (ErrOther "rejected-set mismatch") else None.
Fixpoint check_entries (ms : requestManifest) (es : list ResumableEntry) : result unit :=
  match ms, es with
  | m :: ms', e :: es' => match entry_mismatch m e with Some x => Err x | None => check_entries ms' es' end
  | _, _ => Ok tt
  end.
Definition checkManifestIntegrity (manifest : requestManifest) (es : list ResumableEntry) : result unit :=
  if negb (length es =? length manifest)%nat then Err (ErrOther "entry set size") else check_entries manifest es.

(** One iteration of the seed loop. *)
Definition seed_step (seed : ResumableResumeState) (e : ResumableEntry) : ResumableResumeState :=
  match re_Status e with
  | ECompleted =>
      {| rs_Pending := rs_Pending seed; rs_InFlight := rs_InFlight seed; rs_Completed := rs_Completed seed + 1;
         rs_Failed := rs_Failed seed; rs_TerminalRequestIDs := app (rs_TerminalRequestIDs seed) [re_RequestID e];
         rs_InFlightSubmittedBy := rs_InFlightSubmittedBy seed |}
  | EFailed =>
      {| rs_Pending := rs_Pending seed; rs_InFlight := rs_InFlight seed; rs_Completed := rs_Completed seed;
         rs_Failed := rs_Failed seed + 1; rs_TerminalRequestIDs := app (rs_TerminalRequestIDs seed) [re_RequestID e];
         rs_InFlightSubmittedBy := rs_InFlightSubmittedBy seed |}
  | EInFlight =>
      {| rs_Pending := rs_Pending seed; rs_InFlight := rs_InFlight seed + 1; rs_Completed := rs_Completed seed;
         rs_Failed := rs_Failed seed; rs_TerminalRequestIDs := rs_TerminalRequestIDs seed;
         rs_InFlightSubmittedBy :=
           if bool_decide (re_SubmittedBy e = "") then rs_InFlightSubmittedBy seed
           else <[re_RequestID e := re_SubmittedBy e]> (rs_InFlightSubmittedBy seed) |}
  | EPending =>
      {| rs_Pending := rs_Pending seed + 1; rs_InFlight := rs_InFlight seed; rs_Completed := rs_Completed seed;
         rs_Failed := rs_Failed seed; rs_TerminalRequestIDs := rs_TerminalRequestIDs seed;
         rs_InFlightSubmittedBy := rs_InFlightSubmittedBy seed |}
  end.
Definition empty_seed : ResumableResumeState :=
  {| rs_Pending := 0; rs_InFlight := 0; rs_Completed := 0; rs_Failed := 0; rs_TerminalRequestIDs := [];
     rs_InFlightSubmittedBy := ∅ |}.
Definition resume_seed (es : list ResumableEntry) : ResumableResumeState := foldl seed_step empty_seed es.

Section Recover.
Context (sha256hex : bytes → string).

Definition recoverResumable (fuel : nat) (net_of : Z → net) (jobID tenantID processorID : string) (epoch : Z)
    (manifest : requestManifest) : M DB (batchResultStore * ResumableResumeState) :=
  es <- listResumableEntries fuel net_of jobID ;;
  match checkManifestIntegrity manifest es with
  | Err e => throw e
  | Ok _ => match newBatchResultStore sha256hex jobID tenantID processorID epoch with
            | Err e => throw e
            | Ok sink => ret (sink, resume_seed es)
            end
  end.
End Recover.

(** ** The listing is complete and in order *)

(** Ordinals identify the entries of a batch and count from 0, as activation
    writes them ([manifest_activates]). *)
Definition ordinals_ok (b : string) (db : DB) : Prop :=
  (∀ q e, entries db !! (b, q) = Some e → 0 ≤ e_ordinal e) ∧
  (∀ q1 q2 e1 e2, entries db !! (b, q1) = Some e1 → entries db !! (b, q2) = Some e2 →
     e_ordinal e1 = e_ordinal e2 → q1 = q2).

Definition all_entries (b : string) (db : DB) : list ResumableEntry := scanEntryRow <$> entries_by_ordinal b db.

#[export] Instance ordinal_le_total : base.Total ordinal_le.
Proof. intros a b. unfold ordinal_le. lia. Qed.
#[export] Instance ordinal_le_trans : Transitive ordinal_le.
Proof. intros a b c. unfold ordinal_le. lia. Qed.

Lemma elem_of_entries_by_ordinal b db kv :
  kv ∈ entries_by_ordinal b db ↔ kv.1.1 = b ∧ entries db !! kv.1 = Some kv.2.
Proof.
  unfold entries_by_ordinal. rewrite merge_sort_Permutation. destruct kv as [k e].
  rewrite elem_of_map_to_list. unfold batch_entries. rewrite map_lookup_filter_Some. cbn. tauto.
Qed.

Lemma entries_by_ordinal_NoDup b db : NoDup (entries_by_ordinal b db).
Proof. unfold entries_by_ordinal. rewrite merge_sort_Permutation. apply NoDup_map_to_list. Qed.

(** With distinct ordinals the order is strict. *)
Definition ord_lt (a b : (string * string) * Entry) : Prop := e_ordinal a.2 < e_ordinal b.2.

Lemma strictly_sorted (l : list ((string * string) * Entry)) :
  StronglySorted ordinal_le l → NoDup l →
  (∀ a b, a ∈ l → b ∈ l → e_ordinal a.2 = e_ordinal b.2 → a = b) → StronglySorted ord_lt l.
Proof.
  induction l as [|a l IH]; intros Hs Hnd Hinj; [constructor|].
  apply StronglySorted_inv in Hs as [Hs Ha]. apply NoDup_cons in Hnd as [Hni Hnd].
  constructor.
  - apply IH; [done|done|]. intros x y Hx Hy. apply Hinj; by right.
  - rewrite Forall_forall in Ha |- *. intros y Hy. specialize (Ha y Hy). unfold ordinal_le, ord_lt in *.
    destruct (decide (e_ordinal a.2 = e_ordinal y.2)) as [He|]; [|lia].
    apply Hinj in He; [by subst|left|by right].
Qed.

Lemma entries_by_ordinal_sorted b db : ordinals_ok b db → StronglySorted ord_lt (entries_by_ordinal b db).
Proof.
  intros [_ Hinj]. apply strictly_sorted.
  - apply StronglySorted_merge_sort; apply _.
  - apply entries_by_ordinal_NoDup.
  - intros [[b1 q1] e1] [[b2 q2] e2] [Hb1 H1]%elem_of_entries_by_ordinal [Hb2 H2]%elem_of_entries_by_ordinal He.
    cbn in *. subst b1 b2. assert (q1 = q2) as -> by by eapply Hinj. congruence.
Qed.

(** Entries up to [after] are filtered out, the rest kept. *)
Lemma filter_after (l1 l2 : list ((string * string) * Entry)) after :
  Forall (λ kv, e_ordinal kv.2 ≤ after) l1 → Forall (λ kv, after < e_ordinal kv.2) l2 →
  filter (λ kv, after < e_ordinal kv.2) (app l1 l2) = l2.
Proof.
  intros H1 H2. rewrite filter_app.
  assert (filter (λ kv, after < e_ordinal kv.2) l1 = []) as ->.
  { induction H1 as [|x l1 Hx _ IH]; [done|]. rewrite filter_cons, decide_False by lia. done. }
  cbn. induction H2 as [|x l2 Hx _ IH]; [done|]. rewrite filter_cons, decide_True by done. by rewrite IH.
Qed.

(** The position of the loop: [l1] has been delivered, [after] is its last
    ordinal (or -1). *)
Definition at_position (after : Z) (l1 l2 : list ((string * string) * Entry)) : Prop :=
  Forall (λ kv, e_ordinal kv.2 ≤ after) l1 ∧ Forall (λ kv, after < e_ordinal kv.2) l2.

Lemma list_page_at b db l1 l2 after limit :
  entries_by_ordinal b db = app l1 l2 → at_position after l1 l2 →
  list_page b after limit db = scanEntryRow <$> take limit l2.
Proof. intros Hl [H1 H2]. unfold list_page. by rewrite Hl, filter_after. Qed.

(** Moving past a page [l] that ends with [x]. *)
Lemma at_position_next l1 l x l2 :
  StronglySorted ord_lt (app l1 (app (app l [x]) l2)) →
  at_position (e_ordinal x.2) (app l1 (app l [x])) l2.
Proof.
  rewrite !app_assoc. intros Hs. split.
  - apply Forall_app. split; [|repeat constructor; lia].
    apply Forall_forall. intros y Hy.
    assert (ord_lt y x) as Hlt.
    { apply StronglySorted_app_1_l in Hs. eapply StronglySorted_app_1_elem_of; [apply Hs|done|left]. }
    unfold ord_lt in Hlt. lia.
  - apply Forall_forall. intros y Hy.
    eapply (StronglySorted_app_1_elem_of ord_lt (app (app l1 l) [x]) l2 x y); [done|apply elem_of_app; right; left|done].
Qed.

Lemma last_scan (l : list ((string * string) * Entry)) :
  last (scanEntryRow <$> l) = scanEntryRow <$> last l.
Proof. apply fmap_last. Qed.

Lemma list_loop_complete pageSize b db fuel l1 l2 after :
  (0 < pageSize)%nat → ordinals_ok b db →
  entries_by_ordinal b db = app l1 l2 → at_position after l1 l2 → (length l2 < fuel)%nat →
  list_loop pageSize fuel (λ _, NetOk) b after (scanEntryRow <$> l1) db = (db, Ok (all_entries b db)).
Proof.
  intros Hps Hok. revert l1 l2 after. induction fuel as [|fuel IH]; intros l1 l2 after Hl Hpos Hf; [lia|].
  cbn [list_loop]. unfold bindM at 1, ListBatchEntries at 1, query at 1, exec at 1.
  destruct (pageSize =? 0)%nat eqn:Hz; [apply Nat.eqb_eq in Hz; lia|].
  rewrite (list_page_at b db l1 l2 after pageSize Hl Hpos), last_scan.
  destruct (last (take pageSize l2)) as [x|] eqn:Hlast; cbn [fmap option_fmap option_map].
  - apply last_Some in Hlast as [l Hpage]. rewrite length_fmap.
    pose proof (take_drop pageSize l2) as Hsplit. rewrite Hpage in Hsplit.
    destruct (length (take pageSize l2) <? pageSize)%nat eqn:Hshort.
    + apply Nat.ltb_lt in Hshort. rewrite length_take in Hshort. rewrite take_ge by lia.
      unfold ret, all_entries. by rewrite Hl, fmap_app.
    + rewrite <- fmap_app. apply (IH (app l1 (take pageSize l2)) (drop pageSize l2)).
      * by rewrite <- app_assoc, take_drop.
      * rewrite Hpage. apply (at_position_next l1 l x (drop pageSize l2)).
        rewrite <- Hsplit in Hl. rewrite <- Hl. by apply entries_by_ordinal_sorted.
      * rewrite <- Hsplit, !length_app in Hf. cbn in Hf. lia.
  - apply last_None in Hlast. apply (f_equal length) in Hlast. rewrite length_take in Hlast. cbn in Hlast.
    assert (l2 = []) as -> by (apply nil_length_inv; lia).
    unfold ret, all_entries. by rewrite Hl, app_nil_r.
Qed.

Lemma at_start b db : ordinals_ok b db → at_position (-1) [] (entries_by_ordinal b db).
Proof.
  intros [Hge _]. split; [constructor|]. apply Forall_forall.
  intros [[b' q] e] [Hb He]%elem_of_entries_by_ordinal. cbn in *. subst b'. specialize (Hge q e He). lia.
Qed.

(** Pagination loses nothing: with the pages read successfully, the
    listing of a batch terminates within (number of entries + 1) rounds and
    returns every entry of the batch exactly once, in strictly increasing
    ordinal order, whatever the number of entries is relative to the page
    size. *)
Theorem listing_complete b db :
  ordinals_ok b db →
  let es := all_entries b db in
  listResumableEntries (S (length es)) (λ _, NetOk) b db = (db, Ok es) ∧
  StronglySorted (λ x y, re_Ordinal x < re_Ordinal y) es ∧
  ∀ x, x ∈ es ↔ ∃ q e, entries db !! (b, q) = Some e ∧ x = scanEntryRow ((b, q), e).
Proof.
  intros Hok es. split_and!.
  - unfold listResumableEntries. apply (list_loop_complete _ b db _ [] (entries_by_ordinal b db));
      [unfold resumableEntriesPageSize; lia|done|done|by apply at_start|].
    unfold es, all_entries. rewrite length_fmap. lia.
  - unfold es, all_entries. pose proof (entries_by_ordinal_sorted b db Hok) as Hs.
    induction Hs as [|x l Hs IH Hx]; cbn; [constructor|]. constructor; [done|].
    apply Forall_fmap. eapply Forall_impl; [apply Hx|]. done.
  - intros x. unfold es, all_entries. rewrite list_elem_of_fmap. split.
    + intros ([[b' q] e] & -> & [Hb He]%elem_of_entries_by_ordinal). cbn in *. subst. eauto.
    + intros (q & e & He & ->). exists ((b, q), e). split; [done|]. by apply elem_of_entries_by_ordinal.
Qed.

(** ** The resume seed *)

Definition has_status (st : EntryStatus) (e : ResumableEntry) : bool :=
  match re_Status e, st with
  | EPending, EPending | EInFlight, EInFlight | ECompleted, ECompleted | EFailed, EFailed => true
  | _, _ => false
  end.
Definition count_entries (st : EntryStatus) (es : list ResumableEntry) : Z :=
  Z.of_nat (length (filter (λ e, has_status st e = true) es)).

Lemma count_entries_snoc st es e :
  count_entries st (app es [e]) = count_entries st es + (if has_status st e then 1 else 0).
Proof.
  unfold count_entries. rewrite filter_app, length_app, filter_cons, filter_nil.
  destruct (has_status st e); [rewrite decide_True by done|rewrite decide_False by done]; cbn; lia.
Qed.

Lemma resume_seed_snoc es e : resume_seed (app es [e]) = seed_step (resume_seed es) e.
Proof. unfold resume_seed. by rewrite foldl_app. Qed.

(** The resume seed accounts for every entry exactly once: the four
    counters are the numbers of entries in each status and add up to the size
    of the entry set, the terminal request IDs are exactly those of completed
    and failed entries, and a request is recoverable from a previous owner
    exactly when its entry is in flight with a recorded submitter. *)
Theorem resume_seed_exact es :
  NoDup (re_RequestID <$> es) →
  let seed := resume_seed es in
  rs_Pending seed = count_entries EPending es ∧ rs_InFlight seed = count_entries EInFlight es ∧
  rs_Completed seed = count_entries ECompleted es ∧ rs_Failed seed = count_entries EFailed es ∧
  rs_Pending seed + rs_InFlight seed + rs_Completed seed + rs_Failed seed = Z.of_nat (length es) ∧
  rs_TerminalRequestIDs seed = re_RequestID <$> filter (λ e, entry_terminal (re_Status e) = true) es ∧
  (∀ q p, rs_InFlightSubmittedBy seed !! q = Some p ↔
     ∃ e, e ∈ es ∧ re_RequestID e = q ∧ re_Status e = EInFlight ∧ re_SubmittedBy e = p ∧ p ≠ "").
Proof.
  induction es as [|e es IH] using rev_ind; intros Hnd seed.
  { cbn. split_and!; try done. intros q p. rewrite lookup_empty. split; [done|].
    intros (e & He & _). by apply elem_of_nil in He. }
  rewrite fmap_app, NoDup_app in Hnd. destruct Hnd as (Hnd & Hdisj & _).
  destruct (IH Hnd) as (H1 & H2 & H3 & H4 & H5 & H6 & H7).
  assert (∀ x, x ∈ es → re_RequestID x ≠ re_RequestID e) as Hne.
  { intros x Hx Heq. apply (Hdisj (re_RequestID x)); [by apply list_elem_of_fmap_2|].
    rewrite Heq. left. }
  unfold seed. rewrite resume_seed_snoc, !count_entries_snoc, length_app, filter_app, fmap_app, filter_cons, filter_nil.
  rewrite <- H6. unfold has_status.
  assert (∀ q p, (∃ x, x ∈ es ∧ re_RequestID x = q ∧ re_Status x = EInFlight ∧ re_SubmittedBy x = p ∧ p ≠ "") ∨
      (re_RequestID e = q ∧ re_Status e = EInFlight ∧ re_SubmittedBy e = p ∧ p ≠ "") ↔
      (∃ x, x ∈ app es [e] ∧ re_RequestID x = q ∧ re_Status x = EInFlight ∧ re_SubmittedBy x = p ∧ p ≠ "")) as Hsplit.
  { intros q p. setoid_rewrite elem_of_app. setoid_rewrite list_elem_of_singleton.
    split; [intros [(x & ? & ?)|?]; [exists x|exists e]; auto|].
    intros (x & [?| ->] & ?); [left; exists x|right]; auto. }
  setoid_rewrite <- Hsplit. setoid_rewrite <- H7.
  unfold seed_step. destruct (re_Status e) eqn:Hst; cbn -[resume_seed bool_decide]; rewrite ?app_nil_r;
    (split_and!; [lia|lia|lia|lia|lia|done|]); intros q p.
  1, 3, 4: split; [by auto|intros [?|(_ & [=] & _)]; done].
  case_bool_decide as Hsub; [split; [by auto|intros [?|(_ & _ & <- & ?)]; done]|].
  rewrite lookup_insert. case_decide as Hq; [|split; [by auto|intros [?|(? & _)]; done]].
  split; [intros [= <-]; by auto|].
  intros [(x & Hx & Hxq & _)%H7|(_ & _ & <- & _)]; [|done]. exfalso. apply (Hne x Hx). congruence.
Qed.

(** ** Manifest integrity *)

(** Failed without ever having been dispatched: the mark of a rejected line. *)
Definition looks_rejected (e : Entry) : bool := bool_decide (e_status e = EFailed) && (e_attempts e =? 0).

(** The entries of the batch are those of the manifest: same requests, same
    identity, and the rejected ones are those that look rejected. *)
Definition follows (b : string) (manifest : requestManifest) (db : DB) : Prop :=
  (∀ q e, entries db !! (b, q) = Some e → ∃ m, m ∈ manifest ∧ me_RequestID m = q) ∧
  ∀ m, m ∈ manifest → ∃ e, entries db !! (b, me_RequestID m) = Some e ∧
    e_ordinal e = me_Ordinal m ∧ e_custom_id e = me_CustomID m ∧ looks_rejected e = me_Rejected m.

(** The same without the mark of the rejected lines. *)
Definition listed (b : string) (manifest : requestManifest) (db : DB) : Prop :=
  (∀ q e, entries db !! (b, q) = Some e → ∃ m, m ∈ manifest ∧ me_RequestID m = q) ∧
  ∀ m, m ∈ manifest → ∃ e, entries db !! (b, me_RequestID m) = Some e ∧
    e_ordinal e = me_Ordinal m ∧ e_custom_id e = me_CustomID m.

(** Ordinals increase along the manifest, request IDs are distinct. *)
Definition manifest_ok (manifest : requestManifest) : Prop :=
  StronglySorted (λ m1 m2, me_Ordinal m1 < me_Ordinal m2) manifest ∧ NoDup (me_RequestID <$> manifest).

Lemma entry_mismatch_none m q e b :
  me_RequestID m = q → e_ordinal e = me_Ordinal m → e_custom_id e = me_CustomID m → looks_rejected e = me_Rejected m →
  entry_mismatch m (scanEntryRow ((b, q), e)) = None.
Proof.
  intros Hq Ho Hc Hr. unfold entry_mismatch. cbn. rewrite Hq, Ho, Hc, Z.eqb_refl, !bool_decide_eq_true_2 by done. cbn.
  unfold looks_rejected in Hr. rewrite Hr. by rewrite eqb_reflx.
Qed.

(** The listed rows are the manifest's, in its order. *)
Lemma listed_rows b manifest db :
  manifest_ok manifest → listed b manifest db →
  Forall2 (λ m kv, kv.1 = (b, me_RequestID m) ∧ entries db !! kv.1 = Some kv.2 ∧ e_ordinal kv.2 = me_Ordinal m ∧
                   e_custom_id kv.2 = me_CustomID m) manifest (entries_by_ordinal b db).
Proof.
  intros [Hsort Hnd] [Hsub Hall].
  assert (∃ rows, Forall2 (λ m kv, kv.1 = (b, me_RequestID m) ∧ entries db !! kv.1 = Some kv.2 ∧
    e_ordinal kv.2 = me_Ordinal m ∧ e_custom_id kv.2 = me_CustomID m)
    manifest rows) as [rows HF].
  { clear Hsort Hnd Hsub. induction manifest as [|m ms IH]; [exists []; constructor|].
    destruct (Hall m) as (e & He & H1 & H2); [left|].
    destruct IH as [rows HF]; [intros m' Hm'; apply Hall; by right|].
    exists (((b, me_RequestID m), e) :: rows). constructor; [|done]. split_and!; done. }
  enough (rows = entries_by_ordinal b db) as <- by done.
  assert (rows.*1 = (λ m, (b, me_RequestID m)) <$> manifest) as Hkeys.
  { clear -HF. induction HF as [|m kv ms rows (Hk & _) _ IH]; [done|]. cbn. by rewrite IH, Hk. }
  assert (NoDup rows) as Hndr.
  { apply (NoDup_fmap_1 fst). rewrite Hkeys.
    assert ((λ m, (b, me_RequestID m)) <$> manifest = pair b <$> (me_RequestID <$> manifest)) as ->
      by by rewrite <- list_fmap_compose.
    by apply NoDup_fmap_2; [intros ?? [=]|]. }
  assert (StronglySorted ord_lt rows) as Hs.
  { clear -HF Hsort. induction HF as [|m kv ms rows (_ & _ & Ho & _) HF IH]; [constructor|].
    apply StronglySorted_inv in Hsort as [Hsort Hm]. constructor; [by apply IH|].
    apply Forall_forall. intros y Hy. apply list_elem_of_lookup in Hy as [i Hi].
    destruct (Forall2_lookup_r _ _ _ _ _ HF Hi) as (m' & Hm' & _ & _ & Ho' & _).
    rewrite Forall_forall in Hm. specialize (Hm m' (list_elem_of_lookup_2 _ _ _ Hm')). unfold ord_lt. lia. }
  assert (∀ kv, kv ∈ rows ↔ kv ∈ entries_by_ordinal b db) as Hmem.
  { intros kv. rewrite elem_of_entries_by_ordinal. split.
    - intros Hin. apply list_elem_of_lookup in Hin as [i Hi].
      destruct (Forall2_lookup_r _ _ _ _ _ HF Hi) as (m & _ & Hk & He & _).
      split; [by rewrite Hk|done].
    - destruct kv as [[b' q] e]. cbn. intros [-> He]. destruct (Hsub q e He) as (m & Hm & <-).
      apply list_elem_of_lookup in Hm as [i Hi]. destruct (Forall2_lookup_l _ _ _ _ _ HF Hi) as (kv & Hkv & Hk & He' & _).
      destruct kv as [k e']. cbn in *. subst k. assert (e' = e) as -> by congruence. by eapply list_elem_of_lookup_2. }
  eapply (StronglySorted_unique_strong ordinal_le).
  - intros x1 x2 Hx1 Hx2 H12 H21. apply Hmem in Hx2. clear -Hs Hx1 Hx2 H12 H21.
    assert (e_ordinal x1.2 = e_ordinal x2.2) as He by (unfold ordinal_le in *; lia). clear H12 H21.
    induction Hs as [|y l Hs IH Hy]; [by apply elem_of_nil in Hx1|]. rewrite Forall_forall in Hy. unfold ord_lt in Hy.
    rewrite elem_of_cons in Hx1, Hx2. destruct Hx1 as [->|Hx1], Hx2 as [->|Hx2]; auto.
    + specialize (Hy x2 Hx2). lia.
    + specialize (Hy x1 Hx1). lia.
  - clear -Hs. induction Hs as [|y l Hs IH Hy]; constructor; [done|]. eapply Forall_impl; [apply Hy|].
    intros z Hz. unfold ord_lt, ordinal_le in *. lia.
  - apply StronglySorted_merge_sort; apply _.
  - apply NoDup_Permutation; [done|apply entries_by_ordinal_NoDup|done].
Qed.

Lemma follows_listed b manifest db : follows b manifest db → listed b manifest db.
Proof. intros [H1 H2]. split; [done|]. intros m Hm. destruct (H2 m Hm) as (e & ? & ? & ? & _). by exists e. Qed.
Lemma follows_rows b manifest db :
  manifest_ok manifest → follows b manifest db →
  Forall2 (λ m kv, kv.1 = (b, me_RequestID m) ∧ e_ordinal kv.2 = me_Ordinal m ∧
                   e_custom_id kv.2 = me_CustomID m ∧ looks_rejected kv.2 = me_Rejected m)
    manifest (entries_by_ordinal b db).
Proof.
  intros Hok Hf. pose proof (listed_rows b manifest db Hok (follows_listed _ _ _ Hf)) as HF. destruct Hf as [_ Hf].
  apply Forall2_same_length_lookup_2; [by eapply Forall2_length|]. intros i m kv Hm Hkv.
  destruct (Forall2_lookup_lr _ _ _ _ _ _ HF Hm Hkv) as (Hk & He & Ho & Hc). split_and!; try done.
  destruct (Hf m (list_elem_of_lookup_2 _ _ _ Hm)) as (e & He' & _ & _ & Hr). rewrite Hk in He. congruence.
Qed.

Lemma follows_integrity b manifest db :
  manifest_ok manifest → follows b manifest db → checkManifestIntegrity manifest (all_entries b db) = Ok tt.
Proof.
  intros Hok Hf. pose proof (follows_rows b manifest db Hok Hf) as HF.
  unfold checkManifestIntegrity, all_entries. rewrite length_fmap.
  rewrite (Forall2_length _ _ _ HF), Nat.eqb_refl. cbn [negb]. clear Hf Hok. revert HF. generalize (entries_by_ordinal b db).
  intros rows HF.
  induction HF as [|m [k e] ms rows (Hk & Ho & Hc & Hr) _ IH]; [done|]. cbn [fmap list_fmap check_entries].
  cbn in Hk. subst k. cbn in Ho, Hc, Hr. by rewrite (entry_mismatch_none m (me_RequestID m) e b).
Qed.

(** Every checkpoint in the interleaving concerns an entry that was marked in
    flight at least once (or is already terminal), as the pre-submit hook of
    the dispatcher does for every submitted request. *)
Fixpoint marked_run (b : string) (ss : list Stmt) (db : DB) : Prop :=
  match ss with
  | [] => True
  | s :: ss' =>
      match s with
      | SCheckpoint _ b' q _ _ _ =>
          b' = b → ∀ e, entries db !! (b, q) = Some e → entry_terminal (e_status e) = true ∨ 1 ≤ e_attempts e
      | _ => True
      end ∧ marked_run b ss' (run s db)
  end.

(** An entry that is not rejected fails only after a dispatch. *)
Definition dispatched_before_failing (e : Entry) : Prop :=
  0 ≤ e_attempts e ∧ (e_status e = EFailed → 1 ≤ e_attempts e).

(** Only a checkpoint of that entry turns it into a terminal one. *)
Lemma run_entry_terminal s db k e e' :
  admissible s → entries db !! k = Some e → entries (run s db) !! k = Some e' → entry_terminal (e_status e') = true →
  e' = e ∨ ∃ now p ep res, s = SCheckpoint now k.1 k.2 p ep res.
Proof.
  intros Ha He He' Hf. destruct (run_entry s db k e e' Ha He He') as [->|Hst]; [by left|].
  inversion Hst as [| |? ? Hfl]; subst; cbn in Hf; [done| |by rewrite Hfl in Hf].
  assert (e_attempts (checkpoint_entry res e) = e_attempts e) by done.
  destruct s; cbn [run] in He'; try (by left; congruence).
  all: try (left; unfold sql_renew, sql_requeue, sql_finalize, sql_enqueue, sql_update, sql_progress in He';
            rewrite update_row_entries in He'; congruence).
  - left. unfold sql_activate in He'. destruct (items db !! _) as [x|]; cbn in He'; [|congruence].
    destruct (activation_candidate act db x) eqn:Hc; cbn in He'; [|congruence].
    case_bool_decide; cbn in He'; [|congruence]. unfold activation_candidate in Hc. boolify.
    rewrite insert_entries_other in He'; [congruence|]. intros Hb.
    by rewrite (batch_entries_empty (ra_BatchID act) db k) in He.
  - left. rewrite backfill_lookup, He in He'. injection He' as Heq. unfold backfill_entry in Heq.
    destruct (_ && _) eqn:Hb; [|congruence]. boolify. apply (f_equal e_status) in Heq. cbn in Heq.
    rewrite <- Heq in Hf. by destruct (e_status e).
  - apply (update_entry_lookup _ _ _ _ _ _ _ _ _ _ He) in He' as [->|(-> & _ & Heq)]; [by left|].
    exfalso. apply (f_equal e_status) in Heq. cbn in Heq. by rewrite Heq in Hf.
  - apply (update_entry_lookup _ _ _ _ _ _ _ _ _ _ He) in He' as [->|(-> & _ & _)]; [by left|].
    right. cbn. eauto.
  - left. change (entries db !! k = Some (checkpoint_entry res e)) in He'. congruence.
  - left. change (entries db !! k = Some (checkpoint_entry res e)) in He'. congruence.
  - left. unfold sql_pqdelete in He'. case_bool_decide; cbn in He'; rewrite ?update_row_entries in He'; congruence.
  - left. unfold sql_insert in He'. destruct (items db !! id); cbn in He'; congruence.
  - left. unfold sql_delete in He'. cbn [fst entries] in He'. apply map_lookup_filter_Some in He' as [? _]. congruence.
  - left. unfold sql_migrate in He'. case_bool_decide; cbn in He'; congruence.
Qed.

Lemma marked_run_dispatched ss b q db e :
  Forall admissible ss → Forall (keeps b) ss → marked_run b ss db →
  entries db !! (b, q) = Some e → dispatched_before_failing e →
  ∃ e', entries (run_all ss db) !! (b, q) = Some e' ∧ dispatched_before_failing e' ∧
        e_ordinal e' = e_ordinal e ∧ e_custom_id e' = e_custom_id e.
Proof.
  revert db e. induction ss as [|s ss IH]; intros db e Ha Hk Hm He Hd; [by eauto|].
  inv Ha. inv Hk. destruct Hm as [Hs Hm]. cbn.
  destruct (run_entry_keeps s db (b, q)) as [e1 He1]; [done|by eauto|].
  assert (dispatched_before_failing e1 ∧ e_ordinal e1 = e_ordinal e ∧ e_custom_id e1 = e_custom_id e) as (Hd1 & Ho & Hc).
  { destruct (run_entry s db (b, q) e e1) as [->|Hst]; [done|done|done|done|].
    destruct (entry_step_identity _ _ Hst) as (Ho & Hc & Hatt). split; [|done]. destruct Hd as [Hge Hf].
    split; [lia|]. intros Hfail.
    destruct (run_entry_terminal s db (b, q) e e1) as [->|(now & p & ep & res & ->)]; [done..|by rewrite Hfail|by apply Hf|].
    destruct (Hs eq_refl e He) as [Ht|]; [|lia]. pose proof (entry_step_terminal _ _ Hst). congruence. }
  destruct (IH (run s db) e1) as (e' & ? & ? & ? & ?); [done..|]. exists e'. split_and!; try done; congruence.
Qed.

(** Statements other than the activation add no entry to a batch. *)
Lemma run_all_no_new_entries ss b db q :
  Forall admissible ss → Forall (keeps b) ss → batch_entries b db ≠ ∅ →
  entries db !! (b, q) = None → entries (run_all ss db) !! (b, q) = None.
Proof.
  revert db. induction ss as [|s ss IH]; intros db Ha Hk Hne Hn; [done|]. inv Ha. inv Hk. cbn.
  assert (∃ q' e, entries db !! (b, q') = Some e) as (q' & e' & Hq').
  { apply map_choose in Hne as ([b' q'] & e' & [He' Hb']%map_lookup_filter_Some). cbn in Hb'. subst. eauto. }
  apply IH; [done|done| |].
  - destruct (run_entry_keeps s db (b, q')) as [e1 He1]; [done|by eauto|].
    intros Hemp. by rewrite (batch_entries_empty b (run s db) (b, q') Hemp eq_refl) in He1.
  - destruct (entries (run s db) !! (b, q)) as [e|] eqn:He; [|done]. exfalso.
    destruct s; cbn [run] in He;
      try (unfold sql_renew, sql_requeue, sql_finalize, sql_enqueue, sql_update, sql_progress in He;
           rewrite update_row_entries in He; congruence); try congruence.
    + unfold sql_activate in He. destruct (items db !! _) as [x|]; cbn in He; [|congruence].
      destruct (activation_candidate act db x) eqn:Hc; cbn in He; [|congruence].
      case_bool_decide; cbn in He; [|congruence]. unfold activation_candidate in Hc. boolify.
      apply insert_entries_lookup in He as [He|(a & _ & Hka & _)]; [congruence|]. simplify_eq.
    + by rewrite backfill_lookup, Hn in He.
    + unfold sql_mark, update_entry in He. repeat destruct_match_in He; cbn in He; try congruence.
      rewrite lookup_insert in He. case_decide; congruence.
    + unfold sql_checkpoint, update_entry in He. repeat destruct_match_in He; cbn in He; try congruence.
      rewrite lookup_insert in He. case_decide; congruence.
    + change (entries db !! (b, q) = Some e) in He. congruence.
    + change (entries db !! (b, q) = Some e) in He. congruence.
    + unfold sql_pqdelete in He. case_bool_decide; cbn in He; rewrite ?update_row_entries in He; congruence.
    + unfold sql_insert in He. destruct (items db !! id); cbn in He; congruence.
    + unfold sql_delete in He. cbn [fst entries] in He. apply map_lookup_filter_Some in He as [? _]. congruence.
    + unfold sql_migrate in He. case_bool_decide; cbn in He; congruence.
Qed.

Lemma activation_follows now n act manifest db db1 :
  ra_Entries act = activationEntries manifest →
  ActivateResumableBatch now n (Some act) db = (db1, Ok tt) →
  (∀ m, m ∈ manifest → entries db1 !! (ra_BatchID act, me_RequestID m) = Some (new_entry (activationEntry m))) ∧
  (∀ q e, entries db1 !! (ra_BatchID act, q) = Some e → ∃ m, m ∈ manifest ∧ me_RequestID m = q) ∧
  batch_entries (ra_BatchID act) db1 ≠ ∅.
Proof.
  intros Hes (_ & _ & Hne & r & Hr & Hc & Hnd & ->)%ActivateResumableBatch_ok. rewrite Hes in *.
  assert (∀ m, a_request_id (activationEntry m) = me_RequestID m) as Hid.
  { intros m. unfold activationEntry. by destruct (me_Rejected m). }
  assert (∀ m, m ∈ manifest → insert_entries (ra_BatchID act) (activationEntries manifest) (entries db)
    !! (ra_BatchID act, me_RequestID m) = Some (new_entry (activationEntry m))) as Hin.
  { intros m Hm. rewrite <- (Hid m). apply insert_entries_in; [done|]. by apply list_elem_of_fmap_2. }
  split_and!; [done| |].
  - intros q e. cbn [entries]. intros [He|(a & Ha & Hq & _)]%insert_entries_lookup.
    + unfold activation_candidate in Hc. boolify. by rewrite (batch_entries_empty (ra_BatchID act) db) in He.
    + unfold activationEntries in Ha. apply list_elem_of_fmap in Ha as (m & -> & Hm). exists m. split; [done|].
      rewrite <- (Hid m). congruence.
  - destruct manifest as [|m ms]; [done|]. intros Hemp. specialize (Hin m ltac:(left)).
    pose proof (batch_entries_empty _ _ (ra_BatchID act, me_RequestID m) Hemp eq_refl) as Hn. cbn [entries] in Hn. congruence.
Qed.

(** A resumed batch passes the integrity check: after the activation of a
    manifest and any interleaving of statements by any number of owners in
    which only entries that were marked in flight are checkpointed, the
    persisted entry set matches the re-derived manifest entry by entry, and
    the rejected lines are exactly those that failed with zero attempts. *)
Theorem resume_integrity_holds now n act manifest db db1 ss :
  ra_Entries act = activationEntries manifest → manifest_ok manifest →
  ActivateResumableBatch now n (Some act) db = (db1, Ok tt) →
  Forall admissible ss → Forall (keeps (ra_BatchID act)) ss → marked_run (ra_BatchID act) ss db1 →
  checkManifestIntegrity manifest (all_entries (ra_BatchID act) (run_all ss db1)) = Ok tt.
Proof.
  intros Hes Hok Hact Ha Hk Hm. destruct (activation_follows _ _ _ _ _ _ Hes Hact) as (Hin & Honly & Hne).
  apply follows_integrity; [done|]. split.
  - intros q e He. destruct (entries db1 !! (ra_BatchID act, q)) as [e1|] eqn:He1; [by eapply Honly|].
    by rewrite run_all_no_new_entries in He.
  - intros m Hmm. specialize (Hin m Hmm). unfold activationEntry in Hin. destruct (me_Rejected m) eqn:Hrej.
    + eexists. split; [apply (terminal_entry_kept ss db1 (ra_BatchID act, me_RequestID m) _ Ha Hk Hin eq_refl)|]. done.
    + destruct (marked_run_dispatched ss _ _ _ _ Ha Hk Hm Hin) as (e' & He' & (_ & Hd) & Ho & Hc); [by split|].
      exists e'. split_and!; [done|by rewrite Ho|by rewrite Hc|]. unfold looks_rejected.
      case_bool_decide as Hf; [|done]. specialize (Hd Hf). apply Z.eqb_neq. lia.
Qed.

Lemma check_ok_pairs ms es :
  checkManifestIntegrity ms es = Ok tt → Forall2 (λ m e, entry_mismatch m e = None) ms es.
Proof.
  unfold checkManifestIntegrity. destruct (Nat.eqb_spec (length es) (length ms)) as [Hlen|]; cbn [negb]; [|done].
  revert es Hlen. induction ms as [|m ms IH]; intros [|e es] Hlen; try done. cbn.
  destruct (entry_mismatch m e) eqn:Hm; [done|]. intros H. constructor; [done|]. by apply IH; [cbn in Hlen; lia|].
Qed.


(** ** Concrete entry sets *)
Lemma active_ordinals : ordinals_ok "b1" active_db.
Proof.
  split.
  - intros q e. cbn [active_db entries]. rewrite !lookup_insert. repeat case_decide; intros; simplify_eq; cbn; lia.
  - intros q1 q2 e1 e2. cbn [active_db entries]. rewrite !lookup_insert.
    repeat case_decide; intros; simplify_eq; try done.
Qed.

Lemma listing_complete_run :
  listResumableEntries 3 (λ _, NetOk) "b1" active_db = (active_db, Ok (all_entries "b1" active_db)).
Proof. apply (listing_complete "b1" active_db active_ordinals). Defined.

Lemma resume_seed_exact_run :
  rs_InFlightSubmittedBy (resume_seed (all_entries "b1" active_db)) !! "q1" = Some "p1".
Proof.
  eapply (resume_seed_exact (all_entries "b1" active_db)).
  - apply (bool_decide_unpack _). vm_compute. exact I.
  - eexists. split; [left|]. repeat split. discriminate.
Defined.

Definition planned_entry : manifestEntry :=
  {| me_Ordinal := 1; me_CustomID := "c1"; me_RequestID := "q1"; me_Rejected := false; me_ErrorCode := "";
     me_ResultKey := ""; me_ResultBytes := 0; me_ResultSHA256 := ""; me_ErrLine := [] |}.
Definition failed_result : ResumableResult :=
  {| rr_Status := EFailed; rr_ResultKey := "k"; rr_ResultBytes := 3; rr_ResultSHA256 := "s"; rr_ErrorCode := "server_error" |}.
Definition dispatch_and_fail : list Stmt :=
  [SMark 20 "b2" "q1" "p1" 1; SCheckpoint 30 "b2" "q1" "p1" 1 failed_result].

Lemma resume_integrity_holds_run :
  checkManifestIntegrity [planned_entry] (all_entries "b2" (run_all dispatch_and_fail (fst activated))) = Ok tt.
Proof.
  apply (resume_integrity_holds 10 NetOk act1 [planned_entry] (fst first_claim) (fst activated) dispatch_and_fail).
  - reflexivity.
  - split; [repeat constructor|apply NoDup_singleton].
  - reflexivity.
  - repeat constructor.
  - repeat constructor.
  - cbn [marked_run]. split; [done|]. split; [|done]. intros _ e He. right. vm_compute in He.
    injection He as <-. cbn. lia.
Defined.

Definition undispatched : manifestEntry :=
  {| me_Ordinal := 2; me_CustomID := "c"; me_RequestID := "q2"; me_Rejected := false; me_ErrorCode := "";
     me_ResultKey := ""; me_ResultBytes := 0; me_ResultSHA256 := ""; me_ErrLine := [] |}.
