(* ===== verification/Finalizer.v ===== *)
(** * Finalization of a durable batch

    [internal/processor/worker/finalizer_resumable.go] and [finalizer.go]: the
    streaming of every entry's checkpointed result into the output and error
    artifacts, the idempotent commit of the artifacts and their file records,
    and the fenced terminal transition; and the status documents of
    [status_updater.go].

    [FinNet] names the outcome of every remote call, by the key or ordinal it
    concerns.  The prefetch of a page is concurrent in the code; it only reads,
    so its order does not matter beyond which error is reported. *)

From Stdlib Require Import ZArith Lia Ascii String.
From stdpp Require Import base gmap strings list sorting pretty.
From S2P Require Import Prelude Openai Store StoreOps Ownership Fencing Lifecycle Examples Planner Preprocess.
From S2P Require Import Files ResultStore Entries.
Local Open Scope string_scope.
Local Open Scope Z_scope.

(** ** Status documents ([status_updater.go]) *)

Definition withFileIDs (outputFileID errorFileID : string) (info : BatchStatusInfo) : BatchStatusInfo :=
  let info1 := if bool_decide (outputFileID = "") then info else set_OutputFileID (Some outputFileID) info in
  if bool_decide (errorFileID = "") then info1 else set_ErrorFileID (Some errorFileID) info1.

(** An empty status column is [None]. *)
Definition BuildStatus (now : Z) (dbJob : option BatchItem) (newStatus : BatchStatus)
    (counts : option BatchRequestCounts) (slo : option Z) (modifier : BatchStatusInfo → BatchStatusInfo)
    : result BatchStatusInfo :=
  match dbJob with
  | None => Err (ErrOther "dbJob is nil")
  | Some job =>
      match r_status (bi_row job) with
      | None => Err (ErrOther "dbJob.Status is empty")
      | Some original =>
          match BuildUpdatedStatusInfo now original newStatus counts slo with
          | Err e => Err e
          | Ok updated => Ok (modifier updated)
          end
      end
  end.

(** The item [updatePersistentStatus] hands to [DBUpdate]: ID, status, epoch
    and the resumable expectation only. *)
Definition status_write (job : BatchItem) (doc : BatchStatusInfo) : BatchItem :=
  {| bi_ID := bi_ID job;
     bi_row := {| r_tenant := ""; r_expiry := 0; r_tags := ∅; r_spec := ""; r_status := Some doc;
                  r_processor := None; r_priority := None; r_epoch := r_epoch (bi_row job); r_attempts := 0;
                  r_resumable := false; r_lease := None |};
     bi_BumpEpoch := false; bi_ExpectedResumable := bi_ExpectedResumable job |}.
Definition set_item_status (doc : BatchStatusInfo) (job : BatchItem) : BatchItem :=
  {| bi_ID := bi_ID job; bi_row := set_r_status (Some doc) (bi_row job); bi_BumpEpoch := bi_BumpEpoch job;
     bi_ExpectedResumable := bi_ExpectedResumable job |}.

(** Returns the job with the refreshed in-memory status. *)
Definition updatePersistentStatus (now : Z) (n : net) (dbJob : option BatchItem) (newStatus : BatchStatus)
    (counts : option BatchRequestCounts) (slo : option Z) (expectedStatus : option BatchStatusInfo)
    (modifier : BatchStatusInfo → BatchStatusInfo) : M DB BatchItem :=
  match BuildStatus now dbJob newStatus counts slo modifier, dbJob with
  | Ok doc, Some job => DBUpdate n (Some (status_write job doc)) expectedStatus ;;; ret (set_item_status doc job)
  | Err e, _ => throw e
  | Ok _, None => throw (ErrOther "dbJob is nil")
  end.
Definition UpdatePersistentStatus now n dbJob newStatus counts slo modifier : M DB BatchItem :=
  updatePersistentStatus now n dbJob newStatus counts slo None modifier.
Definition UpdateCompletedStatus now n dbJob counts out errf : M DB BatchItem :=
  UpdatePersistentStatus now n dbJob BatchStatusCompleted counts None (withFileIDs out errf).
(** Guarded by the status the caller last saw. *)
Definition UpdateFailedStatus (now : Z) (n : net) (dbJob : option BatchItem) counts out errf : M DB BatchItem :=
  match dbJob with
  | None => throw (ErrOther "dbJob is nil")
  | Some job => updatePersistentStatus now n dbJob BatchStatusFailed counts None (r_status (bi_row job))
                  (withFileIDs out errf)
  end.
Definition UpdateCancelledStatus now n dbJob counts out errf : M DB BatchItem :=
  UpdatePersistentStatus now n dbJob BatchStatusCancelled counts None (withFileIDs out errf).
Definition UpdateExpiredStatus now n dbJob counts out errf : M DB BatchItem :=
  UpdatePersistentStatus now n dbJob BatchStatusExpired counts None (withFileIDs out errf).
Definition UpdateProgressCounts (n : net) (jobID : string) (epoch : Z) (counts : option BatchRequestCounts) : M DB unit :=
  match counts with
  | None => throw (ErrOther "requestCounts is nil")
  | Some c => DBUpdateProgress n jobID epoch c
  end.

(** ** File records ([finalizer.go]) *)
Record FileRow := {
  fr_tenant : string; fr_filename : string; fr_bytes : Z; fr_purpose : string; fr_created : Z;
  fr_expires : option Z }.
Definition FileObjectPurposeBatchOutput := "batch_output".

Record PWorld := { pw : World; pw_files : gmap string FileRow }.
Definition on_world {A} (m : M World A) : M PWorld A :=
  λ s, let '(w, r) := m (pw s) in ({| pw := w; pw_files := pw_files s |}, r).

(** [strconv.ParseInt(s, 10, 64)]. *)
Definition ParseInt64 (s : string) : option Z :=
  let digits cs := match cs with
                   | [] => None
                   | _ => match Duration.leadingInt 0 cs with Some (x, []) => Some x | _ => None end
                   end in
  match list_ascii_of_string s with
  | c :: cs =>
      if bool_decide (c = "-"%char) then Z.opp <$> digits cs
      else if bool_decide (c = "+"%char)
      then match digits cs with Some x => if x <? 2 ^ 63 then Some x else None | None => None end
      else match digits (c :: cs) with Some x => if x <? 2 ^ 63 then Some x else None | None => None end
  | [] => None
  end.

Definition resolveOutputExpiration (defaultSeconds now : Z) (tags : gmap string string) : Z :=
  let by_config := if 0 <? defaultSeconds then now + defaultSeconds else 0 in
  match tags !! "output_expires_after_seconds" with
  | Some s => match ParseInt64 s with
              | Some ttl => if 0 <? ttl then now + ttl else by_config
              | None => by_config
              end
  | None => by_config
  end.

Definition storeFileRecord (defaultSeconds now : Z) (n : net) (fileID fileName tenantID : string) (size : Z)
    (tags : gmap string string) : M PWorld unit := λ s,
  let expiresAt := resolveOutputExpiration defaultSeconds now tags in
  let row := {| fr_tenant := tenantID; fr_filename := fileName; fr_bytes := size;
                fr_purpose := FileObjectPurposeBatchOutput; fr_created := now;
                fr_expires := if 0 <? expiresAt then Some expiresAt else None |} in
  match pw_files s !! fileID with
  | Some _ => (s, Err (ErrOther "failed to store file record"))
  | None =>
      let s' := {| pw := pw s; pw_files := <[fileID := row]> (pw_files s) |} in
      match n with NetOk => (s', Ok tt) | NetErr true => (s', Err ErrIO) | NetErr false => (s, Err ErrIO) end
  end.

Definition file_matches (tenantID fileName : string) (size : Z) (r : FileRow) : bool :=
  bool_decide (fr_tenant r = tenantID) && bool_decide (fr_purpose r = FileObjectPurposeBatchOutput)
  && bool_decide (fr_filename r = fileName) && (fr_bytes r =? size).

Definition ensureFileRecord (defaultSeconds now : Z) (n1 n2 : net) (fileID fileName tenantID : string) (size : Z)
    (tags : gmap string string) : M PWorld unit :=
  r <- try (storeFileRecord defaultSeconds now n1 fileID fileName tenantID size tags) ;;
  match r with
  | Ok _ => ret tt
  | Err storeErr => λ s,
      match n2, pw_files s !! fileID with
      | NetOk, Some row => if file_matches tenantID fileName size row then (s, Ok tt) else (s, Err storeErr)
      | _, _ => (s, Err storeErr)
      end
  end.

(** ** Artifacts *)
Record FinNet := {
  fn_page : Z → net; fn_fetch : string → net; fn_open : string → net; fn_write : string → string → net;
  fn_commit : string → net; fn_verify : string → net; fn_record : string → net * net; fn_finalize : net * net;
  fn_purge : option (string → bool); fn_status : net }.

(** [aw_hashed] is the input of the running hash in existing mode; the byte
    count is its length. *)
Record artifactWriter := {
  aw_key : string; aw_fileID : string; aw_writer : option StreamWriter; aw_existing : bool; aw_hashed : bytes }.
Definition newArtifactWriter (key fileID : string) : artifactWriter :=
  {| aw_key := key; aw_fileID := fileID; aw_writer := None; aw_existing := false; aw_hashed := [] |}.

Definition aw_Write (p : bytes) (w : artifactWriter) : artifactWriter :=
  if aw_existing w then
    {| aw_key := aw_key w; aw_fileID := aw_fileID w; aw_writer := aw_writer w; aw_existing := true;
       aw_hashed := app (aw_hashed w) p |}
  else
    {| aw_key := aw_key w; aw_fileID := aw_fileID w; aw_writer := sw_Write p <$> aw_writer w; aw_existing := false;
       aw_hashed := aw_hashed w |}.

Definition ensure (n : net) (folder : string) (w : artifactWriter) : M PWorld artifactWriter :=
  if bool_decide (aw_writer w = None) && negb (aw_existing w) then
    r <- try (on_world (on_fs (OpenStream n (aw_key w) folder))) ;;
    match r with
    | Ok sw => ret {| aw_key := aw_key w; aw_fileID := aw_fileID w; aw_writer := Some sw; aw_existing := false;
                      aw_hashed := aw_hashed w |}
    | Err e => if bool_decide (e = ErrFileExists)
               then ret {| aw_key := aw_key w; aw_fileID := aw_fileID w; aw_writer := None; aw_existing := true;
                           aw_hashed := [] |}
               else throw e
    end
  else ret w.

(** [ensure] and one write of [line], for the entry [rid]. *)
Definition writeResult (fn : FinNet) (folder rid : string) (line : bytes) (w : artifactWriter) : M PWorld artifactWriter :=
  w1 <- ensure (fn_open fn (aw_key w)) folder w ;;
  match fn_write fn (aw_key w) rid with
  | NetOk => ret (aw_Write line w1)
  | NetErr _ => throw ErrIO
  end.

#[export] Instance stream_writer_eq_dec : EqDecision StreamWriter.
Proof. solve_decision. Defined.

Definition BatchErrorCode_Message (code : string) : string :=
  if bool_decide (code = "batch_expired")
  then "This request could not be executed before the completion window expired."
  else if bool_decide (code = "batch_cancelled")
  then "This request was not executed because the batch was cancelled."
  else if bool_decide (code = "batch_failed")
  then "This request was not executed because the batch encountered a system error."
  else "This request could not be executed.".

(** [filepath.Ext] of a name without slashes, and [FileStorageName]. *)
Fixpoint ext_from (cs acc : list ascii) : string :=
  match cs with
  | [] => string_of_list_ascii acc
  | c :: cs' => if bool_decide (c = "."%char) then ext_from cs' [c]
                else ext_from cs' (match acc with [] => [] | _ => app acc [c] end)
  end.
Definition FileStorageName (fileID origFilename : string) : string :=
  let ext := ext_from (list_ascii_of_string origFilename) [] in
  fileID +:+ (if bool_decide (ext = "") then ".jsonl" else ext).
Definition jobOutputStorageName (jobID : string) : string := "batch_output_" +:+ jobID +:+ ".jsonl".
Definition jobErrorStorageName (jobID : string) : string := "batch_error_" +:+ jobID +:+ ".jsonl".

Section Finalizer.
Context (sha256hex : bytes → string) (uuidSHA1 : string → string).
Context (errLine : string → string → string → string → bytes).
Context (defaultOutputExpirationSeconds : Z) (processorID : string).

Definition stableFileID (batchID fileType : string) : string :=
  "file_" +:+ uuidSHA1 (batchID +:+ String Ascii.zero fileType).

(** The synthetic error line of an entry that was not executed, with its
    trailing newline. *)
Definition notExecutedLine (e : ResumableEntry) (code : string) : bytes :=
  app (errLine (re_RequestID e) (re_CustomID e) code (BatchErrorCode_Message code)) [10].

Definition fetchResult (fn : FinNet) (folder : string) (e : ResumableEntry) : M PWorld bytes :=
  r <- on_world (on_fs (FRetrieve (fn_fetch fn (re_ResultKey e)) (re_ResultKey e) folder)) ;;
  let buf := r.1 in
  if negb (Z.of_nat (length buf) =? re_ResultBytes e) then throw (ErrOther "integrity check: size")
  else if negb (bool_decide (sha256hex buf = re_ResultSHA256 e)) then throw (ErrOther "integrity check: digest")
  else ret buf.

(** The page's results, [None] for an entry that is not terminal. *)
Fixpoint fetch_page (fn : FinNet) (folder : string) (es : list ResumableEntry) : M PWorld (list (option bytes)) :=
  match es with
  | [] => ret []
  | e :: rest =>
      if entry_terminal (re_Status e) then
        buf <- fetchResult fn folder e ;; bufs <- fetch_page fn folder rest ;; ret (Some buf :: bufs)
      else bufs <- fetch_page fn folder rest ;; ret (None :: bufs)
  end.

Record Assembly := { as_counts : BatchRequestCounts; as_output : artifactWriter; as_error : artifactWriter }.
Definition bump (total completed failed : Z) (c : BatchRequestCounts) : BatchRequestCounts :=
  {| Total := Total c + total; Completed := Completed c + completed; Failed := Failed c + failed |}.

(** The body of the ordinal-ordered write loop. *)
Definition assemble_entry (fn : FinNet) (folder code : string) (st : Assembly) (e : ResumableEntry)
    (fetched : option bytes) : M PWorld Assembly :=
  let line := default [] fetched in
  match re_Status e with
  | ECompleted =>
      w <- writeResult fn folder (re_RequestID e) line (as_output st) ;;
      ret {| as_counts := bump 1 1 0 (as_counts st); as_output := w; as_error := as_error st |}
  | EFailed =>
      if bool_decide (re_ErrorCode e = "") then
        w <- writeResult fn folder (re_RequestID e) line (as_output st) ;;
        ret {| as_counts := bump 1 0 1 (as_counts st); as_output := w; as_error := as_error st |}
      else
        w <- writeResult fn folder (re_RequestID e) line (as_error st) ;;
        ret {| as_counts := bump 1 0 1 (as_counts st); as_output := as_output st; as_error := w |}
  | EPending | EInFlight =>
      if bool_decide (code = "") then throw (ErrOther "entry is not terminal")
      else
        w <- writeResult fn folder (re_RequestID e) (notExecutedLine e code) (as_error st) ;;
        ret {| as_counts := bump 1 0 1 (as_counts st); as_output := as_output st; as_error := w |}
  end.

Fixpoint assemble_page (fn : FinNet) (folder code : string) (st : Assembly) (es : list ResumableEntry)
    (bufs : list (option bytes)) : M PWorld Assembly :=
  match es, bufs with
  | e :: es', b :: bufs' => st' <- assemble_entry fn folder code st e b ;; assemble_page fn folder code st' es' bufs'
  | _, _ => ret st
  end.

Fixpoint assemble_loop (fn : FinNet) (pageSize fuel : nat) (folder code jobID : string) (afterOrdinal : Z)
    (st : Assembly) : M PWorld Assembly :=
  match fuel with
  | O => throw (ErrOther "fuel")
  | S fuel' =>
      es <- on_world (on_db (ListBatchEntries (fn_page fn afterOrdinal) jobID afterOrdinal pageSize)) ;;
      match last es with
      | None => ret st
      | Some e =>
          bufs <- fetch_page fn folder es ;;
          st' <- assemble_page fn folder code st es bufs ;;
          if (length es <? pageSize)%nat then ret st'
          else assemble_loop fn pageSize fuel' folder code jobID (re_Ordinal e) st'
      end
  end.

Definition verifyExisting (n : net) (folder : string) (w : artifactWriter) : M PWorld unit :=
  r <- on_world (on_fs (FRetrieve n (aw_key w) folder)) ;;
  if negb (length r.1 =? length (aw_hashed w))%nat || negb (bool_decide (sha256hex r.1 = sha256hex (aw_hashed w)))
  then throw (ErrOther "committed artifact does not match") else ret tt.

Definition commit (fn : FinNet) (now : Z) (folder fileName tenantID : string) (tags : gmap string string)
    (w : artifactWriter) : M PWorld string :=
  let '(n1, n2) := fn_record fn (aw_fileID w) in
  if aw_existing w then
    verifyExisting (fn_verify fn (aw_key w)) folder w ;;;
    ensureFileRecord defaultOutputExpirationSeconds now n1 n2 (aw_fileID w) fileName tenantID
      (Z.of_nat (length (aw_hashed w))) tags ;;;
    ret (aw_fileID w)
  else match aw_writer w with
       | None => ret ""
       | Some sw =>
           md <- on_world (on_fs (sw_Commit (fn_commit fn (aw_key w)) sw)) ;;
           ensureFileRecord defaultOutputExpirationSeconds now n1 n2 (aw_fileID w) fileName tenantID (md_Size md) tags ;;;
           ret (aw_fileID w)
       end.

Definition assembleResumableArtifacts (fn : FinNet) (now : Z) (fuel : nat) (jobID tenantID : string)
    (tags : gmap string string) (code : string) : M PWorld (BatchRequestCounts * string * string) :=
  match GetFolderNameByTenantID sha256hex tenantID with
  | Err e => throw e
  | Ok folder =>
      let outID := stableFileID jobID "output" in
      let errID := stableFileID jobID "error" in
      let output := newArtifactWriter (FileStorageName outID (jobOutputStorageName jobID)) outID in
      let errorW := newArtifactWriter (FileStorageName errID (jobErrorStorageName jobID)) errID in
      st <- assemble_loop fn resumableEntriesPageSize fuel folder code jobID (-1)
              {| as_counts := {| Total := 0; Completed := 0; Failed := 0 |}; as_output := output; as_error := errorW |} ;;
      outputFileID <- commit fn now folder (jobOutputStorageName jobID) tenantID tags (as_output st) ;;
      errorFileID <- commit fn now folder (jobErrorStorageName jobID) tenantID tags (as_error st) ;;
      ret (as_counts st, outputFileID, errorFileID)
  end.

(** ** Terminal transitions *)
Definition purgeResultObjects (failed : option (string → bool)) (jobID tenantID : string) : M PWorld unit :=
  match GetFolderNameByTenantID sha256hex tenantID with
  | Err _ => ret tt
  | Ok folder => try (on_world (on_fs (FDeletePrefix failed folder ("results/" +:+ jobID +:+ "/")))) ;;; ret tt
  end.

Definition finalizeResumableStatus (fn : FinNet) (now : Z) (dbJob : BatchItem) (expected terminal : BatchStatus)
    (counts : BatchRequestCounts) (outputFileID errorFileID : string) : M PWorld BatchItem :=
  match BuildStatus (now / 1000000) (Some dbJob) terminal (Some counts) None (withFileIDs outputFileID errorFileID) with
  | Err e => throw e
  | Ok doc =>
      on_world (on_db (FinalizeResumableBatch now (fn_finalize fn).1 (fn_finalize fn).2 (Some
        {| rf_BatchID := bi_ID dbJob; rf_ProcessorID := processorID; rf_Epoch := r_epoch (bi_row dbJob);
           rf_ExpectedStatus := expected; rf_Status := Some doc |}))) ;;;
      purgeResultObjects (fn_purge fn) (bi_ID dbJob) (r_tenant (bi_row dbJob)) ;;;
      ret (set_item_status doc dbJob)
  end.

Definition expect_resumable (dbJob : BatchItem) : BatchItem :=
  {| bi_ID := bi_ID dbJob; bi_row := bi_row dbJob; bi_BumpEpoch := bi_BumpEpoch dbJob;
     bi_ExpectedResumable := Some true |}.

Definition finalizeResumableAs (fn : FinNet) (now : Z) (fuel : nat) (dbJob : BatchItem) (jobID tenantID : string)
    (status : BatchStatus) (code : string) (expected : BatchStatus) : M PWorld BatchItem :=
  let dbJob := expect_resumable dbJob in
  r <- assembleResumableArtifacts fn now fuel jobID tenantID (r_tags (bi_row dbJob)) code ;;
  let '(counts, out, errf) := r in
  finalizeResumableStatus fn now dbJob expected status counts out errf.

(** [cancelled]: a user cancel arrived during finalization. *)
Definition finalizeResumableJob (fn : FinNet) (now : Z) (fuel : nat) (cancelled : bool) (dbJob : BatchItem)
    (jobID tenantID : string) : M PWorld BatchItem :=
  let dbJob := expect_resumable dbJob in
  dbJob <- on_world (on_db (UpdatePersistentStatus (now / 1000000) (fn_status fn) (Some dbJob) BatchStatusFinalizing
                              None None (λ i, i))) ;;
  r <- assembleResumableArtifacts fn now fuel jobID tenantID (r_tags (bi_row dbJob)) "" ;;
  let '(counts, out, errf) := r in
  if (cancelled : bool) then
    finalizeResumableStatus fn now dbJob BatchStatusFinalizing BatchStatusCancelled counts out errf ;;;
    throw ErrCancelled
  else finalizeResumableStatus fn now dbJob BatchStatusFinalizing BatchStatusCompleted counts out errf.

End Finalizer.
