(* ===== verification/Assembly.v ===== *)
(** * The artifacts of a durable batch are exact

    What [assembleResumableArtifacts] writes, stated as a function of the
    entry set and the stored results, and that a crashed or failed attempt at
    finalization leaves a store from which the next attempt produces exactly
    the same artifacts. *)

From Stdlib Require Import ZArith Lia Ascii String.
From stdpp Require Import base gmap strings list sorting pretty.
From S2P Require Import Prelude Openai Store StoreOps Ownership Fencing Lifecycle Examples Planner Preprocess.
From S2P Require Import Files ResultStore Entries Finalizer.
Local Open Scope string_scope.
Local Open Scope Z_scope.

(** ** The specification *)

(** A completed entry, and a failed one that preserved an HTTP response (no
    error code), go to the output artifact; everything else to the error
    artifact. *)
Definition to_output (e : ResumableEntry) : bool :=
  match re_Status e with
  | ECompleted => true
  | EFailed => bool_decide (re_ErrorCode e = "")
  | _ => false
  end.
Definition stored_line (folder : string) (fs : FileStore) (e : ResumableEntry) : bytes :=
  default [] (fs !! join folder (re_ResultKey e)).

(** No call fails. *)
Definition calm (fn : FinNet) : Prop :=
  (∀ z, fn_page fn z = NetOk) ∧ (∀ k, fn_fetch fn k = NetOk) ∧ (∀ k, fn_open fn k = NetOk) ∧
  (∀ k q, fn_write fn k q = NetOk) ∧ (∀ k, fn_commit fn k = NetOk) ∧ (∀ k, fn_verify fn k = NetOk) ∧
  (∀ k, fn_record fn k = (NetOk, NetOk)).

Section Assembly.
Context (sha256hex : bytes → string) (uuidSHA1 : string → string).
Context (errLine : string → string → string → string → bytes).
Context (defaultExp : Z).
Abbreviation notExecuted := (notExecutedLine errLine).
Abbreviation outID := (λ job, stableFileID uuidSHA1 job "output").
Abbreviation errID := (λ job, stableFileID uuidSHA1 job "error").
Abbreviation outKey := (λ job, FileStorageName (outID job) (jobOutputStorageName job)).
Abbreviation errKey := (λ job, FileStorageName (errID job) (jobErrorStorageName job)).

Definition error_line (folder code : string) (fs : FileStore) (e : ResumableEntry) : bytes :=
  if entry_terminal (re_Status e) then stored_line folder fs e else notExecuted e code.
Definition output_lines (folder : string) (fs : FileStore) (es : list ResumableEntry) : list bytes :=
  stored_line folder fs <$> filter (λ e, to_output e = true) es.
Definition error_lines (folder code : string) (fs : FileStore) (es : list ResumableEntry) : list bytes :=
  error_line folder code fs <$> filter (λ e, to_output e = false) es.
Definition tally (es : list ResumableEntry) : BatchRequestCounts :=
  {| Total := Z.of_nat (length es); Completed := count_entries ECompleted es;
     Failed := Z.of_nat (length es) - count_entries ECompleted es |}.

(** ** Writers *)

(** The writer after the given lines, on an unchanged file store. *)
Definition writer_after (folder : string) (fs : FileStore) (key fileID : string) (lines : list bytes) : artifactWriter :=
  match lines with
  | [] => newArtifactWriter key fileID
  | _ => match fs !! join folder key with
         | None => {| aw_key := key; aw_fileID := fileID;
                      aw_writer := Some {| sw_path := join folder key; sw_buf := mjoin lines |};
                      aw_existing := false; aw_hashed := [] |}
         | Some _ => {| aw_key := key; aw_fileID := fileID; aw_writer := None; aw_existing := true;
                        aw_hashed := mjoin lines |}
         end
  end.

Lemma writer_after_key folder fs key fid lines : aw_key (writer_after folder fs key fid lines) = key.
Proof. unfold writer_after. destruct lines; [done|]. by destruct (fs !! _). Qed.
Lemma writer_after_id folder fs key fid lines : aw_fileID (writer_after folder fs key fid lines) = fid.
Proof. unfold writer_after. destruct lines; [done|]. by destruct (fs !! _). Qed.

Lemma mjoin_snoc (lines : list bytes) line : mjoin (app lines [line]) = app (mjoin lines) line.
Proof. rewrite join_app. cbn. by rewrite app_nil_r. Qed.

Lemma writer_after_snoc_open folder fs key fid lines line :
  lines ≠ [] →
  writer_after folder fs key fid (app lines [line]) = aw_Write line (writer_after folder fs key fid lines).
Proof.
  intros Hne. unfold writer_after. destruct lines as [|l ls]; [done|]. cbn [app].
  destruct (fs !! join folder key); unfold aw_Write, sw_Write; cbn [aw_existing aw_writer aw_hashed fmap option_fmap option_map sw_path sw_buf aw_key aw_fileID];
    by rewrite <- (mjoin_snoc (l :: ls)).
Qed.

(** [m] leaves the store alone and returns [x], unless a call fails, which the
    condition [P] excludes. *)
Definition reads_as {A} (P : Prop) (m : M PWorld A) (s : PWorld) (x : A) : Prop :=
  m s = (s, Ok x) ∨ (∃ e, m s = (s, Err e)) ∧ ¬ P.

Lemma reads_as_weaken {A} (P Q : Prop) (m : M PWorld A) s x : reads_as P m s x → (Q → P) → reads_as Q m s x.
Proof. intros [H|[H1 H2]] HQ; [by left|right; tauto]. Qed.
Lemma reads_as_ret {A} (P : Prop) s (x : A) : reads_as P (ret x) s x.
Proof. by left. Qed.
Lemma reads_as_bind {A B} (P : Prop) (m : M PWorld A) (k : A → M PWorld B) s x y :
  reads_as P m s x → reads_as P (k x) s y → reads_as P (bindM m k) s y.
Proof.
  unfold reads_as, bindM. intros [->|[[e ->] HP]] Hk; [done|]. right. split; [by eexists|done].
Qed.

(** One write extends the content. *)
Lemma writeResult_after fn folder rid line key fid lines s :
  folder ≠ "" → key ≠ "" →
  reads_as (calm fn) (writeResult fn folder rid line (writer_after folder (w_fs (pw s)) key fid lines)) s
    (writer_after folder (w_fs (pw s)) key fid (app lines [line])).
Proof.
  intros Hf Hk. destruct s as [[db fs] files]. cbn [pw w_fs]. unfold reads_as, writeResult. rewrite writer_after_key.
  destruct (decide (lines = [])) as [->|Hne].
  - unfold ensure, bindM at 1 2. cbn [writer_after newArtifactWriter aw_writer aw_existing aw_key aw_fileID].
    rewrite bool_decide_eq_true_2 by done. cbn [negb andb].
    unfold bindM, try, on_world, on_fs, OpenStream. rewrite resolvePath_ok by done. cbn [pw w_fs w_db].
    destruct (fn_open fn key) as [|c] eqn:Ho.
    + destruct (fs !! join folder key) as [d|] eqn:Hd; [rewrite bool_decide_eq_true_2 by done|].
      all: cbn [aw_key]; destruct (fn_write fn key rid) eqn:Hw.
      all: try (right; split; [by eexists|intros (_&_&_&H&_); by rewrite H in Hw]).
      all: left; unfold writer_after; cbn [app]; rewrite Hd; unfold aw_Write; cbn; by rewrite ?app_nil_r.
    + rewrite bool_decide_eq_false_2 by done. right. split; [by eexists|]. intros (_&_&H&_). by rewrite H in Ho.
  - assert (bool_decide (aw_writer (writer_after folder fs key fid lines) = None)
            && negb (aw_existing (writer_after folder fs key fid lines)) = false) as Hopen.
    { unfold writer_after. destruct lines; [done|]. by destruct (fs !! _). }
    unfold ensure, bindM. rewrite Hopen. unfold ret. destruct (fn_write fn key rid) eqn:Hw.
    + left. by rewrite writer_after_snoc_open.
    + right. split; [by eexists|]. intros (_&_&_&H&_). by rewrite H in Hw.
Qed.

(** ** One page *)
Definition assembly_after (folder code job : string) (fs : FileStore) (es : list ResumableEntry) : Assembly :=
  {| as_counts := tally es;
     as_output := writer_after folder fs (outKey job) (outID job) (output_lines folder fs es);
     as_error := writer_after folder fs (errKey job) (errID job) (error_lines folder code fs es) |}.

(** The stored result of a terminal entry is there and as recorded. *)
Definition fetchable (folder : string) (fs : FileStore) (e : ResumableEntry) : Prop :=
  entry_terminal (re_Status e) = true → re_ResultKey e ≠ "" ∧
  ∃ data, fs !! join folder (re_ResultKey e) = Some data ∧ Z.of_nat (length data) = re_ResultBytes e ∧
    sha256hex data = re_ResultSHA256 e.
Definition fetched_of (folder : string) (fs : FileStore) (e : ResumableEntry) : option bytes :=
  if entry_terminal (re_Status e) then Some (stored_line folder fs e) else None.
(** Nothing stands in the way of assembling [es]. *)
Definition clear (fn : FinNet) (folder code : string) (fs : FileStore) (es : list ResumableEntry) : Prop :=
  calm fn ∧ (code = "" → Forall (λ e, entry_terminal (re_Status e) = true) es) ∧ Forall (fetchable folder fs) es.

Lemma clear_app fn folder code fs es1 es2 :
  clear fn folder code fs (app es1 es2) ↔ clear fn folder code fs es1 ∧ clear fn folder code fs es2.
Proof. unfold clear. rewrite !Forall_app. tauto. Qed.

Lemma fetchResult_reads fn folder e s :
  folder ≠ "" → entry_terminal (re_Status e) = true →
  reads_as (calm fn ∧ fetchable folder (w_fs (pw s)) e) (fetchResult sha256hex fn folder e) s
    (stored_line folder (w_fs (pw s)) e).
Proof.
  intros Hf Ht. destruct s as [[db fs] files]. cbn [pw w_fs].
  unfold reads_as, fetchResult, bindM, on_world, on_fs, FRetrieve, fetchable, stored_line. cbn [pw w_fs w_db].
  destruct (decide (re_ResultKey e = "")) as [Hk|Hk].
  { right. split; [|tauto]. unfold resolvePath. rewrite bool_decide_eq_false_2, bool_decide_eq_true_2 by done. by eexists. }
  rewrite resolvePath_ok by done. destruct (fn_fetch fn (re_ResultKey e)) eqn:Hn; cycle 1.
  { right. split; [by eexists|]. intros [(_&H&_) _]. by rewrite H in Hn. }
  destruct (fs !! join folder (re_ResultKey e)) as [data|] eqn:Hd; cycle 1.
  { right. split; [by eexists|]. intros [_ H]. destruct (H Ht) as (_ & ? & ? & _). done. }
  cbn [default fst from_option id]. destruct (Z.eqb_spec (Z.of_nat (length data)) (re_ResultBytes e)) as [Hl|Hl]; cbn [negb]; cycle 1.
  { right. split; [by eexists|]. intros [_ H]. destruct (H Ht) as (_ & ? & ? & ? & _). congruence. }
  case_bool_decide as Hs; cbn [negb]; [by left|].
  right. split; [by eexists|]. intros [_ H]. destruct (H Ht) as (_ & ? & ? & ? & ?). congruence.
Qed.

Lemma fetch_page_reads fn folder code es s :
  folder ≠ "" →
  reads_as (clear fn folder code (w_fs (pw s)) es) (fetch_page sha256hex fn folder es) s
    (fetched_of folder (w_fs (pw s)) <$> es).
Proof.
  intros Hf. induction es as [|e es IH]; cbn [fetch_page fmap list_fmap]; [apply reads_as_ret|].
  assert (reads_as (clear fn folder code (w_fs (pw s)) (e :: es)) (fetch_page sha256hex fn folder es) s
            (fetched_of folder (w_fs (pw s)) <$> es)) as IH'.
  { eapply reads_as_weaken; [apply IH|]. intros H. apply (clear_app _ _ _ _ [e] es) in H. tauto. }
  unfold fetched_of at 1. destruct (entry_terminal (re_Status e)) eqn:Ht.
  - eapply reads_as_bind.
    + eapply reads_as_weaken; [by apply fetchResult_reads|]. intros (H1 & _ & H2). split; [done|]. by inv H2.
    + eapply reads_as_bind; [apply IH'|apply reads_as_ret].
  - eapply reads_as_bind; [apply IH'|apply reads_as_ret].
Qed.

Lemma output_lines_snoc folder fs es e :
  output_lines folder fs (app es [e]) =
  (if to_output e then app (output_lines folder fs es) [stored_line folder fs e] else output_lines folder fs es).
Proof.
  unfold output_lines. rewrite filter_app, fmap_app, filter_cons, filter_nil.
  destruct (to_output e); [by rewrite decide_True|rewrite decide_False by done]. cbn. by rewrite app_nil_r.
Qed.
Lemma error_lines_snoc folder code fs es e :
  error_lines folder code fs (app es [e]) =
  (if to_output e then error_lines folder code fs es
   else app (error_lines folder code fs es) [error_line folder code fs e]).
Proof.
  unfold error_lines. rewrite filter_app, fmap_app, filter_cons, filter_nil.
  destruct (to_output e); [rewrite decide_False by done|by rewrite decide_True]. cbn. by rewrite app_nil_r.
Qed.
Lemma tally_snoc es e :
  tally (app es [e]) = bump 1 (if has_status ECompleted e then 1 else 0) (if has_status ECompleted e then 0 else 1) (tally es).
Proof.
  unfold tally, bump. cbn. rewrite count_entries_snoc, length_app. cbn.
  f_equal; destruct (has_status ECompleted e); lia.
Qed.

(** No key is empty: the file ID starts with "file_". *)
Lemma key_nonempty job ty name : FileStorageName (stableFileID uuidSHA1 job ty) name ≠ "".
Proof. done. Qed.

Lemma assemble_entry_reads fn folder code job es e s :
  folder ≠ "" →
  reads_as (clear fn folder code (w_fs (pw s)) [e])
    (assemble_entry errLine fn folder code (assembly_after folder code job (w_fs (pw s)) es) e
       (fetched_of folder (w_fs (pw s)) e)) s
    (assembly_after folder code job (w_fs (pw s)) (app es [e])).
Proof.
  intros Hf. unfold assemble_entry, assembly_after. rewrite tally_snoc, output_lines_snoc, error_lines_snoc.
  unfold to_output, has_status, error_line, fetched_of. cbn [as_output as_error as_counts].
  destruct (re_Status e) eqn:Hst; cbn [entry_terminal]; try case_bool_decide as Hc; cbn [default from_option id].
  1, 3: right; split; [by eexists|]; intros (_ & H & _); specialize (H Hc); inv H; rewrite Hst in *; done.
  all: (eapply reads_as_bind; [eapply reads_as_weaken; [apply writeResult_after; [done|apply key_nonempty]|by intros (H & _)]|]);
    apply reads_as_ret.
Qed.

Lemma assemble_page_reads fn folder code job es0 es s :
  folder ≠ "" →
  reads_as (clear fn folder code (w_fs (pw s)) es)
    (assemble_page errLine fn folder code (assembly_after folder code job (w_fs (pw s)) es0) es
       (fetched_of folder (w_fs (pw s)) <$> es)) s
    (assembly_after folder code job (w_fs (pw s)) (app es0 es)).
Proof.
  intros Hf. revert es0. induction es as [|e es IH]; intros es0; cbn [assemble_page fmap list_fmap].
  { rewrite app_nil_r. apply reads_as_ret. }
  eapply reads_as_bind.
  - eapply reads_as_weaken; [by apply assemble_entry_reads|]. intros H. apply (clear_app _ _ _ _ [e] es) in H. tauto.
  - replace (app es0 (e :: es)) with (app (app es0 [e]) es) by by rewrite <- app_assoc.
    eapply reads_as_weaken; [apply IH|]. intros H. apply (clear_app _ _ _ _ [e] es) in H. tauto.
Qed.

(** ** All pages *)
Abbreviation loop := (assemble_loop sha256hex errLine).

Lemma page_reads fn job after pageSize s :
  (0 < pageSize)%nat →
  reads_as (calm fn) (on_world (on_db (ListBatchEntries (fn_page fn after) job after pageSize))) s
    (list_page job after pageSize (w_db (pw s))).
Proof.
  intros Hp. destruct s as [[db fs] files]. unfold reads_as, on_world, on_db, ListBatchEntries. cbn [pw w_db w_fs].
  destruct (Nat.eqb_spec pageSize 0) as [->|_]; [lia|]. unfold query, exec.
  destruct (fn_page fn after) as [|[]] eqn:Hn; [by left|..].
  all: right; split; [by eexists|]; intros (H & _); by rewrite H in Hn.
Qed.

Lemma assemble_loop_reads fn pageSize fuel folder code job after s l1 l2 :
  (0 < pageSize)%nat → folder ≠ "" → ordinals_ok job (w_db (pw s)) →
  entries_by_ordinal job (w_db (pw s)) = app l1 l2 → at_position after l1 l2 →
  reads_as (clear fn folder code (w_fs (pw s)) (scanEntryRow <$> l2) ∧ (length l2 < fuel)%nat)
    (loop fn pageSize fuel folder code job after (assembly_after folder code job (w_fs (pw s)) (scanEntryRow <$> l1))) s
    (assembly_after folder code job (w_fs (pw s)) (all_entries job (w_db (pw s)))).
Proof.
  intros Hps Hf Hok. revert l1 l2 after. induction fuel as [|fuel IH]; intros l1 l2 after Hl Hpos.
  { right. split; [by eexists|]. lia. }
  cbn [assemble_loop]. set (P := _ ∧ _).
  assert (P → clear fn folder code (w_fs (pw s)) (scanEntryRow <$> take pageSize l2)) as HP.
  { intros [H _]. rewrite <- (take_drop pageSize l2), fmap_app in H. by apply clear_app in H as [? _]. }
  eapply reads_as_bind; [eapply reads_as_weaken; [by apply page_reads|intros [[H _] _]; done]|].
  rewrite (list_page_at job _ l1 l2 after pageSize Hl Hpos), last_scan.
  destruct (last (take pageSize l2)) as [x|] eqn:Hlast; cbn [fmap option_fmap option_map].
  - apply last_Some in Hlast as [l Hpage].
    pose proof (take_drop pageSize l2) as Hsplit. rewrite Hpage in Hsplit.
    eapply reads_as_bind; [eapply reads_as_weaken; [by apply (fetch_page_reads _ _ code)|done]|].
    eapply reads_as_bind; [eapply reads_as_weaken; [by apply assemble_page_reads|done]|].
    rewrite length_fmap, <- fmap_app. destruct (length (take pageSize l2) <? pageSize)%nat eqn:Hshort.
    + apply Nat.ltb_lt in Hshort. rewrite length_take in Hshort. rewrite take_ge by lia.
      unfold all_entries. rewrite Hl. apply reads_as_ret.
    + eapply reads_as_weaken; [apply (IH (app l1 (take pageSize l2)) (drop pageSize l2))|].
      * by rewrite <- app_assoc, take_drop.
      * rewrite Hpage. apply (at_position_next l1 l x (drop pageSize l2)).
        rewrite <- Hsplit in Hl. rewrite <- Hl. by apply entries_by_ordinal_sorted.
      * intros [H Hlen]. rewrite <- (take_drop pageSize l2), fmap_app in H. apply clear_app in H as [_ H].
        split; [done|]. rewrite <- Hsplit, !length_app in Hlen. cbn in Hlen. lia.
  - apply last_None in Hlast. apply (f_equal length) in Hlast. rewrite length_take in Hlast. cbn in Hlast.
    assert (l2 = []) as -> by (apply nil_length_inv; lia).
    unfold all_entries. rewrite Hl, app_nil_r. apply reads_as_ret.
Qed.

(** ** Committing *)

(** Nothing else than this content is at the artifact's key or file record. *)
Definition artifact_ok (folder key fid tenant name : string) (lines : list bytes) (s : PWorld) : Prop :=
  lines ≠ [] →
  (w_fs (pw s) !! join folder key = None ∨ w_fs (pw s) !! join folder key = Some (mjoin lines)) ∧
  (pw_files s !! fid = None ∨
   ∃ row, pw_files s !! fid = Some row ∧ file_matches tenant name (Z.of_nat (length (mjoin lines))) row = true).
(** The content is at the key and has its file record. *)
Definition artifact_done (folder key fid tenant name : string) (lines : list bytes) (s : PWorld) : Prop :=
  lines ≠ [] →
  w_fs (pw s) !! join folder key = Some (mjoin lines) ∧
  ∃ row, pw_files s !! fid = Some row ∧ file_matches tenant name (Z.of_nat (length (mjoin lines))) row = true.
(** Only that key and that record may have appeared. *)
Definition only_adds (folder key fid : string) (s s' : PWorld) : Prop :=
  w_db (pw s') = w_db (pw s) ∧ w_fs (pw s) ⊆ w_fs (pw s') ∧ pw_files s ⊆ pw_files s' ∧
  (∀ p, p ≠ join folder key → w_fs (pw s') !! p = w_fs (pw s) !! p) ∧
  (∀ f, f ≠ fid → pw_files s' !! f = pw_files s !! f).

Lemma only_adds_refl folder key fid s : only_adds folder key fid s s.
Proof. by split_and!. Qed.

Lemma file_matches_new tenant name size c ex :
  file_matches tenant name size {| fr_tenant := tenant; fr_filename := name; fr_bytes := size;
    fr_purpose := FileObjectPurposeBatchOutput; fr_created := c; fr_expires := ex |} = true.
Proof. unfold file_matches. cbn. by rewrite !bool_decide_eq_true_2, Z.eqb_refl. Qed.

(** An idempotent record: any outcome leaves the record absent or matching,
    and success leaves it in place. *)
Lemma ensureFileRecord_spec now n1 n2 fid name tenant size tags s :
  (pw_files s !! fid = None ∨ ∃ row, pw_files s !! fid = Some row ∧ file_matches tenant name size row = true) →
  ∃ files' r, ensureFileRecord defaultExp now n1 n2 fid name tenant size tags s = ({| pw := pw s; pw_files := files' |}, r) ∧
    pw_files s ⊆ files' ∧ (∀ f, f ≠ fid → files' !! f = pw_files s !! f) ∧
    (files' !! fid = None ∨ ∃ row, files' !! fid = Some row ∧ file_matches tenant name size row = true) ∧
    (r = Ok tt → ∃ row, files' !! fid = Some row ∧ file_matches tenant name size row = true) ∧
    (n1 = NetOk → n2 = NetOk → r = Ok tt).
Proof.
  destruct s as [w files]. cbn [pw pw_files]. intros Hpre.
  unfold ensureFileRecord, storeFileRecord, bindM, try. cbn [pw pw_files].
  destruct (files !! fid) as [row|] eqn:Hrow.
  - destruct Hpre as [?|(row' & [= <-] & Hm)]; [done|]. cbn [pw_files]. rewrite Hrow.
    destruct n2; [rewrite Hm|]; eexists files, _; (split; [reflexivity|]); split_and!; eauto; done.
  - set (row := {| fr_tenant := tenant |}).
    assert (file_matches tenant name size row = true) as Hm by apply file_matches_new.
    assert (files ⊆ <[fid := row]> files) as Hsub by by apply insert_subseteq.
    assert (∀ f, f ≠ fid → <[fid := row]> files !! f = files !! f) as Hoth by (intros; by rewrite lookup_insert_ne).
    destruct n1 as [|[]]; cbn [pw_files]; rewrite ?lookup_insert_eq, ?Hrow.
    + exists (<[fid := row]> files), (Ok tt). split; [reflexivity|]. rewrite lookup_insert_eq. split_and!; eauto.
    + destruct n2; [rewrite Hm|]; eexists (<[fid := row]> files), _; (split; [reflexivity|]);
        rewrite lookup_insert_eq; split_and!; eauto; done.
    + destruct n2; eexists files, _; (split; [reflexivity|]); split_and!; eauto; done.
Qed.

Lemma commit_spec fn now folder key fid name tenant tags lines s :
  folder ≠ "" → key ≠ "" → artifact_ok folder key fid tenant name lines s →
  ∃ s' r, commit sha256hex defaultExp fn now folder name tenant tags (writer_after folder (w_fs (pw s)) key fid lines) s
          = (s', r) ∧
    only_adds folder key fid s s' ∧ artifact_ok folder key fid tenant name lines s' ∧
    (∀ id, r = Ok id → id = (if decide (lines = []) then "" else fid) ∧ artifact_done folder key fid tenant name lines s') ∧
    (calm fn → is_ok r = true).
Proof.
  intros Hf Hk Hok. unfold commit. rewrite writer_after_id, writer_after_key.
  destruct (fn_record fn fid) as [n1 n2] eqn:Hrec.
  destruct (decide (lines = [])) as [->|Hne].
  { eexists s, (Ok ""). split; [reflexivity|]. split_and!; try done. intros id [= <-]. by split. }
  destruct (Hok Hne) as [Hfs Hfiles]. unfold writer_after. destruct lines as [|l ls]; [done|]. set (lines := l :: ls) in *.
  destruct s as [[db fs] files]. cbn [pw w_fs w_db pw_files] in *.
  assert (calm fn → n1 = NetOk ∧ n2 = NetOk) as Hcalm.
  { intros (_&_&_&_&_&_&H). rewrite H in Hrec. by simplify_eq. }
  destruct (fs !! join folder key) as [d|] eqn:Hd; cbn [aw_existing aw_writer aw_hashed].
  - destruct Hfs as [?|[= ->]]; [done|]. unfold bindM at 1, verifyExisting, bindM at 1, on_world, on_fs, FRetrieve.
    cbn [aw_key aw_hashed pw w_fs]. rewrite resolvePath_ok by done. rewrite Hd.
    destruct (fn_verify fn key) eqn:Hv.
    + cbn [fst]. rewrite Nat.eqb_refl, bool_decide_eq_true_2 by done. cbn [negb orb ret]. unfold bindM.
      edestruct (ensureFileRecord_spec now n1 n2 fid name tenant (Z.of_nat (length (mjoin lines))) tags
        {| pw := {| w_db := db; w_fs := fs |}; pw_files := files |}) as (files' & r & Hr & Hsub & Hoth & Hinv & Hdone & Hgo);
        [done|]. unfold ret. cbn [pw w_db w_fs pw_files]. rewrite Hr. cbn [pw].
      destruct r as [[]|e]; (eexists _, _; split; [reflexivity|]); split_and!; try done.
      * intros _. cbn. rewrite Hd. auto.
      * intros id [= <-]. split; [done|]. intros _. split; [done|]. by apply Hdone.
      * intros _. cbn. rewrite Hd. auto.
      * intros Hc. destruct (Hcalm Hc). by specialize (Hgo ltac:(done) ltac:(done)).
    + eexists _, _. split; [reflexivity|]. split_and!; try done.
      intros (_&_&_&_&_&H&_). by rewrite H in Hv.
  - unfold bindM at 1, on_world, on_fs, sw_Commit. cbn [pw w_fs w_db sw_path sw_buf]. rewrite Hd. unfold fs_step.
    assert (fs ⊆ <[join folder key := mjoin lines]> fs) as Hsub by by apply insert_subseteq.
    assert (∀ p, p ≠ join folder key → <[join folder key := mjoin lines]> fs !! p = fs !! p) as Hoth
      by (intros; by rewrite lookup_insert_ne).
    destruct (fn_commit fn key) as [|[]] eqn:Hn.
    + unfold bindM.
      edestruct (ensureFileRecord_spec now n1 n2 fid name tenant (Z.of_nat (length (mjoin lines))) tags
        {| pw := {| w_db := db; w_fs := <[join folder key := mjoin lines]> fs |}; pw_files := files |})
        as (files' & r & Hr & Hsub' & Hoth' & Hinv & Hdone & Hgo); [done|]. cbn [md_Size pw_files w_db]. rewrite Hr. cbn [pw].
      destruct r as [[]|e]; (eexists _, _; split; [reflexivity|]); split_and!; try done.
      * intros _. cbn. rewrite lookup_insert_eq. auto.
      * intros id [= <-]. split; [done|]. intros _. cbn. rewrite lookup_insert_eq. split; [done|]. by apply Hdone.
      * intros _. cbn. rewrite lookup_insert_eq. auto.
      * intros Hc. destruct (Hcalm Hc). by specialize (Hgo ltac:(done) ltac:(done)).
    + eexists _, _. split; [reflexivity|]. split_and!; try done.
      * intros _. cbn. rewrite lookup_insert_eq. auto.
      * intros (_&_&_&_&H&_). by rewrite H in Hn.
    + eexists _, _. split; [reflexivity|]. split_and!; try done.
      intros (_&_&_&_&H&_). by rewrite H in Hn.
Qed.

(** ** Keys *)
Lemma ext_from_jsonl cs acc : ext_from (app cs (list_ascii_of_string ".jsonl")) acc = ".jsonl".
Proof. revert acc. induction cs as [|c cs IH]; intros acc; [done|]. cbn. case_bool_decide; apply IH. Qed.

Lemma list_ascii_app a b : list_ascii_of_string (a +:+ b) = app (list_ascii_of_string a) (list_ascii_of_string b).
Proof.
  induction a as [|c a IH]; [done|].
  change (c :: list_ascii_of_string (a +:+ b) = c :: app (list_ascii_of_string a) (list_ascii_of_string b)). by f_equal.
Qed.

Lemma storage_name fid base : FileStorageName fid (base +:+ ".jsonl") = fid +:+ ".jsonl".
Proof. unfold FileStorageName. cbv zeta. by rewrite list_ascii_app, ext_from_jsonl. Qed.

Lemma keys_distinct folder job : outID job ≠ errID job → join folder (outKey job) ≠ join folder (errKey job).
Proof.
  intros Hne Heq. apply Hne. unfold join in Heq.
  apply (inj (String.append folder)), (inj (String.append "/")) in Heq.
  unfold jobOutputStorageName, jobErrorStorageName in Heq.
  rewrite (storage_name _ ("batch_output_" +:+ job)), (storage_name _ ("batch_error_" +:+ job)) in Heq.
  apply (f_equal list_ascii_of_string) in Heq. rewrite !list_ascii_app in Heq.
  apply app_inv_tail in Heq. rewrite <- (string_of_list_ascii_of_string (outID job)), Heq.
  apply string_of_list_ascii_of_string.
Qed.

(** ** The artifacts *)

(** A store ready for finalization: the recorded results are there, and at
    the two artifact keys and records is nothing or what belongs there. *)
Definition ready (job tenant folder code : string) (s : PWorld) : Prop :=
  let es := all_entries job (w_db (pw s)) in
  ordinals_ok job (w_db (pw s)) ∧ Forall (fetchable folder (w_fs (pw s))) es ∧
  artifact_ok folder (outKey job) (outID job) tenant (jobOutputStorageName job) (output_lines folder (w_fs (pw s)) es) s ∧
  artifact_ok folder (errKey job) (errID job) tenant (jobErrorStorageName job) (error_lines folder code (w_fs (pw s)) es) s.

Lemma stored_line_grows folder fs fs' e :
  fs ⊆ fs' → fetchable folder fs e → entry_terminal (re_Status e) = true → stored_line folder fs' e = stored_line folder fs e.
Proof.
  intros Hsub H Ht. destruct (H Ht) as (_ & data & Hd & _). unfold stored_line.
  by rewrite Hd, (lookup_weaken _ _ _ _ Hd Hsub).
Qed.
Lemma fetchable_grows folder fs fs' es : fs ⊆ fs' → Forall (fetchable folder fs) es → Forall (fetchable folder fs') es.
Proof.
  intros Hsub Hall. eapply Forall_impl; [apply Hall|]. intros e H Ht. destruct (H Ht) as (Hk & data & Hd & Hs). split; [done|].
  exists data. split; [by eapply lookup_weaken|done].
Qed.
Lemma output_lines_grows folder fs fs' es :
  fs ⊆ fs' → Forall (fetchable folder fs) es → output_lines folder fs' es = output_lines folder fs es.
Proof.
  intros Hsub Hall. unfold output_lines. apply list_fmap_ext. intros i e He%list_elem_of_lookup_2.
  apply list_elem_of_filter in He as [Ho He]. eapply Forall_forall in Hall; [|done].
  apply stored_line_grows; [done..|]. unfold to_output in Ho. by destruct (re_Status e).
Qed.
Lemma error_lines_grows folder code fs fs' es :
  fs ⊆ fs' → Forall (fetchable folder fs) es → error_lines folder code fs' es = error_lines folder code fs es.
Proof.
  intros Hsub Hall. unfold error_lines. apply list_fmap_ext. intros i e He%list_elem_of_lookup_2.
  apply list_elem_of_filter in He as [Ho He]. eapply Forall_forall in Hall; [|done]. unfold error_line.
  destruct (entry_terminal (re_Status e)) eqn:Ht; [by apply stored_line_grows|done].
Qed.

Lemma artifact_ok_other folder key fid key' fid' tenant name lines s s' :
  only_adds folder key fid s s' → join folder key' ≠ join folder key → fid' ≠ fid →
  artifact_ok folder key' fid' tenant name lines s → artifact_ok folder key' fid' tenant name lines s'.
Proof. intros (_ & _ & _ & H1 & H2) Hk Hf H Hne. specialize (H Hne). by rewrite H1, H2. Qed.
Lemma artifact_done_grows folder key fid tenant name lines s s' :
  w_fs (pw s) ⊆ w_fs (pw s') → pw_files s ⊆ pw_files s' →
  artifact_done folder key fid tenant name lines s → artifact_done folder key fid tenant name lines s'.
Proof.
  intros H1 H2 H Hne. destruct (H Hne) as (Ha & row & Hr & Hm). split; [by eapply lookup_weaken|].
  exists row. split; [by eapply lookup_weaken|done].
Qed.

Abbreviation assemble := (assembleResumableArtifacts sha256hex uuidSHA1 errLine defaultExp).

(** What a finished assembly returns and leaves behind. *)
Definition assembled (job tenant folder code : string) (s s' : PWorld) (r : BatchRequestCounts * string * string) : Prop :=
  let es := all_entries job (w_db (pw s)) in
  let outs := output_lines folder (w_fs (pw s)) es in
  let errs := error_lines folder code (w_fs (pw s)) es in
  r = (tally es, if decide (outs = []) then "" else outID job, if decide (errs = []) then "" else errID job) ∧
  artifact_done folder (outKey job) (outID job) tenant (jobOutputStorageName job) outs s' ∧
  artifact_done folder (errKey job) (errID job) tenant (jobErrorStorageName job) errs s'.

(** One attempt, whatever fails. *)
Lemma assemble_attempt fn now fuel job tenant folder tags code s :
  GetFolderNameByTenantID sha256hex tenant = Ok folder → outID job ≠ errID job → ready job tenant folder code s →
  ∃ s' r, assemble fn now fuel job tenant tags code s = (s', r) ∧
    w_db (pw s') = w_db (pw s) ∧ w_fs (pw s) ⊆ w_fs (pw s') ∧ pw_files s ⊆ pw_files s' ∧
    ready job tenant folder code s' ∧
    (∀ a, r = Ok a → assembled job tenant folder code s s' a) ∧
    (calm fn → (length (all_entries job (w_db (pw s))) < fuel)%nat →
     (code = "" → Forall (λ e, entry_terminal (re_Status e) = true) (all_entries job (w_db (pw s)))) → is_ok r = true).
Proof.
  intros Hfold Hids (Hord & Hfetch & Hout & Herr).
  assert (folder ≠ "") as Hf by (unfold GetFolderNameByTenantID in Hfold; case_bool_decide; simplify_eq; done).
  pose proof (keys_distinct folder job Hids) as Hkeys.
  unfold assembleResumableArtifacts. rewrite Hfold.
  destruct (assemble_loop_reads fn resumableEntriesPageSize fuel folder code job (-1) s [] (entries_by_ordinal job (w_db (pw s))))
    as [Hloop|[[e Hloop] HnP]]; [unfold resumableEntriesPageSize; lia|done|done|done|by apply at_start|..]; cycle 1.
  { eexists s, (Err e). unfold bindM at 1. split; [by setoid_rewrite Hloop|]. split_and!; try done.
    intros Hc Hlen Hterm. exfalso. apply HnP. unfold all_entries in *. rewrite length_fmap in Hlen. by split_and!. }
  set (es := all_entries job (w_db (pw s))) in *.
  unfold bindM at 1. cbn [fmap list_fmap assembly_after] in Hloop. setoid_rewrite Hloop. clear Hloop.
  cbn [as_output as_error as_counts assembly_after]. unfold bindM at 1.
  destruct (commit_spec fn now folder (outKey job) (outID job) (jobOutputStorageName job) tenant tags
    (output_lines folder (w_fs (pw s)) es) s) as (s1 & r1 & Hc1 & Hadd1 & Hok1 & Hr1 & Hgo1); [done|apply key_nonempty|done|].
  rewrite Hc1. destruct Hadd1 as (Hdb1 & Hfs1 & Hfl1 & Hp1 & Hf1).
  assert (artifact_ok folder (errKey job) (errID job) tenant (jobErrorStorageName job)
            (error_lines folder code (w_fs (pw s)) es) s1) as Herr1.
  { eapply (artifact_ok_other _ (outKey job) (outID job) _ _ _ _ _ s); [|by apply not_eq_sym..|done]. by split_and!. }
  assert (writer_after folder (w_fs (pw s)) (errKey job) (errID job) (error_lines folder code (w_fs (pw s)) es)
          = writer_after folder (w_fs (pw s1)) (errKey job) (errID job) (error_lines folder code (w_fs (pw s)) es)) as Hw.
  { unfold writer_after. destruct (error_lines _ _ _ _); [done|]. by rewrite Hp1 by by apply not_eq_sym. }
  assert (∀ s2, w_db (pw s2) = w_db (pw s) → w_fs (pw s) ⊆ w_fs (pw s2) →
    artifact_ok folder (outKey job) (outID job) tenant (jobOutputStorageName job) (output_lines folder (w_fs (pw s)) es) s2 →
    artifact_ok folder (errKey job) (errID job) tenant (jobErrorStorageName job) (error_lines folder code (w_fs (pw s)) es) s2 →
    ready job tenant folder code s2) as Hready.
  { intros s2 Hdb Hsub Ho He. unfold ready. rewrite Hdb. fold es.
    rewrite (output_lines_grows folder (w_fs (pw s))), (error_lines_grows folder code (w_fs (pw s))) by done.
    split_and!; try done. by eapply fetchable_grows. }
  destruct r1 as [id1|e1]; cycle 1.
  { eexists s1, (Err e1). split; [done|]. split_and!; try done; [by apply Hready|].
    intros Hc _ _. by specialize (Hgo1 Hc). }
  destruct (Hr1 id1 eq_refl) as [Hid1 Hdone1]. unfold bindM. rewrite Hw.
  destruct (commit_spec fn now folder (errKey job) (errID job) (jobErrorStorageName job) tenant tags
    (error_lines folder code (w_fs (pw s)) es) s1) as (s2 & r2 & Hc2 & Hadd2 & Hok2 & Hr2 & Hgo2); [done|apply key_nonempty|done|].
  rewrite Hc2. pose proof Hadd2 as (Hdb2 & Hfs2 & Hfl2 & Hp2 & Hf2).
  assert (ready job tenant folder code s2) as Hready2.
  { apply Hready; [congruence|by etrans| |done]. eapply (artifact_ok_other _ (errKey job) (errID job)); done. }
  destruct r2 as [id2|e2]; (eexists s2, _; split; [reflexivity|]; split_and!; [congruence|by etrans|by etrans|done|..]); try done.
  - intros a [= <-]. destruct (Hr2 id2 eq_refl) as [Hid2 Hdone2]. split; [by rewrite Hid1, Hid2|]. split; [|done].
    by eapply artifact_done_grows.
  - intros Hc _ _. by specialize (Hgo2 Hc).
Qed.

(** ** Retried assembly *)
Lemma results_fetchable job folder s :
  results_intact sha256hex job folder (pw s) → Forall (fetchable folder (w_fs (pw s))) (all_entries job (w_db (pw s))).
Proof.
  intros Hint. apply Forall_forall. intros x (kv & -> & Hin)%list_elem_of_fmap Ht.
  destruct kv as [[b q] e]. apply elem_of_entries_by_ordinal in Hin as [Hb He]. cbn in Hb, He, Ht |- *. subst b.
  destruct (Hint q e He Ht) as (key & data & Hk & Hne & Hd & Hl & Hs). rewrite Hk. cbn. eauto.
Qed.

(** Nothing was committed for the batch yet. *)
Definition unfinalized (job folder : string) (s : PWorld) : Prop :=
  w_fs (pw s) !! join folder (outKey job) = None ∧ w_fs (pw s) !! join folder (errKey job) = None ∧
  pw_files s !! outID job = None ∧ pw_files s !! errID job = None.

Lemma unfinalized_ready job tenant folder code s :
  ordinals_ok job (w_db (pw s)) → results_intact sha256hex job folder (pw s) → unfinalized job folder s →
  ready job tenant folder code s.
Proof.
  intros Hord Hint (H1 & H2 & H3 & H4). split_and!; [done|by apply results_fetchable|..]; intros _; auto.
Qed.

(** Attempts at assembly, one after another, each with its own failures,
    clock and fuel. *)
Definition attempts (job tenant : string) (tags : gmap string string) (code : string)
    (l : list (FinNet * Z * nat)) (s : PWorld) : PWorld :=
  foldl (λ s a, (assemble a.1.1 a.1.2 a.2 job tenant tags code s).1) s l.

Lemma attempts_ready job tenant folder tags code l s :
  GetFolderNameByTenantID sha256hex tenant = Ok folder → outID job ≠ errID job → ready job tenant folder code s →
  let s' := attempts job tenant tags code l s in
  ready job tenant folder code s' ∧ w_db (pw s') = w_db (pw s) ∧ w_fs (pw s) ⊆ w_fs (pw s') ∧ pw_files s ⊆ pw_files s'.
Proof.
  intros Hfold Hids. revert s. induction l as [|[[fn now] fuel] l IH]; intros s Hr; [done|].
  change (attempts job tenant tags code ((fn, now, fuel) :: l) s)
    with (attempts job tenant tags code l (assemble fn now fuel job tenant tags code s).1).
  destruct (assemble_attempt fn now fuel job tenant folder tags code s Hfold Hids Hr)
    as (s1 & r & Heq & Hdb & Hfs & Hfl & Hr1 & _). rewrite Heq. cbn [fst].
  destruct (IH s1 Hr1) as (Hr2 & Hdb2 & Hfs2 & Hfl2). split_and!; [done|by rewrite Hdb2|by etrans..].
Qed.

Lemma exact_after_failures job tenant folder tags code l fn now fuel s :
  GetFolderNameByTenantID sha256hex tenant = Ok folder → outID job ≠ errID job →
  ordinals_ok job (w_db (pw s)) → results_intact sha256hex job folder (pw s) → unfinalized job folder s →
  calm fn → (length (all_entries job (w_db (pw s))) < fuel)%nat →
  (code = "" → ∀ e, e ∈ all_entries job (w_db (pw s)) → entry_terminal (re_Status e) = true) →
  ∃ s' r, assemble fn now fuel job tenant tags code (attempts job tenant tags code l s) = (s', Ok r) ∧
    assembled job tenant folder code s s' r ∧ w_db (pw s') = w_db (pw s).
Proof.
  intros Hfold Hids Hord Hint Hun Hcalm Hfuel Hterm.
  pose proof (unfinalized_ready job tenant folder code s Hord Hint Hun) as Hr.
  destruct (attempts_ready job tenant folder tags code l s Hfold Hids Hr) as (Hr1 & Hdb & Hfs & _).
  set (s1 := attempts _ _ _ _ _ _) in *.
  destruct (assemble_attempt fn now fuel job tenant folder tags code s1 Hfold Hids Hr1)
    as (s' & r & Heq & Hdb' & _ & _ & _ & Hok & Hgo).
  rewrite Hdb in Hgo. specialize (Hgo Hcalm Hfuel ltac:(by intros ?; apply Forall_forall, Hterm)).
  destruct r as [a|e]; [|done]. exists s', a. split_and!; [done| |by rewrite Hdb'].
  specialize (Hok a eq_refl). unfold assembled in *. rewrite Hdb in Hok. pose proof (results_fetchable job folder s Hint) as Hfe.
  rewrite (output_lines_grows folder (w_fs (pw s)) (w_fs (pw s1)) _ Hfs Hfe),
    (error_lines_grows folder code (w_fs (pw s)) (w_fs (pw s1)) _ Hfs Hfe) in Hok. exact Hok.
Qed.

(** Every entry is accounted for exactly once: completed plus failed is
    the total, and every entry contributes exactly one line, to exactly one of
    the two artifacts. *)
Lemma counts_partition_entries folder code fs es :
  let c := tally es in
  Total c = Completed c + Failed c ∧
  Total c = Z.of_nat (length (output_lines folder fs es)) + Z.of_nat (length (error_lines folder code fs es)) ∧
  Z.of_nat (length (error_lines folder code fs es)) ≤ Failed c.
Proof.
  cbv zeta. unfold tally. cbn [Total Completed Failed]. unfold output_lines, error_lines, count_entries.
  rewrite !length_fmap. split; [lia|].
  induction es as [|e es IH]; [by cbn|]. rewrite !filter_cons. cbn [length].
  unfold to_output, has_status in *. destruct (re_Status e); [| | |case_bool_decide];
    repeat case_decide; try done; cbn [length]; lia.
Qed.


(** A page with a non-terminal entry fails when there is no code for it. *)
Lemma assemble_entry_terminal fn folder st e b s s' st' :
  assemble_entry errLine fn folder "" st e b s = (s', Ok st') → entry_terminal (re_Status e) = true.
Proof. unfold assemble_entry. by destruct (re_Status e). Qed.
Lemma assemble_page_terminal fn folder st es fs s s' st' :
  assemble_page errLine fn folder "" st es (fetched_of folder fs <$> es) s = (s', Ok st') →
  Forall (λ e, entry_terminal (re_Status e) = true) es.
Proof.
  revert st s. induction es as [|e es IH]; intros st s; [constructor|].
  cbn [assemble_page fmap list_fmap]. intros (s1 & st1 & H1 & H2)%bindM_ok.
  constructor; [by eapply assemble_entry_terminal|by eapply IH].
Qed.

Lemma assemble_loop_terminal fn pageSize fuel folder job after s l1 l2 s' st' :
  (0 < pageSize)%nat → folder ≠ "" → ordinals_ok job (w_db (pw s)) →
  entries_by_ordinal job (w_db (pw s)) = app l1 l2 → at_position after l1 l2 →
  loop fn pageSize fuel folder "" job after (assembly_after folder "" job (w_fs (pw s)) (scanEntryRow <$> l1)) s = (s', Ok st') →
  Forall (λ e, entry_terminal (re_Status e) = true) (scanEntryRow <$> l2).
Proof.
  intros Hps Hf Hok. revert l1 l2 after. induction fuel as [|fuel IH]; intros l1 l2 after Hl Hpos; [done|].
  cbn [assemble_loop]. unfold bindM at 1.
  destruct (page_reads fn job after pageSize s Hps) as [->|[[e ->] _]]; [|done].
  rewrite (list_page_at job _ l1 l2 after pageSize Hl Hpos), last_scan.
  destruct (last (take pageSize l2)) as [x|] eqn:Hlast; cbn [fmap option_fmap option_map].
  - apply last_Some in Hlast as [l Hpage]. pose proof (take_drop pageSize l2) as Hsplit. rewrite Hpage in Hsplit.
    unfold bindM at 1. destruct (fetch_page_reads fn folder "" (scanEntryRow <$> take pageSize l2) s Hf) as [->|[[e ->] _]]; [|done].
    unfold bindM at 1. destruct (assemble_page _ _ _ _ _ _ _ s) as [s1 [st1|e1]] eqn:Hp; [|done].
    pose proof (assemble_page_terminal _ _ _ _ _ _ _ _ Hp) as Ht.
    destruct (assemble_page_reads fn folder "" job (scanEntryRow <$> l1) (scanEntryRow <$> take pageSize l2) s Hf)
      as [Hp'|[[e Hp'] _]]; rewrite Hp' in Hp; [|done]. simplify_eq.
    rewrite length_fmap, <- fmap_app. destruct (length (take pageSize l2) <? pageSize)%nat eqn:Hshort.
    + apply Nat.ltb_lt in Hshort. rewrite length_take in Hshort. rewrite take_ge in Ht by lia. done.
    + intros Hrest. rewrite <- (take_drop pageSize l2), fmap_app, Forall_app. split; [done|].
      eapply (IH (app l1 (take pageSize l2))); [by rewrite <- app_assoc, take_drop| |done].
      rewrite Hpage. apply (at_position_next l1 l x (drop pageSize l2)).
      rewrite <- Hsplit in Hl. rewrite <- Hl. by apply entries_by_ordinal_sorted.
  - apply last_None in Hlast. apply (f_equal length) in Hlast. rewrite length_take in Hlast. cbn in Hlast.
    assert (l2 = []) as -> by (apply nil_length_inv; lia). constructor.
Qed.

(** [C15] A batch is never completed with work left: while an entry is pending
    or in flight, the completing assembly fails, whatever the calls return,
    and commits nothing. *)
Theorem completion_needs_every_entry fn now fuel job tenant folder tags s e :
  GetFolderNameByTenantID sha256hex tenant = Ok folder → ordinals_ok job (w_db (pw s)) →
  e ∈ all_entries job (w_db (pw s)) → entry_terminal (re_Status e) = false →
  ∃ x, assemble fn now fuel job tenant tags "" s = (s, Err x).
Proof.
  intros Hfold Hord Hin Hopen.
  assert (folder ≠ "") as Hf by (unfold GetFolderNameByTenantID in Hfold; case_bool_decide; simplify_eq; done).
  unfold assembleResumableArtifacts. rewrite Hfold. unfold bindM at 1.
  destruct (assemble_loop_reads fn resumableEntriesPageSize fuel folder "" job (-1) s [] (entries_by_ordinal job (w_db (pw s))))
    as [Hloop|[[x Hloop] _]]; [unfold resumableEntriesPageSize; lia|done|done|done|by apply at_start|..].
  - exfalso. apply assemble_loop_terminal with (l2 := entries_by_ordinal job (w_db (pw s))) in Hloop;
      [|unfold resumableEntriesPageSize; lia|done|done|done|by apply at_start].
    eapply Forall_forall in Hloop; [|exact Hin]. congruence.
  - exists x. by setoid_rewrite Hloop.
Qed.

End Assembly.
