(* ===== verification/JobRunner.v ===== *)
(** * Running and recovering jobs

    [internal/processor/worker]: the polling loop ([worker.go]), [runJob] and
    its error routing ([job_runner.go], [cancel.go]), the pickup of requeued
    batches and startup recovery ([recovery.go], [poller.go]), the conversion
    of rows ([shared/batch_utils], [shared/converter]) and the causes of an
    abort ([batchctx]).

    The world adds to [PWorld] the local job directories and the number of
    worker tokens held.  What other goroutines and processors do to the store
    meanwhile is a list of statements run at each point where [runJob] waits;
    the ingestion and execution phases enter as their outcome.  Metrics, spans
    and logging are left out. *)

From Stdlib Require Import ZArith Lia Ascii String.
From stdpp Require Import base gmap strings list sorting pretty.
From S2P Require Import Prelude Openai Store StoreOps Ownership Fencing Lifecycle Examples Planner Preprocess.
From S2P Require Import Files ResultStore Entries Finalizer.
Local Open Scope string_scope.
Local Open Scope Z_scope.

(** ** Abort causes ([batchctx]) *)

(** The cause recorded by the first cancel of the abort context. *)
Inductive AbortCause := NotAborted | CauseDeadline | CauseExpired | CauseCancelled | CauseShutdown | CauseNeutral.
#[export] Instance abort_cause_eq_dec : EqDecision AbortCause.
Proof. solve_decision. Defined.

Definition Cause (c : AbortCause) : option err :=
  match c with
  | CauseDeadline | CauseExpired => Some ErrExpired
  | CauseCancelled => Some ErrCancelled
  | CauseShutdown => Some ErrShutdown
  | NotAborted | CauseNeutral => None
  end.
Definition IsTerminalErr (e : err) : bool :=
  bool_decide (e = ErrExpired) || bool_decide (e = ErrCancelled) || bool_decide (e = ErrShutdown).

(** ** Rows as jobs *)
Definition zeroStatusInfo : BatchStatusInfo :=
  {| Status := ""; OutputFileID := None; ErrorFileID := None; CancelledAt := None; CancellingAt := None;
     CompletedAt := None; ExpiredAt := None; ExpiresAt := None; FailedAt := None; FinalizingAt := None;
     InProgressAt := None; Model := ""; RequestCounts := {| Total := 0; Completed := 0; Failed := 0 |};
     Errors := None; Usage := None |}.

(** [Batch] as the worker reads it: the ID and the status document. *)
Record Batch := { b_ID : string; b_StatusInfo : BatchStatusInfo }.
Record JobInfo := {
  ji_JobID : string; ji_TenantID : string; ji_BatchJob : Batch; ji_PassThroughHeaders : gmap string string;
  ji_TraceContext : gmap string string }.

Definition TagPrefixPassThroughHeader := "pth:".
Definition TagPrefixOTel := "otel:".
Definition TrimPrefix (prefix s : string) : string :=
  if has_prefix prefix s then String.substring (String.length prefix) (String.length s - String.length prefix) s else s.
Definition tags_of (mine : string → bool) (prefix : string) (tags : gmap string string) : gmap string string :=
  list_to_map ((λ kv, (TrimPrefix prefix kv.1, kv.2)) <$> filter (λ kv, mine kv.1 = true) (map_to_list tags)).
Definition is_pass_through (k : string) : bool := has_prefix TagPrefixPassThroughHeader k.
Definition is_otel (k : string) : bool := negb (is_pass_through k) && has_prefix TagPrefixOTel k.

(** ** The world of a processor *)
Record JWorld := { jw : PWorld; jw_dirs : gset string; jw_tokens : Z }.
Definition jdb (s : JWorld) : DB := w_db (pw (jw s)).
Definition on_p {A} (m : M PWorld A) : M JWorld A :=
  λ s, let '(w, r) := m (jw s) in ({| jw := w; jw_dirs := jw_dirs s; jw_tokens := jw_tokens s |}, r).
Definition on_jdb {A} (m : M DB A) : M JWorld A := on_p (on_world (on_db m)).
(** [release]. *)
Definition release : M JWorld unit :=
  λ s, ({| jw := jw s; jw_dirs := jw_dirs s; jw_tokens := jw_tokens s - 1 |}, Ok tt).
(** What everyone else did in between. *)
Definition interleave (ss : list Stmt) : M JWorld unit := on_jdb (λ db, (run_all ss db, Ok tt)).
Definition ignore {A} (m : M JWorld A) : M JWorld unit := try m ;;; ret tt.

(** Outcomes of the calls of one job, and the clock in microseconds. *)
Record JobNet := {
  jn_now : Z; jn_fuel : nat; jn_fin : FinNet; jn_status : net; jn_fallback : net; jn_fetch : net; jn_enqueue : net;
  jn_requeue : net * net; jn_remove : bool; jn_activate : net; jn_rejected : string → net * net; jn_pages : Z → net }.

Record jobExecutionParams := {
  jp_jobItem : BatchItem; jp_jobInfo : JobInfo; jp_task : option BatchJobPriority;
  jp_resultSink : option batchResultStore; jp_resumeSeed : option ResumableResumeState;
  jp_requestCounts : option BatchRequestCounts }.

Definition resumed (params : jobExecutionParams) : bool :=
  match jp_task params with Some t => bj_Resumable t | None => false end.

Definition recoveryUnknownStatus : BatchStatus := "unknown".
Definition maxRecoveryAttempts : Z := 3.
Definition getJobStatus (item : BatchItem) : BatchStatus :=
  match r_status (bi_row item) with Some d => Status d | None => recoveryUnknownStatus end.
Definition extractRequestCounts (item : BatchItem) : option BatchRequestCounts :=
  match r_status (bi_row item) with
  | Some d => if Total (RequestCounts d) =? 0 then None else Some (RequestCounts d)
  | None => None
  end.
(** A NULL priority is read as 0; the deadline is in microseconds. *)
Definition extractRecoverySLO (item : BatchItem) (info : JobInfo) : option Z :=
  let p := default 0 (r_priority (bi_row item)) in
  if 0 <? p then Some p
  else (λ t, t * 1000000) <$> ExpiresAt (b_StatusInfo (ji_BatchJob info)).
Definition buildRecoveryTask (item : BatchItem) (slo : option Z) (expectedStatus : BatchStatus) : result BatchJobPriority :=
  match slo with
  | None => Err (ErrOther "missing recovery SLO")
  | Some t => Ok {| bj_ID := bi_ID item; bj_SLO := Some t; bj_Epoch := r_epoch (bi_row item);
                    bj_ProcessorID := default "" (r_processor (bi_row item)); bj_ExpectedStatus := expectedStatus;
                    bj_RecoveryAttempts := 0; bj_Resumable := false |}
  end.

Definition set_sink (sink : batchResultStore) (seed : option ResumableResumeState) (p : jobExecutionParams) : jobExecutionParams :=
  {| jp_jobItem := jp_jobItem p; jp_jobInfo := jp_jobInfo p; jp_task := jp_task p; jp_resultSink := Some sink;
     jp_resumeSeed := seed; jp_requestCounts := jp_requestCounts p |}.
Definition set_counts (c : option BatchRequestCounts) (p : jobExecutionParams) : jobExecutionParams :=
  {| jp_jobItem := jp_jobItem p; jp_jobInfo := jp_jobInfo p; jp_task := jp_task p; jp_resultSink := jp_resultSink p;
     jp_resumeSeed := jp_resumeSeed p; jp_requestCounts := c |}.
Definition set_item (i : BatchItem) (p : jobExecutionParams) : jobExecutionParams :=
  {| jp_jobItem := i; jp_jobInfo := jp_jobInfo p; jp_task := jp_task p; jp_resultSink := jp_resultSink p;
     jp_resumeSeed := jp_resumeSeed p; jp_requestCounts := jp_requestCounts p |}.

Section JobRunner.
Context (sha256hex : bytes → string) (uuidSHA1 : string → string).
Context (errLine : string → string → string → string → bytes).
Context (spec_ok : string → bool).
Context (defaultExp leaseDuration : Z) (processorID : string).

(** [DBItemToBatch]: [spec_ok] tells whether the spec unmarshals. *)
Definition DBItemToBatch (item : BatchItem) : result Batch :=
  if negb (bool_decide (r_spec (bi_row item) = "")) && negb (spec_ok (r_spec (bi_row item)))
  then Err (ErrOther "failed to unmarshal batch spec")
  else Ok {| b_ID := bi_ID item; b_StatusInfo := default zeroStatusInfo (r_status (bi_row item)) |}.
Definition FromDBItemToJobInfoObject (item : BatchItem) : result JobInfo :=
  match DBItemToBatch item with
  | Err e => Err e
  | Ok b => Ok {| ji_JobID := bi_ID item; ji_TenantID := r_tenant (bi_row item); ji_BatchJob := b;
                  ji_PassThroughHeaders := tags_of is_pass_through TagPrefixPassThroughHeader (r_tags (bi_row item));
                  ji_TraceContext := tags_of is_otel TagPrefixOTel (r_tags (bi_row item)) |}
  end.

(** [poller.go] *)
Definition fetchJobItemByID (n : net) (jobID : string) : M JWorld (option BatchItem) :=
  on_jdb (query n (λ db, (λ r, {| bi_ID := jobID; bi_row := r; bi_BumpEpoch := false; bi_ExpectedResumable := None |})
                           <$> items db !! jobID)).
Definition enqueueOne (n : net) (task : option BatchJobPriority) : M JWorld unit :=
  match task with
  | None => throw (ErrOther "cannot enqueue nil batch job task")
  | Some _ => on_jdb (PQEnqueue n task)
  end.
Definition dequeueOne (now : Z) (n : net) (locked : gset string) (lease : Z) : M JWorld (option BatchJobPriority) :=
  tasks <- on_jdb (PQDequeue now n locked processorID lease 1) ;; ret (head tasks).
Definition claimOwned (n : net) : M JWorld (list BatchJobPriority) := on_jdb (PQClaimOwned n processorID).

(** Best effort; a directory is named by its tenant and job. *)
Definition cleanupJobArtifacts (jn : JobNet) (jobID tenantID : string) : M JWorld unit := λ s,
  match GetFolderNameByTenantID sha256hex tenantID with
  | Err _ => (s, Ok tt)
  | Ok _ => if jn_remove jn
            then ({| jw := jw s; jw_dirs := jw_dirs s ∖ {[jobID]}; jw_tokens := jw_tokens s |}, Ok tt)
            else (s, Ok tt)
  end.
Definition cleanupStaleJobDir (jn : JobNet) (jobID : string) : M JWorld unit := λ s,
  if jn_remove jn then ({| jw := jw s; jw_dirs := jw_dirs s ∖ {[jobID]}; jw_tokens := jw_tokens s |}, Ok tt) else (s, Ok tt).
Definition cleanup_item (jn : JobNet) (item : BatchItem) : M JWorld unit :=
  cleanupJobArtifacts jn (bi_ID item) (r_tenant (bi_row item)).

(** ** Terminal handlers *)
Definition seconds (jn : JobNet) : Z := jn_now jn / 1000000.

Definition handleFailed (jn : JobNet) (n : net) (item : BatchItem) (counts : option BatchRequestCounts) : M JWorld unit :=
  on_jdb (UpdateFailedStatus (seconds jn) n (Some item) counts "" "") ;;; cleanup_item jn item.
Definition handleExpired (jn : JobNet) (item : BatchItem) (counts : option BatchRequestCounts) : M JWorld unit :=
  on_jdb (UpdateExpiredStatus (seconds jn) (jn_status jn) (Some item) counts "" "") ;;; cleanup_item jn item.
Definition errFinalizeFailedOver : err := ErrOther "finalization fell back to failed".
Definition handleCancelled (jn : JobNet) (params : jobExecutionParams) : M JWorld unit :=
  let item := jp_jobItem params in
  r <- try (on_jdb (UpdateCancelledStatus (seconds jn) (jn_status jn) (Some item) (jp_requestCounts params) "" "")) ;;
  match r with
  | Ok _ => cleanup_item jn item
  | Err _ =>
      on_jdb (UpdateFailedStatus (seconds jn) (jn_fallback jn) (Some item) (jp_requestCounts params) "" "") ;;;
      cleanup_item jn item ;;; throw errFinalizeFailedOver
  end.
(** No write to the store. *)
Definition handleOwnershipLost (jn : JobNet) (params : jobExecutionParams) : M JWorld unit :=
  cleanup_item jn (jp_jobItem params).

Definition finalize_as (jn : JobNet) (params : jobExecutionParams) (status : BatchStatus) (code : string)
    (expected : BatchStatus) : M JWorld BatchItem :=
  on_p (finalizeResumableAs sha256hex uuidSHA1 errLine defaultExp processorID (jn_fin jn) (jn_now jn) (jn_fuel jn)
          (jp_jobItem params) (ji_JobID (jp_jobInfo params)) (ji_TenantID (jp_jobInfo params)) status code expected).
Definition finalizeResumableTerminal (jn : JobNet) (params : jobExecutionParams) (status : BatchStatus) (code : string)
    (expected : BatchStatus) : M JWorld unit :=
  finalize_as jn params status code expected ;;; cleanup_item jn (jp_jobItem params).

Definition handlePanicRecovery (jn : JobNet) (params : jobExecutionParams) (counts : option BatchRequestCounts) : M JWorld unit :=
  if bool_decide (is_Some (jp_resultSink params)) || resumed params then ret tt
  else ignore (handleFailed jn (jn_status jn) (jp_jobItem params) counts).

Definition handleJobError (jn : JobNet) (params : jobExecutionParams) (e : err) : M JWorld unit :=
  if bool_decide (is_Some (jp_resultSink params)) || resumed params then
    if bool_decide (e = ErrCancelled)
    then ignore (finalizeResumableTerminal jn params BatchStatusCancelled "batch_cancelled" BatchStatusCancelling)
    else if bool_decide (e = ErrExpired)
    then ignore (finalizeResumableTerminal jn params BatchStatusExpired "batch_expired" BatchStatusInProgress)
    else if bool_decide (e = ErrShutdown) then ret tt
    else ignore (finalizeResumableTerminal jn params BatchStatusFailed "batch_failed" BatchStatusInProgress)
  else
    if bool_decide (e = ErrCancelled) then ignore (handleCancelled jn params)
    else if bool_decide (e = ErrExpired) then ignore (handleExpired jn (jp_jobItem params) (jp_requestCounts params))
    else if bool_decide (e = ErrShutdown) then ret tt
    else ignore (handleFailed jn (jn_status jn) (jp_jobItem params) (jp_requestCounts params)).

(** ** Pickup of a requeued batch *)
Definition pickup_route (now : Z) (params : jobExecutionParams) : option (BatchStatus * string) :=
  if bool_decide (getJobStatus (jp_jobItem params) = BatchStatusCancelling)
  then Some (BatchStatusCancelled, "batch_cancelled")
  else if IsJobExpired now (match jp_task params with Some t => bj_SLO t | None => None end)
  then Some (BatchStatusExpired, "batch_expired")
  else if maxRecoveryAttempts <? r_attempts (bi_row (jp_jobItem params))
  then Some (BatchStatusFailed, "batch_failed")
  else None.
Definition routeResumedPickup (jn : JobNet) (params : jobExecutionParams) : M JWorld bool :=
  match pickup_route (jn_now jn) params with
  | None => ret false
  | Some (status, code) =>
      ignore (finalizeResumableTerminal jn params status code (getJobStatus (jp_jobItem params))) ;;; ret true
  end.

(** ** [runJob] *)

(** What the phases of one run return and what happens around them. *)
Record Phases := {
  ph_watcher_ok : bool;
  ph_ingest : result requestManifest;
  ph_exec_counts : option BatchRequestCounts; ph_exec_err : option err;
  ph_cause : AbortCause; ph_cause_final : AbortCause;
  ph_env : nat → list Stmt }.

Definition requeue_resumable (jn : JobNet) (id proc : string) (epoch : Z) (bump : bool) : M JWorld unit :=
  on_jdb (RequeueResumableOrphan (jn_now jn) (jn_requeue jn).1 (jn_requeue jn).2 id proc epoch false bump).

(** The event watcher failed: the job goes back to the queue. *)
Definition no_watcher (jn : JobNet) (params : jobExecutionParams) : M JWorld unit :=
  match jp_task params with
  | None => ret tt
  | Some task =>
      if bj_Resumable task then
        ignore (requeue_resumable jn (bj_ID task) (default "" (r_processor (bi_row (jp_jobItem params))))
                  (r_epoch (bi_row (jp_jobItem params))) true)
      else
        r <- try (enqueueOne (jn_enqueue jn) (Some task)) ;;
        match r with
        | Ok _ => ret tt
        | Err _ => ignore (handleFailed jn (jn_status jn) (jp_jobItem params) None)
        end
  end.

(** Activation of a fresh batch, or the resume seed of a requeued one. *)
Definition take_ownership (jn : JobNet) (params : jobExecutionParams) (manifest : requestManifest)
    : M JWorld (batchResultStore * option ResumableResumeState) :=
  let item := jp_jobItem params in
  let info := jp_jobInfo params in
  if resumed params then
    r <- on_jdb (recoverResumable sha256hex (jn_fuel jn) (jn_pages jn) (ji_JobID info) (ji_TenantID info) processorID
                   (r_epoch (bi_row item)) manifest) ;;
    ret (r.1, Some r.2)
  else
    sink <- on_p (on_world (activateResumable sha256hex (jn_now jn) leaseDuration (jn_rejected jn) (jn_activate jn)
                    (ji_JobID info) (ji_TenantID info) (default "" (r_processor (bi_row item))) processorID
                    (r_epoch (bi_row item)) manifest)) ;;
    ret (sink, None).

Definition activation_failed (jn : JobNet) (params : jobExecutionParams) (e : err) : M JWorld unit :=
  if bool_decide (e = ErrConflict) then handleOwnershipLost jn params
  else if resumed params
  then ignore (finalize_as jn params BatchStatusFailed "batch_failed" (getJobStatus (jp_jobItem params)))
  else ignore (handleFailed jn (jn_status jn) (jp_jobItem params) None).

Definition refresh_status (jn : JobNet) (params : jobExecutionParams) : M JWorld jobExecutionParams :=
  r <- try (fetchJobItemByID (jn_fetch jn) (bi_ID (jp_jobItem params))) ;;
  match r with
  | Ok (Some fresh) =>
      ret (set_item {| bi_ID := bi_ID (jp_jobItem params);
                       bi_row := set_r_status (r_status (bi_row fresh)) (bi_row (jp_jobItem params));
                       bi_BumpEpoch := bi_BumpEpoch (jp_jobItem params);
                       bi_ExpectedResumable := bi_ExpectedResumable (jp_jobItem params) |} params)
  | _ => ret params
  end.

Definition finalize_job (jn : JobNet) (params : jobExecutionParams) (c : AbortCause) : M JWorld unit :=
  r <- try (on_p (finalizeResumableJob sha256hex uuidSHA1 errLine defaultExp processorID (jn_fin jn) (jn_now jn)
                    (jn_fuel jn) (bool_decide (c = CauseCancelled)) (jp_jobItem params) (ji_JobID (jp_jobInfo params))
                    (ji_TenantID (jp_jobInfo params)))) ;;
  match r with
  | Ok _ => cleanup_item jn (jp_jobItem params)
  | Err e => if bool_decide (e = ErrConflict) then handleOwnershipLost jn params
             else if bool_decide (e = ErrCancelled) then cleanup_item jn (jp_jobItem params)
             else ret tt
  end.

(** After [executeJob] returned. *)
Definition after_execution (jn : JobNet) (ph : Phases) (params : jobExecutionParams) : M JWorld unit :=
  if (negb (bool_decide (ph_cause ph = NotAborted)) && bool_decide (Cause (ph_cause ph) = None))
     || bool_decide (ph_exec_err ph = Some ErrConflict)
  then handleOwnershipLost jn params
  else match ph_exec_err ph with
       | Some e => handleJobError jn params e
       | None => finalize_job jn params (ph_cause_final ph)
       end.

Definition runJob_body (jn : JobNet) (ph : Phases) (params : jobExecutionParams) : M JWorld unit :=
  stop <- (if resumed params then routeResumedPickup jn params else ret false) ;;
  if (stop : bool) then ret tt
  else if negb (ph_watcher_ok ph) then no_watcher jn params
  else
    interleave (ph_env ph 0) ;;;
    match ph_ingest ph with
    | Err e => handleJobError jn params e
    | Ok manifest =>
        r <- try (take_ownership jn params manifest) ;;
        match r with
        | Err e => activation_failed jn params e
        | Ok (sink, seed) =>
            let params := set_sink sink seed params in
            interleave (ph_env ph 1) ;;;
            params <- refresh_status jn params ;;
            interleave (ph_env ph 2) ;;;
            after_execution jn ph (set_counts (ph_exec_counts ph) params)
        end
    end.
(** The deferred release of the worker token runs on every path. *)
Definition runJob (jn : JobNet) (ph : Phases) (params : jobExecutionParams) : M JWorld unit :=
  ignore (runJob_body jn ph params) ;;; release.

(** ** Startup recovery ([recovery.go]) *)
Definition recoverWithFailed (jn : JobNet) (item : BatchItem) (counts : option BatchRequestCounts) : M JWorld unit :=
  on_jdb (UpdateFailedStatus (seconds jn) (jn_fallback jn) (Some item) counts "" "") ;;; cleanup_item jn item.

(** The failure carries the counts of a partial result. *)
Definition recoverExpired (jn : JobNet) (item : BatchItem) : M JWorld (result unit * option BatchRequestCounts) :=
  let counts := extractRequestCounts item in
  r <- try (on_jdb (UpdateExpiredStatus (seconds jn) (jn_status jn) (Some item) counts "" "")) ;;
  match r with Ok _ => ret (Ok tt, counts) | Err e => ret (Err e, counts) end.

Definition recoverReEnqueue (jn : JobNet) (item : BatchItem) (info : JobInfo) (resetToValidating : bool)
    : M JWorld (result unit * option BatchRequestCounts) :=
  match extractRecoverySLO item info with
  | None => ret (Err (ErrOther "failed to recover SLO"), None)
  | Some slo =>
      if slo <? jn_now jn then recoverExpired jn item
      else
        r <- (if resetToValidating
              then try (on_jdb (UpdatePersistentStatus (seconds jn) (jn_status jn) (Some item) BatchStatusValidating None
                                  (Some (slo / 1000000)) (λ i, i)))
              else ret (Ok item)) ;;
        match r with
        | Err e => ret (Err e, None)
        | Ok item =>
            match buildRecoveryTask item (Some slo) BatchStatusValidating with
            | Err e => ret (Err e, None)
            | Ok task => q <- try (enqueueOne (jn_enqueue jn) (Some task)) ;; ret (q, None)
            end
        end
  end.

Definition recoverJobOnce (jn : JobNet) (jobID : string) : M JWorld unit :=
  found <- fetchJobItemByID (jn_fetch jn) jobID ;;
  match found with
  | None => cleanupStaleJobDir jn jobID
  | Some item =>
      match FromDBItemToJobInfoObject item with
      | Err _ => recoverWithFailed jn item None
      | Ok info =>
          let status := Status (b_StatusInfo (ji_BatchJob info)) in
          if bool_decide (status = BatchStatusValidating) then
            r <- recoverReEnqueue jn item info false ;;
            match r with
            | (Err _, counts) => recoverWithFailed jn item counts
            | (Ok _, _) => cleanup_item jn item
            end
          else if bool_decide (status = BatchStatusInProgress) || bool_decide (status = BatchStatusFinalizing)
                  || bool_decide (status = BatchStatusCancelling)
          then recoverWithFailed jn item None
          else if IsTerminal status then cleanup_item jn item
          else recoverWithFailed jn item None
      end
  end.

(** One retry after a conflict, with the calls of [jn2]. *)
Definition recoverJob (jn jn2 : JobNet) (jobID : string) : M JWorld unit :=
  r <- try (recoverJobOnce jn jobID) ;;
  match r with
  | Ok _ => ret tt
  | Err e => if bool_decide (e = ErrConflict) then recoverJobOnce jn2 jobID else throw e
  end.

Definition recoverExhausted (jn : JobNet) (jobID : string) : M JWorld unit :=
  found <- fetchJobItemByID (jn_fetch jn) jobID ;;
  match found with None => ret tt | Some item => recoverWithFailed jn item None end.

Definition recoverResumableOwned (jn : JobNet) (task : BatchJobPriority) : M JWorld unit :=
  found <- fetchJobItemByID (jn_fetch jn) (bj_ID task) ;;
  match found with
  | None => cleanupStaleJobDir jn (bj_ID task)
  | Some item => requeue_resumable jn (bj_ID task) (default "" (r_processor (bi_row item))) (r_epoch (bi_row item)) false
  end.

(** One claimed job; only a failed requeue of a resumable one is reported. *)
Definition recoverTask (jn jn2 : JobNet) (task : BatchJobPriority) : M JWorld unit :=
  if bj_Resumable task then recoverResumableOwned jn task
  else if maxRecoveryAttempts <? bj_RecoveryAttempts task then ignore (recoverExhausted jn (bj_ID task))
  else ignore (recoverJob jn jn2 (bj_ID task)).

(** The error group runs every task, in some order, and reports one error. *)
Fixpoint recover_tasks (nets : string → JobNet * JobNet) (tasks : list BatchJobPriority) : M JWorld unit :=
  match tasks with
  | [] => ret tt
  | task :: rest =>
      r <- try (recoverTask (nets (bj_ID task)).1 (nets (bj_ID task)).2 task) ;;
      q <- try (recover_tasks nets rest) ;;
      match r, q with Err e, _ => throw e | Ok _, Err e => throw e | Ok _, Ok _ => ret tt end
  end.
(** [order] is the order in which the tasks run. *)
Definition recoverOwnedJobs (n : net) (order : list BatchJobPriority → list BatchJobPriority)
    (nets : string → JobNet * JobNet) : M JWorld unit :=
  tasks <- claimOwned n ;; recover_tasks nets (order tasks).

(** ** One round of the polling loop ([worker.go]) *)
Inductive PollOutcome := PollReturn | PollContinue | PollLaunch (params : jobExecutionParams).

Record PollNet := {
  pn_acquired : bool; pn_locked : gset string; pn_dequeue : net; pn_waited : bool; pn_stopped : bool; pn_job : JobNet }.

Definition acquire (ok : bool) : M JWorld bool := λ s,
  if ok then ({| jw := jw s; jw_dirs := jw_dirs s; jw_tokens := jw_tokens s + 1 |}, Ok true) else (s, Ok false).

(** The checks of a fresh, non-resumable job before it is launched. *)
Definition fresh_checks (jn : JobNet) (task : BatchJobPriority) (item : BatchItem) (info : JobInfo) : M JWorld (option PollOutcome) :=
  if IsJobExpired (jn_now jn) (bj_SLO task) then
    ignore (on_jdb (UpdatePersistentStatus (seconds jn) (jn_status jn) (Some item) BatchStatusExpired None None (λ i, i))) ;;;
    release ;;; ret (Some PollContinue)
  else if negb (IsJobRunnable (Status (b_StatusInfo (ji_BatchJob info)))) then
    (if bool_decide (Status (b_StatusInfo (ji_BatchJob info)) = BatchStatusCancelling)
     then ignore (on_jdb (UpdateCancelledStatus (seconds jn) (jn_status jn) (Some item) None "" ""))
     else ret tt) ;;;
    release ;;; ret (Some PollContinue)
  else ret None.

(** The polling context ended between dequeue and launch. *)
Definition guard_requeue (jn : JobNet) (task : BatchJobPriority) (item : BatchItem) : M JWorld unit :=
  if bj_Resumable task then ignore (requeue_resumable jn (bj_ID task) processorID (bj_Epoch task) true)
  else
    r <- try (enqueueOne (jn_enqueue jn) (Some task)) ;;
    match r with
    | Ok _ => ret tt
    | Err _ => ignore (handleFailed jn (jn_status jn) item None)
    end.

Definition launch_params (item : BatchItem) (info : JobInfo) (task : BatchJobPriority) : jobExecutionParams :=
  {| jp_jobItem := item; jp_jobInfo := info; jp_task := Some task; jp_resultSink := None; jp_resumeSeed := None;
     jp_requestCounts := None |}.

Definition poll_job (pn : PollNet) (task : BatchJobPriority) : M JWorld PollOutcome :=
  let jn := pn_job pn in
  r <- try (fetchJobItemByID (jn_fetch jn) (bj_ID task)) ;;
  match r with
  | Err _ => release ;;; ignore (enqueueOne (jn_enqueue jn) (Some task)) ;;; ret PollContinue
  | Ok None => release ;;; ret PollContinue
  | Ok (Some item) =>
      match FromDBItemToJobInfoObject item with
      | Err _ => release ;;; ignore (handleFailed jn (jn_status jn) item None) ;;; ret PollContinue
      | Ok info =>
          checked <- (if bj_Resumable task then ret None else fresh_checks jn task item info) ;;
          match (checked : option PollOutcome) with
          | Some out => ret out
          | None => if pn_stopped pn then release ;;; guard_requeue jn task item ;;; ret PollReturn
                    else ret (PollLaunch (launch_params item info task))
          end
      end
  end.

Definition poll_round (pn : PollNet) : M JWorld PollOutcome :=
  got <- acquire (pn_acquired pn) ;;
  if negb got then ret PollReturn
  else
    r <- try (dequeueOne (jn_now (pn_job pn)) (pn_dequeue pn) (pn_locked pn) leaseDuration) ;;
    match r with
    | Ok (Some task) => poll_job pn task
    | _ => release ;;; ret (if pn_waited pn then PollContinue else PollReturn)
    end.

End JobRunner.
