(* ===== verification/Handover.v ===== *)
(** * Ownership through a job's run

    Theorems about [JobRunner]: a processor that lost a batch writes nothing
    more to the store, terminal writes of durable batches are fenced, worker
    tokens balance, and startup recovery gives jobs back. *)

From Stdlib Require Import ZArith Lia Ascii String.
From stdpp Require Import base gmap strings list sorting pretty.
From S2P Require Import Prelude Openai Store StoreOps Ownership Fencing Lifecycle Examples Planner Preprocess.
From S2P Require Import Files ResultStore Entries Finalizer Assembly JobRunner.
Local Open Scope string_scope.
Local Open Scope Z_scope.

(** ** Operations that leave the store alone *)

(** Artifact work never touches the database. *)
Definition dbpure {A} (m : M PWorld A) : Prop := ∀ s, w_db (pw (m s).1) = w_db (pw s).

Lemma dbpure_ret {A} (a : A) : dbpure (ret a).
Proof. done. Qed.
Lemma dbpure_throw {A} e : dbpure (throw e : M PWorld A).
Proof. done. Qed.
Lemma dbpure_bind {A B} (m : M PWorld A) (k : A → M PWorld B) : dbpure m → (∀ a, dbpure (k a)) → dbpure (bindM m k).
Proof.
  intros Hm Hk s. unfold bindM. specialize (Hm s). destruct (m s) as [s1 [a|e]]; [|done].
  by rewrite (Hk a s1).
Qed.
Lemma dbpure_try {A} (m : M PWorld A) : dbpure m → dbpure (try m).
Proof. intros Hm s. unfold try. specialize (Hm s). by destruct (m s). Qed.
Lemma dbpure_fs {A} (m : M FileStore A) : dbpure (on_world (on_fs m)).
Proof. intros s. unfold on_world, on_fs. by destruct (m _). Qed.
Lemma dbpure_list n b o l : dbpure (on_world (on_db (ListBatchEntries n b o l))).
Proof.
  intros s. unfold on_world, on_db, ListBatchEntries. destruct (l =? 0)%nat; [done|].
  unfold query, exec. by destruct n as [|[]].
Qed.
Create HintDb dbpure.
#[export] Hint Resolve dbpure_ret dbpure_throw dbpure_bind dbpure_try dbpure_fs dbpure_list : dbpure.

Section Pure.
Context (sha256hex : bytes → string) (uuidSHA1 : string → string).
Context (errLine : string → string → string → string → bytes).

Lemma dbpure_storeFileRecord d now n f name t z tags : dbpure (storeFileRecord d now n f name t z tags).
Proof. intros s. unfold storeFileRecord. destruct (pw_files s !! f); [done|]. by destruct n as [|[]]. Qed.
Lemma dbpure_ensureFileRecord d now n1 n2 f name t z tags : dbpure (ensureFileRecord d now n1 n2 f name t z tags).
Proof.
  apply dbpure_bind; [apply dbpure_try, dbpure_storeFileRecord|]. intros [[]|e]; [done|]. intros s.
  destruct n2; [|done]. destruct (pw_files s !! f); [|done]. by destruct (file_matches _ _ _ _).
Qed.
Lemma dbpure_ensure n folder w : dbpure (ensure n folder w).
Proof.
  unfold ensure. destruct (_ && _); [|done]. apply dbpure_bind; [auto with dbpure|].
  intros [sw|e]; [done|]. by case_bool_decide.
Qed.
Lemma dbpure_writeResult fn folder q l w : dbpure (writeResult fn folder q l w).
Proof. apply dbpure_bind; [apply dbpure_ensure|]. intros w1. by destruct (fn_write _ _ _). Qed.
Lemma dbpure_fetchResult fn folder e : dbpure (fetchResult sha256hex fn folder e).
Proof. apply dbpure_bind; [auto with dbpure|]. intros r. cbv zeta. destruct (negb (_ =? _)); [done|]. by destruct (negb (bool_decide _)). Qed.
Lemma dbpure_fetch_page fn folder es : dbpure (fetch_page sha256hex fn folder es).
Proof.
  induction es as [|e es IH]; cbn [fetch_page]; [done|]. destruct (entry_terminal _).
  - apply dbpure_bind; [apply dbpure_fetchResult|]. intros. apply dbpure_bind; [done|]. auto with dbpure.
  - apply dbpure_bind; [done|]. auto with dbpure.
Qed.
Lemma dbpure_assemble_entry fn folder code st e b : dbpure (assemble_entry errLine fn folder code st e b).
Proof.
  unfold assemble_entry. destruct (re_Status e); try case_bool_decide;
    solve [apply dbpure_throw | apply dbpure_bind; [apply dbpure_writeResult|auto with dbpure]].
Qed.
Lemma dbpure_assemble_page fn folder code st es bs : dbpure (assemble_page errLine fn folder code st es bs).
Proof.
  revert st bs. induction es as [|e es IH]; intros st [|b bs]; cbn [assemble_page]; try done.
  apply dbpure_bind; [apply dbpure_assemble_entry|]. auto.
Qed.
Lemma dbpure_assemble_loop fn ps fuel folder code job after st :
  dbpure (assemble_loop sha256hex errLine fn ps fuel folder code job after st).
Proof.
  revert after st. induction fuel as [|fuel IH]; intros after st; cbn [assemble_loop]; [done|].
  apply dbpure_bind; [auto with dbpure|]. intros es. destruct (last es); [|done].
  apply dbpure_bind; [apply dbpure_fetch_page|]. intros bufs.
  apply dbpure_bind; [apply dbpure_assemble_page|]. intros st'. destruct (_ <? _)%nat; [done|apply IH].
Qed.
Lemma dbpure_commit d fn now folder name t tags w : dbpure (commit sha256hex d fn now folder name t tags w).
Proof.
  unfold commit. destruct (fn_record _ _) as [n1 n2]. destruct (aw_existing w).
  - apply dbpure_bind.
    + apply dbpure_bind; [auto with dbpure|]. intros r. by destruct (_ || _).
    + intros _. apply dbpure_bind; [apply dbpure_ensureFileRecord|]. done.
  - destruct (aw_writer w); [|done]. apply dbpure_bind; [auto with dbpure|]. intros md.
    apply dbpure_bind; [apply dbpure_ensureFileRecord|]. done.
Qed.
Lemma dbpure_assemble d fn now fuel job tenant tags code :
  dbpure (assembleResumableArtifacts sha256hex uuidSHA1 errLine d fn now fuel job tenant tags code).
Proof.
  unfold assembleResumableArtifacts. destruct (GetFolderNameByTenantID _ _); [|done].
  apply dbpure_bind; [apply dbpure_assemble_loop|]. intros st.
  apply dbpure_bind; [apply dbpure_commit|]. intros o. apply dbpure_bind; [apply dbpure_commit|]. done.
Qed.
Lemma dbpure_purge failed job tenant : dbpure (purgeResultObjects sha256hex failed job tenant).
Proof.
  unfold purgeResultObjects. destruct (GetFolderNameByTenantID _ _); [|done].
  apply dbpure_bind; [auto with dbpure|]. done.
Qed.
End Pure.

(** ** A batch that moved on *)

(** The epoch of batch [b] has passed [e]. *)
Definition stale_at (b : string) (e : Z) (db : DB) : Prop := ∃ r, items db !! b = Some r ∧ e < r_epoch r.

(** Whatever its calls return, [m] changes nothing for a stale owner. *)
Definition quiet {A} (b : string) (e : Z) (m : M JWorld A) : Prop := ∀ s, stale_at b e (jdb s) → jdb (m s).1 = jdb s.
Definition quiet_db {A} (b : string) (e : Z) (m : M DB A) : Prop := ∀ db, stale_at b e db → (m db).1 = db.

Section Quiet.
Context (b : string) (e : Z).

Lemma quiet_ret {A} (a : A) : quiet b e (ret a).
Proof. done. Qed.
Lemma quiet_throw {A} x : quiet b e (throw x : M JWorld A).
Proof. done. Qed.
Lemma quiet_bind {A B} (m : M JWorld A) (k : A → M JWorld B) : quiet b e m → (∀ a, quiet b e (k a)) → quiet b e (bindM m k).
Proof.
  intros Hm Hk s Hs. unfold bindM. specialize (Hm s Hs). destruct (m s) as [s1 [a|x]]; cbn in *; [|done].
  rewrite (Hk a s1); [done|]. by rewrite Hm.
Qed.
Lemma quiet_try {A} (m : M JWorld A) : quiet b e m → quiet b e (try m).
Proof. intros Hm s Hs. unfold try. specialize (Hm s Hs). by destruct (m s). Qed.
Lemma quiet_ignore {A} (m : M JWorld A) : quiet b e m → quiet b e (ignore m).
Proof. intros Hm. by apply quiet_bind; [apply quiet_try|]. Qed.
Lemma quiet_on_jdb {A} (m : M DB A) : quiet_db b e m → quiet b e (on_jdb m).
Proof.
  intros Hm s Hs. unfold on_jdb, on_p, on_world, on_db, jdb in *. specialize (Hm _ Hs). by destruct (m _).
Qed.
Lemma quiet_db_bind {A B} (m : M DB A) (k : A → M DB B) : quiet_db b e m → (∀ a, quiet_db b e (k a)) → quiet_db b e (bindM m k).
Proof.
  intros Hm Hk db Hs. unfold bindM. specialize (Hm db Hs). destruct (m db) as [db1 [a|x]]; cbn in *; subst; [by apply Hk|done].
Qed.
Lemma quiet_db_ret {A} (a : A) : quiet_db b e (ret a).
Proof. done. Qed.
Lemma quiet_db_throw {A} x : quiet_db b e (throw x : M DB A).
Proof. done. Qed.
Lemma quiet_db_query {A} n (f : DB → A) : quiet_db b e (query n f).
Proof. intros db _. unfold query, exec. by destruct n as [|[]]. Qed.
(** A statement whose guard names the epoch. *)
Lemma quiet_db_update n g f :
  (∀ r, e < r_epoch r → g r = false) → quiet_db b e (exec n (total (update_row g f b))).
Proof.
  intros Hg db (r & Hr & He). unfold exec, total. rewrite (update_row_refused _ _ _ _ r) by auto. by destruct n as [|[]].
Qed.
Lemma quiet_db_exec_pure {A} n (f : DB → DB * result A) :
  (∀ db, stale_at b e db → (f db).1 = db) → quiet_db b e (exec n f).
Proof. intros Hf db Hs. unfold exec. specialize (Hf db Hs). destruct (f db) as [db' r]. cbn in Hf. subst. by destruct n as [|[]]. Qed.

Lemma quiet_update n item exp :
  bi_ID item = b → r_epoch (bi_row item) = e → 0 < e → quiet_db b e (DBUpdate n (Some item) exp).
Proof.
  intros Hid He Hpos. unfold DBUpdate. rewrite Hid, He. case_bool_decide; [done|].
  replace (0 <? e) with true by (symmetry; by apply Z.ltb_lt). cbn [orb]. destruct (_ && _); [done|].
  apply quiet_db_bind.
  - apply quiet_db_update. intros r Hr. unfold update_guard. cbn [uc_epoch uc_status uc_resumable].
    replace (r_epoch r =? e) with false by (symmetry; apply Z.eqb_neq; lia). by rewrite andb_false_r.
  - intros [|k]; [|done]. by destruct (_ && _).
Qed.
Lemma quiet_updatePersistentStatus now n item st c slo exp md :
  bi_ID item = b → r_epoch (bi_row item) = e → 0 < e → quiet_db b e (updatePersistentStatus now n (Some item) st c slo exp md).
Proof.
  intros Hid He Hpos. unfold updatePersistentStatus. destruct (BuildStatus _ _ _ _ _ _); [|done].
  apply quiet_db_bind; [by apply quiet_update|done].
Qed.
Lemma quiet_enqueue n j : bj_ID j = b → bj_Epoch j = e → quiet_db b e (PQEnqueue n (Some j)).
Proof.
  intros Hb He. unfold PQEnqueue. rewrite Hb, He. repeat (case_bool_decide; [done|]). destruct (_ <? 0); [done|].
  repeat (case_bool_decide; [done|]). apply quiet_db_bind; [|by intros []].
  apply quiet_db_update. intros r Hr. by rewrite owner_is_stale.
Qed.
Lemma quiet_requeue now n1 n2 p x u : quiet_db b e (RequeueResumableOrphan now n1 n2 b p e x u).
Proof.
  intros db (r & Hr & He). unfold RequeueResumableOrphan, bindM, exec, total, sql_requeue.
  rewrite (update_row_refused _ _ _ _ r) by (try done; by rewrite owner_is_stale). by destruct n1 as [|[]].
Qed.
Lemma quiet_finalize now n1 n2 fin :
  rf_BatchID fin = b → rf_Epoch fin = e → quiet_db b e (FinalizeResumableBatch now n1 n2 (Some fin)).
Proof.
  intros Hb He. unfold FinalizeResumableBatch, sql_finalize. rewrite Hb, He. destruct (_ || _); [done|]. destruct (rf_Status fin); [|done].
  case_bool_decide; [done|]. apply quiet_db_bind.
  - apply quiet_db_update. intros r Hr. by rewrite owner_is_stale.
  - intros [|k]; [|done]. apply quiet_db_bind; [apply quiet_db_query|]. intros c. by case_bool_decide.
Qed.
Lemma quiet_activate now n act :
  ra_BatchID act = b → ra_Epoch act = e → quiet_db b e (ActivateResumableBatch now n (Some act)).
Proof.
  intros Hb He. unfold ActivateResumableBatch. rewrite Hb. destruct (_ || _); [done|]. destruct (_ <=? 0); [done|].
  destruct (_ =? 0)%nat; [done|]. apply quiet_db_bind; [|by intros []].
  apply quiet_db_exec_pure. intros db (r & Hr & Hlt). unfold sql_activate. rewrite Hb, Hr.
  unfold activation_candidate. by rewrite He, owner_is_stale.
Qed.
End Quiet.
Create HintDb quiet.
#[export] Hint Resolve quiet_ret quiet_throw quiet_ignore quiet_try : quiet.

Section Runner.
Context (sha256hex : bytes → string) (uuidSHA1 : string → string).
Context (errLine : string → string → string → string → bytes).
Context (spec_ok : string → bool).
Context (defaultExp leaseDuration : Z) (processorID : string).

Lemma quiet_cleanup b e jn job tenant : quiet b e (cleanupJobArtifacts sha256hex jn job tenant).
Proof. intros s _. unfold cleanupJobArtifacts. destruct (GetFolderNameByTenantID _ _); [|done]. by destruct (jn_remove jn). Qed.
Lemma quiet_cleanup_item b e jn item : quiet b e (cleanup_item sha256hex jn item).
Proof. apply quiet_cleanup. Qed.
Lemma quiet_fetch b e n job : quiet b e (fetchJobItemByID n job).
Proof. apply quiet_on_jdb, quiet_db_query. Qed.
Lemma quiet_on_p {A} b e (m : M PWorld A) :
  (∀ s, stale_at b e (w_db (pw s)) → w_db (pw (m s).1) = w_db (pw s)) → quiet b e (on_p m).
Proof. intros Hm s Hs. unfold on_p, jdb in *. specialize (Hm _ Hs). by destruct (m _). Qed.

Section Item.
Context (b : string) (e : Z) (item : BatchItem) (Hid : bi_ID item = b) (He : r_epoch (bi_row item) = e) (Hpos : 0 < e).

Lemma quiet_failed jn n c : quiet b e (handleFailed sha256hex jn n item c).
Proof.
  apply quiet_bind; [|intros _; apply quiet_cleanup_item]. apply quiet_on_jdb.
  by apply quiet_updatePersistentStatus.
Qed.
Lemma quiet_expired jn c : quiet b e (handleExpired sha256hex jn item c).
Proof.
  apply quiet_bind; [|intros _; apply quiet_cleanup_item]. apply quiet_on_jdb.
  by apply quiet_updatePersistentStatus.
Qed.

Lemma finalizeResumableStatus_quiet fn now it expected terminal counts out errf s :
  bi_ID it = b → r_epoch (bi_row it) = e → stale_at b e (w_db (pw s)) →
  w_db (pw (finalizeResumableStatus sha256hex processorID fn now it expected terminal counts out errf s).1) = w_db (pw s).
Proof.
  intros Hi Hep Hs. unfold finalizeResumableStatus. destruct (BuildStatus _ _ _ _ _ _); [|done].
  unfold bindM at 1, on_world at 1, on_db.
  match goal with |- context [FinalizeResumableBatch ?n ?n1 ?n2 (Some ?f)] =>
    pose proof (quiet_finalize b e n n1 n2 f Hi Hep _ Hs) as Hq; destruct (FinalizeResumableBatch n n1 n2 (Some f) _) as [db1 [r|x]] end;
    cbn in Hq; subst; cbn; [|done].
  unfold bindM. pose proof (dbpure_purge sha256hex (fn_purge fn) (bi_ID it) (r_tenant (bi_row it))) as Hp.
  match goal with |- context [purgeResultObjects _ _ _ _ ?s] => specialize (Hp s) end.
  destruct (purgeResultObjects _ _ _ _ _) as [s2 [r2|x2]]; cbn in *; by rewrite Hp.
Qed.

Lemma finalizeResumableAs_quiet fn now fuel job tenant status code expected s :
  stale_at b e (w_db (pw s)) →
  w_db (pw (finalizeResumableAs sha256hex uuidSHA1 errLine defaultExp processorID fn now fuel item job tenant status code expected s).1)
  = w_db (pw s).
Proof.
  intros Hs. unfold finalizeResumableAs, bindM.
  match goal with |- context [assembleResumableArtifacts ?a1 ?a2 ?a3 ?a4 ?a5 ?a6 ?a7 ?a8 ?a9 ?a10 ?a11 s] =>
    pose proof (dbpure_assemble a1 a2 a3 a4 a5 a6 a7 a8 a9 a10 a11 s) as Hp end.
  destruct (assembleResumableArtifacts _ _ _ _ _ _ _ _ _ _ _ s) as [s1 [[[c o] f]|x]]; cbn in Hp |- *; [|done].
  rewrite (finalizeResumableStatus_quiet _ _ (expect_resumable item)); [done|done|done|by rewrite Hp].
Qed.

Lemma finalizeResumableJob_quiet fn now fuel cancelled job tenant s :
  stale_at b e (w_db (pw s)) →
  w_db (pw (finalizeResumableJob sha256hex uuidSHA1 errLine defaultExp processorID fn now fuel cancelled item job tenant s).1)
  = w_db (pw s).
Proof.
  intros Hs. unfold finalizeResumableJob, bindM at 1, on_world at 1, on_db.
  pose proof (quiet_updatePersistentStatus b e (now / 1000000) (fn_status fn) (expect_resumable item) BatchStatusFinalizing
    None None None (λ i, i) Hid He Hpos _ Hs) as Hq.
  unfold UpdatePersistentStatus. destruct (updatePersistentStatus _ _ _ _ _ _ _ _ _) as [db1 [it|x]] eqn:Hu; cbn in Hq; subst db1; [|done].
  assert (bi_ID it = b ∧ r_epoch (bi_row it) = e) as [Hi Hep].
  { unfold updatePersistentStatus in Hu. destruct (BuildStatus _ _ _ _ _ _) as [doc|]; [|done].
    apply bindM_ok in Hu as (db2 & u & _ & [= _ <-]). done. }
  unfold bindM at 1.
  match goal with |- context [assembleResumableArtifacts ?a1 ?a2 ?a3 ?a4 ?a5 ?a6 ?a7 ?a8 ?a9 ?a10 ?a11 ?s] =>
    pose proof (dbpure_assemble a1 a2 a3 a4 a5 a6 a7 a8 a9 a10 a11 s) as Hp; set (sx := s) in * end.
  destruct (assembleResumableArtifacts _ _ _ _ _ _ _ _ _ _ _ sx) as [s1 [[[c o] f]|x]]; cbn in Hp |- *; [|done].
  destruct cancelled.
  - unfold bindM.
    match goal with |- context [finalizeResumableStatus ?a1 ?a2 ?a3 ?a4 ?a5 ?a6 ?a7 ?a8 ?a9 ?a10 s1] =>
      pose proof (finalizeResumableStatus_quiet a3 a4 a5 a6 a7 a8 a9 a10 s1 Hi Hep ltac:(by rewrite Hp)) as Hf;
      destruct (finalizeResumableStatus a1 a2 a3 a4 a5 a6 a7 a8 a9 a10 s1) as [s2 [r2|x2]] end; cbn in *; congruence.
  - rewrite finalizeResumableStatus_quiet; [done..|by rewrite Hp].
Qed.
End Item.

(** The parameters of a run of batch [b] by an owner at epoch [e]. *)
Definition runs_at (b : string) (e : Z) (params : jobExecutionParams) : Prop :=
  bi_ID (jp_jobItem params) = b ∧ r_epoch (bi_row (jp_jobItem params)) = e ∧ 0 < e ∧
  ji_JobID (jp_jobInfo params) = b ∧
  (∀ t, jp_task params = Some t → bj_ID t = b ∧ bj_Epoch t = e).

Abbreviation run_job := (runJob sha256hex uuidSHA1 errLine defaultExp leaseDuration processorID).

(** Storing the objects of rejected lines is file work only. *)
Lemma verifyStored_db sink n key digest size w : w_db (verifyStored sha256hex sink n key digest size w).1 = w_db w.
Proof.
  unfold verifyStored, bindM, try, on_fs. destruct (FRetrieve _ _ _ _) as [fs [[d md]|x]]; cbn; [|done]. by destruct (negb _).
Qed.
Lemma putRejectedObject_db sink n1 n2 m w : w_db (putRejectedObject sha256hex sink n1 n2 m w).1 = w_db w.
Proof.
  unfold putRejectedObject, bindM, try, on_fs. destruct (FStore _ _ _ _ _ _ _) as [fs [md|x]]; cbn; [done|].
  destruct (negb _); [done|]. match goal with |- context [verifyStored _ ?s ?n ?k ?d ?z ?w] =>
    pose proof (verifyStored_db s n k d z w) as Hv; destruct (verifyStored sha256hex s n k d z w) as [w1 [[]|y]] end; done.
Qed.
Lemma putRejected_db sink nets ms w : w_db (putRejected sha256hex sink nets ms w).1 = w_db w.
Proof.
  revert w. induction ms as [|m ms IH]; intros w; cbn [putRejected]; [done|]. destruct (me_Rejected m); [|apply IH].
  destruct (nets _) as [n1 n2]. unfold bindM. pose proof (putRejectedObject_db sink n1 n2 m w) as Hw.
  destruct (putRejectedObject sha256hex sink n1 n2 m w) as [w1 [u|x]]; cbn in *; [by rewrite IH|done].
Qed.

Section Params.
Context (b : string) (e : Z) (params : jobExecutionParams) (Hat : runs_at b e params).

Lemma quiet_finalize_as jn st code exp :
  quiet b e (finalize_as sha256hex uuidSHA1 errLine defaultExp processorID jn params st code exp).
Proof.
  destruct Hat as (Hid & He & Hpos & _). apply quiet_on_p. intros s Hs. by apply (finalizeResumableAs_quiet b e).
Qed.
Lemma quiet_terminal jn st code exp :
  quiet b e (finalizeResumableTerminal sha256hex uuidSHA1 errLine defaultExp processorID jn params st code exp).
Proof. apply quiet_bind; [apply quiet_finalize_as|]. intros _. apply quiet_cleanup_item. Qed.
Lemma quiet_cancelled jn : quiet b e (handleCancelled sha256hex jn params).
Proof.
  destruct Hat as (Hid & He & Hpos & _). apply quiet_bind.
  - apply quiet_try, quiet_on_jdb. by apply quiet_updatePersistentStatus.
  - intros [i|x]; [apply quiet_cleanup_item|]. apply quiet_bind.
    + apply quiet_on_jdb. by apply quiet_updatePersistentStatus.
    + intros _. apply quiet_bind; [apply quiet_cleanup_item|]. auto with quiet.
Qed.
Lemma quiet_handleJobError jn x :
  quiet b e (handleJobError sha256hex uuidSHA1 errLine defaultExp processorID jn params x).
Proof.
  unfold handleJobError. destruct (_ || _); repeat (case_bool_decide); auto with quiet;
    apply quiet_ignore; first [apply quiet_terminal|apply quiet_cancelled|idtac].
  all: destruct Hat as (Hid & He & Hpos & _); first [by apply quiet_expired|by apply quiet_failed].
Qed.
Lemma quiet_pickup jn :
  quiet b e (routeResumedPickup sha256hex uuidSHA1 errLine defaultExp processorID jn params).
Proof.
  unfold routeResumedPickup. destruct (pickup_route _ _) as [[st code]|]; [|apply quiet_ret].
  apply quiet_bind; [apply quiet_ignore, quiet_terminal|auto with quiet].
Qed.
Lemma quiet_no_watcher jn : quiet b e (no_watcher sha256hex jn params).
Proof.
  destruct Hat as (Hid & He & Hpos & _ & Ht). unfold no_watcher. destruct (jp_task params) as [t|]; [|apply quiet_ret].
  destruct (Ht t eq_refl) as [Htid Hte]. destruct (bj_Resumable t).
  - apply quiet_ignore, quiet_on_jdb. rewrite Htid, He. apply quiet_requeue.
  - apply quiet_bind; [apply quiet_try, quiet_on_jdb; by apply quiet_enqueue|]. intros [u|x]; [apply quiet_ret|].
    apply quiet_ignore. by apply quiet_failed.
Qed.
Lemma quiet_take_ownership jn manifest : quiet b e (take_ownership sha256hex leaseDuration processorID jn params manifest).
Proof.
  destruct Hat as (Hid & He & Hpos & Hji & _). unfold take_ownership. destruct (resumed params).
  - apply quiet_bind; [|auto with quiet]. apply quiet_on_jdb. unfold recoverResumable. apply quiet_db_bind.
    + assert (∀ fuel after all, quiet_db b e (list_loop resumableEntriesPageSize fuel (jn_pages jn) (ji_JobID (jp_jobInfo params)) after all)) as H.
      { induction fuel as [|fuel IH]; intros after all; [done|]. cbn [list_loop]. apply quiet_db_bind; [apply quiet_db_query|].
        intros es. destruct (last es); [|done]. by destruct (_ <? _)%nat. }
      apply H.
    + intros es. destruct (checkManifestIntegrity _ _); [|done]. by destruct (newBatchResultStore _ _ _ _ _).
  - apply quiet_bind; [|auto with quiet]. apply quiet_on_p. intros [w files]. cbn [pw]. intros Hs.
    unfold on_world, activateResumable. destruct (newBatchResultStore _ _ _ _ _) as [sink|]; [|done]. cbn [pw].
    unfold bindM at 1. pose proof (putRejected_db sink (jn_rejected jn) manifest w) as Hput.
    destruct (putRejected _ _ _ _ w) as [w1 [u|x]]; cbn [fst] in Hput; [|done].
    unfold bindM, on_db. match goal with |- context [ActivateResumableBatch ?n ?n1 (Some ?a)] =>
      pose proof (quiet_activate b e n n1 a Hji He (w_db w1) ltac:(by rewrite Hput)) as Hq;
      destruct (ActivateResumableBatch n n1 (Some a) (w_db w1)) as [db1 [r|x]] end; cbn in *; congruence.
Qed.

Lemma quiet_activation_failed jn x :
  quiet b e (activation_failed sha256hex uuidSHA1 errLine defaultExp processorID jn params x).
Proof.
  unfold activation_failed. case_bool_decide; [apply quiet_cleanup_item|]. destruct (resumed params); apply quiet_ignore.
  - apply quiet_finalize_as.
  - destruct Hat as (Hid & He & Hpos & _). by apply quiet_failed.
Qed.
Lemma quiet_finalize_job jn c :
  quiet b e (finalize_job sha256hex uuidSHA1 errLine defaultExp processorID jn params c).
Proof.
  destruct Hat as (Hid & He & Hpos & _). apply quiet_bind.
  - apply quiet_try, quiet_on_p. intros s Hs. by apply (finalizeResumableJob_quiet b e).
  - intros [u|x]; [apply quiet_cleanup_item|]. repeat case_bool_decide; first [apply quiet_cleanup_item|apply quiet_ret].
Qed.
Lemma quiet_after_execution jn ph :
  quiet b e (after_execution sha256hex uuidSHA1 errLine defaultExp processorID jn ph params).
Proof.
  unfold after_execution. destruct (_ || _); [apply quiet_cleanup_item|].
  destruct (ph_exec_err ph); [apply quiet_handleJobError|apply quiet_finalize_job].
Qed.
End Params.

(** The statements of others in the first [k] waits of a run. *)
Definition env_upto (ph : Phases) (k : nat) : list Stmt := mjoin (ph_env ph <$> seq 0 k).

Lemma env_upto_S ph k db : run_all (env_upto ph (S k)) db = run_all (ph_env ph k) (run_all (env_upto ph k) db).
Proof.
  unfold env_upto. rewrite seq_S, fmap_app, join_app, run_all_app. cbn [fmap list_fmap Nat.add mjoin list_join].
  by rewrite app_nil_r.
Qed.
Lemma interleave_jdb ss s : ∃ s', interleave ss s = (s', Ok tt) ∧ jdb s' = run_all ss (jdb s).
Proof. by eexists. Qed.
Lemma stale_run_all ss b e db :
  Forall admissible ss → Forall (keeps b) ss → stale_at b e db → stale_at b e (run_all ss db).
Proof.
  intros Ha Hk (r & Hr & He). destruct (run_all_keeps ss db b Hk (mk_is_Some _ _ Hr)) as [r' Hr'].
  exists r'. split; [done|]. pose proof (epoch_monotone ss db b r r' Ha Hk Hr Hr'). lia.
Qed.
Lemma jdb_bind_quiet {A B} b e (m : M JWorld A) (k : A → M JWorld B) s P :
  quiet b e m → stale_at b e (jdb s) → P (jdb s) →
  (∀ a s1, jdb s1 = jdb s → m s = (s1, Ok a) → P (jdb (k a s1).1)) → P (jdb (bindM m k s).1).
Proof.
  intros Hm Hs HP Hk. unfold bindM. specialize (Hm s Hs). destruct (m s) as [s1 [a|x]]; cbn in Hm |- *; [auto|by rewrite Hm].
Qed.

Lemma refresh_params b e jn params s params' s' :
  runs_at b e params → refresh_status jn params s = (s', Ok params') → runs_at b e params'.
Proof.
  intros Hat Hr. unfold refresh_status in Hr. apply bindM_ok in Hr as (s1 & r & _ & Hr).
  destruct r as [[fresh|]|x]; injection Hr as <- <-; done.
Qed.
Lemma quiet_refresh b e jn params : quiet b e (refresh_status jn params).
Proof. apply quiet_bind; [apply quiet_try, quiet_fetch|]. by intros [[fresh|]|x]. Qed.

Lemma run_body_inert b e jn ph params s :
  runs_at b e params → stale_at b e (jdb s) →
  (∀ i, Forall admissible (ph_env ph i) ∧ Forall (keeps b) (ph_env ph i)) →
  ∃ k, jdb (runJob_body sha256hex uuidSHA1 errLine defaultExp leaseDuration processorID jn ph params s).1
       = run_all (env_upto ph k) (jdb s).
Proof.
  intros Hat Hs Henv. unfold runJob_body.
  assert (∀ k, stale_at b e (run_all (env_upto ph k) (jdb s))) as Hst.
  { intros k. apply stale_run_all; [| |done]; unfold env_upto; apply Forall_join, Forall_fmap, Forall_forall; cbn; intros; apply Henv. }
  set (P := λ db, ∃ k, db = run_all (env_upto ph k) (jdb s)).
  assert (P (jdb s)) as H0 by by exists 0%nat.
  apply (jdb_bind_quiet b e _ _ s P); [destruct (resumed params); [by apply quiet_pickup|apply quiet_ret]|done..|].
  intros stop s1 Hs1 _. destruct stop; [by rewrite <- Hs1 in H0|].
  destruct (negb _). { rewrite (quiet_no_watcher b e params Hat jn s1), Hs1; [done|by rewrite Hs1]. }
  unfold bindM at 1. destruct (interleave_jdb (ph_env ph 0) s1) as (s2 & -> & Hi).
  assert (jdb s2 = run_all (env_upto ph 1) (jdb s)) as H1 by by rewrite env_upto_S, Hi, Hs1.
  destruct (ph_ingest ph) as [manifest|x]; cycle 1.
  { rewrite (quiet_handleJobError b e params Hat jn x s2), H1; [by exists 1%nat|by rewrite H1]. }
  apply (jdb_bind_quiet b e _ _ s2 P); [apply quiet_try; by apply quiet_take_ownership|by rewrite H1|by exists 1%nat|].
  intros [[sink seed]|x] s3 Hs3 _; cycle 1.
  { rewrite (quiet_activation_failed b e params Hat jn x s3), Hs3, H1; [by exists 1%nat|by rewrite Hs3, H1]. }
  unfold bindM at 1. destruct (interleave_jdb (ph_env ph 1) s3) as (s4 & -> & Hi3).
  assert (jdb s4 = run_all (env_upto ph 2) (jdb s)) as H2.
  { by rewrite env_upto_S, Hi3, Hs3, H1. }
  apply (jdb_bind_quiet b e _ _ s4 P); [apply quiet_refresh|by rewrite H2|by exists 2%nat|].
  intros params' s5 Hs5 Hr. eapply (refresh_params b e) in Hr; [|by apply Hat].
  unfold bindM. destruct (interleave_jdb (ph_env ph 2) s5) as (s6 & -> & Hi5).
  assert (jdb s6 = run_all (env_upto ph 3) (jdb s)) as H3.
  { by rewrite env_upto_S, Hi5, Hs5, H2. }
  rewrite (quiet_after_execution b e (set_counts (ph_exec_counts ph) params') Hr jn ph s6), H3; [by exists 3%nat|by rewrite H3].
Qed.


(** ** Terminal writes are fenced *)
Lemma BuildStatus_status now job st c slo out errf doc :
  BuildStatus now job st c slo (withFileIDs out errf) = Ok doc → Status doc = st.
Proof.
  unfold BuildStatus. destruct job as [job|]; [|done]. destruct (r_status _) as [orig|]; [|done].
  destruct (BuildUpdatedStatusInfo _ _ _ _ _) as [u|] eqn:Hu; [|done]. intros [= <-].
  assert (Status u = st) as <-.
  { unfold BuildUpdatedStatusInfo in Hu. repeat (case_bool_decide; [subst; destruct c; by injection Hu as <-|]).
    case_bool_decide; [|done]. destruct slo; [|done]. subst. destruct c; by injection Hu as <-. }
  unfold withFileIDs. by repeat case_bool_decide.
Qed.

(** The fence of the terminal write. *)
Definition may_finalize (now : Z) (p : string) (e : Z) (expected : BatchStatus) (row : Row) : Prop :=
  owner_is p e row = true ∧ r_resumable row = true ∧ lease_valid now row = true ∧ status_is expected row = true.
(** [db'] is [db], or [db] with batch [b] finalized as [st] by its lease holder. *)
Definition unchanged_or_finalized (now : Z) (b : string) (e : Z) (st : BatchStatus) (db db' : DB) : Prop :=
  db' = db ∨ ∃ row doc expected, items db !! b = Some row ∧ may_finalize now processorID e expected row ∧
    Status doc = st ∧ db' = {| items := <[b := finalize_row doc row]> (items db); entries := entries db |}.
Definition has_status_doc (b : string) (st : BatchStatus) (db : DB) : Prop :=
  ∃ row doc, items db !! b = Some row ∧ r_status row = Some doc ∧ Status doc = st.

Lemma FinalizeResumableBatch_cases now n1 n2 fin doc db db' r :
  rf_ProcessorID fin = processorID → rf_Status fin = Some doc →
  FinalizeResumableBatch now n1 n2 (Some fin) db = (db', r) →
  unchanged_or_finalized now (rf_BatchID fin) (rf_Epoch fin) (Status doc) db db' ∧
  (r = Ok tt → has_status_doc (rf_BatchID fin) (Status doc) db').
Proof.
  intros Hp Hdoc. unfold FinalizeResumableBatch. rewrite Hdoc.
  destruct (_ || _); [intros [= <- <-]; by split; [left|]|].
  case_bool_decide; [intros [= <- <-]; by split; [left|]|].
  unfold bindM at 1, exec at 1, total, sql_finalize, update_row.
  destruct (items db !! rf_BatchID fin) as [row|] eqn:Hrow; [destruct (_ && _) eqn:Hg|].
  - assert (unchanged_or_finalized now (rf_BatchID fin) (rf_Epoch fin) (Status doc) db
      {| items := <[rf_BatchID fin := finalize_row doc row]> (items db); entries := entries db |}) as Hfin.
    { right. boolify. exists row, doc, (rf_ExpectedStatus fin). split_and!; try done. unfold may_finalize. by rewrite <- Hp. }
    destruct n1 as [|[]]; cbn; intros [= <- <-]; (split; [done || by left|]); try done.
    intros _. exists (finalize_row doc row), doc. cbn. by rewrite lookup_insert_eq.
  - destruct n1 as [|[]]; try (intros [= <- <-]; by split; [left|]).
    unfold bindM, query, exec. rewrite Hrow. destruct n2 as [|[]]; try (intros [= <- <-]; by split; [left|]).
    cbn. case_bool_decide; intros [= <- <-]; split; try (by left); try done. intros _. by exists row, doc.
  - destruct n1 as [|[]]; try (intros [= <- <-]; by split; [left|]).
    unfold bindM, query, exec. rewrite Hrow. destruct n2 as [|[]]; intros [= <- <-]; by split; [left|].
Qed.

Lemma finalizeResumableStatus_cases fn now it expected st counts out errf s s' r :
  finalizeResumableStatus sha256hex processorID fn now it expected st counts out errf s = (s', r) →
  unchanged_or_finalized now (bi_ID it) (r_epoch (bi_row it)) st (w_db (pw s)) (w_db (pw s')) ∧
  (is_ok r = true → has_status_doc (bi_ID it) st (w_db (pw s'))).
Proof.
  unfold finalizeResumableStatus. destruct (BuildStatus _ _ _ _ _ _) as [doc|] eqn:Hd; [|intros [= <- <-]; by split; [left|]].
  apply BuildStatus_status in Hd. unfold bindM at 1, on_world at 1, on_db.
  match goal with |- context [FinalizeResumableBatch ?n ?n1 ?n2 (Some ?f) ?d] =>
    destruct (FinalizeResumableBatch n n1 n2 (Some f) d) as [db1 [u|x]] eqn:Hf;
    destruct (FinalizeResumableBatch_cases n n1 n2 f doc d _ _ eq_refl eq_refl Hf) as [Hu Hok]; cbn [rf_BatchID rf_Epoch] in Hu, Hok end.
  all: rewrite Hd in *; cbn [pw w_db].
  - pose proof (dbpure_purge sha256hex (fn_purge fn) (bi_ID it) (r_tenant (bi_row it))) as Hp. unfold bindM.
    match goal with |- context [purgeResultObjects _ _ _ _ ?w] => specialize (Hp w) end.
    destruct (purgeResultObjects _ _ _ _ _) as [s2 [r2|x2]]; cbn in Hp; intros [= <- <-]; rewrite Hp;
      (split; [done|]); [intros _|done]. apply Hok. by destruct u.
  - intros [= <- <-]. done.
Qed.

Lemma finalize_as_cases jn params st code expected s s' r :
  finalize_as sha256hex uuidSHA1 errLine defaultExp processorID jn params st code expected s = (s', r) →
  unchanged_or_finalized (jn_now jn) (bi_ID (jp_jobItem params)) (r_epoch (bi_row (jp_jobItem params))) st (jdb s) (jdb s') ∧
  jw_dirs s' = jw_dirs s ∧ (is_ok r = true → has_status_doc (bi_ID (jp_jobItem params)) st (jdb s')).
Proof.
  unfold finalize_as, on_p, jdb. destruct (finalizeResumableAs _ _ _ _ _ _ _ _ _ _ _ _ _ _ _) as [w r'] eqn:Hf.
  intros [= <- <-]. cbn [jw jw_dirs]. unfold finalizeResumableAs, bindM in Hf.
  match type of Hf with context [assembleResumableArtifacts ?a1 ?a2 ?a3 ?a4 ?a5 ?a6 ?a7 ?a8 ?a9 ?a10 ?a11 ?s] =>
    pose proof (dbpure_assemble a1 a2 a3 a4 a5 a6 a7 a8 a9 a10 a11 s) as Hp end.
  destruct (assembleResumableArtifacts _ _ _ _ _ _ _ _ _ _ _ _) as [s1 [[[c o] f]|x]]; cbn in Hp.
  - apply finalizeResumableStatus_cases in Hf as [Hu Hok]. rewrite Hp in Hu. by split_and!.
  - injection Hf as <- <-. split_and!; [by left|done..].
Qed.

Lemma terminal_cases jn params st code expected s s' r :
  finalizeResumableTerminal sha256hex uuidSHA1 errLine defaultExp processorID jn params st code expected s = (s', r) →
  unchanged_or_finalized (jn_now jn) (bi_ID (jp_jobItem params)) (r_epoch (bi_row (jp_jobItem params))) st (jdb s) (jdb s') ∧
  (jw_dirs s' = jw_dirs s ∨ has_status_doc (bi_ID (jp_jobItem params)) st (jdb s')).
Proof.
  unfold finalizeResumableTerminal, bindM. destruct (finalize_as _ _ _ _ _ _ _ _ _ _ s) as [s1 [it|x]] eqn:Hf;
    apply finalize_as_cases in Hf as (Hu & Hd & Hok).
  - unfold cleanup_item, cleanupJobArtifacts. destruct (GetFolderNameByTenantID _ _); [destruct (jn_remove jn)|];
      intros [= <- <-]; (split; [done|]); [right; by apply Hok|by left..].
  - intros [= <- <-]. split; [done|by left].
Qed.

(** Errors of a durable batch never bypass the fence: for an activated or
    resumed batch, whatever went wrong and whatever its calls return,
    [handleJobError] either leaves the database alone or finalizes the row as
    the holder of a live lease at its own epoch with the status that matches
    the error; the local directory is removed only when the store holds that
    terminal status; and on shutdown nothing at all changes. *)
Theorem durable_error_is_fenced jn params x s :
  bool_decide (is_Some (jp_resultSink params)) || resumed params = true →
  let item := jp_jobItem params in
  let st := if bool_decide (x = ErrCancelled) then BatchStatusCancelled
            else if bool_decide (x = ErrExpired) then BatchStatusExpired else BatchStatusFailed in
  let s' := (handleJobError sha256hex uuidSHA1 errLine defaultExp processorID jn params x s).1 in
  unchanged_or_finalized (jn_now jn) (bi_ID item) (r_epoch (bi_row item)) st (jdb s) (jdb s') ∧
  (jw_dirs s' = jw_dirs s ∨ has_status_doc (bi_ID item) st (jdb s')) ∧
  (x = ErrShutdown → s' = s).
Proof.
  intros Hd. cbv zeta. unfold handleJobError. rewrite Hd.
  assert (∀ st code exp, let s' := (ignore (finalizeResumableTerminal sha256hex uuidSHA1 errLine defaultExp processorID jn params st code exp) s).1 in
    unchanged_or_finalized (jn_now jn) (bi_ID (jp_jobItem params)) (r_epoch (bi_row (jp_jobItem params))) st (jdb s) (jdb s') ∧
    (jw_dirs s' = jw_dirs s ∨ has_status_doc (bi_ID (jp_jobItem params)) st (jdb s'))) as Hall.
  { intros st code exp. unfold ignore, bindM, try.
    destruct (finalizeResumableTerminal _ _ _ _ _ _ _ _ _ _ s) as [s1 r1] eqn:Hf. by apply terminal_cases in Hf. }
  repeat case_bool_decide; subst; try done; try (split; [apply Hall|split; [apply Hall|intros ?; congruence]]).
  all: split; [by left|]; split; [by left|done].
Qed.

(** The pickup of a requeued batch decides by the row it read: a
    cancelling row is finalized as cancelled, else one past its deadline as
    expired, else one recovered more than [maxRecoveryAttempts] times as
    failed, each through the fence, and the run stops; in every other case
    nothing is changed and the run resumes. *)
Theorem pickup_routing jn params s :
  let item := jp_jobItem params in
  let cancelling := bool_decide (getJobStatus item = BatchStatusCancelling) in
  let expired := IsJobExpired (jn_now jn) (match jp_task params with Some t => bj_SLO t | None => None end) in
  let exhausted := 3 <? r_attempts (bi_row item) in
  let st := if cancelling then BatchStatusCancelled else if expired then BatchStatusExpired else BatchStatusFailed in
  ∃ s', routeResumedPickup sha256hex uuidSHA1 errLine defaultExp processorID jn params s
        = (s', Ok (cancelling || expired || exhausted)) ∧
    unchanged_or_finalized (jn_now jn) (bi_ID item) (r_epoch (bi_row item)) st (jdb s) (jdb s') ∧
    (cancelling || expired || exhausted = false → s' = s).
Proof.
  cbv zeta. unfold routeResumedPickup, pickup_route, maxRecoveryAttempts.
  assert (∀ st code exp, ∃ s', (ignore (finalizeResumableTerminal sha256hex uuidSHA1 errLine defaultExp processorID jn params st code exp)
      ;;; ret true) s = (s', Ok true) ∧
    unchanged_or_finalized (jn_now jn) (bi_ID (jp_jobItem params)) (r_epoch (bi_row (jp_jobItem params))) st (jdb s) (jdb s')) as Hall.
  { intros st code exp. unfold ignore, bindM, try.
    destruct (finalizeResumableTerminal _ _ _ _ _ _ _ _ _ _ s) as [s1 r1] eqn:Hf. exists s1. split; [done|].
    apply terminal_cases in Hf as [Hu _]. done. }
  destruct (bool_decide _); [|destruct (IsJobExpired _ _); [|destruct (3 <? _)]].
  1-3: edestruct Hall as (s' & Hr & Hu); exists s'; rewrite Hr; by split_and!.
  exists s. split_and!; [done|by left|done].
Qed.

(** ** Worker tokens *)
Definition tokens_const {A} (m : M JWorld A) : Prop := ∀ s, jw_tokens (m s).1 = jw_tokens s.
Lemma tokens_ret {A} (a : A) : tokens_const (ret a).
Proof. done. Qed.
Lemma tokens_bind {A B} (m : M JWorld A) (k : A → M JWorld B) : tokens_const m → (∀ a, tokens_const (k a)) → tokens_const (bindM m k).
Proof. intros Hm Hk s. unfold bindM. specialize (Hm s). destruct (m s) as [s1 [a|x]]; cbn in *; [by rewrite Hk|done]. Qed.
Lemma tokens_try {A} (m : M JWorld A) : tokens_const m → tokens_const (try m).
Proof. intros Hm s. unfold try. specialize (Hm s). by destruct (m s). Qed.
Lemma tokens_ignore {A} (m : M JWorld A) : tokens_const m → tokens_const (ignore m).
Proof. intros Hm. by apply tokens_bind; [apply tokens_try|]. Qed.
Lemma tokens_on_p {A} (m : M PWorld A) : tokens_const (on_p m).
Proof. intros s. unfold on_p. by destruct (m _). Qed.
Lemma tokens_cleanup jn item : tokens_const (cleanup_item sha256hex jn item).
Proof. intros s. unfold cleanup_item, cleanupJobArtifacts. destruct (GetFolderNameByTenantID _ _); [|done]. by destruct (jn_remove jn). Qed.
Lemma tokens_failed jn n item c : tokens_const (handleFailed sha256hex jn n item c).
Proof. apply tokens_bind; [apply tokens_on_p|intros; apply tokens_cleanup]. Qed.
Create HintDb tokens.
#[local] Hint Resolve tokens_ret tokens_bind tokens_try tokens_ignore tokens_on_p tokens_cleanup tokens_failed : tokens.

Lemma tokens_terminal jn params st code exp :
  tokens_const (finalizeResumableTerminal sha256hex uuidSHA1 errLine defaultExp processorID jn params st code exp).
Proof. apply tokens_bind; [apply tokens_on_p|intros; apply tokens_cleanup]. Qed.
Lemma tokens_handleJobError jn params x : tokens_const (handleJobError sha256hex uuidSHA1 errLine defaultExp processorID jn params x).
Proof.
  unfold handleJobError. destruct (_ || _); repeat case_bool_decide; auto with tokens; apply tokens_ignore;
    try apply tokens_terminal.
  - apply tokens_bind; [apply tokens_try, tokens_on_p|]. intros [i|y]; [apply tokens_cleanup|].
    apply tokens_bind; [apply tokens_on_p|intros]. apply tokens_bind; [apply tokens_cleanup|done].
  - apply tokens_bind; [apply tokens_on_p|intros; apply tokens_cleanup].
Qed.
Lemma tokens_enqueue n t : tokens_const (enqueueOne n t).
Proof. destruct t; [apply tokens_on_p|done]. Qed.
Lemma tokens_no_watcher jn params : tokens_const (no_watcher sha256hex jn params).
Proof.
  unfold no_watcher. destruct (jp_task params) as [t|]; [|done]. destruct (bj_Resumable t); [apply tokens_ignore, tokens_on_p|].
  apply tokens_bind; [apply tokens_try, tokens_enqueue|]. intros [u|x]; auto with tokens.
Qed.
Lemma tokens_take jn params ms : tokens_const (take_ownership sha256hex leaseDuration processorID jn params ms).
Proof. unfold take_ownership. destruct (resumed params); (apply tokens_bind; [apply tokens_on_p|done]). Qed.

Lemma tokens_body jn ph params :
  tokens_const (runJob_body sha256hex uuidSHA1 errLine defaultExp leaseDuration processorID jn ph params).
Proof.
  unfold runJob_body. apply tokens_bind.
  { destruct (resumed params); [|done]. unfold routeResumedPickup. destruct (pickup_route _ _) as [[st code]|]; [|done].
    apply tokens_bind; [apply tokens_ignore, tokens_terminal|done]. }
  intros [|]; [done|]. destruct (negb _); [apply tokens_no_watcher|]. apply tokens_bind; [apply tokens_on_p|]. intros _.
  destruct (ph_ingest ph); [|apply tokens_handleJobError]. apply tokens_bind; [apply tokens_try, tokens_take|].
  intros [[sink seed]|x].
  - apply tokens_bind; [apply tokens_on_p|]. intros _. apply tokens_bind.
    { apply tokens_bind; [apply tokens_try, tokens_on_p|]. by intros [[f|]|x]. }
    intros params'. apply tokens_bind; [apply tokens_on_p|]. intros _. unfold after_execution.
    destruct (_ || _); [apply tokens_cleanup|]. destruct (ph_exec_err ph); [apply tokens_handleJobError|].
    apply tokens_bind; [apply tokens_try, tokens_on_p|]. intros [u|x]; [apply tokens_cleanup|].
    repeat case_bool_decide; first [apply tokens_cleanup|done].
  - unfold activation_failed. case_bool_decide; [apply tokens_cleanup|]. destruct (resumed params); auto with tokens.
    apply tokens_ignore, tokens_on_p.
Qed.

Definition launched (r : result PollOutcome) : Z := match r with Ok (PollLaunch _) => 1 | _ => 0 end.

Lemma poll_job_tokens pn task s :
  let '(s', r) := poll_job sha256hex spec_ok processorID pn task s in
  jw_tokens s' = jw_tokens s - 1 + launched r.
Proof.
  unfold poll_job. unfold bindM at 1, try at 1.
  assert (jw_tokens (fetchJobItemByID (jn_fetch (pn_job pn)) (bj_ID task) s).1 = jw_tokens s) as Hf by apply tokens_on_p.
  destruct (fetchJobItemByID _ _ s) as [s1 r1]. cbn [fst] in Hf. rewrite <- Hf. clear Hf.
  assert (∀ A (m : M JWorld A) out, tokens_const m → launched (Ok out) = 0 →
    let '(s', r) := (release ;;; ignore m ;;; ret out) s1 in jw_tokens s' = jw_tokens s1 - 1 + launched r) as Hrel.
  { intros A m out Hm Ho. unfold release, ignore, bindM, try. specialize (Hm {| jw := jw s1; jw_dirs := jw_dirs s1; jw_tokens := jw_tokens s1 - 1 |}).
    destruct (m _) as [s2 r2]. cbn in *. rewrite Hm. lia. }
  destruct r1 as [[item|]|x]; [|cbn; lia|apply Hrel; [apply tokens_enqueue|done]].
  destruct (FromDBItemToJobInfoObject spec_ok item) as [info|y]; [|apply Hrel; [apply tokens_failed|done]].
  assert (∀ s2, let '(s', r) := (if pn_stopped pn then release ;;; guard_requeue sha256hex processorID (pn_job pn) task item ;;; ret PollReturn
      else ret (PollLaunch (launch_params item info task))) s2 in jw_tokens s' = jw_tokens s2 - 1 + launched r) as Hlaunch.
  { intros s2. destruct (pn_stopped pn); [|cbn; lia]. unfold release, bindM.
    assert (tokens_const (guard_requeue sha256hex processorID (pn_job pn) task item)) as Hg.
    { unfold guard_requeue. destruct (bj_Resumable task); [apply tokens_ignore, tokens_on_p|].
      apply tokens_bind; [apply tokens_try, tokens_enqueue|]. intros [u|x]; auto with tokens. }
    specialize (Hg {| jw := jw s2; jw_dirs := jw_dirs s2; jw_tokens := jw_tokens s2 - 1 |}).
    destruct (guard_requeue _ _ _ _ _ _) as [s3 [u|x]]; cbn in *; rewrite Hg; lia. }
  unfold bindM at 1. destruct (bj_Resumable task); [apply Hlaunch|]. unfold fresh_checks.
  destruct (IsJobExpired _ _).
  - unfold bindM at 1 2, ignore, bindM, try, release. 
    match goal with |- context [on_jdb ?m s1] => pose proof (tokens_on_p (on_world (on_db m)) s1) as Hm; unfold on_jdb;
      destruct (on_p (on_world (on_db m)) s1) as [s2 r2] end. cbn in *. rewrite Hm. lia.
  - destruct (negb _); [|apply Hlaunch]. unfold bindM at 1 2. case_bool_decide; [|cbn; lia].
    unfold ignore, bindM, try, release.
    match goal with |- context [on_jdb ?m s1] => pose proof (tokens_on_p (on_world (on_db m)) s1) as Hm; unfold on_jdb;
      destruct (on_p (on_world (on_db m)) s1) as [s2 r2] end. cbn in *. rewrite Hm. lia.
Qed.

(** Worker tokens neither leak nor multiply: a round of the polling loop
    keeps one token exactly when it launches a job, on every path through it,
    and a run of a job gives exactly one token back, on every path through
    [runJob]. *)
Theorem worker_tokens_balance pn s jn ph params s2 :
  let '(s', r) := poll_round sha256hex spec_ok leaseDuration processorID pn s in
  jw_tokens s' = jw_tokens s + launched r ∧
  jw_tokens (run_job jn ph params s2).1 = jw_tokens s2 - 1.
Proof.
  assert (jw_tokens (run_job jn ph params s2).1 = jw_tokens s2 - 1) as Hrun.
  { unfold runJob, ignore, bindM, try, release. pose proof (tokens_body jn ph params s2) as Hb.
    destruct (runJob_body _ _ _ _ _ _ _ _ _ s2) as [s3 r3]. cbn in *. by rewrite Hb. }
  unfold poll_round, acquire, bindM at 1. destruct (pn_acquired pn); cbn [negb]; [|cbn; lia].
  set (s1 := {| jw := jw s |}). unfold bindM at 1, try.
  assert (tokens_const (dequeueOne processorID (jn_now (pn_job pn)) (pn_dequeue pn) (pn_locked pn) leaseDuration)) as Hd.
  { apply tokens_bind; [apply tokens_on_p|done]. }
  specialize (Hd s1). destruct (dequeueOne _ _ _ _ _ s1) as [s3 r3]. cbn [fst] in Hd.
  destruct r3 as [[task|]|x].
  - pose proof (poll_job_tokens pn task s3) as Hp. destruct (poll_job _ _ _ _ _ s3) as [s4 r4]. cbn in *. lia.
  - destruct (pn_waited pn); cbn in *; lia.
  - destruct (pn_waited pn); cbn in *; lia.
Qed.

(** ** Startup recovery *)
Definition item_of (b : string) (row : Row) : BatchItem :=
  {| bi_ID := b; bi_row := row; bi_BumpEpoch := false; bi_ExpectedResumable := None |}.

(** A status write by someone who just read the row. *)
Lemma update_own_row now b row db st c slo exp md doc :
  items db !! b = Some row → b ≠ "" →
  (exp = None ∨ exp = r_status row) → BuildStatus now (Some (item_of b row)) st c slo md = Ok doc →
  updatePersistentStatus now NetOk (Some (item_of b row)) st c slo exp md db =
    ({| items := <[b := set_r_status (Some doc) row]> (items db); entries := entries db |}, Ok (set_item_status doc (item_of b row))).
Proof.
  intros Hrow Hb Hexp Hdoc. unfold updatePersistentStatus. rewrite Hdoc. unfold bindM at 1, DBUpdate. cbn [status_write bi_ID bi_row].
  rewrite bool_decide_eq_false_2 by done. cbn [r_status r_tags bi_BumpEpoch bi_ExpectedResumable item_of r_epoch].
  rewrite bool_decide_eq_false_2 by done. cbn [andb]. unfold bindM, exec, total, sql_update, update_row. cbn [bi_ID bi_row item_of]. rewrite Hrow.
  match goal with |- context [update_guard ?c row] => assert (update_guard c row = true) as -> end.
  { unfold update_guard. cbn [uc_status uc_epoch uc_resumable].
    assert (match exp with Some d => bool_decide (r_status row = Some d) | None => true end = true) as ->.
    { destruct Hexp as [->| ->]; [done|]. destruct (r_status row); [by apply bool_decide_eq_true|done]. }
    destruct (_ || _); [by rewrite Z.eqb_refl|done]. }
  cbn. unfold update_set. by rewrite bool_decide_eq_true_2.
Qed.

Lemma BuildStatus_closed now b row orig st c md :
  r_status row = Some orig → st = BatchStatusFailed ∨ st = BatchStatusExpired →
  ∃ doc, BuildStatus now (Some (item_of b row)) st c None md = Ok doc.
Proof.
  intros Hs Hst. unfold BuildStatus. cbn [bi_row item_of]. rewrite Hs. unfold BuildUpdatedStatusInfo.
  destruct Hst as [->| ->]; cbn; by eexists.
Qed.

Lemma cleanup_ok jn item s : ∃ s', cleanup_item sha256hex jn item s = (s', Ok tt) ∧ jdb s' = jdb s.
Proof.
  unfold cleanup_item, cleanupJobArtifacts. destruct (GetFolderNameByTenantID _ _); [destruct (jn_remove jn)|]; by eexists.
Qed.

Definition calls_succeed (jn : JobNet) : Prop :=
  jn_fetch jn = NetOk ∧ jn_status jn = NetOk ∧ jn_fallback jn = NetOk ∧ jn_enqueue jn = NetOk.

(** What recovery makes of a claimed row with status document [doc]. *)
Definition recovered (now : Z) (b : string) (row : Row) (doc : BatchStatusInfo) (row' : Row) : Prop :=
  if bool_decide (Status doc = BatchStatusValidating) then
    match extractRecoverySLO (item_of b row) {| ji_JobID := b; ji_TenantID := r_tenant row;
            ji_BatchJob := {| b_ID := b; b_StatusInfo := doc |}; ji_PassThroughHeaders := ∅; ji_TraceContext := ∅ |} with
    | Some slo => if slo <? now then status_is BatchStatusExpired row' = true
                  else row' = enqueue_row row ∧ claimable 0 row' = true
    | None => status_is BatchStatusFailed row' = true
    end
  else if IsTerminal (Status doc) then row' = row
  else status_is BatchStatusFailed row' = true.

Lemma recoverWithFailed_ok jn b row doc c s :
  jn_fallback jn = NetOk → items (jdb s) !! b = Some row → b ≠ "" → r_status row = Some doc →
  ∃ s' row', recoverWithFailed sha256hex jn (item_of b row) c s = (s', Ok tt) ∧
    items (jdb s') !! b = Some row' ∧ status_is BatchStatusFailed row' = true.
Proof.
  intros Hn Hrow Hb Hdoc. unfold recoverWithFailed, UpdateFailedStatus, bindM at 1, on_jdb, on_p, on_world, on_db.
  destruct (BuildStatus_closed (seconds jn) b row doc BatchStatusFailed c (withFileIDs "" "") Hdoc ltac:(by left)) as [d Hd].
  unfold jdb in Hrow. rewrite Hn, (update_own_row _ b row _ _ _ _ _ _ d) by auto.
  match goal with |- context [cleanup_item _ _ _ ?w] => destruct (cleanup_ok jn (item_of b row) w) as (s' & -> & Hj) end.
  exists s', (set_r_status (Some d) row). rewrite Hj. split; [done|]. split; [cbn; by rewrite lookup_insert_eq|].
  unfold status_is. cbn. apply bool_decide_eq_true. by eapply BuildStatus_status.
Qed.

Lemma recoverReEnqueue_ok jn b row doc info s :
  calls_succeed jn → items (jdb s) !! b = Some row → b ≠ "" → r_status row = Some doc → Status doc = BatchStatusValidating →
  (∃ p, r_processor row = Some p ∧ p ≠ "") → 0 ≤ r_epoch row → r_resumable row = false →
  match extractRecoverySLO (item_of b row) info with
  | None => ∃ x, recoverReEnqueue jn (item_of b row) info false s = (s, Ok (Err x, None))
  | Some slo =>
      ∃ s' row' c, recoverReEnqueue jn (item_of b row) info false s = (s', Ok (Ok tt, c)) ∧ items (jdb s') !! b = Some row' ∧
        if slo <? jn_now jn then status_is BatchStatusExpired row' = true else row' = enqueue_row row ∧ claimable 0 row' = true
  end.
Proof.
  intros (_ & Hs & _ & He) Hrow Hb Hdoc Hst (p & Hp & Hpne) Hep Hres. unfold recoverReEnqueue.
  destruct (extractRecoverySLO _ _) as [slo|]; [|by eexists]. destruct (slo <? jn_now jn).
  - unfold recoverExpired, UpdateExpiredStatus, UpdatePersistentStatus, bindM at 1, try, on_jdb, on_p, on_world, on_db.
    set (c := extractRequestCounts _).
    destruct (BuildStatus_closed (seconds jn) b row doc BatchStatusExpired c (withFileIDs "" "") Hdoc ltac:(by right)) as [d Hd].
    unfold jdb in Hrow. rewrite Hs, (update_own_row _ b row _ _ _ _ _ _ d) by auto.
    eexists _, (set_r_status (Some d) row), c. split; [reflexivity|]. split; [cbn; by rewrite lookup_insert_eq|].
    unfold status_is. cbn. apply bool_decide_eq_true. by eapply BuildStatus_status.
  - unfold bindM at 1. cbn [buildRecoveryTask ret]. unfold buildRecoveryTask. cbn [bi_ID bi_row item_of].
    unfold enqueueOne, bindM, try, on_jdb, on_p, on_world, on_db, PQEnqueue. cbn [bj_ID bj_Epoch bj_ProcessorID bj_ExpectedStatus].
    rewrite bool_decide_eq_false_2 by done. destruct (Z.ltb_spec (r_epoch row) 0); [lia|]. rewrite Hp. cbn [default from_option id].
    rewrite !bool_decide_eq_false_2 by done. rewrite He. unfold jdb in Hrow.
    unfold bindM, exec, total, sql_enqueue, update_row. rewrite Hrow.
    assert (owner_is p (r_epoch row) row = true) as ->.
    { unfold owner_is. by rewrite bool_decide_eq_true_2, Z.eqb_refl. }
    assert (status_is BatchStatusValidating row = true) as Hv by (unfold status_is; rewrite Hdoc; by apply bool_decide_eq_true).
    rewrite Hv, Hres, (status_is_nonterminal BatchStatusValidating row) by done. cbn.
    eexists _, (enqueue_row row), None. split; [reflexivity|]. split; [cbn; by rewrite lookup_insert_eq|]. split; [done|].
    unfold claimable, enqueue_row. cbn. rewrite Hres, Hdoc. by cbn.
Qed.

(** Startup recovery settles every job it claimed: with its calls
    succeeding, a non-resumable job that was still validating goes back to the
    queue (unowned, claimable, under a new epoch) before its deadline and
    becomes expired after it; one in an execution status, or without a
    recoverable deadline, becomes failed; a terminal one is left as it is. *)
Theorem startup_recovery_settles jn b row doc s :
  calls_succeed jn → items (jdb s) !! b = Some row → b ≠ "" → r_status row = Some doc → spec_ok (r_spec row) = true →
  (∃ p, r_processor row = Some p ∧ p ≠ "") → 0 ≤ r_epoch row → r_resumable row = false →
  ∃ s' row', recoverJobOnce sha256hex spec_ok jn b s = (s', Ok tt) ∧ items (jdb s') !! b = Some row' ∧
    recovered (jn_now jn) b row doc row'.
Proof.
  intros Hcalls Hrow Hb Hdoc Hspec Hp Hep Hres. pose proof Hcalls as (Hf & _ & Hfb & _).
  unfold recoverJobOnce, fetchJobItemByID, on_jdb, on_p, on_world, on_db, query, exec, bindM at 1. rewrite Hf.
  unfold jdb in Hrow |- *. rewrite Hrow. cbn [fmap option_fmap option_map]. fold (item_of b row).
  destruct s as [[[db fs] files] dirs tok]. cbn [jw pw w_db w_fs pw_files jw_dirs jw_tokens] in *.
  set (s := {| jw := _ |}).
  unfold FromDBItemToJobInfoObject, DBItemToBatch. cbn [bi_row item_of bi_ID]. rewrite Hspec, andb_false_r, Hdoc.
  cbn [default from_option id ji_BatchJob b_StatusInfo]. unfold recovered. fold (item_of b row).
  assert (∀ c, ∃ s' row', recoverWithFailed sha256hex jn (item_of b row) c s = (s', Ok tt) ∧
    items (jdb s') !! b = Some row' ∧ status_is BatchStatusFailed row' = true) as Hfail.
  { intros c. by eapply recoverWithFailed_ok. }
  case_bool_decide as Hv.
  - set (info := {| ji_JobID := b |}).
    pose proof (recoverReEnqueue_ok jn b row doc info s Hcalls Hrow Hb Hdoc Hv Hp Hep Hres) as Hre.
    unfold extractRecoverySLO in *. cbn [bi_row item_of ji_BatchJob b_StatusInfo info] in *. unfold bindM.
    destruct (if 0 <? _ then _ else _) as [slo|].
    + destruct Hre as (s1 & row1 & c & -> & Hr1 & Hcase). destruct (cleanup_ok jn (item_of b row) s1) as (s2 & -> & Hj).
      exists s2, row1. unfold jdb in Hj, Hr1. by rewrite Hj.
    + destruct Hre as (x & ->). apply Hfail.
  - destruct (IsTerminal (Status doc)) eqn:Ht.
    + rewrite !bool_decide_eq_false_2 by (intros Heq; rewrite Heq in Ht; by vm_compute in Ht). cbn [orb].
      destruct (cleanup_ok jn (item_of b row) s) as (s2 & -> & Hj). exists s2, row. unfold jdb in Hj. by rewrite Hj.
    + destruct (_ || _); apply Hfail.
Qed.

(** A requeued batch is stranded when its row cannot be read after the
    dequeue: the polling loop then re-enqueues with [PQEnqueue], which refuses
    resumable rows, so the database does not change and the batch stays owned
    by this processor, with no run, until its lease expires. *)
Theorem fetch_failure_strands_resumable pn task row s c :
  jn_fetch (pn_job pn) = NetErr c → items (jdb s) !! bj_ID task = Some row → r_resumable row = true →
  ∃ s', poll_job sha256hex spec_ok processorID pn task s = (s', Ok PollContinue) ∧
    jdb s' = jdb s ∧ jw_tokens s' = jw_tokens s - 1.
Proof.
  intros Hf Hrow Hres. unfold poll_job, fetchJobItemByID, bindM at 1, try, on_jdb, on_p, on_world, on_db, query, exec.
  rewrite Hf. destruct s as [[[db fs] files] dirs tok]. cbn [jw pw w_db w_fs pw_files jw_dirs jw_tokens jdb] in *.
  assert (∀ n, ∃ r, PQEnqueue n (Some task) db = (db, r)) as Henq.
  { intros n. unfold PQEnqueue. repeat (case_bool_decide; [by eexists|]). destruct (_ <? 0); [by eexists|].
    repeat (case_bool_decide; [by eexists|]). unfold bindM, exec, total, sql_enqueue.
    rewrite (update_row_refused _ _ _ _ row) by (try done; by rewrite Hres, andb_false_r). destruct n as [|[]]; by eexists. }
  destruct (Henq (jn_enqueue (pn_job pn))) as [r Hr]. destruct c;
    unfold release, ignore, enqueueOne, bindM, try, on_jdb, on_p, on_world, on_db; cbn [jw pw w_db w_fs pw_files jw_dirs jw_tokens];
    rewrite Hr; eexists; (split; [reflexivity|]); done.
Qed.

End Runner.
