(* ===== verification/Pipeline.v ===== *)
(** * The execution pipeline

    [internal/processor/pipeline] and the parts of [worker] that assemble it:
    the request source over plan files ([source_planfile.go]), the ownership
    fence before each submission ([dispatcher_pre.go]), asynchronous dispatch
    ([dispatcher_async.go]), the routing of deliveries ([result_router.go]),
    the pending set ([pending.go]), the durable checkpointer
    ([result_checkpointer.go]), progress counts ([progress_tracker.go]) and
    the classification of the outcome ([execute_pipeline.go]).

    The actors run concurrently in the code and communicate by channels; each
    is the function of the sequence it reads.  A mutex-protected method is one
    step.  Request bodies are carried as the raw line; metrics and logging are
    left out. *)

From Stdlib Require Import ZArith Lia Ascii String.
From stdpp Require Import base gmap strings list sorting pretty.
From S2P Require Import Prelude Openai Store StoreOps Ownership Fencing Lifecycle Examples Planner Preprocess.
From S2P Require Import Files ResultStore Entries Finalizer JobRunner.
Local Open Scope string_scope.
Local Open Scope Z_scope.

(** ** Requests and results *)
Record OutputError := { oe_Code : string; oe_Message : string }.
Record RequestItem := {
  rq_RequestID : string; rq_CustomID : string; rq_ModelID : string; rq_Endpoint : string; rq_Body : bytes;
  rq_Headers : gmap string string; rq_ParseError : option OutputError }.

(** The result of a request that failed with [code]. *)
Definition Error (r : RequestItem) (code : string) : ResultItem :=
  {| ri_RequestID := rq_RequestID r; ri_CustomID := rq_CustomID r; ri_Status := None; ri_Error := Some code |}.
Definition Canceled (r : RequestItem) : ResultItem := Error r "batch_cancelled".
Definition ErrCodeModelNotFound := "model_not_found".
Definition ModelNotFound (r : RequestItem) : ResultItem := Error r ErrCodeModelNotFound.

(** ** [PendingRequests] *)
Abbreviation Pending := (gmap string RequestItem).
Definition PStore (msg : RequestItem) (p : Pending) : Pending := <[rq_RequestID msg := msg]> p.
Definition Has (requestID : string) (p : Pending) : bool := bool_decide (is_Some (p !! requestID)).
Definition with_custom (c : string) (r : ResultItem) : ResultItem :=
  {| ri_RequestID := ri_RequestID r; ri_CustomID := c; ri_Status := ri_Status r; ri_Error := ri_Error r |}.

(** [None]: the result belongs to another job. *)
Definition Enrich (p : Pending) (r : ResultItem) : option ResultItem :=
  match ri_Error r with
  | Some _ => if Has (ri_RequestID r) p || negb (bool_decide (ri_CustomID r = "")) then Some r else None
  | None => if negb (bool_decide (ri_CustomID r = "")) then Some r
            else match p !! ri_RequestID r with
                 | Some msg => Some (with_custom (rq_CustomID msg) r)
                 | None => None
                 end
  end.
Definition Resolve (r : ResultItem) (p : Pending) : Pending * bool :=
  match ri_Error r with
  | Some _ => if Has (ri_RequestID r) p then (delete (ri_RequestID r) p, true)
              else (p, negb (bool_decide (ri_CustomID r = "")))
  | None => if negb (bool_decide (ri_CustomID r = "")) then (delete (ri_RequestID r) p, true)
            else match p !! ri_RequestID r with
                 | Some _ => (delete (ri_RequestID r) p, true)
                 | None => (p, false)
                 end
  end.
(** [Wait] returns only in a state where this holds, or on cancellation. *)
Definition wait_over (p : Pending) : bool := bool_decide (p = ∅).
Definition IDs (p : Pending) : list string := (map_to_list p).*1.
Definition DrainUnresolved (p : Pending) : Pending * list RequestItem := (∅, (map_to_list p).*2).

(** ** [ProgressTracker] *)
Record ProgressTracker := { pt_total : Z; pt_completed : Z; pt_failed : Z; pt_dirty : bool }.
Definition NewProgressTracker (total : Z) : ProgressTracker :=
  {| pt_total := total; pt_completed := 0; pt_failed := 0; pt_dirty := false |}.
Definition AddCompleted (n : Z) (t : ProgressTracker) : ProgressTracker :=
  {| pt_total := pt_total t; pt_completed := pt_completed t + n; pt_failed := pt_failed t; pt_dirty := true |}.
Definition AddFailed (n : Z) (t : ProgressTracker) : ProgressTracker :=
  {| pt_total := pt_total t; pt_completed := pt_completed t; pt_failed := pt_failed t + n; pt_dirty := true |}.
Definition RecordSuccess (t : ProgressTracker) : ProgressTracker := AddCompleted 1 t.
Definition RecordFailure (t : ProgressTracker) : ProgressTracker := AddFailed 1 t.
Definition Counts (t : ProgressTracker) : BatchRequestCounts :=
  {| Total := pt_total t; Completed := pt_completed t; Failed := pt_failed t |}.
(** A tick of [Run]: the counts to push, if anything changed since the last. *)
Definition tick (t : ProgressTracker) : ProgressTracker * option BatchRequestCounts :=
  ({| pt_total := pt_total t; pt_completed := pt_completed t; pt_failed := pt_failed t; pt_dirty := false |},
   if pt_dirty t then Some (Counts t) else None).

(** The per-job updater: a fenced-out write reports lost ownership instead of
    an error. *)
Definition jobProgressUpdater (n : net) (jobID : string) (epoch : Z) (counts : BatchRequestCounts) : M DB bool :=
  r <- try (UpdateProgressCounts n jobID epoch (Some counts)) ;;
  match r with
  | Ok _ => ret false
  | Err e => if bool_decide (e = ErrConflict) then ret true else throw e
  end.

(** ** [ResultCheckpointer] *)

(** A delivery and whether its transport wants an acknowledgement. *)
Record Delivery := { dl_item : ResultItem; dl_durable : bool }.

Record Collector := {
  co_world : World; co_pending : Pending; co_tracker : ProgressTracker; co_acked : list string;
  co_firstErr : option err; co_conflict : option err; co_aborted : bool }.
(** The clock, the outcomes of the remote calls and the random suffix for one
    checkpoint. *)
Record CkptEnv := { ce_now : Z; ce_net : ckpt_net; ce_suffix : string }.

Section Checkpointer.
Context (sha256hex : bytes → string) (marshal : ResultItem → option bytes) (sink : batchResultStore).

Definition MarshalResultLine (msg : ResultItem) : result (bytes * string * Z) :=
  match marshal msg with
  | None => Err (ErrOther "marshal output")
  | Some l => let line := app l [10] in Ok (line, sha256hex line, Z.of_nat (length line))
  end.

Definition record_result (msg : ResultItem) (t : ProgressTracker) : ProgressTracker :=
  if Succeeded msg then RecordSuccess t else RecordFailure t.

Definition checkpoint (env : CkptEnv) (msg : ResultItem) (c : Collector) : Collector * result unit :=
  match MarshalResultLine msg with
  | Err e => (c, Err e)
  | Ok (line, digest, size) =>
      let '(w, r) := Checkpoint sha256hex sink (ce_now env) (ce_net env) (ce_suffix env) msg line digest size (co_world c) in
      match r with
      | Err e => ({| co_world := w; co_pending := co_pending c; co_tracker := co_tracker c; co_acked := co_acked c;
                     co_firstErr := co_firstErr c; co_conflict := co_conflict c; co_aborted := co_aborted c |}, Err e)
      | Ok committed =>
          ({| co_world := w; co_pending := (Resolve msg (co_pending c)).1;
              co_tracker := if (committed : bool) then record_result msg (co_tracker c) else co_tracker c;
              co_acked := co_acked c; co_firstErr := co_firstErr c; co_conflict := co_conflict c;
              co_aborted := co_aborted c |}, Ok tt)
      end
  end.

Definition set_error (e : err) (c : Collector) : Collector :=
  {| co_world := co_world c; co_pending := co_pending c; co_tracker := co_tracker c; co_acked := co_acked c;
     co_firstErr := if bool_decide (e = ErrConflict) then co_firstErr c else Some e;
     co_conflict := if bool_decide (e = ErrConflict) then Some e else co_conflict c; co_aborted := true |}.
Definition ack (id : string) (c : Collector) : Collector :=
  {| co_world := co_world c; co_pending := co_pending c; co_tracker := co_tracker c; co_acked := app (co_acked c) [id];
     co_firstErr := co_firstErr c; co_conflict := co_conflict c; co_aborted := co_aborted c |}.

(** One iteration of the loop of [Drain]. *)
Definition drain_step (c : Collector) (x : Delivery * CkptEnv) : Collector :=
  let '(d, env) := x in
  match Enrich (co_pending c) (dl_item d) with
  | None => c
  | Some msg =>
      if bool_decide (is_Some (co_firstErr c)) || bool_decide (is_Some (co_conflict c)) then c
      else match checkpoint env msg c with
           | (c', Err e) => set_error e c'
           | (c', Ok _) => if dl_durable d then ack (ri_RequestID msg) c' else c'
           end
  end.
Definition Drain (c : Collector) (xs : list (Delivery * CkptEnv)) : Collector * result unit :=
  let c' := foldl drain_step c xs in
  (c', match co_conflict c', co_firstErr c' with
       | Some e, _ => Err e
       | None, Some e => Err e
       | None, None => Ok tt
       end).
End Checkpointer.

(** ** [PreDispatcher] *)

(** The code of the results of a cancelled run. *)
Definition cancelCode (c : AbortCause) : string :=
  match c with
  | CauseDeadline | CauseExpired => "batch_expired"
  | CauseCancelled => "batch_cancelled"
  | _ => "batch_failed"
  end.

(** The fence [markEntryInFlightHook] installs; the flag reports lost
    ownership to [onOwnershipLost]. *)
Definition markEntryInFlightHook (now : Z) (n1 n2 : net) (jobID processorID : string) (epoch : Z) (msg : RequestItem)
    : M DB (result bool * bool) :=
  r <- try (MarkEntryInFlight now n1 n2 jobID (rq_RequestID msg) processorID epoch) ;;
  match r with
  | Ok submit => ret (Ok submit, false)
  | Err e => ret (Err e, bool_decide (e = ErrConflict))
  end.

(** A request as the loop reads it: the abort cause at that moment, the clock
    and the outcomes of the fence's calls. *)
Record PreIn := { pi_req : RequestItem; pi_cause : AbortCause; pi_now : Z; pi_net1 : net; pi_net2 : net }.
(** What the loop does with a request. *)
Inductive PreEvent := Forward (r : RequestItem) | Emit (r : RequestItem) (code : string) | Drop (r : RequestItem).
Inductive PreNext := PreGo | PreStop (lost : bool).

(** After the loop ended: the rest is drained. *)
Definition pre_rest (lost : bool) (final : AbortCause) (xs : list PreIn) : list PreEvent :=
  (λ x, if lost then Drop (pi_req x) else Emit (pi_req x) (cancelCode final)) <$> xs.
Definition cons_event (e : PreEvent) (x : DB * list PreEvent) : DB * list PreEvent := (x.1, e :: x.2).

Section PreDispatcher.
Context (jobID processorID : string) (epoch : Z) (final : AbortCause).
(** One iteration of the loop; the flag of [PreStop] tells whether ownership
    was lost. *)
Definition pre_step (x : PreIn) (db : DB) : DB * PreEvent * PreNext :=
  let r := pi_req x in
  if negb (bool_decide (pi_cause x = NotAborted)) then (db, Emit r (cancelCode (pi_cause x)), PreStop false)
  else match rq_ParseError r with
       | Some pe => (db, Emit r (oe_Code pe), PreGo)
       | None =>
           let '(db', out) := markEntryInFlightHook (pi_now x) (pi_net1 x) (pi_net2 x) jobID processorID epoch r db in
           match out with
           | Ok (Ok true, _) => (db', Forward r, PreGo)
           | Ok (Ok false, _) => (db', Drop r, PreGo)
           | Ok (Err e, _) | Err e =>
               if bool_decide (e = ErrConflict) then (db', Drop r, PreStop true)
               else (db', Emit r "server_error", PreGo)
           end
       end.
Fixpoint pre_loop (xs : list PreIn) (db : DB) : DB * list PreEvent :=
  match xs with
  | [] => (db, [])
  | x :: rest =>
      let '(db', ev, nx) := pre_step x db in
      match nx with
      | PreGo => cons_event ev (pre_loop rest db')
      | PreStop lost => (db', ev :: pre_rest lost final rest)
      end
  end.
End PreDispatcher.

(** ** [AsyncDispatcher] *)

(** [client] is [SharedClientFor]; [submit] the outcome of a submission. *)
Definition async_step (client : string → bool) (submit : string → option string)
    (st : Pending * list ResultItem * list string) (r : RequestItem) : Pending * list ResultItem * list string :=
  let '(p, out, sent) := st in
  if negb (client (rq_ModelID r)) then (p, app out [ModelNotFound r], sent)
  else match submit (rq_RequestID r) with
       | Some category => (PStore r p, app out [Error r category], sent)
       | None => (PStore r p, out, app sent [rq_RequestID r])
       end.
Definition submit_phase (client : string → bool) (submit : string → option string) (p : Pending) (rs : list RequestItem)
    : Pending * list ResultItem * list string := foldl (async_step client submit) (p, [], []) rs.
(** After [Wait]: the requests to cancel in the queue and the results for
    everything still pending. *)
Definition async_finish (cause : AbortCause) (p : Pending) : list string * list ResultItem :=
  (if bool_decide (Cause cause = Some ErrCancelled) || bool_decide (Cause cause = Some ErrExpired) then IDs p else [],
   (λ r, Error r (cancelCode cause)) <$> (DrainUnresolved p).2).

(** ** Routing of deliveries ([result_router.go]) *)

(** [GenerateResponse] as the router reads it; [gr_Parsed] tells whether the
    body is a JSON object. *)
Record GenerateResponse := {
  gr_RequestID : string; gr_NonHTTPFailure : bool; gr_ErrorCode : string; gr_StatusCode : Z; gr_Empty : bool;
  gr_Parsed : bool }.
Definition failed_result_item (id code : string) : ResultItem :=
  {| ri_RequestID := id; ri_CustomID := ""; ri_Status := None; ri_Error := Some code |}.
Definition asyncResult (resp : GenerateResponse) : ResultItem :=
  if gr_NonHTTPFailure resp then
    failed_result_item (gr_RequestID resp) (if bool_decide (gr_ErrorCode resp = "") then "server_error" else gr_ErrorCode resp)
  else
    let statusCode := if gr_StatusCode resp =? 0 then 200 else gr_StatusCode resp in
    let ok := (200 <=? statusCode) && (statusCode <? 300) in
    if gr_Empty resp && ok then failed_result_item (gr_RequestID resp) "server_error"
    else if negb (gr_Empty resp) && negb (gr_Parsed resp) && ok then failed_result_item (gr_RequestID resp) "parse_error"
    else {| ri_RequestID := gr_RequestID resp; ri_CustomID := ""; ri_Status := Some statusCode; ri_Error := None |}.

(** A subscriber and its ownership predicate ([None] accepts everything). *)
Record Subscriber := { sb_id : string; sb_owns : option (string → bool) }.
Definition wants (requestID : string) (s : Subscriber) : bool :=
  match sb_owns s with None => true | Some owns => owns requestID end.
(** The targets of one delivery and whether the broadcaster acknowledges it
    itself; [residueSafe] is [None] when no check is armed. *)
Definition route (subs : list Subscriber) (durable : bool) (residueSafe : option (string → result bool)) (requestID : string)
    : list string * bool :=
  match filter (λ s, wants requestID s = true) subs with
  | [] => ([], durable && match residueSafe with
                          | None => true
                          | Some check => match check requestID with Ok safe => safe | Err _ => false end
                          end)
  | targets => (sb_id <$> targets, false)
  end.
(** [residueGate]: safe when no open entry has that request ID. *)
Definition residueGate (n : net) (db : DB) (requestID : string) : result bool :=
  match (HasOpenEntryByRequest n requestID db).2 with Ok open => Ok (negb open) | Err e => Err e end.

(** ** Routes of previous submitters ([broadcasters.go]) *)

(** Reference counts of the recovery broadcasters, by model and submitter. *)
Abbreviation Recovery := (gmap (string * string) Z).
(** [buildable]: the registry runs and the route's client can be made. *)
Definition acquireRecovery (buildable : string * string → bool) (key : string * string) (r : Recovery) : Recovery * bool :=
  match r !! key with
  | Some refs => (<[key := refs + 1]> r, true)
  | None => if buildable key then (<[key := 1]> r, true) else (r, false)
  end.
Definition releaseRecovery (key : string * string) (r : Recovery) : Recovery :=
  match r !! key with
  | None => r
  | Some refs => if refs <=? 0 then r else if 0 <? refs - 1 then <[key := refs - 1]> r else delete key r
  end.
(** The routes a job acquires, in order; its release gives back exactly these. *)
Definition job_keys (models submitters : list string) : list (string * string) :=
  submitters ≫= λ c, if bool_decide (c = "") then [] else (λ m, (m, c)) <$> models.
Definition acquire_all (buildable : string * string → bool) (keys : list (string * string)) (r : Recovery)
    : Recovery * list (string * string) :=
  foldl (λ st key, let '(r', ok) := acquireRecovery buildable key st.1 in
                   (r', if (ok : bool) then app st.2 [key] else st.2)) (r, []) keys.
Definition forModels (buildable : string * string → bool) (models submitters : list string) (r : Recovery)
    : Recovery * list (string * string) := acquire_all buildable (job_keys models submitters) r.
Definition release_all (acquired : list (string * string)) (r : Recovery) : Recovery :=
  foldl (λ r key, releaseRecovery key r) r acquired.

(** ** [PlanFileSource] *)
Definition sloTTFTMSHeader := "x-slo-ttft-ms".
Definition inferenceObjectiveHeader := "x-gateway-inference-objective".
Definition fairnessIDHeader := "x-gateway-inference-fairness-id".

(** [untilSLO] is the time to the deadline in nanoseconds, if there is one. *)
Definition mergeHeaders (untilSLO : option Z) (objective : string → string) (sendFairness : bool) (tenantID : string)
    (headers : gmap string string) (modelID : string) : gmap string string :=
  let h1 := match untilSLO with
            | Some d => let ms := Z.quot d 1000000 in if 0 <=? ms then <[sloTTFTMSHeader := pretty ms]> headers else headers
            | None => headers
            end in
  let h2 := if bool_decide (objective modelID = "") then h1 else <[inferenceObjectiveHeader := objective modelID]> h1 in
  if sendFairness && negb (bool_decide (tenantID = "")) then
    match h2 !! fairnessIDHeader with Some _ => h2 | None => <[fairnessIDHeader := tenantID]> h2 end
  else h2.

(** [os.File.ReadAt] of exactly [len] bytes. *)
Definition ReadAt (file : bytes) (offset len : Z) : option bytes :=
  if (0 <=? offset) && (offset + len <=? Z.of_nat (length file))
  then Some (take (Z.to_nat len) (drop (Z.to_nat offset) file)) else None.
Record Request := { req_CustomID : string; req_URL : string; req_Body : bytes }.

Section ReadEntry.
Context (uuidSHA1 : string → string) (unmarshalRequest : bytes → option Request).
Context (file : bytes) (batchID tenantID : string) (method : RouteKeyMethod).
Context (passThrough : gmap string string) (untilSLO : option Z) (objective : string → string) (sendFairness : bool).

(** [fresh] is the random UUID of the call. *)
Definition readEntry (fresh : string) (entry : planEntry) (modelID : string) : result RequestItem :=
  match ReadAt file (Offset entry) (Length entry) with
  | None => Err (ErrOther "failed to read request from input file")
  | Some buf =>
      match unmarshalRequest (trim_newline buf) with
      | None => Ok {| rq_RequestID := "batch_req_" +:+ fresh; rq_CustomID := "batch_req_" +:+ fresh; rq_ModelID := "";
                      rq_Endpoint := ""; rq_Body := []; rq_Headers := ∅;
                      rq_ParseError := Some {| oe_Code := "parse_error"; oe_Message := "failed to parse request line" |} |}
      | Some req =>
          let lookupID := routeKey method tenantID modelID in
          Ok {| rq_RequestID := if bool_decide (batchID = "") then newBatchRequestID fresh
                                else stableBatchRequestID uuidSHA1 batchID (req_CustomID req);
                rq_CustomID := req_CustomID req; rq_ModelID := lookupID; rq_Endpoint := req_URL req;
                rq_Body := req_Body req;
                rq_Headers := mergeHeaders untilSLO objective sendFairness tenantID passThrough lookupID;
                rq_ParseError := None |}
      end
  end.
End ReadEntry.

(** One planned line: the item [readEntry] builds, or the read error. *)
Section Source.
Context (skip : string → bool) (recover : gset string).

(** [Produce] over the items in plan order: what is sent before the recovery
    window and what is held for after it. *)
Fixpoint produce (items : list (result RequestItem)) (held : list RequestItem) : list RequestItem * list RequestItem * option err :=
  match items with
  | [] => ([], held, None)
  | Err e :: _ => ([], held, Some e)
  | Ok item :: rest =>
      if skip (rq_RequestID item) then produce rest held
      else if bool_decide (rq_RequestID item ∈ recover) then produce rest (app held [item])
      else let '(sent, held', e) := produce rest held in (item :: sent, held', e)
  end.
(** The whole stream; a read error stops it and the held items are not sent. *)
Definition Produce (items : list (result RequestItem)) : list RequestItem * option err :=
  let '(sent, held, e) := produce items [] in
  match e with None => (app sent held, None) | Some _ => (sent, e) end.
(** The recovering items stored into the pending set before dispatch. *)
Fixpoint PreStoreRecovering (items : list (result RequestItem)) (p : Pending) : Pending * option err :=
  match items with
  | [] => (p, None)
  | Err e :: _ => (p, Some e)
  | Ok item :: rest =>
      PreStoreRecovering rest (if bool_decide (rq_RequestID item ∈ recover) then PStore item p else p)
  end.
End Source.

(** The length of the wait before held items are submitted; the deadline and
    the clock in nanoseconds. *)
Definition recovery_wait (window : Z) (sloDeadline : option Z) (now : Z) : Z :=
  match sloDeadline with
  | None => Z.max 0 window
  | Some d => let budget := (d - now) - window in
              if budget <=? 0 then 0 else Z.max 0 (if budget <? window then budget else window)
  end.
Definition allResolved (stillPending : option (string → bool)) (held : list RequestItem) : bool :=
  match stillPending with
  | None => false
  | Some f => forallb (λ r, negb (f (rq_RequestID r))) held
  end.

(** ** Assembly and outcome ([execute_pipeline.go]) *)
Definition recoveryPlan (seed : option ResumableResumeState) (self : string) (canRecoverResults : bool)
    : gset string * list string :=
  match seed with
  | None => (∅, [])
  | Some seed =>
      if negb canRecoverResults || bool_decide (rs_InFlightSubmittedBy seed = ∅) then (∅, [])
      else
        let known := filter (λ kv : string * string, kv.2 ≠ "") (map_to_list (rs_InFlightSubmittedBy seed)) in
        (list_to_set known.*1, remove_dups (filter (λ s, s ≠ self) known.*2))
  end.

Definition AllSucceeded (c : BatchRequestCounts) : bool :=
  (Failed c =? 0) && (Completed c =? Total c).
Definition classifyOutcome (cause : option err) (counts : BatchRequestCounts) (execErr : option err) : option err :=
  match cause with
  | Some ErrExpired => Some ErrExpired
  | Some ErrCancelled => Some ErrCancelled
  | Some ErrShutdown => if AllSucceeded counts then None else Some ErrShutdown
  | _ => execErr
  end.

(** The tracker a run starts from. *)
Definition initial_tracker (lineCount rejectedCount : Z) (seed : option ResumableResumeState) : ProgressTracker :=
  match seed with
  | Some s => AddFailed (rs_Failed s) (AddCompleted (rs_Completed s) (NewProgressTracker lineCount))
  | None => AddFailed rejectedCount (NewProgressTracker lineCount)
  end.
Definition skip_terminal (seed : option ResumableResumeState) (requestID : string) : bool :=
  match seed with
  | Some s => bool_decide (requestID ∈ rs_TerminalRequestIDs s)
  | None => false
  end.
