(* ===== verification/Dispatch.v ===== *)
(** * Accounting in the execution pipeline

    Theorems about [Pipeline]: progress counts and acknowledgements follow the
    durable entry set, the fence decides what is submitted, a resumed source
    emits exactly the unfinished work, and residue is acknowledged only when no
    open entry can still need it. *)

From Stdlib Require Import ZArith Lia Ascii String.
From stdpp Require Import base gmap strings list sorting pretty.
From S2P Require Import Prelude Openai Store StoreOps Ownership Fencing Lifecycle Examples Planner Preprocess.
From S2P Require Import Files ResultStore Entries Finalizer JobRunner Pipeline.
Local Open Scope string_scope.
Local Open Scope Z_scope.

(** ** Counting entries *)
Definition status_count (b : string) (st : EntryStatus) (db : DB) : Z :=
  Z.of_nat (size (filter (λ kv : (string * string) * Entry, kv.1.1 = b ∧ e_status kv.2 = st) (entries db))).
Definition bit (st st' : EntryStatus) : Z := if decide (st = st') then 1 else 0.

Lemma status_count_insert b q st db x y :
  entries db !! (b, q) = Some x →
  status_count b st {| items := items db; entries := <[(b, q) := y]> (entries db) |}
  = status_count b st db - bit (e_status x) st + bit (e_status y) st.
Proof.
  intros Hx. unfold status_count, bit. cbn [entries].
  set (P := λ kv : (string * string) * Entry, kv.1.1 = b ∧ e_status kv.2 = st).
  assert (∀ z, Z.of_nat (size (filter P (<[(b, q) := z]> (entries db)))) =
    Z.of_nat (size (filter P (delete (b, q) (entries db)))) + (if decide (e_status z = st) then 1 else 0)) as Hz.
  { intros z. rewrite <- insert_delete_eq. case_decide as Hd.
    - rewrite map_filter_insert_True by done. rewrite map_size_insert_None; [lia|].
      apply map_lookup_filter_None. left. apply lookup_delete_eq.
    - rewrite map_filter_insert_False by (intros [_ ?]; done). rewrite delete_delete_eq. lia. }
  rewrite Hz. pose proof (Hz x) as H0. rewrite insert_id in H0 by done. rewrite H0. lia.
Qed.

(** ** One checkpoint *)
Section Sink.
Context (sha256hex : bytes → string) (sink : batchResultStore).
Abbreviation b := (rs_batchID sink).

(** Exactly one entry, open before, becomes terminal. *)
Definition commits (msg : ResultItem) (db db' : DB) : Prop :=
  ∃ x res, entries db !! (b, ri_RequestID msg) = Some x ∧ entry_open x = true ∧
    rr_Status res = (if Succeeded msg then ECompleted else EFailed) ∧
    db' = {| items := items db; entries := <[(b, ri_RequestID msg) := checkpoint_entry res x]> (entries db) |}.
Definition settled (q : string) (db : DB) : Prop :=
  ∃ x, entries db !! (b, q) = Some x ∧ entry_terminal (e_status x) = true.

Lemma entryNotUpdatable_ok n q p e db db' : entryNotUpdatable n b q p e db = (db', Ok tt) → settled q db.
Proof.
  unfold entryNotUpdatable, bindM, try, query, exec. destruct n as [|[]]; try done.
  destruct (items db !! b) as [r|]; cbn; [|done]. destruct (owner_is p e r); cbn; [|done].
  destruct (entries db !! (b, q)) as [x|] eqn:Hx; cbn; [|done].
  destruct (entry_terminal (e_status x)) eqn:Ht; [|done]. intros _. by exists x.
Qed.

Lemma CheckpointEntryResult_outcome now n1 n2 msg p e key digest size db db' r :
  CheckpointEntryResult now n1 n2 b (ri_RequestID msg) p e (Some (result_row msg key digest size)) db = (db', r) →
  match r with
  | Ok true => commits msg db db'
  | Ok false => db' = db ∧ settled (ri_RequestID msg) db
  | Err _ => db' = db ∨ commits msg db db'
  end.
Proof.
  unfold CheckpointEntryResult. assert (entry_terminal (rr_Status (result_row msg key digest size)) = true) as ->.
  { unfold result_row. cbn. by destruct (Succeeded msg). }
  cbn [negb]. unfold bindM at 1, exec, total, sql_checkpoint, update_entry.
  pose proof (entryNotUpdatable_pure n2 b (ri_RequestID msg) p e db) as Hpure.
  destruct (items db !! b) as [row|]; [destruct (ownerLockCTE now p e row)|].
  1: destruct (entries db !! (b, ri_RequestID msg)) as [x|] eqn:Hx; [destruct (entry_open x) eqn:Hop|].
  { assert (commits msg db {| items := items db; entries := <[(b, ri_RequestID msg) :=
      checkpoint_entry (result_row msg key digest size) x]> (entries db) |}) as Hc by by exists x, (result_row msg key digest size).
    destruct n1 as [|[]]; cbn; intros [= <- <-]; [done|by right|by left]. }
  all: destruct n1 as [|[]]; cbn; intros H; simplify_eq; try (by left).
  all: unfold bindM in H; destruct (entryNotUpdatable n2 b (ri_RequestID msg) p e db) as [d [[]|y]] eqn:Hd; cbn in Hpure; subst d;
    injection H as <- <-; [split; [done|by eapply entryNotUpdatable_ok]|by left].
Qed.

Lemma Checkpoint_outcome now cn suffix msg line w w' r :
  Checkpoint sha256hex sink now cn suffix msg line (sha256hex line) (Z.of_nat (length line)) w = (w', r) →
  match r with
  | Ok true => commits msg (w_db w) (w_db w')
  | Ok false => w_db w' = w_db w ∧ settled (ri_RequestID msg) (w_db w)
  | Err _ => w_db w' = w_db w ∨ commits msg (w_db w) (w_db w')
  end.
Proof.
  unfold Checkpoint. unfold bindM at 1, on_db at 1.
  destruct (FindEntryByRequestID (cn_find cn) b (ri_RequestID msg) (w_db w)) as [db0 r0] eqn:Hf.
  assert (db0 = w_db w) as -> by (pose proof (find_entry_pure (cn_find cn) b (ri_RequestID msg) (w_db w)) as H; by rewrite Hf in H).
  destruct r0 as [found|x]; [|intros [= <- <-]; by left].
  destruct (match found with Some e => entry_terminal (re_Status e) | None => false end) eqn:Hterm.
  { intros [= <- <-]. split; [done|]. unfold FindEntryByRequestID, query, exec in Hf.
    destruct (cn_find cn) as [|[]]; simplify_eq.
    destruct (entries (w_db w) !! (b, ri_RequestID msg)) as [x|] eqn:Hx; cbn in Hterm; [|done]. by exists x. }
  unfold bindM at 1. destruct (storeObject _ _ _ _ _ _ _ _ _) as [w1 r1] eqn:Hs.
  eapply storeObject_spec in Hs as (Hdb & _ & _); [|done..]. cbn [w_db] in Hdb.
  destruct r1 as [key|x]; [|intros [= <- <-]; by left].
  unfold bindM at 1, on_db. destruct (CheckpointEntryResult _ _ _ _ _ _ _ _ _) as [db2 r2] eqn:Hc.
  rewrite Hdb in Hc. apply CheckpointEntryResult_outcome in Hc.
  destruct r2 as [[]|x]; [intros [= <- <-]; done| |intros [= <- <-]; done].
  destruct Hc as [-> Hset]. case_bool_decide; [intros [= <- <-]; done|].
  unfold bindM, try, on_fs. destruct (FDelete _ _ _ _) as [fs r3]. intros [= <- <-]. done.
Qed.

Lemma commits_settled msg db db' q : commits msg db db' → settled q db → settled q db'.
Proof.
  intros (x & res & Hx & Hop & Hst & ->) (y & Hy & Ht). cbn [entries]. unfold settled. cbn [entries].
  rewrite lookup_insert. case_decide as Hq; [|by exists y]. simplify_eq. unfold entry_open in Hop. rewrite Ht in Hop. done.
Qed.
Lemma commits_settles msg db db' : commits msg db db' → settled (ri_RequestID msg) db'.
Proof.
  intros (x & res & Hx & Hop & Hst & ->). exists (checkpoint_entry res x). cbn. rewrite lookup_insert_eq. split; [done|].
  rewrite Hst. by destruct (Succeeded msg).
Qed.
Lemma commits_count msg db db' :
  commits msg db db' →
  status_count b ECompleted db' = status_count b ECompleted db + (if Succeeded msg then 1 else 0) ∧
  status_count b EFailed db' = status_count b EFailed db + (if Succeeded msg then 0 else 1).
Proof.
  intros (x & res & Hx & Hop & Hst & ->). rewrite !(status_count_insert _ _ _ _ x) by done. cbn [checkpoint_entry e_status].
  rewrite Hst. unfold bit, entry_open in *. destruct (e_status x), (Succeeded msg); try done; split; repeat case_decide; try done; lia.
Qed.
End Sink.

(** ** The collector *)
Section Collector.
Context (sha256hex : bytes → string) (marshal : ResultItem → option bytes) (sink : batchResultStore).
Abbreviation b := (rs_batchID sink).
Abbreviation cdb := (λ c, w_db (co_world c)).

Lemma Enrich_id p r r' : Enrich p r = Some r' → ri_RequestID r' = ri_RequestID r.
Proof.
  unfold Enrich. intros H. repeat (destruct_match_in H; simplify_eq; try done).
Qed.
Lemma Resolve_only r p q : (Resolve r p).1 !! q = p !! q ∨ q = ri_RequestID r.
Proof.
  destruct (decide (q = ri_RequestID r)) as [|Hne]; [by right|left]. unfold Resolve.
  repeat destruct_match; cbn; by rewrite ?lookup_delete_ne.
Qed.

(** The collector's books agree with the entry set, relative to the start. *)
Definition no_error (c : Collector) : Prop := co_firstErr c = None ∧ co_conflict c = None.
Record books (c0 c : Collector) : Prop := {
  bk_acked : ∀ q, q ∈ co_acked c → settled sink q (cdb c);
  bk_counts : no_error c →
    pt_completed (co_tracker c) - pt_completed (co_tracker c0) = status_count b ECompleted (cdb c) - status_count b ECompleted (cdb c0) ∧
    pt_failed (co_tracker c) - pt_failed (co_tracker c0) = status_count b EFailed (cdb c) - status_count b EFailed (cdb c0);
  bk_pending : ∀ q, is_Some (co_pending c0 !! q) → co_pending c !! q = None → settled sink q (cdb c);
  bk_total : pt_total (co_tracker c) = pt_total (co_tracker c0) }.

Lemma checkpoint_outcome env msg c c' r :
  checkpoint sha256hex marshal sink env msg c = (c', r) →
  co_acked c' = co_acked c ∧ co_firstErr c' = co_firstErr c ∧ co_conflict c' = co_conflict c ∧
  (∀ q, settled sink q (cdb c) → settled sink q (cdb c')) ∧
  match r with
  | Err _ => co_pending c' = co_pending c ∧ co_tracker c' = co_tracker c
  | Ok _ => co_pending c' = (Resolve msg (co_pending c)).1 ∧ settled sink (ri_RequestID msg) (cdb c') ∧
            (cdb c' = cdb c ∧ co_tracker c' = co_tracker c ∨
             commits sink msg (cdb c) (cdb c') ∧ co_tracker c' = record_result msg (co_tracker c))
  end.
Proof.
  unfold checkpoint, MarshalResultLine. destruct (marshal msg) as [l|]; [|intros [= <- <-]; done].
  destruct (Checkpoint _ _ _ _ _ _ _ _ _ _) as [w r1] eqn:Hc. apply Checkpoint_outcome in Hc.
  destruct r1 as [[]|x]; intros [= <- <-]; cbn [co_acked co_firstErr co_conflict co_pending co_tracker co_world].
  - split_and!; try done; eauto using commits_settled, commits_settles.
  - destruct Hc as [Heq Hs]. rewrite Heq. split_and!; try done. by left.
  - split_and!; try done. intros q Hq. destruct Hc as [->|Hc]; [done|by eapply commits_settled].
Qed.

Lemma drain_step_books c0 c x : books c0 c → books c0 (drain_step sha256hex marshal sink c x).
Proof.
  intros [Ha Hc Hp Ht]. unfold drain_step. destruct x as [d env].
  destruct (Enrich _ _) as [msg|] eqn:He; [|done]. destruct (_ || _) eqn:Herr; [done|].
  apply orb_false_iff in Herr as [Hf Hcf]. apply bool_decide_eq_false in Hf, Hcf.
  assert (no_error c) as Hno by (split; by apply eq_None_not_Some).
  destruct (checkpoint _ _ _ env msg c) as [c' r] eqn:Hck.
  apply checkpoint_outcome in Hck as (Hacked & Hfe & Hce & Hmono & Hr). destruct r as [u|e].
  - destruct Hr as (Hpend & Hset & Hupd).
    assert (books c0 c') as Hb.
    { split.
      - intros q Hq. rewrite Hacked in Hq. auto.
      - intros _. destruct (Hc Hno) as [H1 H2]. destruct Hupd as [[-> ->]|[Hcom ->]]; [done|].
        destruct (commits_count sink msg _ _ Hcom) as [-> ->]. unfold record_result, RecordSuccess, RecordFailure, AddCompleted, AddFailed.
        destruct (Succeeded msg); cbn; lia.
      - intros q Hq Hn. rewrite Hpend in Hn. destruct (Resolve_only msg (co_pending c) q) as [Heq| ->]; [|done].
        rewrite Heq in Hn. auto.
      - destruct Hupd as [[_ ->]|[_ ->]]; [done|]. unfold record_result. by destruct (Succeeded msg). }
    destruct (dl_durable d); [|done]. destruct Hb as [Ha' Hc' Hp' Ht']. split; try done.
    intros q. cbn. rewrite elem_of_app, list_elem_of_singleton. intros [Hq| ->]; [by apply Ha'|done].
  - destruct Hr as [Hpend Htr]. split; cbn.
    + intros q Hq. rewrite Hacked in Hq. auto.
    + unfold no_error. cbn. intros [H1 H2]. exfalso. case_bool_decide; [done|done].
    + rewrite Hpend. intros q Hq Hn. auto.
    + by rewrite Htr.
Qed.

(** [C7] The collector's books are the entry set's: whatever arrives and
    whatever its remote calls return, an acknowledged delivery and a request
    removed from the pending set have a terminal entry in the database; and a
    drain that reports no error has moved the completed and failed counters by
    exactly the number of entries that became completed and failed, duplicates
    and redeliveries included. *)
Theorem drain_books c xs :
  no_error c → co_acked c = [] →
  let '(c', r) := Drain sha256hex marshal sink c xs in
  (∀ q, q ∈ co_acked c' → settled sink q (cdb c')) ∧
  (∀ q, is_Some (co_pending c !! q) → co_pending c' !! q = None → settled sink q (cdb c')) ∧
  (r = Ok tt →
    pt_completed (co_tracker c') = pt_completed (co_tracker c) + (status_count b ECompleted (cdb c') - status_count b ECompleted (cdb c)) ∧
    pt_failed (co_tracker c') = pt_failed (co_tracker c) + (status_count b EFailed (cdb c') - status_count b EFailed (cdb c))).
Proof.
  intros Hno Hack. unfold Drain.
  assert (books c c) as H0.
  { split; [rewrite Hack; intros q Hq; by apply elem_of_nil in Hq|intros; lia|intros q [? Hq] Hn; congruence|done]. }
  assert (books c (foldl (drain_step sha256hex marshal sink) c xs)) as [Ha Hc Hp Ht].
  { revert H0. generalize c at 2 4. induction xs as [|x xs IH]; intros c1 H1; [done|]. cbn. by apply IH, drain_step_books. }
  split; [done|]. split; [done|]. intros Hr.
  destruct (co_conflict _) eqn:H1; [done|]. destruct (co_firstErr _) eqn:H2; [done|]. destruct (Hc (conj H2 H1)). lia.
Qed.
End Collector.

(** ** The fence *)
Definition event_request (e : PreEvent) : RequestItem :=
  match e with Forward r | Emit r _ | Drop r => r end.
Definition is_forward (e : PreEvent) : bool := match e with Forward _ => true | _ => false end.

Section Fence.
Context (jobID processorID : string) (epoch : Z) (final : AbortCause).
Abbreviation ploop := (pre_loop jobID processorID epoch final).

Lemma pre_rest_requests lost xs : event_request <$> pre_rest lost final xs = pi_req <$> xs.
Proof. unfold pre_rest. induction xs as [|x xs IH]; [done|]. cbn. destruct lost; by f_equal. Qed.
Lemma pre_rest_forward lost xs e : e ∈ pre_rest lost final xs → is_forward e = false.
Proof. unfold pre_rest. intros (x & -> & _)%list_elem_of_fmap. by destruct lost. Qed.

(** The entry was handed out by this owner. *)
Definition handed_out (q : string) (db : DB) : Prop :=
  ∃ x, entries db !! (jobID, q) = Some x ∧ e_status x = EInFlight ∧ 1 ≤ e_attempts x ∧ e_submitted_by x = Some processorID.

(** Attempts never go negative ([db_wf]). *)
Definition attempts_nonneg (db : DB) : Prop := ∀ k x, entries db !! k = Some x → 0 ≤ e_attempts x.

Lemma mark_outcome now n1 n2 q db db' r :
  MarkEntryInFlight now n1 n2 jobID q processorID epoch db = (db', r) →
  (db' = db ∧ r ≠ Ok true) ∨
  ∃ row x, items db !! jobID = Some row ∧ ownerLockCTE now processorID epoch row = true ∧ entries db !! (jobID, q) = Some x ∧
    entry_open x = true ∧ db' = {| items := items db; entries := <[(jobID, q) := mark_entry processorID x]> (entries db) |}.
Proof.
  unfold MarkEntryInFlight, bindM at 1, exec, total, sql_mark, update_entry.
  pose proof (entryNotUpdatable_pure n2 jobID q processorID epoch db) as Hpure.
  destruct (items db !! jobID) as [row|]; [destruct (ownerLockCTE now processorID epoch row) eqn:Ho|].
  1: destruct (entries db !! (jobID, q)) as [x|] eqn:Hx; [destruct (entry_open x) eqn:Hop|].
  { destruct n1 as [|[]]; intros [= <- <-]; [right|right|by left]; by exists row, x. }
  all: destruct n1 as [|[]]; try (intros [= <- <-]; by left).
  all: unfold bindM; destruct (entryNotUpdatable _ _ _ _ _ _) as [d [u|e]]; cbn in Hpure; subst d; intros [= <- <-]; by left.
Qed.

Lemma mark_keeps q db row x :
  attempts_nonneg db → items db !! jobID = Some row → entries db !! (jobID, q) = Some x →
  let db1 := {| items := items db; entries := <[(jobID, q) := mark_entry processorID x]> (entries db) |} in
  attempts_nonneg db1 ∧ (∀ q', handed_out q' db → handed_out q' db1) ∧ handed_out q db1.
Proof.
  intros Hnn Hrow Hx db1. pose proof (Hnn _ _ Hx). split_and!.
  - intros k z. cbn. rewrite lookup_insert. case_decide; intros; simplify_eq; [cbn; lia|eauto].
  - intros q' (z & Hz & Hst & Hat & Hs). unfold handed_out. cbn [db1 entries]. rewrite lookup_insert.
    case_decide as Hq; [|by exists z]. simplify_eq. eexists. split; [done|]. cbn. split_and!; try done. lia.
  - unfold handed_out. cbn [db1 entries]. rewrite lookup_insert_eq. eexists. split; [done|]. cbn. split_and!; try done. lia.
Qed.

Lemma hook_outcome now n1 n2 msg db db' out :
  attempts_nonneg db →
  markEntryInFlightHook now n1 n2 jobID processorID epoch msg db = (db', out) →
  attempts_nonneg db' ∧ (∀ q, handed_out q db → handed_out q db') ∧
  (∀ lost, out = Ok (Ok true, lost) → handed_out (rq_RequestID msg) db') ∧
  ((∀ r, items db !! jobID = Some r → ownerLockCTE now processorID epoch r = false) →
     db' = db ∧ ∀ lost, out ≠ Ok (Ok true, lost)).
Proof.
  intros Hnn. unfold markEntryInFlightHook, bindM, try.
  destruct (MarkEntryInFlight _ _ _ _ _ _ _ db) as [db1 r] eqn:Hm. apply mark_outcome in Hm.
  assert (∀ o, (match r with Ok submit => ret (Ok submit, false) | Err e => ret (Err e, bool_decide (e = ErrConflict)) end) db1
               = (db', o) → db' = db1 ∧ ∀ lost, o = Ok (Ok true, lost) → r = Ok true) as Hr.
  { intros o. destruct r as [u|e]; intros [= <- <-]; split; try done. by intros lost [= -> _]. }
  intros Hout. apply Hr in Hout as [-> Hok]. destruct Hm as [[-> Hne]|(row & x & Hrow & Ho & Hx & _ & ->)].
  - split_and!; try done; [intros lost Hl; by apply Hok in Hl|]. intros _. split; [done|]. intros lost Hl. by apply Hok in Hl.
  - destruct (mark_keeps (rq_RequestID msg) db row x Hnn Hrow Hx) as (H1 & H2 & H3). split_and!; try done.
    intros Hf. specialize (Hf row Hrow). congruence.
Qed.

(** No request is read while the processor holds a live lease. *)
Definition never_owner (xs : list PreIn) (db : DB) : Prop :=
  ∀ x r, x ∈ xs → items db !! jobID = Some r → ownerLockCTE (pi_now x) processorID epoch r = false.
(** What the loop guarantees of its database and its events. *)
Definition fenced (xs : list PreIn) (db : DB) (out : DB * list PreEvent) : Prop :=
  event_request <$> out.2 = pi_req <$> xs ∧ (∀ q, handed_out q db → handed_out q out.1) ∧
  (∀ r, Forward r ∈ out.2 → handed_out (rq_RequestID r) out.1) ∧
  (never_owner xs db → out.1 = db ∧ ∀ e, e ∈ out.2 → is_forward e = false).

(** The loop ends at a request. *)
Lemma fenced_end lost ev x xs db db' :
  is_forward ev = false → event_request ev = pi_req x → (∀ q, handed_out q db → handed_out q db') →
  (never_owner (x :: xs) db → db' = db) → fenced (x :: xs) db (db', ev :: pre_rest lost final xs).
Proof.
  intros Hev Hrq Hmono Hno. split_and!; cbn [fst snd].
  - cbn. by rewrite Hrq, pre_rest_requests.
  - done.
  - intros r [Heq|Hr]%elem_of_cons; [by subst|]. by apply pre_rest_forward in Hr.
  - intros Hn. split; [auto|]. intros e [->|He]%elem_of_cons; [done|by eapply pre_rest_forward].
Qed.

(** The loop goes on after a request. *)
Lemma fenced_cons ev x xs db db1 :
  fenced xs db1 (ploop xs db1) → event_request ev = pi_req x → (∀ q, handed_out q db → handed_out q db1) →
  (is_forward ev = true → handed_out (rq_RequestID (pi_req x)) db1) →
  (never_owner (x :: xs) db → db1 = db ∧ is_forward ev = false) →
  fenced (x :: xs) db (cons_event ev (ploop xs db1)).
Proof.
  intros (I1 & I2 & I3 & I4) Hrq Hmono Hfwd Hlost. unfold cons_event. destruct (ploop xs db1) as [db' evs].
  split_and!; cbn [fst snd] in *.
  - cbn. by rewrite Hrq, I1.
  - auto.
  - intros r [<-|Hr]%elem_of_cons; [|auto]. cbn in Hrq. subst. by apply I2, Hfwd.
  - intros Hno. destruct (Hlost Hno) as [-> Hnf]. destruct I4 as [-> I4]; [intros y r Hy; apply Hno; by right|].
    split; [done|]. intros e [->|He]%elem_of_cons; auto.
Qed.

Lemma ploop_fenced xs db : attempts_nonneg db → fenced xs db (ploop xs db).
Proof.
  revert db. induction xs as [|x xs IH]; intros db Hnn; cbn [pre_loop].
  { split_and!; try done; [intros r Hr; by apply elem_of_nil in Hr|].
    intros _. split; [done|]. intros e He. by apply elem_of_nil in He. }
  unfold pre_step. case_bool_decide as Hcause; cbn [negb]; [|by apply fenced_end].
  destruct (rq_ParseError (pi_req x)) as [pe|]; [by apply fenced_cons; auto|].
  destruct (markEntryInFlightHook _ _ _ _ _ _ _ db) as [db1 out] eqn:Hh.
  apply hook_outcome in Hh as (Hnn1 & Hmono & Hfwd & Hlost); [|done]. specialize (IH db1 Hnn1).
  assert (never_owner (x :: xs) db → db1 = db ∧ ∀ lost, out ≠ Ok (Ok true, lost)) as Hl
    by (intros Hno; apply Hlost; intros r; apply Hno; left).
  assert (never_owner (x :: xs) db → db1 = db) as Hsame by (intros Hno; by apply Hl).
  destruct out as [[[[]|e] lost]|e]; try case_bool_decide; try (by apply fenced_end); apply fenced_cons; try done;
    try (intros Hno; split; [by apply Hl|done]).
  - intros _. by eapply Hfwd.
  - intros Hno. destruct (Hl Hno) as [_ Hne]. by destruct (Hne lost).
Qed.

(** [C14] What is submitted is fenced: of the requests a run reads, in order,
    each is forwarded, turned into one error result, or dropped; a forwarded
    request's entry is in flight, counted and recorded for this processor; and
    a processor that does not hold a live lease of the batch at its epoch
    forwards nothing and changes nothing. *)
Theorem submissions_are_fenced xs db :
  attempts_nonneg db →
  let '(db', evs) := ploop xs db in
  event_request <$> evs = pi_req <$> xs ∧
  (∀ r, Forward r ∈ evs → handed_out (rq_RequestID r) db') ∧
  ((∀ x r, x ∈ xs → items db !! jobID = Some r → ownerLockCTE (pi_now x) processorID epoch r = false) →
     db' = db ∧ ∀ e, e ∈ evs → is_forward e = false).
Proof.
  intros Hnn. destruct (ploop_fenced xs db Hnn) as (H1 & _ & H3 & H4). by destruct (ploop xs db).
Qed.
End Fence.

(** ** The source of a resumed batch *)
Section ResumeSource.
Context (skip : string → bool) (recover : gset string).

Definition unfinished (r : RequestItem) : Prop := skip (rq_RequestID r) = false.
Definition recovering (r : RequestItem) : Prop := rq_RequestID r ∈ recover.
#[export] Instance unfinished_dec r : Decision (unfinished r).
Proof. unfold unfinished. apply _. Defined.
#[export] Instance recovering_dec r : Decision (recovering r).
Proof. unfold recovering. apply _. Defined.

Lemma produce_exact (rs : list RequestItem) held :
  produce skip recover (Ok <$> rs) held =
  (filter (λ r, unfinished r ∧ ¬ recovering r) rs, app held (filter (λ r, unfinished r ∧ recovering r) rs), None).
Proof.
  revert held. induction rs as [|r rs IH]; intros held; cbn [produce fmap list_fmap].
  { by rewrite app_nil_r. }
  rewrite !filter_cons. destruct (decide (unfinished r)) as [Hs|Hs]; cycle 1.
  { rewrite !(decide_False (P := _ ∧ _)) by tauto. apply not_false_is_true in Hs. by rewrite Hs, IH. }
  rewrite Hs. case_bool_decide as Hr.
  - rewrite IH, (decide_False (P := _ ∧ ¬ _)) by tauto. rewrite decide_True by done. by rewrite <- app_assoc.
  - rewrite IH, (decide_True (P := _ ∧ ¬ _)) by done. rewrite decide_False by tauto. done.
Qed.
End ResumeSource.

(** A resumed batch dispatches exactly its unfinished work: when every
    planned line can be read, the source sends each planned request whose
    entry is not terminal in the resume seed once, in plan order, those that
    may be recovered from a previous owner's route after all others, and no
    request with a terminal entry; the requests it holds back are exactly those
    the seed lists as in flight under a known submitter, and the routes it
    listens to are the distinct submitters other than the processor itself. *)
Theorem resume_dispatches_unfinished seed self can rs :
  let skip := skip_terminal (Some seed) in
  let '(recover, submitters) := recoveryPlan (Some seed) self can in
  Produce skip recover (Ok <$> rs) =
    (app (filter (λ r, unfinished skip r ∧ ¬ recovering recover r) rs) (filter (λ r, unfinished skip r ∧ recovering recover r) rs), None) ∧
  (∀ r, r ∈ (Produce skip recover (Ok <$> rs)).1 ↔ r ∈ rs ∧ rq_RequestID r ∉ rs_TerminalRequestIDs seed) ∧
  (can = true → ∀ q, q ∈ recover ↔ ∃ p, rs_InFlightSubmittedBy seed !! q = Some p ∧ p ≠ "") ∧
  (can = true → NoDup submitters ∧
     ∀ p, p ∈ submitters ↔ p ≠ self ∧ p ≠ "" ∧ ∃ q, rs_InFlightSubmittedBy seed !! q = Some p) ∧
  (can = false → recover = ∅ ∧ submitters = []).
Proof.
  cbv zeta. destruct (recoveryPlan (Some seed) self can) as [recover submitters] eqn:Hplan.
  assert (Produce (skip_terminal (Some seed)) recover (Ok <$> rs) =
    (app (filter (λ r, unfinished (skip_terminal (Some seed)) r ∧ ¬ recovering recover r) rs)
         (filter (λ r, unfinished (skip_terminal (Some seed)) r ∧ recovering recover r) rs), None)) as Hprod.
  { unfold Produce. by rewrite produce_exact. }
  split; [done|]. split.
  { intros r. rewrite Hprod. cbn [fst]. rewrite elem_of_app, !list_elem_of_filter. unfold unfinished, skip_terminal, recovering.
    rewrite bool_decide_eq_false. destruct (decide (rq_RequestID r ∈ recover)); tauto. }
  unfold recoveryPlan in Hplan. destruct can; cbn [negb orb] in Hplan; [|by simplify_eq].
  split; [|split; [|done]]; intros _.
  - case_bool_decide as Hemp; simplify_eq.
    + intros q. rewrite Hemp. split; [by intros ?%not_elem_of_empty|]. intros (p & Hp & _). by rewrite lookup_empty in Hp.
    + intros q. rewrite elem_of_list_to_set, list_elem_of_fmap. split.
      * intros ([q' p] & -> & [Hne Hin]%list_elem_of_filter). apply elem_of_map_to_list in Hin. by exists p.
      * intros (p & Hp & Hne). exists (q, p). split; [done|]. apply list_elem_of_filter. split; [done|]. by apply elem_of_map_to_list.
  - case_bool_decide as Hemp; simplify_eq.
    + split; [constructor|]. intros p. rewrite Hemp. split; [by intros ?%not_elem_of_nil|]. intros (_ & _ & q & Hq). by rewrite lookup_empty in Hq.
    + split; [apply NoDup_remove_dups|]. intros p. rewrite elem_of_remove_dups, list_elem_of_filter, list_elem_of_fmap. split.
      * intros (Hself & [q' p'] & -> & [Hne Hin]%list_elem_of_filter). apply elem_of_map_to_list in Hin. eauto.
      * intros (Hself & Hne & q & Hq). split; [done|]. exists (q, p). split; [done|]. apply list_elem_of_filter.
        split; [done|]. by apply elem_of_map_to_list.
Qed.

(** The recovery window never eats the execution budget: the wait is at
    most the window, and whenever a batch with a deadline waits at all, at
    least one window of time is left before the deadline when it ends. *)
Theorem recovery_wait_leaves_budget window deadline now :
  0 ≤ window →
  0 ≤ recovery_wait window deadline now ≤ window ∧
  (∀ d, deadline = Some d → 0 < recovery_wait window deadline now →
     window ≤ d - (now + recovery_wait window deadline now)).
Proof.
  intros Hw. unfold recovery_wait. destruct deadline as [d|]; [|split; [lia|done]].
  destruct (Z.leb_spec (d - now - window) 0); [split; [lia|intros ? _ ?; lia]|].
  destruct (Z.ltb_spec (d - now - window) window); (split; [lia|]); intros d' [= <-] _; lia.
Qed.

(** ** Deliveries *)

(** Residue is never thrown away while someone may need it: the
    broadcaster acknowledges a delivery itself only when no subscriber wants
    it and, with the entry-store check armed, the check succeeded and no open
    entry of any batch has that request ID; and a delivery somebody wants goes
    to every subscriber that wants it and to no other. *)
Theorem residue_is_safe subs durable n db id targets acked :
  route subs durable (Some (residueGate n db)) id = (targets, acked) →
  (∀ t, t ∈ targets ↔ ∃ s, s ∈ subs ∧ sb_id s = t ∧ wants id s = true) ∧
  (acked = true → durable = true ∧ targets = [] ∧ n = NetOk ∧
     ∀ b e, entries db !! (b, id) = Some e → entry_open e = false).
Proof.
  unfold route. intros Hr. set (ss := filter (λ s, wants id s = true) subs) in *.
  assert (∀ t, t ∈ sb_id <$> ss ↔ ∃ s, s ∈ subs ∧ sb_id s = t ∧ wants id s = true) as Hall.
  { intros t. rewrite list_elem_of_fmap. split.
    - intros (s & -> & [? ?]%list_elem_of_filter). eauto.
    - intros (s & Hs & <- & Hw). exists s. split; [done|]. by apply list_elem_of_filter. }
  destruct ss as [|s ss']; simplify_eq.
  - split; [done|]. intros Hack. apply andb_true_iff in Hack as [-> Hack]. unfold residueGate, HasOpenEntryByRequest, query, exec in Hack.
    destruct n as [|[]]; cbn in Hack; try done. split_and!; try done. intros b e He. apply negb_true_iff in Hack.
    destruct (entry_open e) eqn:Ho; [|done]. exfalso. rewrite <- not_true_iff_false in Hack. apply Hack.
    apply existsb_exists. exists ((b, id), e). split; [by apply list_elem_of_In, elem_of_map_to_list|]. cbn. rewrite Ho.
    by rewrite bool_decide_eq_true_2.
  - split; [exact Hall|done].
Qed.

(** The error line of a request that failed without an HTTP response on
    the asynchronous path carries no custom ID: the delivery names only the
    request, and enriching an error result of a pending request accepts it
    without attaching the request's custom ID, whatever that is. *)
Theorem async_failure_loses_custom_id p resp req :
  p !! gr_RequestID resp = Some req → gr_NonHTTPFailure resp = true →
  ∃ r, Enrich p (asyncResult resp) = Some r ∧ ri_CustomID r = "" ∧ Succeeded r = false.
Proof.
  intros Hp Hf. unfold asyncResult. rewrite Hf. unfold Enrich, failed_result_item. cbn [ri_Error ri_RequestID ri_CustomID].
  unfold Has. rewrite (bool_decide_eq_true_2 (is_Some _)) by by rewrite Hp. cbn [orb]. eexists. split; [done|]. done.
Qed.

(** Tenant-scoped routing makes asynchronous batches fail: ingestion
    checks an asynchronous pool by the bare model name, but the source hands
    the dispatcher the route key, so with the tenant method a request for a
    registered model is accepted, then answered with [model_not_found] and
    never submitted, unless a pool happens to be registered under the scoped
    name as well. *)
Theorem tenant_routing_fails_async uuid unmarshalRequest file batchID tenantID passThrough slo objective fairness
    client submit fresh entry modelID item st cache :
  tenantID ≠ "" → client modelID = true → client (tenantID +:+ "/" +:+ modelID) = false →
  readEntry uuid unmarshalRequest file batchID tenantID RouteKeyMethodTenant passThrough slo objective fairness fresh entry modelID
    = Ok item → rq_ParseError item = None →
  (lookupModel tenantID (LookupAsync client) cache modelID).1 = true ∧
  async_step client submit st item = (st.1.1, app st.1.2 [Error item "model_not_found"], st.2).
Proof.
  intros Ht Hc Hs Hr Hpe. split; [done|]. unfold readEntry in Hr. destruct (ReadAt _ _ _) as [buf|]; [|done].
  destruct (unmarshalRequest _) as [req|]; [|by injection Hr as <-]. injection Hr as <-.
  destruct st as [[p out] sent]. unfold async_step. cbn [rq_ModelID]. unfold routeKey.
  rewrite (bool_decide_eq_false_2 (tenantID = "")) by done. by rewrite Hs.
Qed.
