(* ===== verification/Runs.v ===== *)
(** * Concrete runs of finalization and of jobs

    A finished batch with one output line and one error line, and short runs
    of the finalizer, the job runner and startup recovery on it; each
    instantiates a theorem of [Assembly] or [Handover]. *)

From Stdlib Require Import ZArith Lia Ascii String.
From stdpp Require Import base gmap strings list sorting pretty.
From S2P Require Import Prelude Openai Store StoreOps Ownership Fencing Lifecycle Examples Planner Preprocess.
From S2P Require Import Files ResultStore Entries Finalizer Assembly JobRunner Handover Pipeline Dispatch.
Local Open Scope string_scope.
Local Open Scope Z_scope.

Definition toy_sha (d : bytes) : string := pretty (length d).
Definition toy_uuid (s : string) : string := s.
Definition toy_line (id custom code msg : string) : bytes := [123; 125].

Definition done_entry (st : EntryStatus) (ordinal : Z) (key sha : string) (size : Z) (code : option string) : Entry :=
  {| e_ordinal := ordinal; e_custom_id := "c"; e_status := st; e_attempts := 1; e_submitted_by := Some "p1";
     e_result_key := Some key; e_result_bytes := Some size; e_result_sha256 := Some sha; e_error_code := code |}.
Definition finished_db : DB :=
  {| items := <["b1" := active_row]> ∅;
     entries := <[("b1", "q1") := done_entry ECompleted 0 "k1" "2" 2 None]>
                  (<[("b1", "q2") := done_entry EFailed 1 "k2" "3" 3 (Some "server_error")]> ∅) |}.
Definition toy_folder : string := "t-1".
Definition finished_world : PWorld :=
  {| pw := {| w_db := finished_db; w_fs := <["t-1/k1" := [65; 10]]> (<["t-1/k2" := [66; 67; 10]]> ∅) |}; pw_files := ∅ |}.

Definition calm_net : FinNet :=
  {| fn_page := λ _, NetOk; fn_fetch := λ _, NetOk; fn_open := λ _, NetOk; fn_write := λ _ _, NetOk;
     fn_commit := λ _, NetOk; fn_verify := λ _, NetOk; fn_record := λ _, (NetOk, NetOk); fn_finalize := (NetOk, NetOk);
     fn_purge := None; fn_status := NetOk |}.
(** The commit of an artifact succeeds but its response is lost. *)
Definition lost_commit : FinNet :=
  {| fn_page := λ _, NetOk; fn_fetch := λ _, NetOk; fn_open := λ _, NetOk; fn_write := λ _ _, NetOk;
     fn_commit := λ _, NetErr true; fn_verify := λ _, NetOk; fn_record := λ _, (NetOk, NetOk);
     fn_finalize := (NetOk, NetOk); fn_purge := None; fn_status := NetOk |}.

Lemma finished_ordinals : ordinals_ok "b1" finished_db.
Proof.
  split.
  - intros q e. cbn [finished_db entries]. rewrite !lookup_insert. repeat case_decide; intros; simplify_eq; cbn; lia.
  - intros q1 q2 e1 e2. cbn [finished_db entries]. rewrite !lookup_insert.
    repeat case_decide; intros; simplify_eq; try done.
Qed.
Lemma finished_intact : results_intact toy_sha "b1" toy_folder (pw finished_world).
Proof.
  intros q e. cbn [finished_world pw w_db finished_db entries]. rewrite !lookup_insert.
  repeat case_decide; intros; simplify_eq; [exists "k1", [65; 10]|exists "k2", [66; 67; 10]]; by vm_compute.
Qed.


(** The batch of [Examples], with entries still open. *)
Definition open_world : PWorld := {| pw := {| w_db := active_db; w_fs := ∅ |}; pw_files := ∅ |}.
Lemma completion_needs_every_entry_run :
  ∃ x, assembleResumableArtifacts toy_sha toy_uuid toy_line 0 calm_net 5 9 "b1" "x" ∅ "" open_world = (open_world, Err x).
Proof.
  eapply (completion_needs_every_entry toy_sha toy_uuid toy_line 0 calm_net 5 9 "b1" "x" toy_folder ∅ open_world
    (scanEntryRow (("b1", "q2"), entry EPending 2 0 None))).
  - reflexivity.
  - apply active_ordinals.
  - apply list_elem_of_lookup. exists 1%nat. vm_compute. reflexivity.
  - reflexivity.
Defined.

(** ** Jobs *)
Definition calm_job : JobNet :=
  {| jn_now := 1000; jn_fuel := 9; jn_fin := calm_net; jn_status := NetOk; jn_fallback := NetOk; jn_fetch := NetOk;
     jn_enqueue := NetOk; jn_requeue := (NetOk, NetOk); jn_remove := true; jn_activate := NetOk;
     jn_rejected := λ _, (NetOk, NetOk); jn_pages := λ _, NetOk |}.
Definition job_world (db : DB) : JWorld :=
  {| jw := {| pw := {| w_db := db; w_fs := ∅ |}; pw_files := ∅ |}; jw_dirs := {["b1"]}; jw_tokens := 1 |}.
Definition old_item : BatchItem := item_of "b1" active_row.
Definition old_params (resumable : bool) : jobExecutionParams :=
  {| jp_jobItem := old_item;
     jp_jobInfo := {| ji_JobID := "b1"; ji_TenantID := "t"; ji_BatchJob := {| b_ID := "b1"; b_StatusInfo := doc BatchStatusInProgress |};
                      ji_PassThroughHeaders := ∅; ji_TraceContext := ∅ |};
     jp_task := Some {| bj_ID := "b1"; bj_SLO := None; bj_Epoch := 1; bj_ProcessorID := "p1";
                        bj_ExpectedStatus := BatchStatusInProgress; bj_RecoveryAttempts := 0; bj_Resumable := resumable |};
     jp_resultSink := None; jp_resumeSeed := None; jp_requestCounts := None |}.
(** Ingestion fails while p2 renews the lease it took over. *)
Definition failing_phases : Phases :=
  {| ph_watcher_ok := true; ph_ingest := Err ErrIO; ph_exec_counts := None; ph_exec_err := None; ph_cause := NotAborted;
     ph_cause_final := NotAborted; ph_env := λ i, if (i =? 0)%nat then [SRenew 85000000 "b1" "p2" 3 30000000000] else [] |}.
Definition taken_over : DB := run_all takeover active_db.


Lemma durable_error_is_fenced_run :
  unchanged_or_finalized "p1" 1000 "b1" 1 BatchStatusExpired active_db
    (jdb (handleJobError toy_sha toy_uuid toy_line 0 "p1" calm_job (old_params true) ErrExpired (job_world active_db)).1).
Proof. apply (durable_error_is_fenced toy_sha toy_uuid toy_line 0 "p1" calm_job (old_params true) ErrExpired (job_world active_db)). reflexivity. Defined.

(** A validating job of p1, read back after a restart. *)
Definition restarted_row : Row := set_r_epoch 2 (set_r_processor (Some "p1") (queued_row (Some 5000000))).
Definition restarted_db : DB := {| items := <["b1" := restarted_row]> ∅; entries := ∅ |}.
Lemma startup_recovery_settles_run :
  ∃ s' row', recoverJobOnce toy_sha (λ _, true) calm_job "b1" (job_world restarted_db) = (s', Ok tt) ∧
    items (jdb s') !! "b1" = Some row' ∧ recovered 1000 "b1" restarted_row (doc BatchStatusValidating) row'.
Proof.
  apply (startup_recovery_settles toy_sha (λ _, true) calm_job "b1" restarted_row (doc BatchStatusValidating) (job_world restarted_db));
    [by repeat split|vm_compute; reflexivity|discriminate|reflexivity|reflexivity|by exists "p1"|cbn; lia|reflexivity].
Defined.

Definition unreadable : PollNet :=
  {| pn_acquired := true; pn_locked := ∅; pn_dequeue := NetOk; pn_waited := true; pn_stopped := false;
     pn_job := {| jn_now := 1000; jn_fuel := 9; jn_fin := calm_net; jn_status := NetOk; jn_fallback := NetOk;
                  jn_fetch := NetErr false; jn_enqueue := NetOk; jn_requeue := (NetOk, NetOk); jn_remove := true;
                  jn_activate := NetOk; jn_rejected := λ _, (NetOk, NetOk); jn_pages := λ _, NetOk |} |}.
Definition requeued_task : BatchJobPriority :=
  {| bj_ID := "b1"; bj_SLO := None; bj_Epoch := 1; bj_ProcessorID := "p1"; bj_ExpectedStatus := BatchStatusInProgress;
     bj_RecoveryAttempts := 0; bj_Resumable := true |}.
Lemma fetch_failure_strands_resumable_run :
  ∃ s', poll_job toy_sha (λ _, true) "p1" unreadable requeued_task (job_world active_db) = (s', Ok PollContinue) ∧
    jdb s' = active_db ∧ jw_tokens s' = 0.
Proof.
  apply (fetch_failure_strands_resumable toy_sha (λ _, true) "p1" unreadable requeued_task active_row (job_world active_db) false);
    vm_compute; reflexivity.
Defined.

(** ** The pipeline *)
Definition toy_sink : batchResultStore := {| rs_batchID := "b1"; rs_folder := "t-1"; rs_processorID := "p1"; rs_epoch := 1 |}.
Definition calm_ckpt : ckpt_net :=
  {| cn_find := NetOk; cn_store := NetOk; cn_verify := NetOk; cn_fallback := NetOk; cn_commit := NetOk; cn_probe := NetOk;
     cn_delete := NetOk |}.
Definition delivered : Delivery * CkptEnv :=
  ({| dl_item := {| ri_RequestID := "q1"; ri_CustomID := "c"; ri_Status := Some 200; ri_Error := None |}; dl_durable := true |},
   {| ce_now := 1000; ce_net := calm_ckpt; ce_suffix := "s" |}).
Definition collector0 : Collector :=
  {| co_world := {| w_db := active_db; w_fs := ∅ |}; co_pending := ∅; co_tracker := NewProgressTracker 2; co_acked := [];
     co_firstErr := None; co_conflict := None; co_aborted := false |}.
Definition toy_marshal (r : ResultItem) : option bytes := Some [123; 125].

(** The same result delivered twice counts once. *)
Lemma drain_books_run :
  let c' := (Drain toy_sha toy_marshal toy_sink collector0 [delivered; delivered]).1 in
  co_acked c' = ["q1"; "q1"] ∧ pt_completed (co_tracker c') = 1 ∧ settled toy_sink "q1" (w_db (co_world c')).
Proof.
  cbv zeta. split; [vm_compute; reflexivity|]. split; [vm_compute; reflexivity|].
  pose proof (drain_books toy_sha toy_marshal toy_sink collector0 [delivered; delivered] (conj eq_refl eq_refl) eq_refl) as H.
  destruct (Drain toy_sha toy_marshal toy_sink collector0 [delivered; delivered]) as [c' r] eqn:He. destruct H as [H _].
  apply H. assert (co_acked c' = ["q1"; "q1"]) as ->; [|left].
  apply (f_equal (λ x, co_acked x.1)) in He. cbn [fst] in He. rewrite <- He. vm_compute. reflexivity.
Defined.

Definition toy_request : RequestItem :=
  {| rq_RequestID := "q2"; rq_CustomID := "c"; rq_ModelID := "m"; rq_Endpoint := "/v1/completions"; rq_Body := [];
     rq_Headers := ∅; rq_ParseError := None |}.
Definition toy_input : PreIn := {| pi_req := toy_request; pi_cause := NotAborted; pi_now := 1000; pi_net1 := NetOk; pi_net2 := NetOk |}.
Lemma submissions_are_fenced_run :
  (pre_loop "b1" "p1" 1 NotAborted [toy_input] active_db).2 = [Forward toy_request] ∧
  handed_out "b1" "p1" "q2" (pre_loop "b1" "p1" 1 NotAborted [toy_input] active_db).1.
Proof.
  split; [vm_compute; reflexivity|].
  assert (attempts_nonneg active_db) as Hnn.
  { intros k x. cbn [active_db entries]. rewrite !lookup_insert. repeat case_decide; intros; simplify_eq; cbn; lia. }
  pose proof (submissions_are_fenced "b1" "p1" 1 NotAborted [toy_input] active_db Hnn) as H.
  destruct (pre_loop "b1" "p1" 1 NotAborted [toy_input] active_db) as [db' evs] eqn:He. destruct H as (_ & H & _).
  apply (H toy_request). assert (evs = [Forward toy_request]) as ->; [|left].
  apply (f_equal snd) in He. cbn [snd] in He. rewrite <- He. vm_compute. reflexivity.
Defined.

Lemma recovery_wait_leaves_budget_run :
  recovery_wait 30 (Some 100) 50 = 20 ∧ 30 ≤ 100 - (50 + 20).
Proof. split; [reflexivity|]. apply (recovery_wait_leaves_budget 30 (Some 100) 50); [lia|reflexivity|reflexivity]. Defined.

Lemma residue_is_safe_run :
  route [] true (Some (residueGate NetOk finished_db)) "q1" = ([], true) ∧
  ∀ b e, entries finished_db !! (b, "q1") = Some e → entry_open e = false.
Proof.
  split; [vm_compute; reflexivity|].
  apply (residue_is_safe [] true NetOk finished_db "q1" [] true ltac:(vm_compute; reflexivity)). reflexivity.
Defined.

Lemma async_failure_loses_custom_id_run :
  ∃ r, Enrich {["q2" := toy_request]} (asyncResult {| gr_RequestID := "q2"; gr_NonHTTPFailure := true; gr_ErrorCode := "TIMEOUT";
         gr_StatusCode := 0; gr_Empty := true; gr_Parsed := false |}) = Some r ∧ ri_CustomID r = "" ∧ Succeeded r = false.
Proof. eapply (async_failure_loses_custom_id {["q2" := toy_request]} _ toy_request); reflexivity. Defined.

Definition toy_pool (m : string) : bool := bool_decide (m = "m").
Definition toy_req : Request := {| req_CustomID := "c"; req_URL := "/v1/completions"; req_Body := [] |}.
Definition toy_plan : planEntry := {| Offset := 0; Length := 2; PrefixHash := 0 |}.
Definition scoped_request : RequestItem :=
  {| rq_RequestID := stableBatchRequestID toy_uuid "b1" "c"; rq_CustomID := "c"; rq_ModelID := "t/m";
     rq_Endpoint := "/v1/completions"; rq_Body := []; rq_Headers := ∅; rq_ParseError := None |}.
Lemma tenant_routing_fails_async_run :
  async_step toy_pool (λ _, None) (∅, [], []) scoped_request = (∅, [Error scoped_request "model_not_found"], []).
Proof.
  apply (tenant_routing_fails_async toy_uuid (λ _, Some toy_req) [123; 125] "b1" "t" ∅ None (λ _, "") false toy_pool (λ _, None) "f"
    toy_plan "m" scoped_request (∅, [], []) ∅); [discriminate|vm_compute; reflexivity..].
Defined.
