(* ===== verification/Query.v ===== *)
(** * Reading the store: [DBGet] and offset pagination

    [buildGetQuery] and [get] of [db_core.go] and [DBGet] of [batch_db.go]:
    the WHERE clause as a row predicate, ORDER BY id with OFFSET and LIMIT,
    and the extra row that tells whether more are left.

    IDs are ordered bytewise.  [EXTRACT(EPOCH FROM NOW())::BIGINT] rounds the
    clock to the nearest second. *)

From Stdlib Require Import ZArith Lia.
From stdpp Require Import base gmap strings list sorting.
From S2P Require Import Prelude Openai Store StoreOps.
Local Open Scope string_scope.
Local Open Scope Z_scope.

(** ** Pages *)
Definition id_le {A} (a b : string * A) : Prop := String.le a.1 b.1.
#[export] Instance id_le_dec {A} : RelDecision (@id_le A).
Proof. unfold id_le. intros a b. apply _. Defined.

Definition by_id {A} (desc : bool) (l : list (string * A)) : list (string * A) :=
  if desc then merge_sort (flip id_le) l else merge_sort id_le l.
(** The selected rows of a table in ID order. *)
Definition select_rows {A} (desc : bool) (sel : string → A → bool) (m : gmap string A) : list (string * A) :=
  by_id desc (filter (λ kr, sel kr.1 kr.2 = true) (map_to_list m)).
(** [get]: the page, the next cursor and whether more rows are expected. The
    statement asks for one row more than the limit. Its offset is [0] when the
    query continues after an ID, while the cursor always counts from the
    caller's [start]. *)
Definition get_at {A} (rows : list (string * A)) (offset start limit : nat) : list (string * A) * nat * bool :=
  let got := take (S limit) (drop offset rows) in
  let page := take limit got in
  (page, (start + length page)%nat, (limit <? length got)%nat).
Definition get_page {A} (rows : list (string * A)) (start limit : nat) : list (string * A) * nat * bool :=
  get_at rows start start limit.

(** ** [BatchQuery] *)
Record BatchQuery := {
  bq_IDs : list string; bq_TenantID : string; bq_TagSelectors : gmap string string; bq_TagsOr : bool;
  bq_Expired : bool; bq_AfterID : string; bq_Descending : bool; bq_ProcessorID : string; bq_NonTerminal : bool;
  bq_HasProcessorID : bool }.
Definition emptyQuery : BatchQuery :=
  {| bq_IDs := []; bq_TenantID := ""; bq_TagSelectors := ∅; bq_TagsOr := false; bq_Expired := false;
     bq_AfterID := ""; bq_Descending := false; bq_ProcessorID := ""; bq_NonTerminal := false;
     bq_HasProcessorID := false |}.

(** [expiryCondition]. *)
Definition epoch_seconds (now : Z) : Z := (now + 500000) / 1000000.
Definition expired_at (now expiry : Z) : bool := (0 <? expiry) && (expiry <=? epoch_seconds now).

Definition tag_match (tags : gmap string string) (kv : string * string) : bool :=
  bool_decide (tags !! kv.1 = Some kv.2).
Definition after_id (desc : bool) (after id : string) : bool :=
  negb (bool_decide (id = after)) && (if desc then bool_decide (String.le id after) else bool_decide (String.le after id)).

(** The conditions the query sets, each a predicate. *)
Definition conditions (now : Z) (q : BatchQuery) : list (string → Row → bool) :=
  app (if bool_decide (bq_IDs q = []) then [] else [λ id _, bool_decide (id ∈ bq_IDs q)])
  (app (if bool_decide (bq_TenantID q = "") then [] else [λ _ r, bool_decide (r_tenant r = bq_TenantID q)])
  (app (if bool_decide (bq_TagSelectors q = ∅) then []
        else [λ _ r, (if bq_TagsOr q then @existsb _ else @forallb _) (tag_match (r_tags r))
                       (map_to_list (bq_TagSelectors q))])
  (app (if bq_Expired q then [λ _ r, expired_at now (r_expiry r)] else [])
  (app (if bool_decide (bq_ProcessorID q = "") then []
        else [λ _ r, bool_decide (r_processor r = Some (bq_ProcessorID q))])
  (app (if bool_decide (bq_AfterID q = "") then [] else [λ id _, after_id (bq_Descending q) (bq_AfterID q) id])
  (app (if bq_NonTerminal q then [λ _ r, nonTerminalCondition r] else [])
       (if bq_HasProcessorID q then [λ _ r, bool_decide (r_processor r ≠ None)] else []))))))).

(** A query without conditions returns nothing. *)
Definition db_page (now : Z) (q : BatchQuery) (start limit : nat) (db : DB) : list (string * Row) * nat * bool :=
  match conditions now q with
  | [] => ([], O, false)
  | cs => get_at (select_rows (bq_Descending q) (λ id r, forallb (λ c, c id r) cs) (items db))
            (if bool_decide (bq_AfterID q = "") then start else O) start limit
  end.
(** The spec column is read only when [includeStatic] is set. *)
Definition without_spec (kr : string * Row) : string * Row :=
  (kr.1, {| r_tenant := r_tenant kr.2; r_expiry := r_expiry kr.2; r_tags := r_tags kr.2; r_spec := "";
            r_status := r_status kr.2; r_processor := r_processor kr.2; r_priority := r_priority kr.2;
            r_epoch := r_epoch kr.2; r_attempts := r_attempts kr.2; r_resumable := r_resumable kr.2;
            r_lease := r_lease kr.2 |}).
Definition DBGet (now : Z) (n : net) (q : option BatchQuery) (includeStatic : bool) (start limit : nat)
    : M DB (list (string * Row) * nat * bool) :=
  match q with
  | None => ret ([], O, false)
  | Some q =>
      p <- query n (db_page now q start limit) ;;
      let '(rows, cursor, more) := p in
      ret (if includeStatic then rows else without_spec <$> rows, cursor, more)
  end.

(** ** Lemmas *)
#[export] Instance id_le_total {A} : base.Total (@id_le A).
Proof. intros a b. unfold id_le. destruct (base.total String.le a.1 b.1); auto. Qed.
#[export] Instance id_le_trans {A} : Transitive (@id_le A).
Proof. intros a b c. unfold id_le. apply transitivity. Qed.

Lemma select_rows_perm {A} desc sel (m : gmap string A) :
  select_rows desc sel m ≡ₚ filter (λ kr, sel kr.1 kr.2 = true) (map_to_list m).
Proof. unfold select_rows, by_id. destruct desc; apply merge_sort_Permutation. Qed.
Lemma elem_of_select_rows {A} desc sel (m : gmap string A) k r :
  (k, r) ∈ select_rows desc sel m ↔ m !! k = Some r ∧ sel k r = true.
Proof. rewrite select_rows_perm, list_elem_of_filter, elem_of_map_to_list. naive_solver. Qed.
Lemma NoDup_select_rows {A} desc sel (m : gmap string A) : NoDup (select_rows desc sel m).*1.
Proof.
  rewrite select_rows_perm. generalize (NoDup_fst_map_to_list m). generalize (map_to_list m). intros l.
  induction l as [|x l IH]; [done|]. rewrite fmap_cons. intros [Hx Hl]%NoDup_cons. rewrite filter_cons.
  case_decide; [|by apply IH]. rewrite fmap_cons. apply NoDup_cons. split; [|by apply IH].
  intros (y & Hy & Hin)%list_elem_of_fmap. apply Hx. rewrite Hy. apply list_elem_of_filter in Hin as [_ Hin].
  by apply list_elem_of_fmap_2.
Qed.
Lemma select_rows_sorted {A} sel (m : gmap string A) : StronglySorted id_le (select_rows false sel m).
Proof. apply (StronglySorted_merge_sort _). Qed.
