(* ===== verification/Reconciler.v ===== *)
(** * The orphan reconciler

    [internal/gc/reconciler/reconciler.go]: a cycle refreshes the set of live
    processors, reads the owned non-terminal jobs page by page and triages
    each.  Other clients keep working during a cycle: [te_before] and
    [between] hold the statements they execute before a triage or between two
    pages.  The Go clock and the database clock are separate arguments, in
    microseconds. *)

From Stdlib Require Import ZArith Lia.
From stdpp Require Import base gmap strings list sorting.
From S2P Require Import Prelude Openai Store StoreOps Ownership Fencing Query.
Local Open Scope string_scope.
Local Open Scope Z_scope.

Record Result := { Expired : Z; ReEnqueued : Z; Conflicts : Z; RErrors : Z }.
Definition noResult : Result := {| Expired := 0; ReEnqueued := 0; Conflicts := 0; RErrors := 0 |}.
Inductive Outcome := CountExpired | CountReEnqueued | CountConflict | CountError | CountNothing.
Definition bump (o : Outcome) (r : Result) : Result :=
  match o with
  | CountExpired => {| Expired := Expired r + 1; ReEnqueued := ReEnqueued r; Conflicts := Conflicts r; RErrors := RErrors r |}
  | CountReEnqueued => {| Expired := Expired r; ReEnqueued := ReEnqueued r + 1; Conflicts := Conflicts r; RErrors := RErrors r |}
  | CountConflict => {| Expired := Expired r; ReEnqueued := ReEnqueued r; Conflicts := Conflicts r + 1; RErrors := RErrors r |}
  | CountError => {| Expired := Expired r; ReEnqueued := ReEnqueued r; Conflicts := Conflicts r; RErrors := RErrors r + 1 |}
  | CountNothing => r
  end.

Record Reconciler := { liveProcessors : gmap string bool; snapshotReady : bool; dryRun : bool }.
(** The flags tell whether the three store clients are non-nil. *)
Definition NewReconciler (batchDB queue resumable : bool) (interval : Z) (dry : bool) : result Reconciler :=
  if negb batchDB then Err (ErrOther "batchDB client is required")
  else if negb queue then Err (ErrOther "queue client is required")
  else if negb resumable then Err (ErrOther "resumable store is required")
  else if interval <=? 0 then Err (ErrOther "interval must be positive")
  else Ok {| liveProcessors := ∅; snapshotReady := false; dryRun := dry |}.
Definition SetLiveProcessors (live : gmap string bool) (rc : Reconciler) : Reconciler :=
  {| liveProcessors := live; snapshotReady := true; dryRun := dryRun rc |}.
Definition isProcessorAlive (rc : Reconciler) (processorID : string) : bool :=
  default false (liveProcessors rc !! processorID).

(** ** Triage of one job *)
Record TriageEnv := { te_before : list Stmt; te_go : Z; te_db : Z; te_n1 : net; te_n2 : net }.
Abbreviation Job := (string * Row)%type.
Definition job_processor (job : Job) : string := default "" (r_processor job.2).
Definition job_priority (job : Job) : Z := default 0 (r_priority job.2).

Definition isSLOExpired (go : Z) (job : Job) : bool :=
  if job_priority job <=? 0 then false else job_priority job <? go.

(** What a failed call counts as. *)
Definition failure (e : err) : Outcome := if bool_decide (e = ErrConflict) then CountConflict else CountError.

Definition orphan_update (job : Job) (updated : BatchStatusInfo) : BatchItem :=
  {| bi_ID := job.1;
     bi_row := {| r_tenant := ""; r_expiry := 0; r_tags := ∅; r_spec := ""; r_status := Some updated;
                  r_processor := None; r_priority := None; r_epoch := r_epoch job.2; r_attempts := 0;
                  r_resumable := false; r_lease := None |};
     bi_BumpEpoch := true; bi_ExpectedResumable := Some false |}.
Definition transitionOrphan (rc : Reconciler) (env : TriageEnv) (job : Job) (statusInfo : BatchStatusInfo)
    (target : BatchStatus) (db : DB) : DB * Outcome :=
  match BuildUpdatedStatusInfo (te_go env / 1000000) statusInfo target None None with
  | Err _ => (db, CountError)
  | Ok updated =>
      if dryRun rc then (db, CountExpired)
      else match DBUpdate (te_n1 env) (Some (orphan_update job updated)) (r_status job.2) db with
           | (db', Ok _) => (db', CountExpired)
           | (db', Err e) => (db', failure e)
           end
  end.

Definition orphan_task (job : Job) (expectedStatus : BatchStatus) : BatchJobPriority :=
  {| bj_ID := job.1; bj_SLO := Some (job_priority job); bj_Epoch := r_epoch job.2;
     bj_ProcessorID := job_processor job; bj_ExpectedStatus := expectedStatus; bj_RecoveryAttempts := 0;
     bj_Resumable := false |}.
Definition reEnqueueOrphan (rc : Reconciler) (env : TriageEnv) (job : Job) (expectedStatus : BatchStatus) (db : DB)
    : DB * Outcome :=
  if job_priority job <=? 0 then (db, CountError)
  else if dryRun rc then (db, CountReEnqueued)
  else match PQEnqueue (te_n1 env) (Some (orphan_task job expectedStatus)) db with
       | (db', Ok _) => (db', CountReEnqueued)
       | (db', Err e) => (db', failure e)
       end.

(** A NULL status does not unmarshal. *)
Definition triageOrphan (rc : Reconciler) (env : TriageEnv) (job : Job) (db : DB) : DB * Outcome :=
  match r_status job.2 with
  | None => (db, CountError)
  | Some statusInfo =>
      if bool_decide (Status statusInfo = BatchStatusCancelling)
      then transitionOrphan rc env job statusInfo BatchStatusCancelled db
      else if isSLOExpired (te_go env) job then transitionOrphan rc env job statusInfo BatchStatusFailed db
      else reEnqueueOrphan rc env job (Status statusInfo) db
  end.

Definition triageResumable (rc : Reconciler) (env : TriageEnv) (job : Job) (db : DB) : DB * Outcome :=
  let ownerAlive := isProcessorAlive rc (job_processor job) in
  if ownerAlive && lease_valid (te_go env) job.2 then (db, CountNothing)
  else if dryRun rc then (db, CountReEnqueued)
  else match RequeueResumableOrphan (te_db env) (te_n1 env) (te_n2 env) job.1 (job_processor job) (r_epoch job.2)
               ownerAlive true db with
       | (db', Ok _) => (db', CountReEnqueued)
       | (db', Err _) => (db', CountError)
       end.

Definition triage (rc : Reconciler) (env : TriageEnv) (job : Job) (db : DB) : DB * Outcome :=
  if r_resumable job.2 then triageResumable rc env job db
  else if isProcessorAlive rc (job_processor job) then (db, CountNothing)
  else triageOrphan rc env job db.

(** ** A cycle *)
Definition pageSize : nat := 100.
Definition orphanQuery : BatchQuery :=
  {| bq_IDs := []; bq_TenantID := ""; bq_TagSelectors := ∅; bq_TagsOr := false; bq_Expired := false;
     bq_AfterID := ""; bq_Descending := false; bq_ProcessorID := ""; bq_NonTerminal := true;
     bq_HasProcessorID := true |}.

(** One environment per page. *)
Record PageEnv := { pe_before : list Stmt; pe_now : Z; pe_net : net }.
Fixpoint fetchNonTerminalJobs (pages : list PageEnv) (cursor : nat) (all : list Job) : M DB (list Job) :=
  match pages with
  | [] => throw (ErrOther "out of pages")
  | p :: rest => λ db,
      (got <- DBGet (pe_now p) (pe_net p) (Some orphanQuery) false cursor pageSize ;;
       let '(rows, nextCursor, more) := got in
       if (more : bool) then fetchNonTerminalJobs rest nextCursor (app all rows) else ret (app all rows))
      (run_all (pe_before p) db)
  end.

Fixpoint triage_all (rc : Reconciler) (jobs : list Job) (envs : list TriageEnv) (st : DB * Result) : DB * Result :=
  match jobs, envs with
  | job :: jobs, env :: envs =>
      let '(db', o) := triage rc env job (run_all (te_before env) st.1) in
      triage_all rc jobs envs (db', bump o st.2)
  | _, _ => st
  end.

(** [refresh] is the outcome of the live-pod callback, when one is installed. *)
Definition run (refresh : option (result (gmap string bool))) (pages : list PageEnv) (envs : list TriageEnv)
    (rc : Reconciler) (db : DB) : Reconciler * (DB * Result) :=
  let rc' := match refresh with Some (Ok live) => SetLiveProcessors live rc | _ => rc end in
  if negb (snapshotReady rc') then (rc', (db, noResult))
  else match fetchNonTerminalJobs pages 0 [] db with
       | (db', Err _) => (rc', (db', bump CountError noResult))
       | (db', Ok jobs) => (rc', triage_all rc' jobs envs (db', noResult))
       end.

(** ** What a triage may do *)

(** The row is displaced because its owner is lost. *)
Inductive displaces (rc : Reconciler) (env : TriageEnv) (job : Job) (r : Row) : Row → Prop :=
| displaces_requeue :
    r_resumable job.2 = true → r_resumable r = true → nonTerminalCondition r = true →
    owner_is (job_processor job) (r_epoch job.2) r = true →
    isProcessorAlive rc (job_processor job) = false ∨ lease_expired (te_db env) r = true →
    displaces rc env job r (requeue_row true r)
| displaces_enqueue d :
    r_resumable job.2 = false → r_resumable r = false → nonTerminalCondition r = true →
    owner_is (job_processor job) (r_epoch job.2) r = true → isProcessorAlive rc (job_processor job) = false →
    r_status job.2 = Some d → Status d ≠ BatchStatusCancelling → status_is (Status d) r = true →
    isSLOExpired (te_go env) job = false →
    displaces rc env job r (enqueue_row r)
| displaces_terminal d target doc :
    r_resumable job.2 = false → r_resumable r = false → isProcessorAlive rc (job_processor job) = false →
    r_epoch r = r_epoch job.2 → r_status r = Some d → r_status job.2 = Some d →
    (Status d = BatchStatusCancelling ∧ target = BatchStatusCancelled) ∨
    (Status d ≠ BatchStatusCancelling ∧ isSLOExpired (te_go env) job = true ∧ target = BatchStatusFailed) →
    BuildUpdatedStatusInfo (te_go env / 1000000) d target None None = Ok doc →
    displaces rc env job r (set_r_epoch (r_epoch r + 1) (set_r_status (Some doc) r)).

(** Nothing, or exactly one justified displacement of the job's row. *)
Definition triage_effect (rc : Reconciler) (env : TriageEnv) (job : Job) (db db' : DB) : Prop :=
  items db' = items db ∨
  dryRun rc = false ∧ ∃ r r', items db !! job.1 = Some r ∧ displaces rc env job r r' ∧
                              items db' = <[job.1 := r']> (items db).

Lemma update_row_effect g f id db : (update_row g f id db).1 = db ∧ (update_row g f id db).2 = O ∨
  ∃ r, items db !! id = Some r ∧ g r = true ∧ items (update_row g f id db).1 = <[id := f r]> (items db) ∧
       (update_row g f id db).2 = 1%nat.
Proof. unfold update_row. destruct (items db !! id) as [r|] eqn:E; [|by left]. destruct (g r) eqn:Eg; [right; eauto|by left]. Qed.

Lemma requeue_effect rc env job db :
  r_resumable job.2 = true → dryRun rc = false →
  triage_effect rc env job db
    (RequeueResumableOrphan (te_db env) (te_n1 env) (te_n2 env) job.1 (job_processor job) (r_epoch job.2)
       (isProcessorAlive rc (job_processor job)) true db).1.
Proof.
  intros Hres Hdry. unfold RequeueResumableOrphan, bindM, exec, total, sql_requeue.
  destruct (update_row_effect (λ r, owner_is (job_processor job) (r_epoch job.2) r && r_resumable r && nonTerminalCondition r
      && (negb (isProcessorAlive rc (job_processor job)) || lease_expired (te_db env) r)) (requeue_row true) job.1 db)
    as [[E1 E2]|(r & Hr & Hg & Hi & Hn)]; destruct (update_row _ _ _ db) as [db1 k]; cbn [fst snd] in *.
  - subst. destruct (te_n1 env) as [|[]]; by left.
  - assert (displaces rc env job r (requeue_row true r)) as Hd.
    { apply andb_prop in Hg as [Hg Hl]. apply andb_prop in Hg as [Hg Ht]. apply andb_prop in Hg as [Ho Hs].
      constructor; [done..|]. destruct (isProcessorAlive _ _); auto. }
    subst k. destruct (te_n1 env) as [|[]]; cbn; [|right|by left].
    + right. split; [done|]. exists r, (requeue_row true r). split; [done|]. split; [done|].
      destruct (te_n2 env) as [|[]]; cbn; done.
    + split; [done|]. by exists r, (requeue_row true r).
Qed.

Lemma enqueue_effect rc env job d db :
  r_resumable job.2 = false → dryRun rc = false → isProcessorAlive rc (job_processor job) = false →
  r_status job.2 = Some d → Status d ≠ BatchStatusCancelling → isSLOExpired (te_go env) job = false →
  triage_effect rc env job db (PQEnqueue (te_n1 env) (Some (orphan_task job (Status d))) db).1.
Proof.
  intros Hres Hdry Ha Hd Hc Hs. unfold PQEnqueue, orphan_task. cbn [bj_ID bj_Epoch bj_ProcessorID bj_ExpectedStatus].
  repeat (case_match; [by left|]). unfold bindM, exec, total, sql_enqueue.
  destruct (update_row_effect (λ r, owner_is (job_processor job) (r_epoch job.2) r && status_is (Status d) r
      && negb (r_resumable r) && nonTerminalCondition r) enqueue_row job.1 db)
    as [[E1 E2]|(r & Hr & Hg & Hi & Hn)]; destruct (update_row _ _ _ db) as [db1 k]; cbn [fst snd] in *.
  - subst. destruct (te_n1 env) as [|[]]; by left.
  - assert (displaces rc env job r (enqueue_row r)) as Hdis.
    { apply andb_prop in Hg as [Hg Ht]. apply andb_prop in Hg as [Hg Hnr%negb_true_iff].
      apply andb_prop in Hg as [Ho Hst]. by econstructor. }
    subst k. destruct (te_n1 env) as [|[]]; cbn; [right|right|by left]; (split; [done|]); by exists r, (enqueue_row r).
Qed.

Lemma transition_effect rc env job d target doc db :
  r_resumable job.2 = false → dryRun rc = false → isProcessorAlive rc (job_processor job) = false →
  r_status job.2 = Some d →
  (Status d = BatchStatusCancelling ∧ target = BatchStatusCancelled) ∨
  (Status d ≠ BatchStatusCancelling ∧ isSLOExpired (te_go env) job = true ∧ target = BatchStatusFailed) →
  BuildUpdatedStatusInfo (te_go env / 1000000) d target None None = Ok doc →
  triage_effect rc env job db (DBUpdate (te_n1 env) (Some (orphan_update job doc)) (r_status job.2) db).1.
Proof.
  intros Hres Hdry Ha Hd Ht Hb. unfold DBUpdate, orphan_update.
  cbn [bi_ID bi_row bi_BumpEpoch bi_ExpectedResumable r_status r_epoch r_tags]. case_match; [by left|].
  rewrite (bool_decide_eq_false_2 (Some doc = None)) by done. cbn [andb]. rewrite orb_true_r.
  unfold bindM, exec, StoreOps.total, sql_update.
  set (c := {| uc_status := r_status job.2; uc_epoch := Some (r_epoch job.2); uc_resumable := Some false |}).
  destruct (update_row_effect (update_guard c) (update_set (Some doc) ∅ true) job.1 db)
    as [[E1 E2]|(r & Hr & Hg & Hi & Hn)]; destruct (update_row _ _ _ db) as [db1 k]; cbn [fst snd] in *.
  - subst. destruct (te_n1 env) as [|[]]; left; cbn; by repeat case_match.
  - assert (displaces rc env job r (update_set (Some doc) ∅ true r)) as Hdis.
    { unfold update_guard, c in Hg. cbn in Hg. rewrite Hd in Hg.
      apply andb_prop in Hg as [Hg Hnr%bool_decide_eq_true]. apply andb_prop in Hg as [Hst%bool_decide_eq_true He%Z.eqb_eq].
      unfold update_set. rewrite bool_decide_eq_true_2 by done. by apply (displaces_terminal rc env job r d target doc). }
    subst k. destruct (te_n1 env) as [|[]]; cbn; [right|right|by left]; (split; [done|]); eauto.
Qed.

Lemma triage_has_effect rc env job db : triage_effect rc env job db (triage rc env job db).1.
Proof.
  unfold triage. destruct (r_resumable job.2) eqn:Hres.
  - unfold triageResumable. case_match; [by left|]. destruct (dryRun rc) eqn:Hd; [by left|].
    pose proof (requeue_effect rc env job db Hres Hd) as He. by destruct (RequeueResumableOrphan _ _ _ _ _ _ _ _ db) as [db' []].
  - destruct (isProcessorAlive _ _) eqn:Ha; [by left|]. unfold triageOrphan. destruct (r_status job.2) as [d|] eqn:Hd; [|by left].
    assert (∀ target, (Status d = BatchStatusCancelling ∧ target = BatchStatusCancelled) ∨
      (Status d ≠ BatchStatusCancelling ∧ isSLOExpired (te_go env) job = true ∧ target = BatchStatusFailed) →
      triage_effect rc env job db (transitionOrphan rc env job d target db).1) as Htr.
    { intros target Ht. unfold transitionOrphan. destruct (BuildUpdatedStatusInfo _ _ _ _ _) as [doc|] eqn:Hb; [|by left].
      destruct (dryRun rc) eqn:Hdry; [by left|].
      pose proof (transition_effect rc env job d target doc db Hres Hdry Ha Hd Ht Hb) as He.
      by destruct (DBUpdate _ _ _ db) as [db' []]. }
    case_bool_decide as Hc; [apply Htr; auto|]. destruct (isSLOExpired _ _) eqn:Hs; [apply Htr; auto|].
    unfold reEnqueueOrphan. case_match; [by left|]. destruct (dryRun rc) eqn:Hdry; [by left|].
    pose proof (enqueue_effect rc env job d db Hres Hdry Ha Hd Hc Hs) as He. by destruct (PQEnqueue _ _ db) as [db' []].
Qed.

(** ** Reading the jobs *)
Definition owned_open (id : string) (r : Row) : bool :=
  forallb (λ c : string → Row → bool, c id r)
    [λ _ r, nonTerminalCondition r; λ _ r, bool_decide (r_processor r ≠ None)].
Definition orphan_rows (db : DB) : list Job := select_rows false owned_open (items db).

Lemma orphan_page now start limit db : db_page now orphanQuery start limit db = get_page (orphan_rows db) start limit.
Proof. reflexivity. Qed.
Lemma elem_of_orphan_rows db id r :
  (id, r) ∈ orphan_rows db ↔ items db !! id = Some r ∧ nonTerminalCondition r = true ∧ is_Some (r_processor r).
Proof.
  unfold orphan_rows. rewrite elem_of_select_rows. unfold owned_open. cbn [forallb]. rewrite andb_true_r, andb_true_iff.
  rewrite bool_decide_eq_true. rewrite not_eq_None_Some. done.
Qed.

Lemma get_page_more {A} (rows : list (string * A)) start limit :
  get_page rows start limit =
    (take limit (drop start rows), (start + length (take limit (drop start rows)))%nat,
     (limit <? length (drop start rows))%nat).
Proof.
  unfold get_page, get_at. rewrite take_take, Nat.min_l by lia. f_equal. rewrite length_take.
  destruct (limit <? length (drop start rows))%nat eqn:E.
  - apply Nat.ltb_lt in E. apply Nat.ltb_lt. lia.
  - apply Nat.ltb_ge in E. apply Nat.ltb_ge. lia.
Qed.

Lemma elem_of_take_drop {A} (x : A) n k (l : list A) : x ∈ take n (drop k l) → x ∈ l.
Proof.
  intros H. rewrite <- (take_drop k l), elem_of_app. right. rewrite <- (take_drop n (drop k l)), elem_of_app. by left.
Qed.

(** A page without interference or fault. *)
Definition calm_page (p : PageEnv) : Prop := pe_before p = [] ∧ pe_net p = NetOk.

Lemma fetch_exact pages cursor all db :
  Forall calm_page pages → pages ≠ [] → (cursor ≤ length (orphan_rows db))%nat →
  (length (orphan_rows db) ≤ cursor + pageSize * length pages)%nat →
  fetchNonTerminalJobs pages cursor all db = (db, Ok (app all (without_spec <$> drop cursor (orphan_rows db)))).
Proof.
  revert cursor all. induction pages as [|p pages IH]; intros cursor all Hc Hne Hcur Hlen; [done|].
  apply Forall_cons in Hc as [[Hb Hn] Hc]. cbn [fetchNonTerminalJobs]. rewrite Hb. cbn [run_all foldl].
  unfold DBGet, query, exec, bindM. rewrite Hn, orphan_page, get_page_more. cbn [ret].
  assert (Hpos : (0 < pageSize)%nat) by (unfold pageSize; lia).
  rewrite length_drop. destruct (pageSize <? _)%nat eqn:E; cbn [ret].
  - apply Nat.ltb_lt in E. assert (Htk : length (take pageSize (drop cursor (orphan_rows db))) = pageSize)
      by (rewrite length_take, length_drop; lia).
    rewrite Htk, IH; [|done|..].
    + f_equal. f_equal. rewrite <- (assoc_L (++)). f_equal. rewrite <- fmap_app. f_equal.
      rewrite <- (take_drop pageSize (drop cursor (orphan_rows db))) at 2. f_equal. by rewrite drop_drop.
    + intros ->. cbn [length] in Hlen. lia.
    + lia.
    + cbn [length] in Hlen. lia.
  - apply Nat.ltb_ge in E. rewrite take_ge by (rewrite length_drop; lia). done.
Qed.

(** ** Rows that are left alone *)
Section Row.
Context (id : string).
(** Other clients leave the row alone. *)
Definition quiet (ss : list Stmt) : Prop := ∀ db, items (run_all ss db) !! id = items db !! id.

Lemma fetch_sound pages cursor all db :
  Forall (λ p, quiet (pe_before p)) pages →
  items (fetchNonTerminalJobs pages cursor all db).1 !! id = items db !! id ∧
  ∀ jobs, (fetchNonTerminalJobs pages cursor all db).2 = Ok jobs → ∀ job, job ∈ jobs → job.1 = id →
    job ∈ all ∨ ∃ r, items db !! id = Some r ∧ nonTerminalCondition r = true ∧ is_Some (r_processor r) ∧
                     job = without_spec (id, r).
Proof.
  revert cursor all db. induction pages as [|p pages IH]; intros cursor all db Hq; [done|].
  apply Forall_cons in Hq as [Hp Hq]. cbn [fetchNonTerminalJobs]. set (db1 := run_all (pe_before p) db).
  assert (Hdb1 : items db1 !! id = items db !! id) by apply Hp.
  unfold DBGet, query, exec, bindM. rewrite orphan_page.
  destruct (get_page (orphan_rows db1) cursor pageSize) as [[rows next] more] eqn:Eg.
  assert (Hrows : ∀ job, job ∈ without_spec <$> rows → job.1 = id → ∃ r, items db !! id = Some r ∧
    nonTerminalCondition r = true ∧ is_Some (r_processor r) ∧ job = without_spec (id, r)).
  { rewrite get_page_more in Eg. injection Eg as <- _ _. intros job ([k r] & -> & Hin)%list_elem_of_fmap Hid.
    cbn in Hid. subst k. exists r. rewrite <- Hdb1. apply elem_of_take_drop, elem_of_orphan_rows in Hin. naive_solver. }
  destruct (pe_net p) as [|[]]; cbn [fst snd]; [|by split; [|done]..].
  cbn [ret]. destruct more; cbn [ret fst snd].
  - destruct (IH next (app all (without_spec <$> rows)) db1 Hq) as [IH1 IH2]. split; [by rewrite IH1|].
    intros jobs Hj job Hin Hid. destruct (IH2 jobs Hj job Hin Hid) as [[H|H]%elem_of_app|H]; eauto.
    right. by rewrite <- Hdb1.
  - split; [done|]. intros jobs [= <-] job [Hin|Hin]%elem_of_app Hid; eauto.
Qed.

(** The row belongs to nobody, is terminal, or its owner is alive and its
    lease good whenever the reconciler asks. *)
Definition spared (rc : Reconciler) (envs : list TriageEnv) (r : Row) : Prop :=
  r_processor r = None ∨ nonTerminalCondition r = false ∨
  ∃ p, r_processor r = Some p ∧ isProcessorAlive rc p = true ∧
       (r_resumable r = true → Forall (λ env, lease_expired (te_db env) r = false) envs).

Lemma triage_other rc env job db : job.1 ≠ id → items (triage rc env job db).1 !! id = items db !! id.
Proof.
  intros Hne. destruct (triage_has_effect rc env job db) as [->|(_ & r & r' & _ & _ & ->)]; [done|].
  by rewrite lookup_insert_ne.
Qed.

Lemma triage_spares rc env job db r :
  items db !! id = Some r → spared rc [env] r →
  (job.1 = id → nonTerminalCondition r = true ∧ is_Some (r_processor r) ∧ job = without_spec (id, r)) →
  items (triage rc env job db).1 !! id = Some r.
Proof.
  intros Hr Hs Hjob. destruct (decide (job.1 = id)) as [Hid|Hid]; [|by rewrite triage_other].
  destruct (Hjob Hid) as (Hnt & [p Hp] & Hj). subst job.
  destruct Hs as [?|[?|(p' & Hp' & Ha & Hl)]]; [congruence|congruence|]. rewrite Hp in Hp'. injection Hp' as <-.
  destruct (triage_has_effect rc env (without_spec (id, r)) db) as [->|(_ & r0 & r' & Hr0 & Hd & _)]; [done|].
  cbn in Hr0. rewrite Hr in Hr0. injection Hr0 as <-. exfalso.
  assert (Hjp : job_processor (without_spec (id, r)) = p) by (unfold job_processor; cbn; by rewrite Hp).
  destruct Hd as [_ Hres _ _ Hdead|d _ _ _ _ Hdead|d target doc _ _ Hdead];
    rewrite Hjp in Hdead; [|congruence..].
  destruct Hdead as [|Hexp]; [congruence|]. specialize (Hl Hres). apply Forall_inv in Hl. congruence.
Qed.

Lemma triage_all_spares rc jobs envs db res r :
  items db !! id = Some r → spared rc envs r → Forall (λ env, quiet (te_before env)) envs →
  (∀ job, job ∈ jobs → job.1 = id → nonTerminalCondition r = true ∧ is_Some (r_processor r) ∧ job = without_spec (id, r)) →
  items (triage_all rc jobs envs (db, res)).1 !! id = Some r.
Proof.
  revert envs db res. induction jobs as [|job jobs IH]; intros envs db res Hr Hs Hq Hjobs; [done|].
  destruct envs as [|env envs]; [done|]. cbn [triage_all fst snd]. apply Forall_cons in Hq as [Hq0 Hq].
  assert (Hs1 : spared rc [env] r ∧ spared rc envs r).
  { unfold spared in *. destruct Hs as [?|[?|(p & ? & ? & Hl)]]; [auto..|].
    split; right; right; exists p; (split; [done|]; split; [done|]); intros Hres; destruct (Forall_cons_1 _ _ _ (Hl Hres));
      [by apply Forall_singleton|done]. }
  pose proof (triage_spares rc env job (run_all (te_before env) db) r) as Ht.
  destruct (triage rc env job (run_all (te_before env) db)) as [db' o]. cbn [fst] in Ht.
  apply IH; [|apply Hs1|done|intros j Hj; apply Hjobs; by right].
  apply Ht; [by rewrite Hq0|apply Hs1|]. intros Hid. apply Hjobs; [by left|done].
Qed.
End Row.

(** A reconciliation cycle never takes a batch away from a live owner:
    a row that nobody owns, that is terminal, or whose owner is in the live
    set (with an unexpired lease at every triage, if the batch is resumable)
    is left exactly as it is, whatever faults the cycle meets and whatever
    other clients do to the other batches meanwhile. *)
Theorem live_owner_is_spared refresh pages envs rc rc' db db' res id r :
  run refresh pages envs rc db = (rc', (db', res)) →
  items db !! id = Some r → spared rc' envs r →
  Forall (λ p, quiet id (pe_before p)) pages → Forall (λ env, quiet id (te_before env)) envs →
  items db' !! id = Some r.
Proof.
  unfold run. intros Hrun Hr Hs Hqp Hqe.
  set (rc1 := match refresh with Some (Ok live) => SetLiveProcessors live rc | _ => rc end) in *.
  destruct (negb (snapshotReady rc1)); [by simplify_eq|].
  pose proof (fetch_sound id pages 0 [] db Hqp) as [Hi Hj].
  destruct (fetchNonTerminalJobs pages 0 [] db) as [db1 [jobs|e]]; cbn [fst snd] in *; [|simplify_eq; by rewrite Hi].
  injection Hrun as <- Hrun. rewrite (surjective_pairing (triage_all _ _ _ _)) in Hrun. injection Hrun as <- _.
  apply triage_all_spares; [by rewrite Hi|done..|]. intros job Hin Hid.
  destruct (Hj jobs eq_refl job Hin Hid) as [Habs|(r' & Hr' & ?)]; [by apply elem_of_nil in Habs|].
  rewrite Hr in Hr'. injection Hr' as <-. done.
Qed.

(** ** Orphans are recovered *)
Definition calm_env (env : TriageEnv) : Prop := te_before env = [] ∧ te_n1 env = NetOk ∧ te_n2 env = NetOk.

(** An owned, open row the reconciler can act on: the columns hold what every
    writer stores, and a non-resumable job has the priority it was queued
    with. *)
Definition recoverable (id : string) (r : Row) : Prop :=
  id ≠ "" ∧ 0 ≤ r_epoch r ∧ nonTerminalCondition r = true ∧
  (∃ p, r_processor r = Some p ∧ p ≠ "") ∧
  (r_resumable r = false → 0 < default 0 (r_priority r) ∧ ∃ d, r_status r = Some d ∧ Status d ≠ "").
(** Back in the queue, or settled. *)
Definition recovered (r : Row) : Prop :=
  (r_processor r = None ∧ ∀ secs, 0 < secs → claimable secs r = true) ∨ terminal_row r.

Lemma requeue_row_recovered r : r_resumable r = true → nonTerminalCondition r = true → recovered (requeue_row true r).
Proof.
  intros Hres Hnt. left. split; [done|]. intros secs Hs. unfold claimable.
  rewrite bool_decide_eq_true_2 by done. change (nonTerminalCondition (requeue_row true r)) with (nonTerminalCondition r).
  change (r_resumable (requeue_row true r)) with (r_resumable r). rewrite Hres, Hnt.
  rewrite (proj2 (Z.ltb_lt 0 secs)) by done. done.
Qed.
Lemma enqueue_row_recovered r d : r_resumable r = false → r_status r = Some d → recovered (enqueue_row r).
Proof.
  intros Hres Hd. left. split; [done|]. intros secs Hs. unfold claimable, status_is, enqueue_row. cbn. rewrite Hres, Hd. cbn.
  by rewrite bool_decide_eq_true_2.
Qed.
Lemma built_status now d target doc c s :
  IsTerminal target = true → BuildUpdatedStatusInfo now d target c s = Ok doc → IsTerminal (Status doc) = true.
Proof.
  intros Ht. unfold BuildUpdatedStatusInfo.
  repeat (case_bool_decide; [subst; try done; intros [= <-]; destruct c; done|]). done.
Qed.
Lemma build_terminal now d target : target = BatchStatusCancelled ∨ target = BatchStatusFailed →
  ∃ doc, BuildUpdatedStatusInfo now d target None None = Ok doc.
Proof. intros [->| ->]; by eexists. Qed.

(** An orphan's own triage recovers it. *)
Lemma triage_recovers rc env db id r :
  calm_env env → dryRun rc = false → items db !! id = Some r → recoverable id r →
  isProcessorAlive rc (default "" (r_processor r)) = false →
  ∃ r', items (triage rc env (without_spec (id, r)) db).1 !! id = Some r' ∧ recovered r'.
Proof.
  intros (_ & Hn1 & Hn2) Hdry Hr (Hid & He & Hnt & (p & Hp & Hpne) & Hnr) Ha. unfold triage. cbn [without_spec snd r_resumable].
  set (job := without_spec (id, r)). assert (Hjp : job_processor job = p) by (unfold job, job_processor; cbn; by rewrite Hp).
  rewrite Hp in Ha. cbn in Ha.
  assert (Hown : owner_is p (r_epoch r) r = true)
    by (unfold owner_is; rewrite bool_decide_eq_true_2, Z.eqb_refl by done; done).
  destruct (r_resumable r) eqn:Hres.
  - unfold triageResumable. rewrite Hjp, Ha, Hdry. cbn [andb].
    unfold RequeueResumableOrphan, bindM, exec, total, sql_requeue, update_row. rewrite Hn1, Hn2.
    change (job.1) with id. change (r_epoch job.2) with (r_epoch r). rewrite Hr, Hown, Hres, Hnt. cbn.
    rewrite lookup_insert_eq. eexists. split; [done|]. by apply requeue_row_recovered.
  - destruct (Hnr eq_refl) as [Hpr (d & Hd & Hdne)]. rewrite Hjp, Ha. unfold triageOrphan.
    change (r_status job.2) with (r_status r). rewrite Hd.
    assert (Htr : ∀ target, target = BatchStatusCancelled ∨ target = BatchStatusFailed →
      ∃ r', items (transitionOrphan rc env job d target db).1 !! id = Some r' ∧ recovered r').
    { intros target Ht. unfold transitionOrphan. destruct (build_terminal (te_go env / 1000000) d target Ht) as [doc Hdoc].
      rewrite Hdoc, Hdry. unfold DBUpdate, orphan_update. cbn [bi_ID bi_row bi_BumpEpoch bi_ExpectedResumable r_status r_epoch r_tags].
      change (job.1) with id. rewrite (bool_decide_eq_false_2 (id = "")) by done.
      rewrite (bool_decide_eq_false_2 (Some doc = None)) by done. cbn [andb]. rewrite orb_true_r.
      unfold bindM, exec, StoreOps.total, sql_update, update_row. rewrite Hr, Hn1.
      unfold update_guard. cbn [uc_status uc_epoch uc_resumable]. change (r_status job.2) with (r_status r).
      change (r_epoch job.2) with (r_epoch r). rewrite Hd, Z.eqb_refl, Hres, !bool_decide_eq_true_2 by done. cbn.
      rewrite lookup_insert_eq. eexists. split; [done|]. right. exists doc. split; [done|].
      eapply built_status; [|done]. by destruct Ht as [->| ->]. }
    case_bool_decide; [apply Htr; auto|]. destruct (isSLOExpired _ _); [apply Htr; auto|].
    unfold reEnqueueOrphan, job_priority. change (r_priority job.2) with (r_priority r).
    rewrite (proj2 (Z.leb_gt _ 0)) by lia. rewrite Hdry. unfold PQEnqueue, orphan_task.
    cbn [bj_ID bj_Epoch bj_ProcessorID bj_ExpectedStatus]. change (job.1) with id. change (r_epoch job.2) with (r_epoch r).
    rewrite Hjp, !bool_decide_eq_false_2 by done. rewrite (proj2 (Z.ltb_ge _ _)) by lia.
    unfold bindM, exec, total, sql_enqueue, update_row. rewrite Hr, Hown, Hn1, Hres, Hnt. unfold status_is. rewrite Hd.
    rewrite bool_decide_eq_true_2 by done. cbn. rewrite lookup_insert_eq. eexists. split; [done|]. by eapply enqueue_row_recovered.
Qed.

Lemma triage_all_other rc jobs envs db res id :
  Forall calm_env envs → id ∉ jobs.*1 → items (triage_all rc jobs envs (db, res)).1 !! id = items db !! id.
Proof.
  revert envs db res. induction jobs as [|job jobs IH]; intros envs db res He Hid; [done|].
  destruct envs as [|env envs]; [done|]. apply Forall_cons in He as [[Hb _] He].
  rewrite fmap_cons in Hid. apply not_elem_of_cons in Hid as [Hne Hid]. cbn [triage_all fst snd]. rewrite Hb. cbn [run_all foldl].
  pose proof (triage_other id rc env job db ltac:(done)) as Ht. destruct (triage rc env job db) as [db' o].
  rewrite IH by done. done.
Qed.

Lemma triage_all_recovers rc rows envs db res id r :
  Forall calm_env envs → dryRun rc = false → (length rows ≤ length envs)%nat → NoDup rows.*1 → (id, r) ∈ rows →
  items db !! id = Some r → recoverable id r → isProcessorAlive rc (default "" (r_processor r)) = false →
  ∃ r', items (triage_all rc (without_spec <$> rows) envs (db, res)).1 !! id = Some r' ∧ recovered r'.
Proof.
  revert envs db res. induction rows as [|[k x] rows IH]; intros envs db res He Hdry Hlen Hnd Hin Hr Hrec Ha; [by apply elem_of_nil in Hin|].
  destruct envs as [|env envs]; [cbn in Hlen; lia|]. apply Forall_cons in He as [Hc He]. cbn in Hlen.
  rewrite fmap_cons in Hnd. apply NoDup_cons in Hnd as [Hk Hnd]. rewrite fmap_cons. cbn [triage_all fst snd].
  rewrite (proj1 Hc). cbn [run_all foldl]. apply elem_of_cons in Hin as [[= <- <-]|Hin].
  - destruct (triage_recovers rc env db id r Hc Hdry Hr Hrec Ha) as (r' & Hr' & Hrec').
    destruct (triage rc env (without_spec (id, r)) db) as [db' o]. exists r'. split; [|done].
    rewrite triage_all_other; [done..|]. rewrite <- list_fmap_compose. done.
  - assert (Hne : k ≠ id) by (intros ->; apply Hk; by apply (list_elem_of_fmap_2 fst) in Hin).
    pose proof (triage_other id rc env (without_spec (k, x)) db Hne) as Ht.
    destruct (triage rc env (without_spec (k, x)) db) as [db' o]. apply IH; try done; [lia|]. cbn in Ht. by rewrite Ht.
Qed.

(** [C10] A fault-free cycle leaves no orphan behind: with enough pages and one
    triage per owned open row, every recoverable row whose owner is not in the
    live set is, after the cycle, either unowned and claimable by the next
    dequeue or in a terminal state. *)
Theorem orphans_recovered live pages envs rc db id r :
  Forall calm_page pages → pages ≠ [] → (length (orphan_rows db) ≤ pageSize * length pages)%nat →
  Forall calm_env envs → (length (orphan_rows db) ≤ length envs)%nat → dryRun rc = false →
  items db !! id = Some r → recoverable id r → default false (live !! default "" (r_processor r)) = false →
  ∃ rc' db' res r', run (Some (Ok live)) pages envs rc db = (rc', (db', res)) ∧
    items db' !! id = Some r' ∧ recovered r'.
Proof.
  intros Hpg Hne Hlp Hev Hle Hdry Hr Hrec Ha. unfold run. cbn [snapshotReady SetLiveProcessors negb].
  rewrite fetch_exact; [|done|done|lia|lia]. rewrite drop_0. cbn [app].
  set (rc1 := SetLiveProcessors live rc).
  destruct (triage_all_recovers rc1 (orphan_rows db) envs db noResult id r) as (r' & Hr' & Hrec'); try done.
  - apply NoDup_select_rows.
  - apply elem_of_orphan_rows. destruct Hrec as (_ & _ & Hnt & (p & Hp & _) & _). split; [done|]. split; [done|]. by exists p.
  - destruct (triage_all rc1 _ envs (db, noResult)) as [db' res]. by exists rc1, db', res, r'.
Qed.
