(* ===== verification/Collector.v ===== *)
(** * The garbage collector

    [internal/gc/collector/collector.go]: expired batches and files are read
    page by page and deleted; a batch's result objects are purged before its
    row.  The deletions of a page run concurrently in the code, at most
    [maxConcurrency] at a time; they concern different IDs, so their order
    does not matter and they are executed in page order.

    A cycle deletes nothing that has not expired ([gc_spares_unexpired]).  It
    does not delete everything that has: the cursor is an offset into a result
    set that the collector itself shrinks ([gc_skips_every_second_page]). *)

From Stdlib Require Import ZArith Lia.
From stdpp Require Import base gmap strings list sorting.
From S2P Require Import Prelude Openai Store StoreOps Planner Preprocess Files ResultStore Finalizer Query.
Local Open Scope string_scope.
Local Open Scope Z_scope.

(** ** The paging loop shared by batches and files *)
Record Counters := { deleted : Z; failed : Z }.
Definition count (r : result bool) (c : Counters) : Counters :=
  match r with
  | Ok true => {| deleted := deleted c + 1; failed := failed c |}
  | Ok false => c
  | Err _ => {| deleted := deleted c; failed := failed c + 1 |}
  end.

Section Pages.
Context {S A : Type} (fetch : nat → nat → S → result (list A * nat * bool)) (process : nat → A → M S bool).
(** The items of one page; an error does not stop the others. *)
Definition process_page (page : nat) (l : list A) (st : S * Counters) : S * Counters :=
  foldl (λ st x, let '(s', r) := process page x st.1 in (s', count r st.2)) st l.
(** [fuel] bounds the number of pages; [cancelled] is the context's state at
    the top of each iteration. *)
Fixpoint collect_pages (cancelled : nat → bool) (fuel page cursor : nat) (st : S * Counters)
    : (S * Counters) * result unit :=
  match fuel with
  | O => (st, Err (ErrOther "out of pages"))
  | Datatypes.S fuel =>
      if cancelled page then (st, Err (ErrOther "context cancelled"))
      else match fetch page cursor st.1 with
           | Err e => (st, Err e)
           | Ok (l, nextCursor, more) =>
               let st' := process_page page l st in
               if (more : bool) then collect_pages cancelled fuel (Datatypes.S page) nextCursor st' else (st', Ok tt)
           end
  end.
End Pages.

Definition pageSize : nat := 100.

(** What the environment does in one cycle: clock, database and storage
    outcomes, per page and item. *)
Record GcEnv := {
  ge_now : nat → Z; ge_get : nat → net; ge_cancelled : nat → bool;
  ge_purge : string → option (string → bool); ge_delete : string → net; ge_file : string → net }.

Section Collector.
Context (sha256hex : bytes → string) (dryRun : bool) (env : GcEnv).

(** ** Batches *)
Definition expiredQuery : BatchQuery :=
  {| bq_IDs := []; bq_TenantID := ""; bq_TagSelectors := ∅; bq_TagsOr := false; bq_Expired := true;
     bq_AfterID := ""; bq_Descending := false; bq_ProcessorID := ""; bq_NonTerminal := false;
     bq_HasProcessorID := false |}.
Definition result_prefix (jobID : string) : string := "results/" +:+ jobID +:+ "/".

Definition purge_results (job : string * Row) : M World unit :=
  match GetFolderNameByTenantID sha256hex (r_tenant job.2) with
  | Err _ => ret tt
  | Ok folderName =>
      _ <- try (on_fs (FDeletePrefix (ge_purge env job.1) folderName (result_prefix job.1))) ;; ret tt
  end.
Definition processBatch (job : string * Row) : M World bool :=
  if dryRun then ret false
  else purge_results job ;;;
       deletedIDs <- on_db (DBDelete (ge_delete env job.1) [job.1]) ;;
       ret (negb (length deletedIDs =? 0)%nat).

Definition fetch_batches (limit page cursor : nat) (w : World) : result (list (string * Row) * nat * bool) :=
  (DBGet (ge_now env page) (ge_get env page) (Some expiredQuery) false cursor limit (w_db w)).2.
Definition collectBatchJobs (fuel : nat) (w : World) : (World * Counters) * result unit :=
  collect_pages (fetch_batches pageSize) (λ _, processBatch) (ge_cancelled env) fuel 0 0
    (w, {| deleted := 0; failed := 0 |}).

(** ** Files

    A file row is the object its spec marshals; the expiry column is derived
    from it by [FileToDBItem]. *)
Definition file_expiry (r : FileRow) : Z := match fr_expires r with Some t => if 0 <? t then t else 0 | None => 0 end.
Definition expired_files (now : Z) (m : gmap string FileRow) : list (string * FileRow) :=
  select_rows false (λ _ r, expired_at now (file_expiry r)) m.
Definition fetch_files (limit page cursor : nat) (s : PWorld) : result (list (string * FileRow) * nat * bool) :=
  match ge_get env page with
  | NetErr _ => Err ErrIO
  | NetOk => Ok (get_page (expired_files (ge_now env page) (pw_files s)) cursor limit)
  end.
Definition delete_file_row (n : net) (id : string) : M PWorld nat := λ s,
  let s' := {| pw := pw s; pw_files := delete id (pw_files s) |} in
  match n with
  | NetErr c => (if (c : bool) then s' else s, Err ErrIO)
  | NetOk => (s', Ok (if pw_files s !! id then 1%nat else 0%nat))
  end.
(** The content goes first; a file that is already gone is no error. *)
Definition processFile (file : string * FileRow) : M PWorld bool :=
  if dryRun then ret false
  else match GetFolderNameByTenantID sha256hex (fr_tenant file.2) with
  | Err e => throw e
  | Ok folderName =>
      r <- try (on_world (on_fs (FDelete (ge_file env file.1) (FileStorageName file.1 (fr_filename file.2)) folderName))) ;;
      match r with
      | Err e => if bool_decide (e = ErrFileNotFound) then
                   k <- delete_file_row (ge_delete env file.1) file.1 ;; ret (negb (k =? 0)%nat)
                 else throw e
      | Ok _ => k <- delete_file_row (ge_delete env file.1) file.1 ;; ret (negb (k =? 0)%nat)
      end
  end.
Definition collectFiles (fuel : nat) (s : PWorld) : (PWorld * Counters) * result unit :=
  collect_pages (fetch_files pageSize) (λ _, processFile) (ge_cancelled env) fuel 0 0
    (s, {| deleted := 0; failed := 0 |}).

(** ** A cycle: batches, then files; an error of the first does not stop the second. *)
Definition run (fuel : nat) (s : PWorld) : PWorld * (Counters * Counters) :=
  let '((w, cb), _) := collectBatchJobs fuel (pw s) in
  let '((s', cf), _) := collectFiles fuel {| pw := w; pw_files := pw_files s |} in
  (s', (cb, cf)).
End Collector.

(** ** Which expired items survive a cycle *)

(** Every second page of a list. *)
Fixpoint skipped {A} (limit fuel : nat) (l : list A) : list A :=
  match fuel with
  | O => []
  | S fuel => app (take limit (drop limit l)) (skipped limit fuel (drop (limit + limit) l))
  end.
Lemma skipped_nil {A} limit fuel : @skipped A limit fuel [] = [].
Proof. induction fuel as [|n IH]; [done|]. cbn. by rewrite !drop_nil, take_nil, IH. Qed.
Lemma skipped_short {A} limit fuel (l : list A) : (length l ≤ limit)%nat → skipped limit fuel l = [].
Proof. intros H. destruct fuel; [done|]. cbn. rewrite !drop_ge by lia. by rewrite take_nil, skipped_nil. Qed.
Lemma skipped_long {A} limit fuel (l : list A) : (0 < limit < length l)%nat → (0 < fuel)%nat → skipped limit fuel l ≠ [].
Proof.
  intros H Hf. destruct fuel; [lia|]. cbn. intros [E _]%app_eq_nil. apply (f_equal length) in E.
  rewrite length_take, length_drop in E. cbn in E. lia.
Qed.

Section Alternate.
Context {S B : Type} (rows : S → list (string * B)) (g : string * B → string * B) (limit : nat).
Context (fetch : nat → nat → S → result (list (string * B) * nat * bool)) (process : nat → string * B → M S bool).
Hypothesis Hlimit : (0 < limit)%nat.
Hypothesis g_key : ∀ x, (g x).1 = x.1.
Hypothesis rows_nodup : ∀ s, NoDup (rows s).*1.
Hypothesis fetch_ok : ∀ p c s, fetch p c s =
  Ok (g <$> take limit (drop c (rows s)), (c + length (take limit (drop c (rows s))))%nat, (limit <? length (drop c (rows s)))%nat).
Hypothesis process_ok : ∀ p x s, x.1 ∈ (rows s).*1 →
  ∃ s', process p x s = (s', Ok true) ∧ rows s' = filter (λ y, y.1 ≠ x.1) (rows s).

Lemma filter_none (l : list (string * B)) k : k ∉ l.*1 → filter (λ y, y.1 ≠ k) l = l.
Proof.
  induction l as [|x l IH]; [done|]. rewrite fmap_cons, not_elem_of_cons. intros [Hne Hk].
  rewrite filter_cons_True by (intros E; by apply Hne). by rewrite IH.
Qed.

Lemma process_page_ok p page s c a b : rows s = app a (app page b) →
  ∃ s', process_page process p (g <$> page) (s, c) =
          (s', {| deleted := deleted c + Z.of_nat (length page); failed := failed c |}) ∧ rows s' = app a b.
Proof.
  revert s c. induction page as [|x page IH]; intros s c Hr.
  { exists s. cbn. rewrite Z.add_0_r. by destruct c. }
  destruct (process_ok p (g x) s) as (s1 & E & Hr1).
  { rewrite Hr, g_key, !fmap_app. set_solver. }
  assert (Hr1' : rows s1 = app a (app page b)).
  { rewrite Hr1, Hr, g_key. pose proof (rows_nodup s) as Hnd. rewrite Hr in Hnd. rewrite !filter_app.
    rewrite filter_cons_False by (intros H; by apply H). rewrite <- !filter_app.
    rewrite !fmap_app, fmap_cons in Hnd. apply NoDup_app in Hnd as (Ha & Hax & Hx).
    apply NoDup_cons in Hx as [Hx _]. apply filter_none. rewrite !fmap_app. intros [H|H]%elem_of_app.
    - apply (Hax _ H). set_solver.
    - apply Hx. done. }
  destruct (IH s1 (count (Ok true) c) Hr1') as (s2 & E2 & Hr2). exists s2. split; [|done].
  rewrite fmap_cons. unfold process_page in *. cbn [foldl fst snd]. rewrite E, E2. f_equal. cbn [count deleted failed length]. f_equal. lia.
Qed.

Lemma collect_alternates cancelled fuel p a l s c :
  (∀ i, cancelled i = false) → rows s = app a l → (length l < fuel * limit)%nat →
  ∃ s' n, collect_pages fetch process cancelled fuel p (length a) (s, c) =
            ((s', {| deleted := deleted c + n; failed := failed c |}), Ok tt) ∧
    rows s' = app a (skipped limit fuel l) ∧ n = Z.of_nat (length l) - Z.of_nat (length (skipped limit fuel l)).
Proof.
  intros Hc. revert p a l s c. induction fuel as [|fuel IH]; intros p a l s c Hr Hf; [lia|].
  cbn [collect_pages]. rewrite Hc. cbn [fst]. rewrite fetch_ok, Hr, drop_app_length.
  destruct (process_page_ok p (take limit l) s c a (drop limit l)) as (s1 & E1 & Hr1); [by rewrite take_drop|].
  rewrite E1. destruct (limit <? length l)%nat eqn:Em.
  - apply Nat.ltb_lt in Em. rewrite length_take, Nat.min_l by lia.
    destruct (decide (length (drop limit l) < limit)%nat) as [Hshort|Hlong].
    + (* the cursor is past the remaining rows *)
      destruct fuel as [|fuel]; [lia|]. cbn [collect_pages]. rewrite Hc. cbn [fst]. rewrite fetch_ok, Hr1.
      rewrite (drop_ge (app a (drop limit l))) by (rewrite length_app; lia). rewrite take_nil. cbn [length fmap list_fmap process_page foldl].
      rewrite (proj2 (Nat.ltb_ge limit 0)) by lia. eexists s1, _. split; [reflexivity|].
      rewrite length_drop in Hshort. cbn [skipped]. rewrite (drop_ge l (limit + limit)) by lia.
      rewrite take_ge, drop_nil, take_nil, app_nil_l by (rewrite length_drop; lia). rewrite drop_nil, skipped_nil, app_nil_r.
      split; [done|]. rewrite length_drop. lia.
    + assert (Hlen : length (app a (take limit (drop limit l))) = (length a + limit)%nat)
        by (rewrite length_app, length_take; lia).
      rewrite <- Hlen. destruct (IH (Datatypes.S p) (app a (take limit (drop limit l))) (drop (limit + limit) l) s1
        {| deleted := deleted c + Z.of_nat limit; failed := failed c |}) as (s2 & n & E2 & Hr2 & Hn).
      * rewrite Hr1, <- (assoc_L (++)). f_equal. rewrite <- drop_drop. by rewrite take_drop.
      * rewrite length_drop. nia.
      * eexists s2, _. rewrite E2. cbn [deleted failed]. split; [f_equal; f_equal; f_equal|]. rewrite Z.add_assoc. done.
        cbn [skipped]. rewrite Hr2, <- (assoc_L (++)). split; [done|].
        rewrite Hn, length_app, length_take, !length_drop in *. lia.
  - apply Nat.ltb_ge in Em. eexists s1, _. split; [reflexivity|]. rewrite skipped_short by done. rewrite Hr1, drop_ge by done.
    split; [done|]. rewrite take_ge by done. cbn. lia.
Qed.
End Alternate.

(** ** Deleting one item *)
Lemma select_rows_delete {A} sel (m : gmap string A) k :
  select_rows false sel (delete k m) = filter (λ y, y.1 ≠ k) (select_rows false sel m).
Proof.
  apply (StronglySorted_unique_strong id_le).
  - intros [k1 x1] [k2 x2] H1 H2 Hle1 Hle2. assert (k1 = k2) as -> by (by apply (anti_symm String.le)).
    apply elem_of_select_rows in H1 as [H1 _]. apply list_elem_of_filter in H2 as [_ [H2 _]%elem_of_select_rows].
    apply lookup_delete_Some in H1 as [_ H1]. congruence.
  - apply select_rows_sorted.
  - generalize (select_rows_sorted sel m). generalize (select_rows false sel m). intros l.
    induction 1 as [|x l Hl IH Hx]; [constructor|]. rewrite filter_cons. case_decide; [|done]. constructor; [done|].
    apply Forall_forall. intros y [_ Hy]%list_elem_of_filter. by eapply Forall_forall.
  - apply NoDup_Permutation.
    + apply (NoDup_fmap_1 fst), NoDup_select_rows.
    + apply NoDup_filter, (NoDup_fmap_1 fst), NoDup_select_rows.
    + intros [k' x]. rewrite list_elem_of_filter, !elem_of_select_rows, lookup_delete_Some. cbn. naive_solver.
Qed.

Lemma sql_delete_one id db :
  items (sql_delete [id] db).1 = delete id (items db) ∧
  entries (sql_delete [id] db).1 = filter (λ ke, ke.1.1 ≠ id) (entries db) ∧
  (sql_delete [id] db).2 = (if items db !! id then [id] else []).
Proof.
  unfold sql_delete. cbn [fst snd items entries]. split; [|split].
  - apply map_eq. intros k. apply option_eq. intros x. rewrite map_lookup_filter_Some, lookup_delete_Some. cbn. set_solver.
  - apply map_eq. intros k. apply option_eq. intros x. rewrite !map_lookup_filter_Some. cbn. set_solver.
  - change (remove_dups [id]) with [id]. rewrite filter_cons, filter_nil.
    case_decide as H; destruct (items db !! id); try done; by destruct H.
Qed.

Section Batches.
Context (sha256hex : bytes → string) (dryRun : bool) (env : GcEnv).
Abbreviation processBatch := (processBatch sha256hex dryRun env).

Definition expired_batches (now : Z) (w : World) : list (string * Row) :=
  select_rows false (λ id r, forallb (λ c : string → Row → bool, c id r) [λ _ r, expired_at now (r_expiry r)]) (items (w_db w)).

Lemma purge_db job w : w_db (purge_results sha256hex env job w).1 = w_db w ∧ (purge_results sha256hex env job w).2 = Ok tt.
Proof.
  unfold purge_results. destruct (GetFolderNameByTenantID _ _); [|done]. unfold bindM, try, on_fs.
  by destruct (FDeletePrefix _ _ _ _) as [fs []].
Qed.

(** A fault-free deletion takes exactly the row away. *)
Lemma processBatch_ok now job w : dryRun = false → ge_delete env job.1 = NetOk → job.1 ∈ (expired_batches now w).*1 →
  ∃ w', processBatch job w = (w', Ok true) ∧ expired_batches now w' = filter (λ y, y.1 ≠ job.1) (expired_batches now w).
Proof.
  intros Hdry Hn ([k r] & Hk & Hr)%list_elem_of_fmap. cbn in Hk. subst k. unfold expired_batches in Hr.
  apply elem_of_select_rows in Hr as [Hr _]. unfold Collector.processBatch. rewrite Hdry.
  unfold bindM. destruct (purge_db job w) as [Hw Ho]. destruct (purge_results _ _ job w) as [w1 o]. cbn [fst snd] in *. subst o.
  unfold on_db, DBDelete, exec, total. rewrite Hn, Hw. destruct (sql_delete_one job.1 (w_db w)) as (Hi & _ & Hd).
  destruct (sql_delete [job.1] (w_db w)) as [db' ids]. cbn [fst snd] in *. rewrite Hr in Hd. subst ids.
  eexists. split; [done|]. unfold expired_batches. cbn [w_db]. rewrite Hi. apply select_rows_delete.
Qed.

Lemma fetch_batches_page limit page cursor w : ge_get env page = NetOk →
  fetch_batches env limit page cursor w =
    Ok (without_spec <$> take limit (drop cursor (expired_batches (ge_now env page) w)),
        (cursor + length (take limit (drop cursor (expired_batches (ge_now env page) w))))%nat,
        (limit <? length (drop cursor (expired_batches (ge_now env page) w)))%nat).
Proof.
  intros Hn. unfold fetch_batches, DBGet, query, bindM, exec. rewrite Hn.
  change (db_page (ge_now env page) expiredQuery cursor limit (w_db w))
    with (get_page (expired_batches (ge_now env page) w) cursor limit).
  unfold get_page, get_at. rewrite take_take, Nat.min_l by lia. cbn [snd ret]. f_equal. f_equal. rewrite length_take, length_drop.
  destruct (Nat.ltb_spec limit (length (expired_batches (ge_now env page) w) - cursor)).
  - apply Nat.ltb_lt. lia.
  - apply Nat.ltb_ge. lia.
Qed.
End Batches.

(** [C37] The collector pages through the expired batches with an offset while
    it deletes them.  In a fault-free cycle the second page therefore starts a
    page too far into what is left, and so on: exactly every second page of
    expired batches is skipped.  A backlog of at most one page is cleared; any
    larger backlog is not. *)
Theorem gc_skips_every_second_page sha256hex env now fuel w :
  (∀ page, ge_now env page = now) → (∀ page, ge_get env page = NetOk) → (∀ page, ge_cancelled env page = false) →
  (∀ id, ge_delete env id = NetOk) → (length (expired_batches now w) < fuel * pageSize)%nat →
  ∃ w' n, collectBatchJobs sha256hex false env fuel w = ((w', {| deleted := n; failed := 0 |}), Ok tt) ∧
    expired_batches now w' = skipped pageSize fuel (expired_batches now w) ∧
    n = Z.of_nat (length (expired_batches now w)) - Z.of_nat (length (expired_batches now w')) ∧
    (expired_batches now w' = [] ↔ (length (expired_batches now w) ≤ pageSize)%nat).
Proof.
  intros Hnow Hget Hcan Hdel Hf. unfold collectBatchJobs.
  assert (Hp : (0 < pageSize)%nat) by (unfold pageSize; lia).
  destruct (collect_alternates (expired_batches now) without_spec pageSize (fetch_batches env pageSize)
    (λ _, processBatch sha256hex false env) Hp (λ x, eq_refl) (λ s, NoDup_select_rows _ _ _)
    (λ p c s, ltac:(rewrite fetch_batches_page, Hnow by done; reflexivity))
    (λ p x s Hx, processBatch_ok sha256hex false env now x s eq_refl (Hdel _) Hx)
    (ge_cancelled env) fuel 0 [] (expired_batches now w) w {| deleted := 0; failed := 0 |} Hcan eq_refl Hf)
    as (w' & n & E & Hr & Hn).
  exists w', n. split; [exact E|]. split; [exact Hr|]. rewrite Hr. split; [exact Hn|]. split.
  - intros Hnil. destruct (decide (length (expired_batches now w) ≤ pageSize)%nat) as [|Hgt]; [done|exfalso].
    revert Hnil. apply skipped_long; [lia|]. destruct fuel; [cbn in Hf; lia|lia].
  - apply skipped_short.
Qed.

(** ** What a cycle may touch *)
Lemma collect_pages_inv {S A} (I : S → Prop) (Q : A → Prop) fetch process cancelled fuel p c (s : S) cs :
  (∀ p c s l n m, I s → fetch p c s = Ok (l, n, m) → Forall Q l) →
  (∀ p x s, I s → Q x → I (process p x s).1) →
  I s → I (collect_pages fetch process cancelled fuel p c (s, cs)).1.1.
Proof.
  intros Hf Hp. revert p c s cs. induction fuel as [|fuel IH]; intros p c s cs Hs; [done|]. cbn [collect_pages].
  destruct (cancelled p); [done|]. cbn [fst]. destruct (fetch p c s) as [[[l n] m]|e] eqn:E; [|done].
  pose proof (Hf _ _ _ _ _ _ Hs E) as HQ.
  assert (Hpp : I (process_page process p l (s, cs)).1).
  { clear E. revert s cs Hs. induction HQ as [|x l Hx _ IHl]; intros s cs Hs; [done|]. unfold process_page. cbn [foldl fst snd].
    pose proof (Hp p x s Hs Hx) as H1. destruct (process p x s) as [s1 r]. by apply IHl. }
  destruct (process_page process p l (s, cs)) as [s1 cs1]. destruct m; [by apply IH|done].
Qed.

Lemma FDeletePrefix_other o f prefix (s : FileStore) path :
  has_prefix (dir_prefix f prefix) path = false → (FDeletePrefix o f prefix s).1 !! path = s !! path.
Proof.
  intros Hp. unfold FDeletePrefix. case_bool_decide; [done|]. case_bool_decide; [done|].
  assert (Hnone : ∀ P `{∀ x, Decision (P x)}, filter P (filter (λ kv : string * bytes, has_prefix (dir_prefix f prefix) kv.1 = true) s) !! path = None
    ∧ filter (λ kv : string * bytes, has_prefix (dir_prefix f prefix) kv.1 = true) s !! path = None).
  { intros P HP. assert (filter (λ kv : string * bytes, has_prefix (dir_prefix f prefix) kv.1 = true) s !! path = None) as E.
    { apply map_lookup_filter_None. right. intros d _ Hc. cbn [fst] in Hc. congruence. }
    split; [|done]. apply map_lookup_filter_None. by left. }
  destruct o as [removed|]; cbn [fst].
  - apply option_eq. intros d. rewrite lookup_difference_Some. pose proof (proj1 (Hnone (λ kv : string * bytes, removed kv.1 = true) _)). naive_solver.
  - apply option_eq. intros d. rewrite lookup_difference_Some. pose proof (proj2 (Hnone (λ _, True) _)). naive_solver.
Qed.
Lemma FDelete_other n name f (s : FileStore) path : path ≠ join f name → (FDelete n name f s).1 !! path = s !! path.
Proof.
  intros Hne. unfold FDelete, resolvePath. case_bool_decide; [done|]. case_bool_decide; [done|].
  destruct (s !! join f name) eqn:E; [|done]. unfold fs_step. destruct n as [|[]]; cbn; [by rewrite lookup_delete_ne..|done].
Qed.

Section Spared.
Context (sha256hex : bytes → string) (dryRun : bool) (env : GcEnv) (s0 : PWorld).
Abbreviation folder := (GetFolderNameByTenantID sha256hex).

(** Expired at some page of the cycle. *)
Definition ever_expired (expiry : Z) : Prop := ∃ page, expired_at (ge_now env page) expiry = true.
(** No expired batch's result prefix covers the path, and no expired file is
    stored there. *)
Definition outside (path : string) : Prop :=
  (∀ id r f, items (w_db (pw s0)) !! id = Some r → ever_expired (r_expiry r) → folder (r_tenant r) = Ok f →
     has_prefix (dir_prefix f (result_prefix id)) path = false) ∧
  (∀ id r f, pw_files s0 !! id = Some r → ever_expired (file_expiry r) → folder (fr_tenant r) = Ok f →
     path ≠ join f (FileStorageName id (fr_filename r))).

Definition batches_kept (w : World) : Prop :=
  items (w_db w) ⊆ items (w_db (pw s0)) ∧
  (∀ id r, items (w_db (pw s0)) !! id = Some r → ¬ ever_expired (r_expiry r) →
     items (w_db w) !! id = Some r ∧ ∀ k, k.1 = id → entries (w_db w) !! k = entries (w_db (pw s0)) !! k) ∧
  (∀ path, outside path → w_fs w !! path = w_fs (pw s0) !! path).
Definition expired_batch (x : string * Row) : Prop :=
  ∃ r, items (w_db (pw s0)) !! x.1 = Some r ∧ ever_expired (r_expiry r) ∧ r_tenant x.2 = r_tenant r.

Lemma fetch_batches_expired limit p c w l n m :
  batches_kept w → fetch_batches env limit p c w = Ok (l, n, m) → Forall expired_batch l.
Proof.
  intros (Hsub & _) H. unfold fetch_batches, DBGet, query, bindM, exec in H. destruct (ge_get env p) as [|[]]; [|done..].
  change (db_page (ge_now env p) expiredQuery c limit (w_db w)) with (get_page (expired_batches (ge_now env p) w) c limit) in H.
  unfold get_page, get_at in H. cbn [snd ret] in H. injection H as <- _ _. apply Forall_forall.
  intros x ([id r] & -> & Hin)%list_elem_of_fmap. rewrite take_take in Hin.
  assert (Hr : (id, r) ∈ expired_batches (ge_now env p) w).
  { rewrite <- (take_drop c (expired_batches _ w)), elem_of_app. right.
    rewrite <- (take_drop (limit `min` Datatypes.S limit) (drop c _)), elem_of_app. by left. }
  unfold expired_batches in Hr. apply elem_of_select_rows in Hr as [Hr He]. exists r. cbn.
  split; [by eapply lookup_weaken|]. split; [|done]. exists p. cbn in He. by rewrite andb_true_r in He.
Qed.

Lemma purge_kept x w : batches_kept w → expired_batch x → batches_kept (purge_results sha256hex env x w).1.
Proof.
  intros (Hsub & Hrow & Hobj) (r & Hr & He & Ht). destruct (purge_db sha256hex env x w) as [Hdb _].
  unfold batches_kept. rewrite Hdb. split; [done|]. split; [done|]. intros path Hout. rewrite <- (Hobj path Hout).
  unfold purge_results. rewrite Ht. destruct (folder (r_tenant r)) as [f|] eqn:Hf; [|done].
  pose proof (FDeletePrefix_other (ge_purge env x.1) f (result_prefix x.1) (w_fs w) path (proj1 Hout x.1 r f Hr He Hf)) as Hp.
  unfold bindM, try, on_fs. by destruct (FDeletePrefix _ _ _ (w_fs w)) as [fs []].
Qed.

Lemma delete_kept x w n : batches_kept w → expired_batch x → batches_kept (on_db (DBDelete n [x.1]) w).1.
Proof.
  intros (Hsub & Hrow & Hobj) (r & Hr & He & _). unfold on_db, DBDelete, exec, total.
  destruct (sql_delete_one x.1 (w_db w)) as (Hi & Hent & _). destruct (sql_delete [x.1] (w_db w)) as [db' ids].
  cbn [fst snd] in *. assert (Hk : batches_kept {| w_db := db'; w_fs := w_fs w |}).
  { split; [|split; [|done]]; cbn [w_db]; rewrite ?Hi, ?Hent.
    - etrans; [apply delete_subseteq|done].
    - intros id r' Hr' Hne. assert (id ≠ x.1) as Hid by (intros ->; rewrite Hr in Hr'; injection Hr' as <-; done).
      destruct (Hrow id r' Hr' Hne) as [H1 H2]. split; [by rewrite lookup_delete_ne|]. intros k Hkk. rewrite <- H2 by done.
      apply option_eq. intros e. rewrite map_lookup_filter_Some. cbn. naive_solver. }
  destruct n as [|[]]; cbn; [done|done|]. by destruct w.
Qed.

Lemma processBatch_kept x w : batches_kept w → expired_batch x → batches_kept (processBatch sha256hex dryRun env x w).1.
Proof.
  intros Hk Hx. unfold processBatch. destruct dryRun; [done|]. unfold bindM.
  pose proof (purge_kept x w Hk Hx) as H1. destruct (purge_db sha256hex env x w) as [_ Ho].
  destruct (purge_results sha256hex env x w) as [w1 o]. cbn [fst snd] in *. subst o.
  pose proof (delete_kept x w1 (ge_delete env x.1) H1 Hx) as H2. by destruct (on_db _ w1) as [w2 []].
Qed.

(** The file phase. *)
Definition files_kept (s : PWorld) : Prop :=
  batches_kept (pw s) ∧ pw_files s ⊆ pw_files s0 ∧
  ∀ id r, pw_files s0 !! id = Some r → ¬ ever_expired (file_expiry r) → pw_files s !! id = Some r.
Definition expired_file (x : string * FileRow) : Prop :=
  pw_files s0 !! x.1 = Some x.2 ∧ ever_expired (file_expiry x.2).

Lemma fetch_files_expired limit p c s l n m :
  files_kept s → fetch_files env limit p c s = Ok (l, n, m) → Forall expired_file l.
Proof.
  intros (_ & Hsub & _) H. unfold fetch_files in H. destruct (ge_get env p) as [|[]]; [|done..].
  unfold get_page, get_at in H. injection H as <- _ _. apply Forall_forall. intros [id r] Hin. rewrite take_take in Hin.
  assert (Hr : (id, r) ∈ expired_files (ge_now env p) (pw_files s)).
  { rewrite <- (take_drop c (expired_files _ _)), elem_of_app. right.
    rewrite <- (take_drop (limit `min` Datatypes.S limit) (drop c _)), elem_of_app. by left. }
  unfold expired_files in Hr. apply elem_of_select_rows in Hr as [Hr He].
  split; [by eapply lookup_weaken|]. by exists p.
Qed.

Lemma delete_file_kept x s n : files_kept s → expired_file x → files_kept (delete_file_row n x.1 s).1.
Proof.
  intros (Hb & Hsub & Hrow) [Hx He]. assert (Hk : files_kept {| pw := pw s; pw_files := delete x.1 (pw_files s) |}).
  { split; [done|]. cbn [pw_files]. split; [etrans; [apply delete_subseteq|done]|]. intros id r Hr Hne.
    rewrite lookup_delete_ne; [by apply Hrow|]. intros <-. rewrite Hx in Hr. by injection Hr as <-. }
  unfold delete_file_row. by destruct n as [|[]].
Qed.

Lemma processFile_kept x s : files_kept s → expired_file x → files_kept (processFile sha256hex dryRun env x s).1.
Proof.
  intros Hk Hx. unfold processFile. destruct dryRun; [done|]. destruct (folder (fr_tenant x.2)) as [f|] eqn:Hf; [|done].
  set (name := FileStorageName x.1 (fr_filename x.2)). unfold bindM, try, on_world, on_fs.
  pose proof (λ path, FDelete_other (ge_file env x.1) name f (w_fs (pw s)) path) as Hd.
  destruct (FDelete (ge_file env x.1) name f (w_fs (pw s))) as [fs r]. cbn [fst] in Hd.
  set (s1 := {| pw := {| w_db := w_db (pw s); w_fs := fs |}; pw_files := pw_files s |}).
  assert (Hk1 : files_kept s1).
  { destruct Hk as ((Hi & Hrow & Hobj) & Hfiles). split; [|done]. split; [done|]. split; [done|]. intros path Hout. cbn.
    rewrite Hd; [by apply Hobj|]. by apply (proj2 Hout x.1 x.2 f (proj1 Hx) (proj2 Hx)). }
  pose proof (delete_file_kept x s1 (ge_delete env x.1) Hk1 Hx) as Hk2.
  destruct r as [u|e]; [|case_bool_decide; [|done]]; by destruct (delete_file_row _ x.1 s1) as [s2 []].
Qed.

Lemma start_kept : files_kept s0.
Proof. split; [split; [done|split; [by intros|done]]|split; [done|by intros]]. Qed.

Lemma run_kept fuel : files_kept (run sha256hex dryRun env fuel s0).1.
Proof.
  unfold run. destruct start_kept as [Hb Hf].
  assert (H1 : batches_kept (collectBatchJobs sha256hex dryRun env fuel (pw s0)).1.1).
  { apply (collect_pages_inv batches_kept expired_batch); [by intros; eapply fetch_batches_expired| |done].
    intros. by apply processBatch_kept. }
  destruct (collectBatchJobs sha256hex dryRun env fuel (pw s0)) as [[w cb] o]. cbn [fst] in H1.
  set (s1 := {| pw := w; pw_files := pw_files s0 |}).
  assert (H2 : files_kept (collectFiles sha256hex dryRun env fuel s1).1.1).
  { apply (collect_pages_inv files_kept expired_file); [by intros; eapply fetch_files_expired| |by split].
    intros. by apply processFile_kept. }
  by destruct (collectFiles sha256hex dryRun env fuel s1) as [[s2 cf] o2].
Qed.
End Spared.

(** [C34] Whatever fails during a cycle, the collector deletes only what has
    expired: an unexpired batch keeps its row and its entries, an unexpired
    file keeps its record, and an object disappears from storage only from
    under the result prefix of an expired batch or as the content of an
    expired file. *)
Theorem gc_spares_unexpired sha256hex dryRun env fuel s s' cs :
  run sha256hex dryRun env fuel s = (s', cs) →
  (∀ id r, items (w_db (pw s)) !! id = Some r → ¬ ever_expired env (r_expiry r) →
     items (w_db (pw s')) !! id = Some r ∧
     ∀ k, k.1 = id → entries (w_db (pw s')) !! k = entries (w_db (pw s)) !! k) ∧
  (∀ id f, pw_files s !! id = Some f → ¬ ever_expired env (file_expiry f) → pw_files s' !! id = Some f) ∧
  (∀ path, outside sha256hex env s path → w_fs (pw s') !! path = w_fs (pw s) !! path).
Proof.
  intros Hr. pose proof (run_kept sha256hex dryRun env s fuel) as Hk. rewrite Hr in Hk.
  destruct Hk as ((_ & Hrow & Hobj) & _ & Hfile). done.
Qed.
