(* ===== verification/Semaphore.v ===== *)
(** * Concurrency limits: semaphores and the AIMD controller

    [internal/util/semaphore]: the channel semaphore ([semaphore.go]), the
    semaphore with an adjustable limit ([adaptive.go]) and the controller that
    adjusts it by additive increase and multiplicative decrease ([aimd.go]).

    A method holds its mutex from entry to return, so it is one step.  A
    blocking [Acquire] is the step it takes once it can proceed; [None] says
    that it has to wait.  The backoff factor is a float64 and is kept as one:
    a finite positive double is [mant * 2 ^ expo], a product is rounded to 53
    bits, to nearest with ties to even. *)

From Stdlib Require Import ZArith Lia.
From stdpp Require Import base strings list.
From S2P Require Import Prelude.
Local Open Scope string_scope.
Local Open Scope Z_scope.

(** ** [semaphore.go] *)
Module Channel.
(** Tokens in the buffered channel, its capacity, and whether the
    double-release callback has fired. *)
Record semaphore := { capacity : Z; tokens : Z; doubleReleased : bool }.
Definition New (cap : Z) : result semaphore :=
  if cap <=? 0 then Err (ErrOther "semaphore capacity must be positive")
  else Ok {| capacity := cap; tokens := 0; doubleReleased := false |}.
Definition set_tokens (n : Z) (s : semaphore) : semaphore :=
  {| capacity := capacity s; tokens := n; doubleReleased := doubleReleased s |}.
Definition TryAcquire (s : semaphore) : semaphore * bool :=
  if tokens s <? capacity s then (set_tokens (tokens s + 1) s, true) else (s, false).
Definition Acquire (s : semaphore) : option semaphore :=
  if tokens s <? capacity s then Some (set_tokens (tokens s + 1) s) else None.
Definition Release (s : semaphore) : semaphore :=
  if 0 <? tokens s then set_tokens (tokens s - 1) s
  else {| capacity := capacity s; tokens := tokens s; doubleReleased := true |}.
End Channel.

(** ** [adaptive.go] *)
Module Adaptive.
Record AdaptiveSemaphore := { limit : Z; count : Z; doubleReleased : bool }.
Definition NewAdaptive (cap : Z) : result AdaptiveSemaphore :=
  if cap <=? 0 then Err (ErrOther "semaphore capacity must be positive")
  else Ok {| limit := cap; count := 0; doubleReleased := false |}.
Definition set_count (n : Z) (s : AdaptiveSemaphore) : AdaptiveSemaphore :=
  {| limit := limit s; count := n; doubleReleased := doubleReleased s |}.
Definition TryAcquire (s : AdaptiveSemaphore) : AdaptiveSemaphore * bool :=
  if count s <? limit s then (set_count (count s + 1) s, true) else (s, false).
(** The fast path, or the wake-up that finds a free slot. *)
Definition Acquire (s : AdaptiveSemaphore) : option AdaptiveSemaphore :=
  if count s <? limit s then Some (set_count (count s + 1) s) else None.
Definition Release (s : AdaptiveSemaphore) : AdaptiveSemaphore :=
  if 0 <? count s then set_count (count s - 1) s
  else {| limit := limit s; count := count s; doubleReleased := true |}.
Definition SetLimit (newLimit : Z) (s : AdaptiveSemaphore) : AdaptiveSemaphore :=
  {| limit := if newLimit <? 1 then 1 else newLimit; count := count s; doubleReleased := doubleReleased s |}.
Definition Limit (s : AdaptiveSemaphore) : Z := limit s.
End Adaptive.

(** ** The [Semaphore] interface

    What the dispatcher relies on, whichever implementation it holds. *)
Class Semaphore (S : Type) := {
  held : S → Z;
  misused : S → bool;
  Acquire : S → option S;
  Release : S → S;
  TryAcquire : S → S * bool }.
Class SemaphoreLaws (S : Type) {sem : Semaphore S} := {
  acquire_takes (s s' : S) : Acquire s = Some s' → held s' = held s + 1 ∧ misused s' = misused s;
  release_gives (s : S) : 0 < held s → held (Release s) = held s - 1 ∧ misused (Release s) = misused s;
  release_empty (s : S) : held s ≤ 0 → held (Release s) = held s ∧ misused (Release s) = true;
  try_is_acquire (s : S) : TryAcquire s = match Acquire s with Some s' => (s', true) | None => (s, false) end }.

#[export] Instance channel_semaphore : Semaphore Channel.semaphore := {
  held := Channel.tokens; misused := Channel.doubleReleased; Acquire := Channel.Acquire;
  Release := Channel.Release; TryAcquire := Channel.TryAcquire }.
#[export] Instance adaptive_semaphore : Semaphore Adaptive.AdaptiveSemaphore := {
  held := Adaptive.count; misused := Adaptive.doubleReleased; Acquire := Adaptive.Acquire;
  Release := Adaptive.Release; TryAcquire := Adaptive.TryAcquire }.

#[export] Instance channel_laws : SemaphoreLaws Channel.semaphore.
Proof.
  split; cbn; unfold Channel.Acquire, Channel.Release, Channel.TryAcquire; intros.
  - case_match; by simplify_eq.
  - rewrite (proj2 (Z.ltb_lt 0 _)) by lia. done.
  - rewrite (proj2 (Z.ltb_ge 0 _)) by lia. done.
  - by case_match.
Qed.
#[export] Instance adaptive_laws : SemaphoreLaws Adaptive.AdaptiveSemaphore.
Proof.
  split; cbn; unfold Adaptive.Acquire, Adaptive.Release, Adaptive.TryAcquire; intros.
  - case_match; by simplify_eq.
  - rewrite (proj2 (Z.ltb_lt 0 _)) by lia. done.
  - rewrite (proj2 (Z.ltb_ge 0 _)) by lia. done.
  - by case_match.
Qed.

(** A successful acquisition and its release cancel out. *)
Lemma acquire_release {S} `{SemaphoreLaws S} (s s' : S) :
  0 ≤ held s → Acquire s = Some s' → held (Release s') = held s ∧ misused (Release s') = misused s.
Proof.
  intros Hs Ha. destruct (acquire_takes s s' Ha) as [Hh Hm].
  destruct (release_gives s') as [Hh' Hm']; [lia|]. rewrite Hh', Hm', Hh, Hm. split; [lia|done].
Qed.

(** ** float64 products *)
Module Float.
(** A finite positive double. *)
Record float64 := { mant : Z; expo : Z }.
(** [m / 2^k] rounded to the nearest integer, ties to even. *)
Definition round_even (m k : Z) : Z :=
  let q := m / 2 ^ k in
  let r := m mod 2 ^ k in
  if (r <? 2 ^ (k - 1)) || ((r =? 2 ^ (k - 1)) && Z.even q) then q else q + 1.
(** [m * 2^e] as the nearest double. *)
Definition round53 (m e : Z) : float64 :=
  let k := Z.log2 m + 1 - 53 in
  if k <=? 0 then {| mant := m; expo := e |} else {| mant := round_even m k; expo := e + k |}.
(** [int(math.Floor(x))]. *)
Definition floor (x : float64) : Z :=
  if 0 <=? expo x then mant x * 2 ^ expo x else mant x / 2 ^ (- expo x).
(** [float64(n) * f] for an [n] that a double represents exactly. *)
Definition mul (n : Z) (f : float64) : float64 := round53 (n * mant f) (expo f).

(** The value lies strictly between 0 and 1. *)
Definition fraction (f : float64) : Prop := 0 < mant f ∧ expo f ≤ 0 ∧ mant f < 2 ^ (- expo f).

Lemma round_even_le m k c : 0 < k → m ≤ c * 2 ^ k → round_even m k ≤ c.
Proof.
  intros Hk Hm. unfold round_even. pose proof (Z.pow_pos_nonneg 2 k ltac:(lia) ltac:(lia)).
  pose proof (Z.pow_pos_nonneg 2 (k - 1) ltac:(lia) ltac:(lia)).
  pose proof (Z.div_mod m (2 ^ k) ltac:(lia)). pose proof (Z.mod_pos_bound m (2 ^ k) ltac:(lia)).
  destruct (_ || _) eqn:E; [nia|].
  apply orb_false_iff in E as [E _]. apply Z.ltb_ge in E. nia.
Qed.
Lemma round_even_nonneg m k : 0 < k → 0 ≤ m → 0 ≤ round_even m k.
Proof.
  intros. unfold round_even. pose proof (Z.div_pos m (2 ^ k) ltac:(lia) ltac:(lia)).
  destruct (_ || _); lia.
Qed.

(** A product with a fraction never exceeds the integer it scales, although
    it is rounded. *)
Lemma floor_mul_fraction n f : 0 ≤ n < 2 ^ 53 → fraction f → 0 ≤ floor (mul n f) ≤ n.
Proof.
  intros Hn (Hm & He & Hlt). unfold mul, round53.
  set (M := n * mant f). set (w := - expo f) in *.
  assert (HM : 0 ≤ M ≤ n * 2 ^ w) by (unfold M; nia).
  pose proof (Z.pow_pos_nonneg 2 w ltac:(lia) ltac:(lia)) as Hw.
  destruct (Z.log2 M + 1 - 53 <=? 0) eqn:Ek; unfold floor; cbn [mant expo].
  - destruct (0 <=? expo f) eqn:E0.
    + assert (w = 0) as Hw0 by lia. rewrite Hw0, Z.pow_0_r in *. assert (expo f = 0) as -> by lia. lia.
    + fold w. split; [apply Z.div_pos; lia|]. apply Z.div_le_upper_bound; [lia|]. lia.
  - apply Z.leb_gt in Ek. set (k := Z.log2 M + 1 - 53) in *.
    assert (HkW : k ≤ w).
    { destruct (decide (M = 0)) as [E|E]; [unfold k in Ek; rewrite E in Ek; cbn in Ek; lia|].
      assert (M < 2 ^ (53 + w)) by (rewrite Z.pow_add_r by lia; nia).
      pose proof (Z.log2_lt_pow2 M (53 + w) ltac:(lia)). lia. }
    assert (Hsplit : 2 ^ w = 2 ^ (w - k) * 2 ^ k).
    { rewrite <- Z.pow_add_r by lia. f_equal. lia. }
    pose proof (round_even_le M k (n * 2 ^ (w - k)) Ek ltac:(nia)) as Hle.
    pose proof (round_even_nonneg M k Ek ltac:(lia)) as Hge.
    destruct (0 <=? expo f + k) eqn:E0.
    + assert (expo f + k = 0) as -> by lia. assert (w - k = 0) as Hz by lia. rewrite Hz in Hle. lia.
    + replace (- (expo f + k)) with (w - k) by lia.
      pose proof (Z.pow_pos_nonneg 2 (w - k) ltac:(lia) ltac:(lia)).
      split; [apply Z.div_pos; lia|]. apply Z.div_le_upper_bound; lia.
Qed.
End Float.

(** ** [aimd.go] *)
Module AIMD.
Import Float.
Record AIMDConfig := { MinLimit : Z; MaxLimit : Z; BackoffFactor : float64; AdditiveIncrease : Z }.
Record AIMDController := { cfg : AIMDConfig; limit : Z; successCount : Z }.
Definition clamp (v lo hi : Z) : Z := if v <? lo then lo else if hi <? v then hi else v.
(** The controller and the limit to hand to [setFn], if it is called. *)
Definition NewAIMDController (c : AIMDConfig) (initialLimit : Z) : AIMDController * option Z :=
  let l := clamp initialLimit (MinLimit c) (MaxLimit c) in
  ({| cfg := c; limit := l; successCount := 0 |}, if l =? initialLimit then None else Some l).
(** Two's complement addition of Go ints. *)
Definition add64 (a b : Z) : Z := (a + b + 2 ^ 63) mod 2 ^ 64 - 2 ^ 63.
(** 0: unchanged, [setFn] is not called. *)
Definition computeSuccessLimit (c : AIMDController) : AIMDController * Z :=
  if limit c <=? successCount c + 1 then
    let l := Z.min (add64 (limit c) (AdditiveIncrease (cfg c))) (MaxLimit (cfg c)) in
    ({| cfg := cfg c; limit := l; successCount := 0 |}, if l =? limit c then 0 else l)
  else ({| cfg := cfg c; limit := limit c; successCount := successCount c + 1 |}, 0).
Definition computeBackoffLimit (c : AIMDController) : AIMDController * Z :=
  let l := Z.max (MinLimit (cfg c)) (floor (mul (limit c) (BackoffFactor (cfg c)))) in
  ({| cfg := cfg c; limit := l; successCount := 0 |}, if l =? limit c then 0 else l).

(** What the processor's configuration check requires ([config.go]);
    [MaxLimit] is concurrency.per_endpoint.  The check sets no upper bounds:
    that a double represents the limits and that the increase does not
    overflow an int is assumed here. *)
Definition config_valid (c : AIMDConfig) : Prop :=
  0 < MinLimit c ∧ MinLimit c ≤ MaxLimit c ∧ MaxLimit c < 2 ^ 53 ∧
  fraction (BackoffFactor c) ∧ 0 < AdditiveIncrease c < 2 ^ 62.
Definition in_bounds (c : AIMDController) : Prop :=
  config_valid (cfg c) ∧ MinLimit (cfg c) ≤ limit c ≤ MaxLimit (cfg c) ∧ 0 ≤ successCount c.

Lemma add64_small a b : 0 ≤ a < 2 ^ 53 → 0 < b < 2 ^ 62 → add64 a b = a + b.
Proof. intros. unfold add64. rewrite Z.mod_small by lia. lia. Qed.

Lemma new_in_bounds c l : config_valid c → in_bounds (NewAIMDController c l).1.
Proof.
  intros Hc. pose proof Hc as (? & ? & _). split; [done|]. cbn [NewAIMDController fst cfg limit successCount].
  unfold clamp. repeat case_match; lia.
Qed.
Lemma success_in_bounds c : in_bounds c →
  in_bounds (computeSuccessLimit c).1 ∧ cfg (computeSuccessLimit c).1 = cfg c ∧
  limit c ≤ limit (computeSuccessLimit c).1 ∧
  ((computeSuccessLimit c).2 = 0 ∨ (computeSuccessLimit c).2 = limit (computeSuccessLimit c).1).
Proof.
  intros (Hv & ? & ?). pose proof Hv as (? & ? & ? & ? & ?). unfold computeSuccessLimit.
  rewrite add64_small by lia.
  destruct (_ <=? _); cbn [fst snd]; (split; [split; [done|]; cbn; lia|]); cbn; repeat split; try lia.
  case_match; [by left|by right].
Qed.
Lemma backoff_in_bounds c : in_bounds c →
  in_bounds (computeBackoffLimit c).1 ∧ cfg (computeBackoffLimit c).1 = cfg c ∧
  limit (computeBackoffLimit c).1 ≤ limit c ∧
  ((computeBackoffLimit c).2 = 0 ∨ (computeBackoffLimit c).2 = limit (computeBackoffLimit c).1).
Proof.
  intros (Hv & ? & ?). pose proof Hv as (? & ? & ? & Hf & ?).
  pose proof (floor_mul_fraction (limit c) _ ltac:(lia) Hf). unfold computeBackoffLimit.
  cbn [fst snd]. (split; [split; [done|]; cbn; lia|]); cbn. repeat split; try lia.
  case_match; [by left|by right].
Qed.
End AIMD.
