(* ===== verification/Flow.v ===== *)
(** * Synchronous dispatch under concurrency limits

    [AIMDDispatcher] ([pipeline/dispatcher_aimd.go]) around [DirectDispatcher]
    ([pipeline/dispatcher_direct.go]), with the per-endpoint limits that
    [worker.go] shares among the running jobs ([buildAIMDModels] of
    [execute_pipeline.go]).

    The state holds the endpoints of the processor and one dispatcher per
    running job.  A dispatcher has three actors: the feeder, which acquires
    the endpoint slot and then the global slot before it hands a request on;
    the inner dispatcher, one goroutine per request; and the result loop,
    which releases the slots and feeds the controller.  [step] interleaves
    their atomic actions; [setFn] runs outside the controller's mutex, so the
    new limit is installed by a later action of the same result loop.

    Results carry the status or the error code; bodies, messages, metrics and
    log lines are left out. *)

From Stdlib Require Import ZArith Lia.
From stdpp Require Import base gmap strings list relations.
From S2P Require Import Prelude Store Planner Preprocess ResultStore JobRunner Pipeline Semaphore.
Local Open Scope string_scope.
Local Open Scope Z_scope.

(** ** [DirectDispatcher] *)

(** [ResultItem] with the two fields only the dispatchers read. *)
Record DispResult := { dr_item : ResultItem; dr_ModelID : string; dr_HadCapacityRetry : bool }.
Definition disp_error (msg : RequestItem) (code : string) : DispResult :=
  {| dr_item := Error msg code; dr_ModelID := rq_ModelID msg; dr_HadCapacityRetry := false |}.

Definition ErrCategoryServer := "SERVER_ERROR".
Definition ErrCategoryParse := "PARSE_ERROR".
Definition DroppedReasonTTLExpired := "rejected-ttl-expired".
Record ClientError := { ce_Category : string; ce_StatusCode : Z; ce_DroppedReason : string }.
(** The response of the inference client; [gn_Parsed] tells whether a
    non-empty body is a JSON object. *)
Record Generated := { gn_Empty : bool; gn_Parsed : bool; gn_HadCapacityRetry : bool }.

Definition with_outcome (msg : RequestItem) (status : option Z) (code : option string) (retry : bool) : DispResult :=
  {| dr_item := {| ri_RequestID := rq_RequestID msg; ri_CustomID := rq_CustomID msg; ri_Status := status;
                   ri_Error := code |};
     dr_ModelID := rq_ModelID msg; dr_HadCapacityRetry := retry |}.
Definition handleClientError (msg : RequestItem) (retry : bool) (e : ClientError) : DispResult :=
  if ce_StatusCode e <=? 0 then with_outcome msg None (Some (ce_Category e)) retry
  else if bool_decide (ce_DroppedReason e = DroppedReasonTTLExpired)
  then with_outcome msg None (Some "batch_expired") retry
  else with_outcome msg (Some (ce_StatusCode e)) None retry.
Definition handleSuccess (msg : RequestItem) (retry : bool) (g : Generated) : DispResult :=
  if negb (gn_Empty g) && negb (gn_Parsed g) then with_outcome msg None (Some ErrCategoryParse) retry
  else with_outcome msg (Some 200) None retry.
Definition buildResult (msg : RequestItem) (resp : option Generated) (clientErr : option ClientError) : DispResult :=
  let retry := match resp with Some g => gn_HadCapacityRetry g | None => false end in
  match clientErr, resp with
  | Some e, _ => handleClientError msg retry e
  | None, None => with_outcome msg None (Some ErrCategoryServer) retry
  | None, Some g => handleSuccess msg retry g
  end.
(** [submitRequest]: a failure under an aborted context is reported with the
    code of the abort. *)
Definition submitRequest (cause : AbortCause) (msg : RequestItem) (resp : option Generated)
    (clientErr : option ClientError) : DispResult :=
  let r := buildResult msg resp clientErr in
  match ri_Error (dr_item r), ri_Status (dr_item r) with
  | Some _, None => if negb (bool_decide (cause = NotAborted))
                    then with_outcome msg None (Some (cancelCode cause)) (dr_HadCapacityRetry r) else r
  | _, _ => r
  end.
(** [client] tells whether [ClientFor] knows the route key. *)
Definition handleMessage (client : string → bool) (cause : AbortCause) (msg : RequestItem)
    (resp : option Generated) (clientErr : option ClientError) : DispResult :=
  if client (rq_ModelID msg) then submitRequest cause msg resp clientErr
  else disp_error msg ErrCodeModelNotFound.

(** ** Endpoints *)
Record EndpointAIMD := { ep_Sem : Adaptive.AdaptiveSemaphore; ep_AIMD : option AIMD.AIMDController }.
Definition set_sem (s : Adaptive.AdaptiveSemaphore) (e : EndpointAIMD) : EndpointAIMD :=
  {| ep_Sem := s; ep_AIMD := ep_AIMD e |}.

(** The limits of one inference client at startup. *)
Definition newEndpoint (perEndpoint : Z) (aimd : option AIMD.AIMDConfig) : result EndpointAIMD :=
  match Adaptive.NewAdaptive perEndpoint with
  | Err e => Err e
  | Ok sem =>
      match aimd with
      | None => Ok {| ep_Sem := sem; ep_AIMD := None |}
      | Some c =>
          let '(ctl, setTo) := AIMD.NewAIMDController c perEndpoint in
          Ok {| ep_Sem := match setTo with Some l => Adaptive.SetLimit l sem | None => sem end;
                ep_AIMD := Some ctl |}
      end
  end.

(** Route keys of the job's models and the endpoint each leads to;
    [clientFor] is the resolver followed by the lookup of its limits. *)
Definition buildAIMDModels (clientFor : string → option string) (method : RouteKeyMethod) (tenantID : string)
    (models : list string) : gmap string string :=
  foldl (λ m modelID, let key := routeKey method tenantID modelID in
                      match clientFor key with Some ep => <[key := ep]> m | None => m end) ∅ models.

(** The compute half of [recordAIMDSignal]: 0 means no call of [setFn]. *)
Definition recordAIMDSignal (e : EndpointAIMD) (r : DispResult) : EndpointAIMD * Z :=
  match ep_AIMD e, ri_Status (dr_item r) with
  | Some c, Some sc =>
      let '(c', n) := if (sc =? 429) || (500 <=? sc) || dr_HadCapacityRetry r
                      then AIMD.computeBackoffLimit c else AIMD.computeSuccessLimit c in
      ({| ep_Sem := ep_Sem e; ep_AIMD := Some c' |}, n)
  | _, _ => (e, 0)
  end.

(** ** [AIMDDispatcher] *)
Inductive Feeder := Ready | AtGlobal (msg : RequestItem) | AtSend (msg : RequestItem) | Draining.
Record Job := {
  j_models : gmap string string; j_global : Channel.semaphore; j_cause : AbortCause;
  j_input : list RequestItem; j_feeder : Feeder; j_inner : list RequestItem;
  j_settle : option (option (string * Z) * DispResult); j_out : list DispResult }.
Record Flow := { fl_eps : gmap string EndpointAIMD; fl_jobs : gmap string Job }.

Definition NewAIMDDispatcher (models : gmap string string) (globalLimit : Z) (input : list RequestItem) : result Job :=
  match Channel.New globalLimit with
  | Err e => Err e
  | Ok g => Ok {| j_models := models; j_global := g; j_cause := NotAborted; j_input := input; j_feeder := Ready;
                  j_inner := []; j_settle := None; j_out := [] |}
  end.

Definition set_feed (f : Feeder) (input : list RequestItem) (g : Channel.semaphore) (j : Job) : Job :=
  {| j_models := j_models j; j_global := g; j_cause := j_cause j; j_input := input; j_feeder := f;
     j_inner := j_inner j; j_settle := j_settle j; j_out := j_out j |}.
Definition set_inner (l : list RequestItem) (j : Job) : Job :=
  {| j_models := j_models j; j_global := j_global j; j_cause := j_cause j; j_input := j_input j;
     j_feeder := j_feeder j; j_inner := l; j_settle := j_settle j; j_out := j_out j |}.
Definition set_settle (x : option (option (string * Z) * DispResult)) (j : Job) : Job :=
  {| j_models := j_models j; j_global := j_global j; j_cause := j_cause j; j_input := j_input j;
     j_feeder := j_feeder j; j_inner := j_inner j; j_settle := x; j_out := j_out j |}.
Definition emit (r : DispResult) (j : Job) : Job :=
  {| j_models := j_models j; j_global := j_global j; j_cause := j_cause j; j_input := j_input j;
     j_feeder := j_feeder j; j_inner := j_inner j; j_settle := j_settle j; j_out := app (j_out j) [r] |}.
Definition set_cause (c : AbortCause) (j : Job) : Job :=
  {| j_models := j_models j; j_global := j_global j; j_cause := c; j_input := j_input j;
     j_feeder := j_feeder j; j_inner := j_inner j; j_settle := j_settle j; j_out := j_out j |}.

(** The endpoint of a request, or [None] when the model has no limits. *)
Definition endpoint_of (j : Job) (model : string) : option string := j_models j !! model.
Definition with_ep (f : EndpointAIMD → EndpointAIMD) (ep : option string) (m : gmap string EndpointAIMD)
    : gmap string EndpointAIMD :=
  match ep with Some e => alter f e m | None => m end.
Definition release_ep (e : EndpointAIMD) : EndpointAIMD := set_sem (Adaptive.Release (ep_Sem e)) e.

(** [acquireSlot], first half: the endpoint's semaphore, when there is one. *)
Definition acquire_ep (ep : option string) (m : gmap string EndpointAIMD) : option (gmap string EndpointAIMD) :=
  match ep with
  | None => Some m
  | Some e => match m !! e with
              | None => None
              | Some x => (λ s, <[e := set_sem s x]> m) <$> Adaptive.Acquire (ep_Sem x)
              end
  end.

(** The result loop's first half: release the endpoint slot, then signal the
    controller. *)
Definition settle_ep (ep : option string) (r : DispResult) (m : gmap string EndpointAIMD)
    : gmap string EndpointAIMD * option (string * Z) :=
  match ep with
  | None => (m, None)
  | Some e => match m !! e with
              | None => (m, None)
              | Some x => let '(x', n) := recordAIMDSignal (release_ep x) r in
                          (<[e := x']> m, if 0 <? n then Some (e, n) else None)
              end
  end.
Definition apply_limit (x : option (string * Z)) (m : gmap string EndpointAIMD) : gmap string EndpointAIMD :=
  match x with Some (e, n) => alter (λ p, set_sem (Adaptive.SetLimit n (ep_Sem p)) p) e m | None => m end.

(** The actions of one job; [client] is the resolver of [DirectDispatcher]. *)
Inductive Act :=
| AcquireEndpoint | GiveUpEndpoint | AcquireGlobal | GiveUpGlobal | Send | DrainInput
| Answer (i : nat) (resp : option Generated) (clientErr : option ClientError) | Settle | Abort (c : AbortCause).

Definition act (client : string → bool) (a : Act) (eps : gmap string EndpointAIMD) (j : Job)
    : option (gmap string EndpointAIMD * Job) :=
  match a, j_feeder j, j_input j with
  | AcquireEndpoint, Ready, msg :: rest =>
      (λ eps', (eps', set_feed (AtGlobal msg) rest (j_global j) j)) <$> acquire_ep (endpoint_of j (rq_ModelID msg)) eps
  | GiveUpEndpoint, Ready, msg :: rest =>
      (* the slow path of Acquire under an aborted context *)
      if negb (bool_decide (j_cause j = NotAborted)) &&
         bool_decide (acquire_ep (endpoint_of j (rq_ModelID msg)) eps = None)
      then Some (eps, emit (disp_error msg (cancelCode (j_cause j))) (set_feed Draining rest (j_global j) j))
      else None
  | AcquireGlobal, AtGlobal msg, input =>
      (λ g, (eps, set_feed (AtSend msg) input g j)) <$> Channel.Acquire (j_global j)
  | GiveUpGlobal, AtGlobal msg, input =>
      if negb (bool_decide (j_cause j = NotAborted))
      then Some (with_ep release_ep (endpoint_of j (rq_ModelID msg)) eps,
                 emit (disp_error msg (cancelCode (j_cause j))) (set_feed Draining input (j_global j) j))
      else None
  | Send, AtSend msg, input =>
      Some (eps, set_inner (msg :: j_inner j) (set_feed Ready input (j_global j) j))
  | DrainInput, Draining, msg :: rest =>
      Some (eps, emit (disp_error msg (cancelCode (j_cause j))) (set_feed Draining rest (j_global j) j))
  | Answer i resp clientErr, _, _ =>
      match j_settle j, j_inner j !! i with
      | None, Some msg =>
          let r := handleMessage client (j_cause j) msg resp clientErr in
          let '(eps', setTo) := settle_ep (endpoint_of j (dr_ModelID r)) r eps in
          Some (eps', set_settle (Some (setTo, r)) (set_inner (delete i (j_inner j)) j))
      | _, _ => None
      end
  | Settle, f, input =>
      match j_settle j with
      | Some (setTo, r) =>
          Some (apply_limit setTo eps,
                emit r (set_settle None (set_feed f input (Channel.Release (j_global j)) j)))
      | None => None
      end
  | Abort c, _, _ =>
      if bool_decide (j_cause j = NotAborted) && negb (bool_decide (c = NotAborted))
      then Some (eps, set_cause c j) else None
  | _, _, _ => None
  end.

(** One action of one job. *)
Inductive step (client : string → bool) : Flow → Flow → Prop :=
| step_act s id j a eps' j' :
    fl_jobs s !! id = Some j →
    act client a (fl_eps s) j = Some (eps', j') →
    step client s {| fl_eps := eps'; fl_jobs := <[id := j']> (fl_jobs s) |}.

(** Nothing left to do. *)
Definition finished (j : Job) : bool :=
  match j_input j, j_feeder j, j_inner j, j_settle j with
  | [], (Ready | Draining), [], None => true
  | _, _, _, _ => false
  end.
