(* ===== verification/Throttle.v ===== *)
(** * Correctness of dispatch under concurrency limits

    Slots are conserved and limits respected in every interleaving of the
    jobs of a processor ([slots_conserved]); a run cannot get stuck, ends after
    a bounded number of steps and has then produced exactly one result per
    request ([dispatch_delivers]).  The global limit, in contrast, is enforced
    per job and not for the processor ([global_limit_is_per_job]). *)

From Stdlib Require Import ZArith Lia.
From stdpp Require Import base gmap strings list relations.
From S2P Require Import Prelude Store Planner Preprocess ResultStore JobRunner Pipeline Semaphore Flow.
Local Open Scope string_scope.
Local Open Scope Z_scope.

(** ** Slots *)
Definition one_if (o : option string) (ep : string) : Z := if bool_decide (o = Some ep) then 1 else 0.
Definition uses (j : Job) (ep : string) (msg : RequestItem) : Z := one_if (endpoint_of j (rq_ModelID msg)) ep.
Fixpoint uses_all (j : Job) (ep : string) (l : list RequestItem) : Z :=
  match l with [] => 0 | msg :: l => uses j ep msg + uses_all j ep l end.
(** Slots of an endpoint that a job holds, and global slots. *)
Definition holds (ep : string) (j : Job) : Z :=
  match j_feeder j with AtGlobal m | AtSend m => uses j ep m | _ => 0 end + uses_all j ep (j_inner j).
Definition global_holds (j : Job) : Z :=
  match j_feeder j with AtSend _ => 1 | _ => 0 end + Z.of_nat (length (j_inner j))
  + match j_settle j with Some _ => 1 | None => 0 end.

Lemma uses_bound j ep m : 0 ≤ uses j ep m ≤ 1.
Proof. unfold uses, one_if. case_match; lia. Qed.
Lemma uses_all_nonneg j ep l : 0 ≤ uses_all j ep l.
Proof. induction l as [|m l IH]; cbn; [lia|]. pose proof (uses_bound j ep m). lia. Qed.
Lemma uses_all_delete j ep l i m : l !! i = Some m → uses_all j ep l = uses j ep m + uses_all j ep (delete i l).
Proof.
  revert i. induction l as [|x l IH]; intros [|i] Hi; try done; cbn in *.
  - by injection Hi as <-.
  - rewrite (IH i Hi). unfold delete. lia.
Qed.
Lemma uses_all_models j j' ep l : j_models j' = j_models j → uses_all j' ep l = uses_all j ep l.
Proof. intros Hm. induction l as [|m l IH]; cbn; [done|]. unfold uses, endpoint_of. by rewrite IH, Hm. Qed.
Lemma holds_nonneg ep j : 0 ≤ holds ep j.
Proof.
  unfold holds. pose proof (uses_all_nonneg j ep (j_inner j)).
  destruct (j_feeder j) as [|m|m|]; try pose proof (uses_bound j ep m); lia.
Qed.

(** ** Requests in the dispatcher's hands, each exactly once *)
Definition ids (l : list RequestItem) : list string := rq_RequestID <$> l.
Definition out_ids (l : list DispResult) : list string := (λ r, ri_RequestID (dr_item r)) <$> l.
Definition ledger (j : Job) : list string :=
  app (out_ids (j_out j))
    (app (match j_settle j with Some (_, r) => [ri_RequestID (dr_item r)] | None => [] end)
      (app (ids (j_inner j))
        (app (match j_feeder j with AtGlobal m | AtSend m => [rq_RequestID m] | _ => [] end) (ids (j_input j))))).

Definition weight (j : Job) : Z :=
  5 * Z.of_nat (length (j_input j))
  + match j_feeder j with AtGlobal _ => 4 | AtSend _ => 3 | _ => 0 end
  + 2 * Z.of_nat (length (j_inner j)) + match j_settle j with Some _ => 1 | None => 0 end
  + (if bool_decide (j_cause j = NotAborted) then 1 else 0).

Lemma handleMessage_ids client c msg resp e :
  ri_RequestID (dr_item (handleMessage client c msg resp e)) = rq_RequestID msg ∧
  dr_ModelID (handleMessage client c msg resp e) = rq_ModelID msg.
Proof.
  unfold handleMessage, submitRequest, buildResult, handleClientError, handleSuccess.
  by repeat case_match.
Qed.

Ltac act_cases H :=
  match type of H with act _ ?a _ ?j = Some _ =>
    unfold act in H; destruct a; destruct (j_feeder j) eqn:?Hf; destruct (j_input j) eqn:?Hi; simplify_eq;
    repeat match type of H with context [match ?x with _ => _ end] => destruct x eqn:?; simplify_eq end;
    try (apply fmap_Some in H as (?y & ?Hy & H)); simplify_eq
  end.

Lemma act_models client a eps j eps' j' : act client a eps j = Some (eps', j') → j_models j' = j_models j.
Proof. intros H. by act_cases H. Qed.

Lemma length_delete_lookup {A} (l : list A) i x : l !! i = Some x → length l = S (length (delete i l)).
Proof. intros Hi. rewrite (delete_Permutation l i x Hi) at 1. done. Qed.

(** Every action makes progress. *)
Lemma act_weight client a eps j eps' j' : act client a eps j = Some (eps', j') → weight j' < weight j.
Proof.
  intros H. act_cases H; unfold weight; cbn; rewrite ?Hf, ?Hi; cbn [length];
    try match goal with E : j_settle j = _ |- _ => rewrite E end;
    try (destruct (j_settle j)); try lia;
    try match goal with E : j_inner j !! _ = Some _ |- _ => rewrite (length_delete_lookup _ _ _ E) end; try lia.
  all: match goal with E : _ && _ = true |- _ => apply andb_true_iff in E as [E1 E2] end;
    rewrite E1; apply negb_true_iff in E2; rewrite E2; lia.
Qed.

Lemma act_ledger client a eps j eps' j' : act client a eps j = Some (eps', j') → ledger j' ≡ₚ ledger j.
Proof.
  intros H. act_cases H; unfold ledger; cbn; rewrite ?Hf, ?Hi; cbn;
    try match goal with E : j_settle j = _ |- _ => rewrite E end; unfold out_ids, ids;
    try match goal with E : j_inner j !! ?i = Some ?m |- _ =>
      rewrite (proj1 (handleMessage_ids _ _ _ _ _));
      pose proof (fmap_Permutation rq_RequestID _ _ (delete_Permutation (j_inner j) i m E)) as HP;
      rewrite HP end;
    rewrite ?fmap_app; cbn;
    first [solve_Permutation | destruct (j_settle j) as [[? ?]|]; cbn; solve_Permutation].
Qed.

(** ** Limits *)
Section Limits.
(** concurrency.per_endpoint and, when adaptive limits are enabled, the
    controller configuration [worker.go] derives from it. *)
Context (per : Z) (aimdc : option AIMD.AIMDConfig).
Definition limits_valid : Prop :=
  0 < per ∧ match aimdc with Some c => AIMD.config_valid c ∧ AIMD.MaxLimit c = per | None => True end.
(** The floor of the effective limit. *)
Definition floor_limit : Z := match aimdc with Some c => AIMD.MinLimit c | None => per end.

Definition ep_ok (x : EndpointAIMD) : Prop :=
  floor_limit ≤ Adaptive.limit (ep_Sem x) ≤ per ∧ 0 ≤ Adaptive.count (ep_Sem x) ≤ per ∧
  Adaptive.doubleReleased (ep_Sem x) = false ∧
  match ep_AIMD x, aimdc with
  | Some c, Some cf => AIMD.cfg c = cf ∧ AIMD.in_bounds c
  | None, None => True
  | _, _ => False
  end.
Definition settle_ok (x : option (option (string * Z) * DispResult)) : Prop :=
  match x with Some (Some (_, n), _) => floor_limit ≤ n ≤ per | _ => True end.
Definition job_ok (eps : gset string) (j : Job) : Prop :=
  Channel.tokens (j_global j) = global_holds j ∧ global_holds j ≤ Channel.capacity (j_global j) ∧
  0 < Channel.capacity (j_global j) ∧ Channel.doubleReleased (j_global j) = false ∧
  (∀ m ep, j_models j !! m = Some ep → ep ∈ eps) ∧ settle_ok (j_settle j).
Definition flow_ok (s : Flow) : Prop :=
  (∀ ep x, fl_eps s !! ep = Some x → ep_ok x ∧ Adaptive.count (ep_Sem x) = map_total (holds ep) (fl_jobs s)) ∧
  (∀ id j, fl_jobs s !! id = Some j → job_ok (dom (fl_eps s)) j).

Hypothesis Hv : limits_valid.

Lemma floor_limit_pos : 1 ≤ floor_limit ≤ per.
Proof.
  destruct Hv as [? Hc]. unfold floor_limit. destruct aimdc as [c|]; [|lia].
  destruct Hc as [(? & ? & _) <-]. lia.
Qed.

Lemma newEndpoint_ok x : newEndpoint per aimdc = Ok x → ep_ok x ∧ Adaptive.count (ep_Sem x) = 0.
Proof.
  pose proof floor_limit_pos as Hfl. unfold newEndpoint, Adaptive.NewAdaptive. destruct Hv as [Hp Hc].
  rewrite (proj2 (Z.leb_gt per 0)) by lia. unfold ep_ok, floor_limit in *.
  destruct aimdc as [c|]; [|intros [= <-]; cbn; repeat split; lia].
  destruct Hc as [Hcv Hmax]. pose proof (AIMD.new_in_bounds c per Hcv) as Hb. unfold AIMD.NewAIMDController in *.
  cbn [fst] in Hb. intros [= <-]. cbn. destruct Hb as (? & Hl & ?). cbn in Hl. split; [|by case_match].
  assert (AIMD.in_bounds {| AIMD.cfg := c; AIMD.limit := AIMD.clamp per (AIMD.MinLimit c) (AIMD.MaxLimit c);
                            AIMD.successCount := 0 |}) by by split.
  destruct (AIMD.clamp _ _ _ =? per); cbn.
  - split; [lia|]. split; [lia|]. split; [done|]. by split.
  - split; [case_match; lia|]. split; [lia|]. split; [done|]. by split.
Qed.

Lemma signal_ok x r : ep_ok x →
  ep_ok (recordAIMDSignal x r).1 ∧ ep_Sem (recordAIMDSignal x r).1 = ep_Sem x ∧
  ((recordAIMDSignal x r).2 = 0 ∨ floor_limit ≤ (recordAIMDSignal x r).2 ≤ per).
Proof.
  intros Hx. pose proof Hx as (Hl & Hc & Hd & Ha). unfold recordAIMDSignal.
  destruct (ep_AIMD x) as [c|] eqn:Ea; [|by split; [done|split; [done|left]]].
  destruct (ri_Status _) as [sc|]; [|by split; [done|split; [done|left]]]. destruct Hv as [_ Hmax].
  unfold ep_ok, floor_limit in *. destruct aimdc as [cf|]; [|done]. destruct Ha as [Hcf Hb]. destruct Hmax as [_ Hmax].
  assert (∀ c' n, AIMD.in_bounds c' ∧ AIMD.cfg c' = AIMD.cfg c ∧ (n = 0 ∨ n = AIMD.limit c') →
    let y := ({| ep_Sem := ep_Sem x; ep_AIMD := Some c' |}, n) in
    ((AIMD.MinLimit cf ≤ Adaptive.limit (ep_Sem y.1) ≤ per ∧ 0 ≤ Adaptive.count (ep_Sem y.1) ≤ per ∧
      Adaptive.doubleReleased (ep_Sem y.1) = false ∧
      match ep_AIMD y.1 with Some c => AIMD.cfg c = cf ∧ AIMD.in_bounds c | None => False end) ∧
     ep_Sem y.1 = ep_Sem x ∧ (y.2 = 0 ∨ AIMD.MinLimit cf ≤ y.2 ≤ per))) as Hgen.
  { intros c' n (Hb' & Hc' & Hn). cbn. split; [|split; [done|]].
    - repeat (split; [done|]). split; [congruence|done].
    - destruct Hn as [->| ->]; [by left|right]. destruct Hb' as (_ & Hr & _). rewrite Hc', Hcf in Hr. lia. }
  destruct (_ || _).
  - pose proof (AIMD.backoff_in_bounds c Hb) as (? & ? & ? & ?).
    destruct (AIMD.computeBackoffLimit c) as [c' n]. by apply Hgen.
  - pose proof (AIMD.success_in_bounds c Hb) as (? & ? & ? & ?).
    destruct (AIMD.computeSuccessLimit c) as [c' n]. by apply Hgen.
Qed.

(** What an operation on the endpoints does to each of them. *)
Definition moves (d : string → Z) (eps eps' : gmap string EndpointAIMD) : Prop :=
  dom eps' = dom eps ∧
  ∀ ep x, eps !! ep = Some x → ep_ok x → - d ep ≤ Adaptive.count (ep_Sem x) →
    ∃ x', eps' !! ep = Some x' ∧ ep_ok x' ∧ Adaptive.count (ep_Sem x') = Adaptive.count (ep_Sem x) + d ep.

Lemma moves_refl d eps : (∀ ep, d ep = 0) → moves d eps eps.
Proof. intros Hd. split; [done|]. intros ep x Hx Hok _. exists x. rewrite Hd. repeat split; [done|apply Hok..|lia]. Qed.

Lemma moves_insert d eps e x x' : eps !! e = Some x →
  (ep_ok x → - d e ≤ Adaptive.count (ep_Sem x) →
    ep_ok x' ∧ Adaptive.count (ep_Sem x') = Adaptive.count (ep_Sem x) + d e) →
  (∀ ep, ep ≠ e → d ep = 0) → moves d eps (<[e := x']> eps).
Proof.
  intros He Hx' Hd. split; [apply elem_of_dom_2 in He; set_solver|]. intros ep y Hy Hok Hc.
  destruct (decide (ep = e)) as [->|Hne].
  - rewrite He in Hy. injection Hy as ->. exists x'. rewrite lookup_insert_eq. by destruct (Hx' Hok Hc).
  - exists y. rewrite lookup_insert_ne by done. rewrite Hd by done. repeat split; [done|apply Hok..|lia].
Qed.

Lemma one_if_other o e ep : ep ≠ e → o = Some e → one_if o ep = 0.
Proof. intros Hne ->. unfold one_if. rewrite bool_decide_eq_false_2; [done|congruence]. Qed.
Lemma one_if_self e : one_if (Some e) e = 1.
Proof. unfold one_if. by rewrite bool_decide_eq_true_2. Qed.

Lemma acquire_ep_moves o eps eps' : acquire_ep o eps = Some eps' → moves (one_if o) eps eps'.
Proof.
  intros H. destruct o as [e|]; cbn in H; [|injection H as <-; by apply moves_refl].
  destruct (eps !! e) as [x|] eqn:He; [|done]. apply fmap_Some in H as (s & Hs & ->).
  unfold Adaptive.Acquire in Hs. destruct (_ <? _) eqn:Hlt in Hs; [|done]. injection Hs as <-.
  eapply moves_insert; [done| |intros; by eapply one_if_other]. intros (? & ? & ? & ?) _. rewrite one_if_self.
  split; [|done]. unfold ep_ok; cbn. repeat split; try done; lia.
Qed.

Lemma release_ep_ok x : ep_ok x → 1 ≤ Adaptive.count (ep_Sem x) →
  ep_ok (release_ep x) ∧ Adaptive.count (ep_Sem (release_ep x)) = Adaptive.count (ep_Sem x) - 1.
Proof.
  intros (? & ? & ? & ?) ?. destruct (release_gives (S := Adaptive.AdaptiveSemaphore) (ep_Sem x)) as [Hh Hm]; [cbn; lia|]. cbn in Hh, Hm.
  assert (Hl : Adaptive.limit (Adaptive.Release (ep_Sem x)) = Adaptive.limit (ep_Sem x))
    by (unfold Adaptive.Release; destruct (0 <? _); reflexivity).
  split; [|done]. unfold ep_ok, release_ep, set_sem. cbn [ep_Sem ep_AIMD]. rewrite Hh, Hm, Hl. repeat split; try done; lia.
Qed.

Lemma release_moves o eps : moves (λ ep, - one_if o ep) eps (with_ep release_ep o eps).
Proof.
  destruct o as [e|]; cbn; [|by apply moves_refl].
  destruct (eps !! e) as [x|] eqn:He.
  - replace (alter release_ep e eps) with (<[e := release_ep x]> eps)
      by (apply map_eq; intros k; destruct (decide (k = e)) as [->|];
          [by rewrite lookup_insert_eq, lookup_alter_eq, He|by rewrite lookup_insert_ne, lookup_alter_ne]).
    eapply moves_insert; [done| |intros; rewrite (one_if_other _ e) by done; done].
    intros Hok Hc. rewrite one_if_self in *. destruct (release_ep_ok x Hok ltac:(lia)). split; [done|lia].
  - rewrite alter_id by (intros; congruence). split; [done|]. intros ep x Hx Hok _. exists x.
    rewrite (one_if_other _ e) by (congruence || done). repeat split; [done|apply Hok..|lia].
Qed.

Lemma settle_moves o r eps :
  moves (λ ep, - one_if o ep) eps (settle_ep o r eps).1 ∧
  ((∀ e x, o = Some e → eps !! e = Some x → ep_ok x ∧ 1 ≤ Adaptive.count (ep_Sem x)) →
   settle_ok (Some ((settle_ep o r eps).2, r))).
Proof.
  destruct o as [e|]; cbn; [|by split; [apply moves_refl|]].
  destruct (eps !! e) as [x|] eqn:He; cbn.
  - pose proof (signal_ok (release_ep x) r) as Hs.
    destruct (recordAIMDSignal (release_ep x) r) as [x' n]. cbn [fst snd] in *. split.
    + eapply moves_insert; [done| |intros; rewrite (one_if_other _ e) by done; done].
      intros Hok Hc. rewrite one_if_self in *. destruct (release_ep_ok x Hok ltac:(lia)) as [Hok' Hc'].
      destruct (Hs Hok') as (? & Hsem & _). rewrite Hsem. split; [done|lia].
    + intros Hall. destruct (Hall e x eq_refl He) as [Hok Hc].
      destruct (release_ep_ok x Hok Hc) as [Hok' _]. destruct (Hs Hok') as (_ & _ & Hn).
      destruct (0 <? n) eqn:E; [|done]. cbn. lia.
  - split; [|done]. split; [done|]. intros ep x Hx Hok _. exists x.
    rewrite (one_if_other _ e) by (congruence || done). repeat split; [done|apply Hok..|lia].
Qed.

Lemma apply_limit_moves setTo r eps : settle_ok (Some (setTo, r)) → moves (λ _, 0) eps (apply_limit setTo eps).
Proof.
  intros Hs. destruct setTo as [[e n]|]; cbn in *; [|by apply moves_refl].
  destruct (eps !! e) as [x|] eqn:He.
  - set (x' := set_sem (Adaptive.SetLimit n (ep_Sem x)) x).
    replace (alter _ e eps) with (<[e := x']> eps)
      by (apply map_eq; intros k; destruct (decide (k = e)) as [->|];
          [by rewrite lookup_insert_eq, lookup_alter_eq, He|by rewrite lookup_insert_ne, lookup_alter_ne]).
    eapply moves_insert; [done| |done]. intros (? & ? & ? & ?) _. pose proof floor_limit_pos.
    split; [|cbn; lia]. unfold ep_ok; cbn. rewrite (proj2 (Z.ltb_ge n 1)) by lia. repeat split; try done; lia.
  - rewrite alter_id by (intros; congruence). by apply moves_refl.
Qed.

Lemma holds_models ep j j' f inner :
  j_models j' = j_models j → j_feeder j' = f → j_inner j' = inner →
  holds ep j' = match f with AtGlobal m | AtSend m => uses j ep m | _ => 0 end + uses_all j ep inner.
Proof.
  intros Hm Hf Hi. unfold holds. rewrite Hf, Hi, (uses_all_models j j') by done.
  f_equal. destruct f; unfold uses, endpoint_of; by rewrite ?Hm.
Qed.

Lemma moves_ext d d' eps eps' : (∀ ep, d ep = d' ep) → moves d eps eps' → moves d' eps eps'.
Proof. intros Hd [Hdom Hm]. split; [done|]. intros ep x Hx Hok Hc. rewrite <- Hd in *. by apply Hm. Qed.

(** An action moves each endpoint's count exactly with the slots the job
    holds. *)
Lemma act_moves client a eps j eps' j' : act client a eps j = Some (eps', j') → settle_ok (j_settle j) →
  moves (λ ep, holds ep j' - holds ep j) eps eps'.
Proof.
  intros H Hs. pose proof (act_models _ _ _ _ _ _ H) as Hm.
  eapply (moves_ext (λ ep, match j_feeder j' with AtGlobal m | AtSend m => uses j ep m | _ => 0 end
                           + uses_all j ep (j_inner j') - holds ep j));
    [intros ep; by rewrite (holds_models ep j j' _ _ Hm eq_refl eq_refl)|]. unfold holds.
  act_cases H; cbn; try (apply moves_refl; intros; rewrite ?Hf; lia);
    try (eapply moves_ext; [|by apply acquire_ep_moves]; intros ep; unfold uses; lia);
    try (eapply moves_ext; [|by apply release_moves]; intros ep; unfold uses; lia);
    try (eapply moves_ext; [|eapply (apply_limit_moves _ _ _ Hs)]; intros ep; cbn; lia);
    match goal with E : settle_ep ?o ?r ?m = _, E2 : _ !! _ = Some _ |- _ =>
      pose proof (proj1 (settle_moves o r m)) as Hsm; rewrite E in Hsm; eapply moves_ext; [|exact Hsm];
      intros ep; cbn; rewrite (proj2 (handleMessage_ids _ _ _ _ _)), Hf, (uses_all_delete _ ep _ _ _ E2);
      unfold uses; lia end.
Qed.

(** The slot the result loop gives back is really held, so the controller's
    answer is in range. *)
Lemma answer_settle_ok client c eps j eps' i msg resp e setTo :
  j_inner j !! i = Some msg →
  (∀ ep x, eps !! ep = Some x → ep_ok x ∧ holds ep j ≤ Adaptive.count (ep_Sem x)) →
  settle_ep (endpoint_of j (dr_ModelID (handleMessage client c msg resp e))) (handleMessage client c msg resp e) eps
    = (eps', setTo) →
  settle_ok (Some (setTo, handleMessage client c msg resp e)).
Proof.
  intros Hi Hep Hs. set (r := handleMessage client c msg resp e) in *.
  pose proof (proj2 (settle_moves (endpoint_of j (dr_ModelID r)) r eps)) as H. rewrite Hs in H. apply H. unfold r.
  rewrite (proj2 (handleMessage_ids _ _ _ _ _)). intros ep x Ho Hx. destruct (Hep ep x Hx) as [Hok Hc].
  split; [done|]. unfold holds in Hc. rewrite (uses_all_delete j ep _ _ _ Hi) in Hc.
  unfold uses in Hc. rewrite Ho, one_if_self in Hc. pose proof (uses_all_nonneg j ep (delete i (j_inner j))).
  destruct (j_feeder j) as [|m|m|]; try pose proof (uses_bound j ep m) as Hb; unfold uses in *; lia.
Qed.

Lemma act_job client a eps j eps' j' : act client a eps j = Some (eps', j') → job_ok (dom eps) j →
  (∀ ep x, eps !! ep = Some x → ep_ok x ∧ holds ep j ≤ Adaptive.count (ep_Sem x)) → job_ok (dom eps) j'.
Proof.
  intros H (Ht & Hle & Hpos & Hd & Hmod & Hs) Hep. pose proof (act_models _ _ _ _ _ _ H) as Hm.
  unfold job_ok. rewrite Hm. unfold global_holds in *.
  act_cases H;
    try match goal with E : settle_ep _ _ _ = _, E2 : _ !! _ = Some _ |- _ =>
      pose proof (answer_settle_ok _ _ _ _ _ _ _ _ _ _ E2 Hep E) as Hso;
      pose proof (length_delete_lookup _ _ _ E2) end;
    cbn; rewrite ?Hf in *; cbn; try (by repeat split; auto);
    try (unfold Channel.Acquire in Hy; destruct (_ <? _) eqn:Hlt in Hy; [|done]; injection Hy as <-; cbn;
         repeat split; auto; lia);
    try (by repeat split; auto; lia);
    try (destruct (release_gives (S := Channel.semaphore) (j_global j)) as [Hh Hm']; [cbn; lia|]; cbn in Hh, Hm'; rewrite Hh, Hm';
         assert (Hcap : Channel.capacity (Channel.Release (j_global j)) = Channel.capacity (j_global j))
           by (unfold Channel.Release; destruct (0 <? _); reflexivity); rewrite Hcap; repeat split; auto; lia).
Qed.

Lemma step_ok client s s' : step client s s' → flow_ok s → flow_ok s'.
Proof.
  intros [s0 id j a eps' j' Hj Ha] [Hep Hjob]. pose proof (Hjob _ _ Hj) as Hjok.
  assert (Hpre : ∀ ep x, fl_eps s0 !! ep = Some x → ep_ok x ∧ holds ep j ≤ Adaptive.count (ep_Sem x)).
  { intros ep x Hx. destruct (Hep ep x Hx) as [Hok ->]. split; [done|]. apply (map_total_ge _ _ id); [apply holds_nonneg|done]. }
  destruct (act_moves _ _ _ _ _ _ Ha ltac:(apply Hjok)) as [Hdom Hmv]. split; cbn.
  - intros ep x' Hx'. destruct (fl_eps s0 !! ep) as [x|] eqn:Hx.
    + destruct (Hpre ep x Hx) as [Hok Hh]. pose proof (holds_nonneg ep j').
      destruct (Hmv ep x Hx Hok ltac:(lia)) as (y & Hy & Hyok & Hc). rewrite Hx' in Hy. injection Hy as <-.
      split; [done|]. rewrite Hc, (proj2 (Hep ep x Hx)), (map_total_update _ _ _ _ _ Hj). lia.
    + apply elem_of_dom_2 in Hx'. rewrite Hdom in Hx'. by apply not_elem_of_dom in Hx.
  - intros id' k Hk. rewrite Hdom. destruct (decide (id' = id)) as [->|Hne].
    + rewrite lookup_insert_eq in Hk. injection Hk as <-. by eapply act_job.
    + rewrite lookup_insert_ne in Hk by done. by apply (Hjob id').
Qed.

Lemma run_ok client s s' : rtc (step client) s s' → flow_ok s → flow_ok s'.
Proof. induction 1; [done|]. eauto using step_ok. Qed.
End Limits.

(** ** Runs *)

(** A processor whose endpoints and dispatchers have just been constructed. *)
Definition started (per : Z) (aimdc : option AIMD.AIMDConfig) (global : Z) (s : Flow) : Prop :=
  map_Forall (λ _ x, newEndpoint per aimdc = Ok x) (fl_eps s) ∧
  map_Forall (λ _ j, NewAIMDDispatcher (j_models j) global (j_input j) = Ok j ∧
                     ∀ m ep, j_models j !! m = Some ep → ep ∈ dom (fl_eps s)) (fl_jobs s).

Lemma new_dispatcher_inv models g input j : NewAIMDDispatcher models g input = Ok j →
  0 < g ∧ j = {| j_models := models;
                 j_global := {| Channel.capacity := g; Channel.tokens := 0; Channel.doubleReleased := false |};
                 j_cause := NotAborted; j_input := input; j_feeder := Ready; j_inner := []; j_settle := None;
                 j_out := [] |}.
Proof. unfold NewAIMDDispatcher, Channel.New. destruct (g <=? 0) eqn:E; [done|]. intros [= <-]. split; [lia|done]. Qed.

Lemma started_ok per aimdc global s : limits_valid per aimdc → started per aimdc global s → flow_ok per aimdc s.
Proof.
  intros Hv [He Hj]. split.
  - intros ep x Hx. destruct (newEndpoint_ok per aimdc Hv x (He _ _ Hx)) as [? Hc]. split; [done|]. rewrite Hc.
    assert (Hz : ∀ m : gmap string Job, (∀ id j, m !! id = Some j → holds ep j = 0) → map_total (holds ep) m = 0).
    { intros m. induction m as [|k j m Hk IH] using map_ind; [done|]. intros Hall. rewrite map_total_insert by done.
      rewrite (Hall k j) by apply lookup_insert_eq. rewrite IH; [done|]. intros id j' Hj'. apply (Hall id).
      rewrite lookup_insert_ne; [done|]. intros ->. by rewrite Hk in Hj'. }
    symmetry. apply Hz. intros id j Hjj. destruct (Hj _ _ Hjj) as [Hn _].
    destruct (new_dispatcher_inv _ _ _ _ Hn) as [_ ->]. done.
  - intros id j Hjj. destruct (Hj _ _ Hjj) as [Hn Hmod]. destruct (new_dispatcher_inv _ _ _ _ Hn) as [Hg ->].
    unfold job_ok, global_holds. cbn in *. repeat split; try done; lia.
Qed.

Lemma act_capacity client a eps j eps' j' : act client a eps j = Some (eps', j') →
  Channel.capacity (j_global j') = Channel.capacity (j_global j).
Proof.
  intros H. act_cases H; cbn; try done; unfold Channel.Acquire, Channel.Release in *; repeat case_match; by simplify_eq.
Qed.

(** Jobs neither appear nor disappear, and no request is lost or doubled. *)
Lemma run_jobs client s s' : rtc (step client) s s' →
  dom (fl_jobs s') = dom (fl_jobs s) ∧
  ∀ id j j', fl_jobs s !! id = Some j → fl_jobs s' !! id = Some j' →
    Channel.capacity (j_global j') = Channel.capacity (j_global j) ∧ ledger j' ≡ₚ ledger j.
Proof.
  induction 1 as [s|s s1 s2 Hs _ [Hdom IH]]; [split; [done|]; intros; by simplify_eq|].
  destruct Hs as [s0 id j a eps' j' Hj Ha]. cbn in *. split.
  - rewrite Hdom. apply elem_of_dom_2 in Hj. set_solver.
  - intros id' k k' Hk Hk'. destruct (decide (id' = id)) as [->|Hne].
    + rewrite Hj in Hk. injection Hk as <-. destruct (IH id j' k') as [Hc Hl]; [apply lookup_insert_eq|done|].
      rewrite Hc, (act_capacity _ _ _ _ _ _ Ha), Hl. split; [done|]. by apply (act_ledger _ _ _ _ _ _ Ha).
    + apply (IH id' k k'); [by rewrite lookup_insert_ne|done].
Qed.

Lemma weight_nonneg j : 0 ≤ weight j.
Proof. unfold weight. repeat case_match; lia. Qed.
Lemma run_bounded client n s s' : nsteps (step client) n s s' → Z.of_nat n + map_total weight (fl_jobs s') ≤ map_total weight (fl_jobs s).
Proof.
  induction 1 as [s|n s s1 s2 Hs _ IH]; [lia|]. destruct Hs as [s0 id j a eps' j' Hj Ha]. cbn in *.
  rewrite (map_total_update _ _ _ _ _ Hj) in IH. pose proof (act_weight _ _ _ _ _ _ Ha). lia.
Qed.

(** ** Progress *)
Definition can_work (client : string → bool) (s : Flow) : Prop :=
  ∃ id j a r, fl_jobs s !! id = Some j ∧ act client a (fl_eps s) j = Some r ∧ ∀ c, a ≠ Abort c.

(** A job that holds slots can always move. *)
Lemma holder_works client eps j per aimdc D : job_ok per aimdc D j →
  (∃ m, j_feeder j = AtGlobal m ∨ j_feeder j = AtSend m) ∨ j_inner j ≠ [] ∨ j_settle j ≠ None →
  ∃ a r, act client a eps j = Some r ∧ ∀ c, a ≠ Abort c.
Proof.
  intros (Ht & Hle & Hpos & _) Hh. unfold act.
  destruct (j_settle j) as [[setTo r]|] eqn:Es.
  { exists Settle. destruct (j_feeder j), (j_input j); by eexists. }
  destruct (j_inner j) as [|msg inner] eqn:Ei.
  - destruct Hh as [[m [Hm|Hm]]|[|]]; [| |done..]; unfold global_holds in *; rewrite Hm in *; cbn in *.
    + exists AcquireGlobal. unfold Channel.Acquire. rewrite (proj2 (Z.ltb_lt _ _)) by (rewrite Ht, Ei, Es; cbn; lia).
      by eexists.
    + exists Send. by eexists.
  - exists (Answer 0 None None). cbn [lookup list_lookup].
    destruct (settle_ep (endpoint_of j _) _ eps) as [eps' setTo].
    destruct (j_feeder j), (j_input j); by eexists.
Qed.

Lemma holds_pos_holder ep j : 0 < holds ep j → (∃ m, j_feeder j = AtGlobal m ∨ j_feeder j = AtSend m) ∨ j_inner j ≠ [].
Proof.
  unfold holds. destruct (j_feeder j) as [|m|m|] eqn:E; [|left; exists m; auto..|];
    (destruct (j_inner j); [cbn; lia|by right]).
Qed.

Lemma unfinished_works per aimdc client s id j : limits_valid per aimdc → flow_ok per aimdc s →
  fl_jobs s !! id = Some j → finished j = false → can_work client s.
Proof.
  intros Hv [Hep Hjob] Hj Hfin. pose proof (Hjob _ _ Hj) as Hok.
  assert (Hw : ∀ id' k, fl_jobs s !! id' = Some k →
    (∃ m, j_feeder k = AtGlobal m ∨ j_feeder k = AtSend m) ∨ j_inner k ≠ [] ∨ j_settle k ≠ None → can_work client s).
  { intros id' k Hk Hh. destruct (holder_works client (fl_eps s) k per aimdc _ (Hjob _ _ Hk) Hh) as (a & r & Ha & Hc).
    by exists id', k, a, r. }
  destruct (j_settle j) eqn:Es; [apply (Hw id j Hj); right; right; by rewrite Es|].
  destruct (j_inner j) eqn:Ei; [|apply (Hw id j Hj); right; left; by rewrite Ei].
  destruct (j_feeder j) as [|m|m|] eqn:Ef; [|apply (Hw id j Hj); left; exists m; auto..|].
  - unfold finished in Hfin. rewrite Es, Ei, Ef in Hfin. destruct (j_input j) as [|msg rest] eqn:Hi; [done|].
    destruct (acquire_ep (endpoint_of j (rq_ModelID msg)) (fl_eps s)) as [eps'|] eqn:Ha.
    + exists id, j, AcquireEndpoint, (eps', set_feed (AtGlobal msg) rest (j_global j) j).
      split; [done|]. split; [|done]. unfold act. by rewrite Ef, Hi, Ha.
    + unfold acquire_ep in Ha. destruct (endpoint_of j (rq_ModelID msg)) as [e|] eqn:Ee; [|done].
      destruct Hok as (_ & _ & _ & _ & Hmod & _). destruct (proj1 (elem_of_dom _ _) (Hmod _ _ Ee)) as [x Hx].
      rewrite Hx in Ha. unfold Adaptive.Acquire in Ha. destruct (_ <? _) eqn:Hlt in Ha; [done|].
      destruct (Hep e x Hx) as [[[Hl _] _] Hc]. pose proof (floor_limit_pos per aimdc Hv).
      destruct (map_total_pos (holds e) (fl_jobs s)) as (id' & k & Hk & Hp); [lia|].
      apply (Hw id' k Hk). destruct (holds_pos_holder e k Hp); auto.
  - unfold finished in Hfin. rewrite Es, Ei, Ef in Hfin. destruct (j_input j) as [|msg rest] eqn:Hi; [done|].
    eexists id, j, DrainInput, _. split; [done|]. split; [|done]. unfold act. by rewrite Ef, Hi.
Qed.

(** In every interleaving of the jobs of a processor, each endpoint's
    semaphore counts exactly the slots the jobs hold on it, never more than
    concurrency.per_endpoint, and its limit stays between the AIMD floor and
    that value although it is installed outside the controller's mutex; each
    job's global semaphore counts exactly its requests between the feeder and
    the result loop and never exceeds its capacity; and no semaphore is ever
    released more often than it was acquired. *)
Theorem slots_conserved client per aimdc global s s' :
  limits_valid per aimdc → started per aimdc global s → rtc (step client) s s' →
  (∀ ep x, fl_eps s' !! ep = Some x →
     Adaptive.count (ep_Sem x) = map_total (holds ep) (fl_jobs s') ∧ Adaptive.count (ep_Sem x) ≤ per ∧
     floor_limit per aimdc ≤ Adaptive.Limit (ep_Sem x) ≤ per ∧ Adaptive.doubleReleased (ep_Sem x) = false) ∧
  (∀ id j, fl_jobs s' !! id = Some j →
     Channel.tokens (j_global j) = global_holds j ∧ global_holds j ≤ global ∧
     Channel.doubleReleased (j_global j) = false).
Proof.
  intros Hv Hst Hr. destruct (run_ok per aimdc Hv client s s' Hr (started_ok _ _ _ _ Hv Hst)) as [He Hj].
  destruct (run_jobs client s s' Hr) as [Hdom Hjobs]. split.
  - intros ep x Hx. destruct (He ep x Hx) as [(Hl & Hc & Hd & _) Ht]. unfold Adaptive.Limit. repeat split; try done; lia.
  - intros id j Hjj. destruct (Hj id j Hjj) as (Ht & Hle & _ & Hd & _).
    assert (id ∈ dom (fl_jobs s)) as [j0 Hj0]%elem_of_dom by (rewrite <- Hdom; by eapply elem_of_dom_2).
    destruct (Hjobs id j0 j Hj0 Hjj) as [Hcap _]. destruct (proj2 Hst _ _ Hj0) as [Hn _].
    destruct (new_dispatcher_inv _ _ _ _ Hn) as [_ E]. rewrite E in Hcap. cbn in Hcap. rewrite Hcap in Hle. done.
Qed.

(** [C9] Dispatch under limits delivers: a run takes at most as many steps as
    the work it started with allows, it is never stuck while a job is
    unfinished, whatever the jobs sharing an endpoint hold and however they
    are aborted, and a finished job has produced exactly one result per
    request it was given. *)
Theorem dispatch_delivers client per aimdc global n s s' :
  limits_valid per aimdc → started per aimdc global s → nsteps (step client) n s s' →
  Z.of_nat n ≤ map_total weight (fl_jobs s) ∧
  (can_work client s' ∨ map_Forall (λ _ j, finished j = true) (fl_jobs s')) ∧
  (∀ id j j', fl_jobs s !! id = Some j → fl_jobs s' !! id = Some j' → finished j' = true →
     out_ids (j_out j') ≡ₚ ids (j_input j)).
Proof.
  intros Hv Hst Hn. pose proof (rtc_nsteps_2 _ _ _ Hn) as Hr.
  pose proof (run_ok per aimdc Hv client s s' Hr (started_ok _ _ _ _ Hv Hst)) as Hok.
  split; [|split].
  - pose proof (run_bounded _ _ _ _ Hn). pose proof (map_total_nonneg weight (fl_jobs s') weight_nonneg). lia.
  - destruct (decide (map_Forall (λ _ j, finished j = true) (fl_jobs s'))) as [|Hno]; [by right|left].
    apply map_not_Forall in Hno as (id & j & Hj & Hf); [|apply _].
    apply not_true_is_false in Hf. by eapply unfinished_works.
  - intros id j j' Hj Hj' Hf. destruct (proj2 (run_jobs _ _ _ Hr) id j j' Hj Hj') as [_ Hl].
    destruct (proj2 Hst _ _ Hj) as [Hnew _]. destruct (new_dispatcher_inv _ _ _ _ Hnew) as [_ E].
    rewrite E in Hl at 1. unfold ledger in Hl. cbn in Hl. unfold finished in Hf.
    destruct (j_input j'), (j_feeder j'), (j_inner j'), (j_settle j'); try done;
      cbn in Hl; by rewrite app_nil_r in Hl.
Qed.

(** ** Two jobs *)
Module FlowDemo.
Definition req (id : string) : RequestItem :=
  {| rq_RequestID := id; rq_CustomID := id; rq_ModelID := "m"; rq_Endpoint := "/v1/chat/completions"; rq_Body := [];
     rq_Headers := ∅; rq_ParseError := None |}.
Definition half : Float.float64 := {| Float.mant := 2 ^ 52; Float.expo := -53 |}.
Definition conf : AIMD.AIMDConfig :=
  {| AIMD.MinLimit := 1; AIMD.MaxLimit := 4; AIMD.BackoffFactor := half; AIMD.AdditiveIncrease := 1 |}.
Definition endpoint : EndpointAIMD :=
  {| ep_Sem := {| Adaptive.limit := 4; Adaptive.count := 0; Adaptive.doubleReleased := false |};
     ep_AIMD := Some {| AIMD.cfg := conf; AIMD.limit := 4; AIMD.successCount := 0 |} |}.
Definition job (reqs : list RequestItem) : Job :=
  {| j_models := {[ "m" := "ep" ]};
     j_global := {| Channel.capacity := 1; Channel.tokens := 0; Channel.doubleReleased := false |};
     j_cause := NotAborted; j_input := reqs; j_feeder := Ready; j_inner := []; j_settle := None; j_out := [] |}.
Definition s0 : Flow :=
  {| fl_eps := {[ "ep" := endpoint ]}; fl_jobs := <["a" := job [req "1"]]> {[ "b" := job [req "2"] ]} |}.

(** The actions of a schedule, executed. *)
Definition act_on (client : string → bool) (ia : string * Act) (s : Flow) : option Flow :=
  j ← fl_jobs s !! ia.1; r ← act client ia.2 (fl_eps s) j;
  Some {| fl_eps := r.1; fl_jobs := <[ia.1 := r.2]> (fl_jobs s) |}.
Fixpoint schedule (client : string → bool) (l : list (string * Act)) (s : Flow) : option Flow :=
  match l with [] => Some s | ia :: l => act_on client ia s ≫= schedule client l end.
Lemma schedule_steps client l s s' : schedule client l s = Some s' → nsteps (step client) (length l) s s'.
Proof.
  revert s. induction l as [|ia l IH]; intros s H; cbn in *; [injection H as <-; constructor|].
  destruct (act_on client ia s) as [s1|] eqn:E; [|done]. cbn in H. econstructor; [|by apply IH].
  unfold act_on in E. destruct (fl_jobs s !! ia.1) as [j|] eqn:Hj; [|done]. cbn in E.
  destruct (act client ia.2 (fl_eps s) j) as [[eps' j']|] eqn:Ha; [|done]. injection E as <-. by econstructor.
Qed.

Definition all_models (_ : string) : bool := true.
Definition both_in_flight : list (string * Act) :=
  [("a", AcquireEndpoint); ("b", AcquireEndpoint); ("a", AcquireGlobal); ("b", AcquireGlobal); ("a", Send); ("b", Send)].
Definition overloaded : option ClientError :=
  Some {| ce_Category := "RATE_LIMIT"; ce_StatusCode := 429; ce_DroppedReason := "" |}.
Definition to_the_end : list (string * Act) :=
  app both_in_flight [("a", Answer 0 None overloaded); ("a", Settle); ("b", Answer 0 None None); ("b", Settle)].
Definition in_flight (s : Flow) : Z := map_total (λ j, Z.of_nat (length (j_inner j))) (fl_jobs s).

Lemma conf_valid : limits_valid 4 (Some conf).
Proof. unfold limits_valid, AIMD.config_valid, Float.fraction. cbn. repeat split; lia. Qed.
Lemma s0_started : started 4 (Some conf) 1 s0.
Proof.
  split; intros k x Hx; cbn in Hx.
  - apply lookup_singleton_Some in Hx as [_ <-]. reflexivity.
  - apply lookup_insert_Some in Hx as [[_ <-]|[_ Hx]]; [|apply lookup_singleton_Some in Hx as [_ <-]];
      (split; [reflexivity|]); cbn; intros m ep [_ <-]%lookup_singleton_Some; set_solver.
Qed.
End FlowDemo.

(** concurrency.global is documented to bound the in-flight requests of
    all workers together, and the processor constructs a semaphore for it, but
    every job's dispatcher gets one of its own: with a global limit of 1 two
    jobs have two requests in flight at once. *)
Theorem global_limit_is_per_job :
  started 4 (Some FlowDemo.conf) 1 FlowDemo.s0 ∧
  ∃ s, rtc (step FlowDemo.all_models) FlowDemo.s0 s ∧ FlowDemo.in_flight s = 2.
Proof.
  split; [exact FlowDemo.s0_started|].
  destruct (FlowDemo.schedule FlowDemo.all_models FlowDemo.both_in_flight FlowDemo.s0) as [s|] eqn:E; [|by vm_compute in E].
  exists s. split; [eapply rtc_nsteps_2, FlowDemo.schedule_steps, E|]. vm_compute in E. injection E as <-. by vm_compute.
Qed.

(** After the 429 the endpoint's limit is halved and both jobs are done. *)
Lemma slots_conserved_run :
  ∃ s', rtc (step FlowDemo.all_models) FlowDemo.s0 s' ∧
    ((∀ ep x, fl_eps s' !! ep = Some x →
       Adaptive.count (ep_Sem x) = map_total (holds ep) (fl_jobs s') ∧ Adaptive.count (ep_Sem x) ≤ 4 ∧
       floor_limit 4 (Some FlowDemo.conf) ≤ Adaptive.Limit (ep_Sem x) ≤ 4 ∧
       Adaptive.doubleReleased (ep_Sem x) = false) ∧
     (∀ id j, fl_jobs s' !! id = Some j →
       Channel.tokens (j_global j) = global_holds j ∧ global_holds j ≤ 1 ∧
       Channel.doubleReleased (j_global j) = false)) ∧
    (λ x, Adaptive.Limit (ep_Sem x)) <$> fl_eps s' !! "ep" = Some 2.
Proof.
  destruct (FlowDemo.schedule FlowDemo.all_models FlowDemo.to_the_end FlowDemo.s0) as [s|] eqn:E; [|by vm_compute in E].
  assert (Hr : rtc (step FlowDemo.all_models) FlowDemo.s0 s) by (eapply rtc_nsteps_2, FlowDemo.schedule_steps, E).
  exists s. split; [exact Hr|]. split.
  - exact (slots_conserved _ _ _ _ _ _ FlowDemo.conf_valid FlowDemo.s0_started Hr).
  - vm_compute in E. injection E as <-. by vm_compute.
Defined.

Lemma dispatch_delivers_run :
  ∃ s', nsteps (step FlowDemo.all_models) 10 FlowDemo.s0 s' ∧ 10 ≤ map_total weight (fl_jobs FlowDemo.s0) ∧
    map_Forall (λ _ j, finished j = true) (fl_jobs s') ∧
    (∀ id j j', fl_jobs FlowDemo.s0 !! id = Some j → fl_jobs s' !! id = Some j' → finished j' = true →
       out_ids (j_out j') ≡ₚ ids (j_input j)).
Proof.
  destruct (FlowDemo.schedule FlowDemo.all_models FlowDemo.to_the_end FlowDemo.s0) as [s|] eqn:E; [|by vm_compute in E].
  pose proof (FlowDemo.schedule_steps _ _ _ _ E) as Hn. exists s. split; [exact Hn|].
  destruct (dispatch_delivers _ _ _ _ _ _ _ FlowDemo.conf_valid FlowDemo.s0_started Hn) as (Hb & _ & Ho).
  split; [exact Hb|]. split; [|exact Ho]. vm_compute in E. injection E as <-. apply (bool_decide_unpack _). by vm_compute.
Defined.
