(* ===== verification/Sweeps.v ===== *)
(** * Concrete garbage-collection and reconciliation cycles

    Runs that instantiate the theorems of [Reconciler] and [Collector]. *)

From Stdlib Require Import ZArith Lia.
From stdpp Require Import base gmap strings list sorting pretty.
From S2P Require Import Prelude Openai Store StoreOps Ownership Fencing Examples Planner Preprocess Files.
From S2P Require Import ResultStore Finalizer Query.
From S2P Require Import Reconciler Collector.
Local Open Scope string_scope.
Local Open Scope Z_scope.

(** Batch b1 is owned by p1 under a lease until second 60; b3 is an old
    non-resumable job of the dead p9. *)
Definition dead_row : Row :=
  set_r_status (Some (doc BatchStatusInProgress)) (set_r_epoch 4 (set_r_processor (Some "p9") (queued_row (Some 90000000)))).
Definition fleet_db : DB := {| items := <["b3" := dead_row]> (items active_db); entries := entries active_db |}.
Definition fresh_reconciler : Reconciler := {| liveProcessors := ∅; snapshotReady := false; Reconciler.dryRun := false |}.
Definition one_page : PageEnv := {| pe_before := []; pe_now := 1000000; pe_net := NetOk |}.
Definition calm_triage (t : Z) : TriageEnv := {| te_before := []; te_go := t; te_db := t; te_n1 := NetOk; te_n2 := NetOk |}.
Definition p1_lives : gmap string bool := {[ "p1" := true ]}.

Lemma live_owner_is_spared_run :
  items (Reconciler.run (Some (Ok p1_lives)) [one_page] [calm_triage 1000000; calm_triage 2000000]
           fresh_reconciler fleet_db).2.1 !! "b1" = Some active_row.
Proof.
  destruct (Reconciler.run _ _ _ _ _) as [rc' [db' res]] eqn:E.
  eapply (live_owner_is_spared _ _ _ _ rc' _ db' res "b1" active_row E).
  - reflexivity.
  - right. right. exists "p1". split; [reflexivity|]. split; [|intros _; repeat constructor].
    injection E as <- _ _. reflexivity.
  - repeat constructor.
  - repeat constructor.
Defined.

(** With p1 gone as well, both batches are recovered. *)
Lemma orphans_recovered_run :
  ∃ rc' db' res r', Reconciler.run (Some (Ok ∅)) [one_page] [calm_triage 1000000; calm_triage 2000000]
                      fresh_reconciler fleet_db = (rc', (db', res)) ∧
    items db' !! "b3" = Some r' ∧ recovered r'.
Proof.
  apply (orphans_recovered ∅ [one_page] [calm_triage 1000000; calm_triage 2000000] fresh_reconciler fleet_db "b3" dead_row).
  - repeat constructor.
  - discriminate.
  - vm_compute. lia.
  - repeat constructor.
  - vm_compute. lia.
  - reflexivity.
  - reflexivity.
  - split; [discriminate|]. split; [vm_compute; discriminate|]. split; [reflexivity|].
    split; [exists "p9"; split; [reflexivity|discriminate]|].
    intros _. split; [reflexivity|]. eexists. split; [reflexivity|discriminate].
  - reflexivity.
Defined.

(** A backlog of 101 expired batches. *)
Definition old_row : Row :=
  {| r_tenant := "t"; r_expiry := 10; r_tags := ∅; r_spec := "{}"; r_status := Some (doc BatchStatusCompleted);
     r_processor := None; r_priority := Some 20; r_epoch := 3; r_attempts := 0; r_resumable := false; r_lease := None |}.
Definition backlog (n : nat) : World :=
  {| w_db := {| items := list_to_map ((λ i, ("batch_" +:+ pretty i, old_row)) <$> seq 0 n); entries := ∅ |}; w_fs := ∅ |}.
Definition calm_gc : GcEnv :=
  {| ge_now := λ _, 50000000; ge_get := λ _, NetOk; ge_cancelled := λ _, false; ge_purge := λ _, None;
     ge_delete := λ _, NetOk; ge_file := λ _, NetOk |}.

Lemma gc_skips_every_second_page_run :
  ∃ w' n, collectBatchJobs demo_sha false calm_gc 3 (backlog 101) = ((w', {| deleted := n; failed := 0 |}), Ok tt) ∧
    n = 100 ∧ expired_batches 50000000 w' ≠ [].
Proof.
  assert (Hlen : length (expired_batches 50000000 (backlog 101)) = 101%nat) by (vm_compute; reflexivity).
  destruct (gc_skips_every_second_page demo_sha calm_gc 50000000 3 (backlog 101) (λ _, eq_refl) (λ _, eq_refl)
    (λ _, eq_refl) (λ _, eq_refl) ltac:(rewrite Hlen; unfold Collector.pageSize; lia)) as (w' & n & E & Hs & Hn & Hiff).
  exists w', n. split; [exact E|]. split.
  - rewrite Hn, Hs, Hlen.
    assert (length (skipped Collector.pageSize 3 (expired_batches 50000000 (backlog 101))) = 1%nat) as -> by (vm_compute; reflexivity).
    reflexivity.
  - intros Hnil. apply Hiff in Hnil. rewrite Hlen in Hnil. unfold Collector.pageSize in Hnil. lia.
Defined.

(** One expired and one live batch. *)
Definition mixed : PWorld :=
  {| pw := {| w_db := {| items := <["b1" := active_row]> {[ "b0" := old_row ]}; entries := entries active_db |}; w_fs := ∅ |};
     pw_files := ∅ |}.
Lemma gc_spares_unexpired_run :
  items (w_db (pw (Collector.run demo_sha false calm_gc 1 mixed).1)) !! "b1" = Some active_row ∧
  items (w_db (pw (Collector.run demo_sha false calm_gc 1 mixed).1)) !! "b0" = None.
Proof.
  split; [|vm_compute; reflexivity].
  destruct (Collector.run demo_sha false calm_gc 1 mixed) as [s' cs] eqn:E.
  apply (gc_spares_unexpired demo_sha false calm_gc 1 mixed s' cs E).
  - reflexivity.
  - intros [page H]. vm_compute in H. discriminate.
Defined.
