(* ===== verification/Events.v ===== *)
(** * The event channel

    [internal/database/postgresql/batch_event.go]: the table [batch_events],
    its statements, the producer, the sweep of expired events, and the client
    that moves rows into the channels of the subscribed jobs.

    A delivery ([deliverJobEvents]) is not atomic: it reads the room of the
    channel, selects rows, sends them under the client's mutex and deletes the
    sent rows, and between these steps subscribers come, go and are replaced,
    other deliveries run and processes die.  [step] executes one such atomic
    action of any client; a list of [Act]s is an interleaving.  NOTIFY, the
    rescan ticker and a reconnect only decide when a delivery begins, so every
    schedule of them is such a list.

    A channel keeps the events ever sent to it and how many were received.
    Sequence values are not assigned in commit order, so an insert may use any
    ID that was never used. *)

From Stdlib Require Import ZArith Lia.
From stdpp Require Import base gmap strings list sorting.
From S2P Require Import Prelude Openai Store StoreOps Query.
Local Open Scope string_scope.
Local Open Scope Z_scope.

(** ** Events ([database/api/database.go]) *)
Definition BatchEventCancel : Z := 0.
Definition BatchEventPause : Z := 1.
Definition BatchEventResume : Z := 2.
Definition BatchEventMaxVal : Z := 3.
Record BatchEvent := { be_ID : string; be_Type : Z; be_TTL : Z }.
Definition event_IsValid (e : BatchEvent) : result unit :=
  if bool_decide (be_ID e = "") then Err (ErrOther "ID is empty")
  else if (be_Type e <? BatchEventCancel) || (BatchEventMaxVal <=? be_Type e) then Err (ErrOther "event type is invalid")
  else if be_TTL e <=? 0 then Err (ErrOther "TTL is invalid")
  else Ok tt.

(** ** The table *)
Record EventRow := { ev_job : string; ev_type : Z; ev_expires : Z }.
#[export] Instance event_row_eq_dec : EqDecision EventRow.
Proof. solve_decision. Defined.
(** [et_used] holds the values the sequence has handed out. *)
Record EventTable := { et_rows : gmap Z EventRow; et_used : gset Z }.
Definition no_events : EventTable := {| et_rows := ∅; et_used := ∅ |}.

Definition ecSendEventSQL (id : Z) (job : string) (type expires : Z) (t : EventTable) : EventTable * result unit :=
  if bool_decide (id ∈ et_used t) then (t, Err (ErrOther "unique violation"))
  else ({| et_rows := <[id := {| ev_job := job; ev_type := type; ev_expires := expires |}]> (et_rows t);
           et_used := {[id]} ∪ et_used t |}, Ok tt).

Definition event_le (a b : Z * EventRow) : Prop := a.1 ≤ b.1.
#[export] Instance event_le_dec : RelDecision event_le.
Proof. intros a b. unfold event_le. apply _. Defined.
(** Unexpired events of the job, oldest ID first. *)
Definition pending_events (now : Z) (job : string) (t : EventTable) : list (Z * EventRow) :=
  merge_sort event_le (filter (λ kr, ev_job kr.2 = job ∧ epoch_seconds now < ev_expires kr.2) (map_to_list (et_rows t))).
Definition ecDrainEventsSQL (now : Z) (job : string) (limit : nat) (t : EventTable) : list (Z * EventRow) :=
  take limit (pending_events now job t).
Definition ecAckEventsSQL (job : string) (ids : list Z) (t : EventTable) : EventTable :=
  {| et_rows := filter (λ kr, ¬ (ev_job kr.2 = job ∧ kr.1 ∈ ids)) (et_rows t); et_used := et_used t |}.
Definition ecPurgeExpiredEventsSQL (now : Z) (t : EventTable) : EventTable :=
  {| et_rows := filter (λ kr, ¬ (ev_expires kr.2 < epoch_seconds now)) (et_rows t); et_used := et_used t |}.

(** ** The producer *)

(** One [pool.Exec] on this table. *)
Definition ev_exec {A} (n : net) (stmt : EventTable → EventTable * result A) : M EventTable A :=
  λ t, let '(t', a) := stmt t in
       match n with NetOk => (t', a) | NetErr true => (t', Err ErrIO) | NetErr false => (t, Err ErrIO) end.
(** Each insert takes its ID from the sequence and has its own outcome. *)
Fixpoint send_events (now : Z) (calls : nat → Z * net) (i : nat) (sentIDs : list string) (events : list BatchEvent)
    : M EventTable (list string) :=
  match events with
  | [] => ret sentIDs
  | e :: events' =>
      ev_exec (calls i).2 (ecSendEventSQL (calls i).1 (be_ID e) (be_Type e) (now + be_TTL e)) ;;;
      send_events now calls (S i) (app sentIDs [be_ID e]) events'
  end.
Fixpoint validate_events (events : list BatchEvent) : result unit :=
  match events with
  | [] => Ok tt
  | e :: events' => match event_IsValid e with Ok _ => validate_events events' | Err x => Err x end
  end.
Definition ECProducerSendEvents (now : Z) (calls : nat → Z * net) (events : list BatchEvent)
    : M EventTable (list string) :=
  match events with
  | [] => throw (ErrOther "empty events")
  | _ => match validate_events events with
         | Err e => throw e
         | Ok _ => send_events now calls 0 [] events
         end
  end.

(** ** Subscribers and deliveries *)
Definition eventChanBufSize : nat := 100.

(** [eventSub]: the client and job it belongs to, its channel as the events
    sent to it and the number received, and how far [closeFn] has come. *)
Record eventSub := {
  sub_client : nat; sub_job : string; sub_sent : list (Z * EventRow); sub_taken : nat; sub_leaving : bool;
  sub_closed : bool }.
Definition buffered (u : eventSub) : nat := length (sub_sent u) - sub_taken u.
Definition room (u : eventSub) : nat := eventChanBufSize - buffered u.
Definition set_sent (l : list (Z * EventRow)) (u : eventSub) : eventSub :=
  {| sub_client := sub_client u; sub_job := sub_job u; sub_sent := l; sub_taken := sub_taken u;
     sub_leaving := sub_leaving u; sub_closed := sub_closed u |}.
Definition set_taken (n : nat) (u : eventSub) : eventSub :=
  {| sub_client := sub_client u; sub_job := sub_job u; sub_sent := sub_sent u; sub_taken := n;
     sub_leaving := sub_leaving u; sub_closed := sub_closed u |}.
Definition set_leaving (u : eventSub) : eventSub :=
  {| sub_client := sub_client u; sub_job := sub_job u; sub_sent := sub_sent u; sub_taken := sub_taken u;
     sub_leaving := true; sub_closed := sub_closed u |}.
Definition set_closed (u : eventSub) : eventSub :=
  {| sub_client := sub_client u; sub_job := sub_job u; sub_sent := sub_sent u; sub_taken := sub_taken u;
     sub_leaving := sub_leaving u; sub_closed := true |}.
Definition newSub (client : nat) (job : string) : eventSub :=
  {| sub_client := client; sub_job := job; sub_sent := []; sub_taken := 0; sub_leaving := false; sub_closed := false |}.

(** Where a delivery is: the capacity is read, the rows are selected, or the
    accepted IDs wait for their deletion. *)
Inductive Stage := Room (capacity : nat) | Drained (events : list (Z * EventRow)) | Accepted (ids : list Z).
Record Delivery := { dl_client : nat; dl_job : string; dl_sub : nat; dl_stage : Stage }.
Definition set_stage (g : Stage) (d : Delivery) : Delivery :=
  {| dl_client := dl_client d; dl_job := dl_job d; dl_sub := dl_sub d; dl_stage := g |}.

(** Every client's [eventSubs], the channels, the running deliveries by
    thread, and whether some thread sent on a closed channel. *)
Record Sys := {
  sy_table : EventTable; sy_subs : gmap (nat * string) nat; sy_chans : gmap nat eventSub;
  sy_run : gmap nat Delivery; sy_panic : bool }.
Definition sys0 : Sys := {| sy_table := no_events; sy_subs := ∅; sy_chans := ∅; sy_run := ∅; sy_panic := false |}.

Definition with_table (t : EventTable) (s : Sys) : Sys :=
  {| sy_table := t; sy_subs := sy_subs s; sy_chans := sy_chans s; sy_run := sy_run s; sy_panic := sy_panic s |}.
Definition with_subs (m : gmap (nat * string) nat) (s : Sys) : Sys :=
  {| sy_table := sy_table s; sy_subs := m; sy_chans := sy_chans s; sy_run := sy_run s; sy_panic := sy_panic s |}.
Definition with_chans (m : gmap nat eventSub) (s : Sys) : Sys :=
  {| sy_table := sy_table s; sy_subs := sy_subs s; sy_chans := m; sy_run := sy_run s; sy_panic := sy_panic s |}.
Definition with_run (m : gmap nat Delivery) (s : Sys) : Sys :=
  {| sy_table := sy_table s; sy_subs := sy_subs s; sy_chans := sy_chans s; sy_run := m; sy_panic := sy_panic s |}.
Definition panicking (s : Sys) : Sys :=
  {| sy_table := sy_table s; sy_subs := sy_subs s; sy_chans := sy_chans s; sy_run := sy_run s; sy_panic := true |}.

Inductive Act :=
| ASend (id : Z) (now : Z) (n : net) (e : BatchEvent)
| APurge (now : Z)
| ASubscribe (client : nat) (job : string) (sub : nat)
| ALeave (sub : nat)
| AClose (sub : nat)
| ABegin (thread client : nat) (job : string)
| ADrain (thread : nat) (now : Z) (n : net)
| ADeliver (thread : nat)
| AAck (thread : nat) (n : net)
| AReceive (sub : nat)
| ACrash (client : nat).

(** [ECConsumerGetChannel] up to its first delivery: a new channel replaces
    the job's subscriber. *)
Definition subscribe (client : nat) (job : string) (sub : nat) (s : Sys) : option Sys :=
  match sy_chans s !! sub with
  | Some _ => None
  | None => if bool_decide (job = "") then None
            else Some (with_chans (<[sub := newSub client job]> (sy_chans s))
                        (with_subs (<[(client, job) := sub]> (sy_subs s)) s))
  end.
(** [closeFn]: the subscriber leaves the map if it is still the job's, then
    its channel is closed, once. *)
Definition leave (sub : nat) (s : Sys) : option Sys :=
  match sy_chans s !! sub with
  | Some u =>
      let k := (sub_client u, sub_job u) in
      let s' := with_chans (<[sub := set_leaving u]> (sy_chans s)) s in
      Some (if bool_decide (sy_subs s !! k = Some sub) then with_subs (delete k (sy_subs s)) s' else s')
  | None => None
  end.
Definition close (sub : nat) (s : Sys) : option Sys :=
  match sy_chans s !! sub with
  | Some u => if sub_leaving u then Some (with_chans (<[sub := set_closed u]> (sy_chans s)) s) else None
  | None => None
  end.

(** [deliverJobEvents] to the reading of the capacity; the subscriber's
    [deliveryMu] admits one delivery at a time. *)
Definition begin (thread client : nat) (job : string) (s : Sys) : option Sys :=
  match sy_run s !! thread, sy_subs s !! (client, job) with
  | None, Some sub =>
      match sy_chans s !! sub with
      | Some u =>
          if bool_decide (map_Forall (λ _ d, dl_sub d ≠ sub) (sy_run s)) then
            if (room u =? 0)%nat then Some s
            else Some (with_run (<[thread := {| dl_client := client; dl_job := job; dl_sub := sub;
                                                dl_stage := Room (room u) |}]> (sy_run s)) s)
          else None
      | None => None
      end
  | None, None => Some s
  | Some _, _ => None
  end.
(** [drainJobEvents]: a failed query or an empty result ends the delivery. *)
Definition drain (thread : nat) (now : Z) (n : net) (s : Sys) : option Sys :=
  match sy_run s !! thread with
  | Some d =>
      match dl_stage d with
      | Room capacity =>
          match n, ecDrainEventsSQL now (dl_job d) capacity (sy_table s) with
          | NetOk, e :: events => Some (with_run (<[thread := set_stage (Drained (e :: events)) d]> (sy_run s)) s)
          | _, _ => Some (with_run (delete thread (sy_run s)) s)
          end
      | _ => None
      end
  | None => None
  end.
(** The delivery loop under [eventsMu]: sends until the channel is full.  A
    send on a closed channel panics. *)
Definition deliver (thread : nat) (s : Sys) : option Sys :=
  match sy_run s !! thread with
  | Some d =>
      match dl_stage d with
      | Drained events =>
          match sy_subs s !! (dl_client d, dl_job d), sy_chans s !! dl_sub d with
          | Some cur, Some u =>
              if bool_decide (cur = dl_sub d) then
                if sub_closed u then Some (panicking s)
                else let accepted := take (room u) events in
                     let s' := with_chans (<[dl_sub d := set_sent (app (sub_sent u) accepted) u]> (sy_chans s)) s in
                     Some (with_run (match accepted with
                                     | [] => delete thread (sy_run s)
                                     | _ => <[thread := set_stage (Accepted accepted.*1) d]> (sy_run s)
                                     end) s')
              else Some (with_run (delete thread (sy_run s)) s)
          | _, _ => Some (with_run (delete thread (sy_run s)) s)
          end
      | _ => None
      end
  | None => None
  end.
Definition ack (thread : nat) (n : net) (s : Sys) : option Sys :=
  match sy_run s !! thread with
  | Some d =>
      match dl_stage d with
      | Accepted ids =>
          let s' := with_run (delete thread (sy_run s)) s in
          Some (match n with
                | NetErr false => s'
                | _ => with_table (ecAckEventsSQL (dl_job d) ids (sy_table s)) s'
                end)
      | _ => None
      end
  | None => None
  end.
Definition receive (sub : nat) (s : Sys) : option Sys :=
  match sy_chans s !! sub with
  | Some u => if (sub_taken u <? length (sub_sent u))%nat
              then Some (with_chans (<[sub := set_taken (S (sub_taken u)) u]> (sy_chans s)) s) else None
  | None => None
  end.
(** A process dies with its subscriptions and deliveries. *)
Definition crash (client : nat) (s : Sys) : Sys :=
  with_run (filter (λ kd, dl_client kd.2 ≠ client) (sy_run s))
    (with_subs (filter (λ kx, kx.1.1 ≠ client) (sy_subs s)) s).

(** One atomic action; [None] when it is not enabled. *)
Definition step (a : Act) (s : Sys) : option Sys :=
  match a with
  | ASend id now n e => match event_IsValid e with
                        | Err _ => None
                        | Ok _ => Some (with_table (ECProducerSendEvents now (λ _, (id, n)) [e] (sy_table s)).1 s)
                        end
  | APurge now => Some (with_table (ecPurgeExpiredEventsSQL now (sy_table s)) s)
  | ASubscribe c job sub => subscribe c job sub s
  | ALeave sub => leave sub s
  | AClose sub => close sub s
  | ABegin t c job => begin t c job s
  | ADrain t now n => drain t now n s
  | ADeliver t => deliver t s
  | AAck t n => ack t n s
  | AReceive sub => receive sub s
  | ACrash c => Some (crash c s)
  end.
Fixpoint steps (l : list Act) (s : Sys) : option Sys :=
  match l with [] => Some s | a :: l' => match step a s with Some s' => steps l' s' | None => None end end.

(** ** Invariants *)

(** The pair is a row that was inserted, and no other row ever has its ID. *)
Definition known (t : EventTable) (kr : Z * EventRow) : Prop :=
  kr.1 ∈ et_used t ∧ ∀ r, et_rows t !! kr.1 = Some r → r = kr.2.
Definition sub_wf (t : EventTable) (u : eventSub) : Prop :=
  (sub_closed u = true → sub_leaving u = true) ∧ (sub_taken u ≤ length (sub_sent u))%nat ∧
  (buffered u ≤ eventChanBufSize)%nat ∧ Forall (λ kr, known t kr ∧ ev_job kr.2 = sub_job u) (sub_sent u).
Definition stage_wf (t : EventTable) (u : eventSub) (g : Stage) : Prop :=
  match g with
  | Room _ => True
  | Drained es => Forall (λ kr, known t kr ∧ ev_job kr.2 = sub_job u) es
  | Accepted ids => Forall (λ id, id ∈ (sub_sent u).*1) ids
  end.
Record sys_wf (s : Sys) : Prop := {
  wf_table : ∀ id r, et_rows (sy_table s) !! id = Some r → id ∈ et_used (sy_table s);
  wf_subs : ∀ c job sub, sy_subs s !! (c, job) = Some sub →
    ∃ u, sy_chans s !! sub = Some u ∧ sub_client u = c ∧ sub_job u = job ∧ sub_leaving u = false;
  wf_chans : ∀ sub u, sy_chans s !! sub = Some u → sub_wf (sy_table s) u;
  wf_run : ∀ t d, sy_run s !! t = Some d →
    ∃ u, sy_chans s !! dl_sub d = Some u ∧ sub_client u = dl_client d ∧ sub_job u = dl_job d ∧
         stage_wf (sy_table s) u (dl_stage d);
  wf_mutex : ∀ t1 t2 d1 d2, sy_run s !! t1 = Some d1 → sy_run s !! t2 = Some d2 → dl_sub d1 = dl_sub d2 → t1 = t2;
  wf_panic : sy_panic s = false }.

Lemma elem_pending now job t kr :
  kr ∈ pending_events now job t ↔
  et_rows t !! kr.1 = Some kr.2 ∧ ev_job kr.2 = job ∧ epoch_seconds now < ev_expires kr.2.
Proof.
  destruct kr as [k r]. unfold pending_events. rewrite merge_sort_Permutation, list_elem_of_filter, elem_of_map_to_list.
  cbn. naive_solver.
Qed.
Lemma NoDup_pending now job t : NoDup (pending_events now job t).*1.
Proof.
  unfold pending_events. rewrite merge_sort_Permutation. apply NoDup_fmap_fst.
  - intros x y1 y2 (_ & H1)%list_elem_of_filter (_ & H2)%list_elem_of_filter.
    apply elem_of_map_to_list in H1, H2. congruence.
  - apply NoDup_filter, NoDup_map_to_list.
Qed.

(** The table only loses rows and gains rows with new IDs. *)
Definition table_step (t t' : EventTable) : Prop :=
  et_used t ⊆ et_used t' ∧
  (∀ id r, et_rows t' !! id = Some r → et_rows t !! id = Some r ∨ (id ∉ et_used t ∧ id ∈ et_used t')).
Lemma table_step_refl t : table_step t t.
Proof. split; [done|]. auto. Qed.
Lemma known_step t t' kr : table_step t t' → known t kr → known t' kr.
Proof. intros [Hu Hr] [H1 H2]. split; [by apply Hu|]. intros r [H|[H _]]%Hr; [by apply H2|done]. Qed.
Lemma Forall_known_step t t' job l :
  table_step t t' → Forall (λ kr, known t kr ∧ ev_job kr.2 = job) l → Forall (λ kr, known t' kr ∧ ev_job kr.2 = job) l.
Proof. intros Ht H. eapply Forall_impl; [done|]. intros kr [? ?]. split; [by eapply known_step|done]. Qed.
Lemma sub_wf_step t t' u : table_step t t' → sub_wf t u → sub_wf t' u.
Proof. intros Ht (? & ? & ? & ?). split_and!; try done. by eapply Forall_known_step. Qed.
Lemma stage_wf_step t t' u g : table_step t t' → stage_wf t u g → stage_wf t' u g.
Proof. intros Ht. destruct g; cbn; [done| |done]. by apply Forall_known_step. Qed.
Lemma send_step now calls e t t' r :
  ECProducerSendEvents now calls [e] t = (t', r) →
  t' = t ∨ (event_IsValid e = Ok tt ∧ t' = (ecSendEventSQL (calls 0%nat).1 (be_ID e) (be_Type e) (now + be_TTL e) t).1).
Proof.
  unfold ECProducerSendEvents. cbn [validate_events send_events]. destruct (event_IsValid e) as [[]|]; [|by intros [= <- _]; left].
  unfold bindM, ev_exec, ret, throw. destruct (ecSendEventSQL _ _ _ _ t) as [x [[]|]]; destruct (calls 0%nat).2 as [|[]];
    intros [= <- _]; auto.
Qed.
Lemma sql_send_step id job ty ex t : table_step t (ecSendEventSQL id job ty ex t).1.
Proof.
  unfold ecSendEventSQL. case_bool_decide; [apply table_step_refl|]. split; cbn; [set_solver|].
  intros k r. rewrite lookup_insert. case_decide; [|by auto]. subst. intros _. right. split; [done|set_solver].
Qed.
Lemma produce_step now calls e t : table_step t (ECProducerSendEvents now calls [e] t).1.
Proof.
  destruct (ECProducerSendEvents now calls [e] t) as [t' r] eqn:He.
  apply send_step in He as [->|[_ ->]]; [apply table_step_refl|apply sql_send_step].
Qed.
Lemma ack_step job ids t : table_step t (ecAckEventsSQL job ids t).
Proof. split; [done|]. cbn. intros id r [? _]%map_lookup_filter_Some. auto. Qed.
Lemma purge_step now t : table_step t (ecPurgeExpiredEventsSQL now t).
Proof. split; [done|]. cbn. intros id r [? _]%map_lookup_filter_Some. auto. Qed.

(** Changing the table by a [table_step] keeps the invariant. *)
Lemma with_table_wf t s : table_step (sy_table s) t → sys_wf s → sys_wf (with_table t s).
Proof.
  intros Ht [? ? Hc Hr ? ?]. constructor; cbn; try done.
  - intros id r [H|[_ H]]%(proj2 Ht); [|done]. apply (proj1 Ht). eauto.
  - intros sub u H. eapply sub_wf_step; eauto.
  - intros th d H. destruct (Hr _ _ H) as (u & ? & ? & ? & ?). exists u. split_and!; try done. by eapply stage_wf_step.
Qed.
(** Ending or advancing a delivery. *)
Lemma delete_run_wf t s : sys_wf s → sys_wf (with_run (delete t (sy_run s)) s).
Proof.
  intros [? ? ? Hr Hm ?]. constructor; cbn; try done.
  - intros th d [_ H]%lookup_delete_Some. eauto.
  - intros t1 t2 d1 d2 [_ ?]%lookup_delete_Some [_ ?]%lookup_delete_Some. eauto.
Qed.
Lemma advance_run_wf t d g s u :
  sys_wf s → sy_run s !! t = Some d → sy_chans s !! dl_sub d = Some u → stage_wf (sy_table s) u g →
  sys_wf (with_run (<[t := set_stage g d]> (sy_run s)) s).
Proof.
  intros [? ? ? Hr Hm ?] Hd Hu Hg. constructor; cbn; try done.
  - intros th d' [[<- <-]|[_ H]]%lookup_insert_Some; [|by eauto].
    destruct (Hr _ _ Hd) as (u' & ? & ? & ? & _). simplify_eq. exists u. eauto.
  - intros t1 t2 d1 d2 H1 H2 He.
    assert (Hback : ∀ x y, <[t:=set_stage g d]> (sy_run s) !! x = Some y → ∃ y', sy_run s !! x = Some y' ∧ dl_sub y' = dl_sub y).
    { intros x y [[<- <-]|[_ H]]%lookup_insert_Some; eauto. }
    destruct (Hback _ _ H1) as (y1 & ? & ?), (Hback _ _ H2) as (y2 & ? & ?). eapply Hm; eauto. congruence.
Qed.
(** Changing one channel: it keeps its owner, its sent events grow, and it
    stays in the map only if it is not leaving. *)
Lemma update_chan_wf sub u u' s :
  sys_wf s → sy_chans s !! sub = Some u → sub_client u' = sub_client u → sub_job u' = sub_job u →
  (∃ l, sub_sent u' = app (sub_sent u) l) → sub_wf (sy_table s) u' →
  (sub_leaving u' = sub_leaving u ∨ map_Forall (λ _ x, x ≠ sub) (sy_subs s)) →
  sys_wf (with_chans (<[sub := u']> (sy_chans s)) s).
Proof.
  intros [? Hs Hc Hr ? ?] Hu Hcl Hj [l Hl] Hw Hlv. constructor; cbn; try done.
  - intros c job x Hx. destruct (Hs _ _ _ Hx) as (v & Hv & ? & ? & ?). rewrite lookup_insert. case_decide; [|by eauto].
    subst. simplify_eq. exists u'. split_and!; try congruence. destruct Hlv as [?|Hn]; [congruence|].
    by destruct (Hn _ _ Hx).
  - intros x v [[<- <-]|[_ H]]%lookup_insert_Some; eauto.
  - intros t d Hd. destruct (Hr _ _ Hd) as (v & Hv & ? & ? & Hg). rewrite lookup_insert. case_decide; [|by eauto].
    subst. simplify_eq. exists u'. split_and!; try congruence. destruct (dl_stage d); cbn in *; [done|by rewrite Hj|].
    rewrite Hl, fmap_app. eapply Forall_impl; [done|]. cbn. intros. set_solver.
Qed.

Lemma subscribe_wf c job sub s s' : sys_wf s → subscribe c job sub s = Some s' → sys_wf s'.
Proof.
  intros [? Hs Hc Hr ? ?]. unfold subscribe. destruct (sy_chans s !! sub) eqn:Hf; [done|].
  case_bool_decide; [done|]. intros [= <-]. constructor; cbn; try done.
  - intros c' j x [[[= <- <-] <-]|[_ H']]%lookup_insert_Some.
    + exists (newSub c job). by rewrite lookup_insert_eq.
    + destruct (Hs _ _ _ H') as (u & ? & ?). exists u. by rewrite lookup_insert_ne by congruence.
  - intros x u [[<- <-]|[_ H']]%lookup_insert_Some; [|by eauto]. split_and!; cbn; try done. unfold buffered, eventChanBufSize; cbn; lia.
  - intros t d Hd. destruct (Hr _ _ Hd) as (u & ? & ?). exists u. by rewrite lookup_insert_ne by congruence.
Qed.
Lemma leave_wf sub s s' : sys_wf s → leave sub s = Some s' → sys_wf s'.
Proof.
  intros Hw. unfold leave. destruct (sy_chans s !! sub) as [u|] eqn:Hu; [|done]. intros [= <-].
  destruct (wf_chans _ Hw _ _ Hu) as (? & ? & ? & ?).
  set (s1 := if bool_decide (sy_subs s !! (sub_client u, sub_job u) = Some sub)
             then with_subs (delete (sub_client u, sub_job u) (sy_subs s)) s else s).
  assert (sys_wf s1) as Hw1.
  { unfold s1. case_bool_decide; [|done]. destruct Hw as [? Hs ? ? ? ?]. constructor; cbn; try done.
    intros c job x [_ Hx]%lookup_delete_Some. eauto. }
  assert (sys_wf (with_chans (<[sub := set_leaving u]> (sy_chans s1)) s1)) as Hw2.
  { apply (update_chan_wf _ u); [done|unfold s1; by case_bool_decide|done|done|exists []; by rewrite app_nil_r| |].
    - split_and!; try done; unfold s1; by case_bool_decide.
    - right. intros [c job] x Hx ->. destruct (wf_subs _ Hw1 _ _ _ Hx) as (v & Hv & <- & <- & _).
      assert (v = u) as -> by (unfold s1 in Hv; case_bool_decide; cbn in Hv; congruence).
      unfold s1 in Hx. case_bool_decide; cbn in Hx; [by rewrite lookup_delete_eq in Hx|done]. }
  unfold s1 in Hw2. case_bool_decide; done.
Qed.
Lemma close_wf sub s s' : sys_wf s → close sub s = Some s' → sys_wf s'.
Proof.
  intros Hw. unfold close. destruct (sy_chans s !! sub) as [u|] eqn:Hu; [|done].
  destruct (sub_leaving u) eqn:Hl; [|done]. intros [= <-]. destruct (wf_chans _ Hw _ _ Hu) as (? & ? & ? & ?).
  apply (update_chan_wf _ u); try done; [exists []; by rewrite app_nil_r|by left].
Qed.
Lemma receive_wf sub s s' : sys_wf s → receive sub s = Some s' → sys_wf s'.
Proof.
  intros Hw. unfold receive. destruct (sy_chans s !! sub) as [u|] eqn:Hu; [|done].
  destruct (Nat.ltb_spec (sub_taken u) (length (sub_sent u))); [|done]. intros [= <-].
  destruct (wf_chans _ Hw _ _ Hu) as (? & ? & Hb & ?).
  apply (update_chan_wf _ u); try done; [exists []; by rewrite app_nil_r| |by left].
  split_and!; cbn; try done. unfold buffered in *. cbn. lia.
Qed.
Lemma begin_wf t c job s s' : sys_wf s → begin t c job s = Some s' → sys_wf s'.
Proof.
  intros Hw. pose proof Hw as [? Hs ? Hr Hm ?]. unfold begin. destruct (sy_run s !! t) eqn:Ht; [done|].
  destruct (sy_subs s !! (c, job)) as [sub|] eqn:Hx; [|by intros [= <-]].
  destruct (Hs _ _ _ Hx) as (u & Hu & ? & ? & ?). rewrite Hu. case_bool_decide as Hf; [|done].
  destruct (room u =? 0)%nat; intros [= <-]; [done|]. constructor; cbn; try done.
  - intros th d [[<- <-]|[_ Hd]]%lookup_insert_Some; [|by eauto]. exists u. done.
  - intros t1 t2 d1 d2 [[<- <-]|[_ E1]]%lookup_insert_Some [[<- <-]|[_ E2]]%lookup_insert_Some; cbn; intros He; try done.
    + by destruct (Hf _ _ E2).
    + by destruct (Hf _ _ E1).
    + eauto.
Qed.
Lemma drain_wf t now n s s' : sys_wf s → drain t now n s = Some s' → sys_wf s'.
Proof.
  intros Hw. unfold drain. destruct (sy_run s !! t) as [d|] eqn:Hd; [|done].
  destruct (dl_stage d) as [cap| |] eqn:Hg; try done.
  destruct (wf_run _ Hw _ _ Hd) as (u & Hu & _ & Hj & _).
  destruct n; [|intros [= <-]; by apply delete_run_wf].
  destruct (ecDrainEventsSQL _ _ _ _) as [|e es] eqn:He; intros [= <-]; [by apply delete_run_wf|].
  eapply advance_run_wf; eauto. cbn [stage_wf]. rewrite <- He. apply Forall_forall. intros kr Hk.
  unfold ecDrainEventsSQL in Hk. apply elem_of_take in Hk as (i & Hk & _). apply list_elem_of_lookup_2, elem_pending in Hk.
  destruct Hk as (Hk & -> & _). split; [|done]. split; [by eapply wf_table|]. intros r ?. congruence.
Qed.
Lemma deliver_wf t s s' : sys_wf s → deliver t s = Some s' → sys_wf s'.
Proof.
  intros Hw. unfold deliver. destruct (sy_run s !! t) as [d|] eqn:Hd; [|done].
  destruct (dl_stage d) as [|es|] eqn:Hg; try done. pose proof (delete_run_wf t _ Hw) as Hdel.
  destruct (sy_subs s !! _) as [cur|] eqn:Hx; [|by intros [= <-]].
  destruct (wf_run _ Hw _ _ Hd) as (u & Hu & _ & Hj & Hes). rewrite Hu. rewrite Hg in Hes.
  case_bool_decide as Hc; [|by intros [= <-]]. subst cur.
  destruct (wf_subs _ Hw _ _ _ Hx) as (u2 & Hu2 & _ & _ & Hl).
  assert (u2 = u) as -> by congruence.
  destruct (wf_chans _ Hw _ _ Hu) as (Hcl & Ht & Hb & Hs).
  destruct (sub_closed u) eqn:Hcd; [by rewrite Hcl in Hl|]. intros [= <-].
  assert (Forall (λ kr, known (sy_table s) kr ∧ ev_job kr.2 = sub_job u) (take (room u) es)) as Hacc by by apply Forall_take.
  set (v' := set_sent (app (sub_sent u) (take (room u) es)) u).
  assert (sys_wf (with_chans (<[dl_sub d := v']> (sy_chans s)) s)) as Hw'.
  { apply (update_chan_wf _ u); try done; [by eexists| |by left]. unfold v'. split_and!; cbn; try done.
    - by rewrite Hcd.
    - rewrite length_app. lia.
    - unfold room, buffered, eventChanBufSize in *. cbn. rewrite length_app, length_take. lia.
    - by apply Forall_app. }
  destruct (take (room u) es) as [|a acc] eqn:Ha; [by apply (delete_run_wf t) in Hw'|].
  eapply (advance_run_wf t d _ _ v') in Hw'; [exact Hw'|done|cbn; by rewrite lookup_insert_eq|].
  unfold v', stage_wf. cbn [sub_sent set_sent]. apply Forall_forall. intros id Hid. rewrite fmap_app. set_solver.
Qed.
Lemma ack_wf t n s s' : sys_wf s → ack t n s = Some s' → sys_wf s'.
Proof.
  intros Hw. unfold ack. destruct (sy_run s !! t) as [d|] eqn:Hd; [|done]. destruct (dl_stage d) as [| |ids]; try done.
  intros [= <-]. apply (delete_run_wf t) in Hw. destruct n as [|[]]; [| |done]; apply with_table_wf; try done; apply ack_step.
Qed.
Lemma crash_wf c s : sys_wf s → sys_wf (crash c s).
Proof.
  intros [? Hs ? Hr Hm ?]. constructor; cbn; try done.
  - intros c' job sub [? _]%map_lookup_filter_Some. eauto.
  - intros t d [? _]%map_lookup_filter_Some. eauto.
  - intros t1 t2 d1 d2 [? _]%map_lookup_filter_Some [? _]%map_lookup_filter_Some. eauto.
Qed.

Lemma step_wf a s s' : sys_wf s → step a s = Some s' → sys_wf s'.
Proof.
  intros Hw. destruct a; unfold step.
  - destruct (event_IsValid e); [|done]. intros [= <-]. apply with_table_wf; [|done].
    apply (produce_step now (λ _, (id, n))).
  - intros [= <-]. apply with_table_wf; [apply purge_step|done].
  - by apply subscribe_wf.
  - by apply leave_wf.
  - by apply close_wf.
  - by apply begin_wf.
  - by apply drain_wf.
  - by apply deliver_wf.
  - by apply ack_wf.
  - by apply receive_wf.
  - intros [= <-]. by apply crash_wf.
Qed.
Lemma sys0_wf : sys_wf sys0.
Proof. constructor; cbn; intros; try done; by simplify_map_eq. Qed.
Lemma steps_wf l s s' : sys_wf s → steps l s = Some s' → sys_wf s'.
Proof.
  revert s. induction l as [|a l IH]; intros s Hw; cbn; [by intros [= <-]|].
  destruct (step a s) as [s1|] eqn:Ha; [|done]. apply IH. by eapply step_wf.
Qed.

(** ** At least once *)

(** What happens to a row between two states: it stays, or it was sent to a
    subscriber of its job, or a sweep found it expired. *)
Definition settled (acts : list Act) (s : Sys) (kr : Z * EventRow) : Prop :=
  et_rows (sy_table s) !! kr.1 = Some kr.2 ∨
  (∃ sub u, sy_chans s !! sub = Some u ∧ sub_job u = ev_job kr.2 ∧ kr ∈ sub_sent u) ∨
  (∃ now, APurge now ∈ acts ∧ ev_expires kr.2 < epoch_seconds now).

Lemma sent_grows a s s' sub u :
  step a s = Some s' → sy_chans s !! sub = Some u →
  ∃ u', sy_chans s' !! sub = Some u' ∧ sub_job u' = sub_job u ∧ ∃ l, sub_sent u' = app (sub_sent u) l.
Proof.
  intros H Hu.
  assert (∀ x v v', sy_chans s !! x = Some v → sub_job v' = sub_job v → (∃ l, sub_sent v' = app (sub_sent v) l) →
    ∃ u', <[x := v']> (sy_chans s) !! sub = Some u' ∧ sub_job u' = sub_job u ∧ ∃ l, sub_sent u' = app (sub_sent u) l) as Hup.
  { intros x v v' Hv Hj Hl. rewrite lookup_insert. case_decide; [|exists u; split_and!; try done; exists []; by rewrite app_nil_r].
    subst. simplify_eq. eauto. }
  assert (∃ u', sy_chans s !! sub = Some u' ∧ sub_job u' = sub_job u ∧ ∃ l, sub_sent u' = app (sub_sent u) l) as Hsame.
  { exists u. split_and!; try done. exists []. by rewrite app_nil_r. }
  destruct a; unfold step in H; unfold subscribe, leave, close, begin, drain, deliver, ack, receive in H;
    repeat (destruct_match_in H; try done); simplify_eq; try exact Hsame; cbn.
  all: try (eapply Hup; [done|done|]; cbn; first [exists []; by rewrite app_nil_r | by eexists]).
  all: try (rewrite lookup_insert_ne by congruence; exact Hsame).
Qed.

(** One action settles a row of the table. *)
Lemma row_settled a s s' kr :
  sys_wf s → step a s = Some s' → et_rows (sy_table s) !! kr.1 = Some kr.2 → settled [a] s' kr.
Proof.
  intros Hw H Hr.
  assert (∀ x, sy_table x = sy_table s → settled [a] x kr) as Hkeep by (intros x Hx; left; by rewrite Hx).
  destruct a; unfold step in H.
  - destruct (event_IsValid e); [|done]. simplify_eq. left. cbn [with_table sy_table].
    destruct (ECProducerSendEvents now (λ _, (id, n)) [e] (sy_table s)) as [t' r] eqn:He.
    apply send_step in He as [->|[_ ->]]; [done|]. unfold ecSendEventSQL. cbn [fst]. case_bool_decide as Hu; [done|].
    cbn. rewrite lookup_insert_ne; [done|]. intros ->. by apply Hu; eapply wf_table.
  - simplify_eq. destruct (decide (ev_expires kr.2 < epoch_seconds now)) as [Hx|Hx].
    + right. right. exists now. set_solver.
    + left. cbn. by apply map_lookup_filter_Some.
  - apply Hkeep. unfold subscribe in H. repeat (destruct_match_in H; try done). by simplify_eq.
  - apply Hkeep. unfold leave in H. repeat (destruct_match_in H; try done); by simplify_eq.
  - apply Hkeep. unfold close in H. repeat (destruct_match_in H; try done). by simplify_eq.
  - apply Hkeep. unfold begin in H. repeat (destruct_match_in H; try done); by simplify_eq.
  - apply Hkeep. unfold drain in H. repeat (destruct_match_in H; try done); by simplify_eq.
  - apply Hkeep. unfold deliver in H. repeat (destruct_match_in H; try done); by simplify_eq.
  - unfold ack in H. destruct (sy_run s !! thread) as [d|] eqn:Hd; [|done].
    destruct (dl_stage d) as [| |ids] eqn:Hg; try done. injection H as <-.
    destruct (wf_run _ Hw _ _ Hd) as (u & Hu & _ & Hj & Hs). rewrite Hg in Hs.
    destruct (decide (ev_job kr.2 = dl_job d ∧ kr.1 ∈ ids)) as [[Hjob Hin]|Hno].
    + right. left. exists (dl_sub d), u. split_and!; [by destruct n as [|[]]|congruence|].
      cbn in Hs. rewrite Forall_forall in Hs. apply Hs, list_elem_of_fmap in Hin as ([i r] & Hi & Hin). cbn in Hi.
      destruct (wf_chans _ Hw _ _ Hu) as (_ & _ & _ & Hk). rewrite Forall_forall in Hk.
      destruct (Hk _ Hin) as [[_ Heq] _]. cbn in Heq. rewrite <- Hi in Heq. apply Heq in Hr. destruct kr; cbn in *; by subst.
    + left. destruct n as [|[]]; cbn; [| |done]; by apply map_lookup_filter_Some.
  - apply Hkeep. unfold receive in H. repeat (destruct_match_in H; try done). by simplify_eq.
  - apply Hkeep. by simplify_eq.
Qed.

Lemma settled_steps acts s s' kr :
  sys_wf s → steps acts s = Some s' → et_rows (sy_table s) !! kr.1 = Some kr.2 → settled acts s' kr.
Proof.
  intros Hw Hs Hr. assert (settled [] s kr) as H0 by by left.
  cut (∀ pre, settled pre s kr → settled (app pre acts) s' kr); [intros Hc; by apply (Hc [])|]. clear Hr H0.
  revert s Hw Hs. induction acts as [|a acts IH]; intros s Hw Hs pre H; cbn in Hs.
  { simplify_eq. by rewrite app_nil_r. }
  destruct (step a s) as [s1|] eqn:Ha; [|done]. rewrite cons_middle, app_assoc. eapply IH; [by eapply step_wf|done|].
  destruct H as [H|[(sub & u & Hu & Hj & Hin)|(now & Hin & Hx)]].
  - destruct (row_settled _ _ _ _ Hw Ha H) as [?|[?|(now & ? & ?)]]; [by left|by right; left|].
    right. right. exists now. set_solver.
  - destruct (sent_grows _ _ _ _ _ Ha Hu) as (u' & Hu' & Hj' & l & Hl). right. left. exists sub, u'.
    split_and!; [done|congruence|]. rewrite Hl. set_solver.
  - right. right. exists now. set_solver.
Qed.

(** [C17] No event is lost: whatever clients subscribe, unsubscribe, replace
    each other, crash or lose responses, a row of the event table is, at any
    later time, still in the table, or it was sent to a channel subscribed to
    its job, or a sweep deleted it after it had expired. *)
Theorem events_at_least_once acts0 acts s s' id r :
  steps acts0 sys0 = Some s → et_rows (sy_table s) !! id = Some r → steps acts s = Some s' →
  et_rows (sy_table s') !! id = Some r ∨
  (∃ sub u, sy_chans s' !! sub = Some u ∧ sub_job u = ev_job r ∧ (id, r) ∈ sub_sent u) ∨
  (∃ now, APurge now ∈ acts ∧ ev_expires r < epoch_seconds now).
Proof.
  intros H0 Hr Hs. apply (settled_steps acts s s' (id, r)); [|done|done]. eapply steps_wf; [apply sys0_wf|done].
Qed.

(** The delivery code never sends on a closed channel (which would panic),
    never overfills a channel, and only sends events of the channel's job, in
    every interleaving of deliveries, closings and replacements. *)
Theorem delivery_is_panic_free acts s :
  steps acts sys0 = Some s →
  sy_panic s = false ∧
  ∀ sub u, sy_chans s !! sub = Some u →
    (buffered u ≤ eventChanBufSize)%nat ∧ Forall (λ kr, ev_job kr.2 = sub_job u) (sub_sent u).
Proof.
  intros H. assert (sys_wf s) as Hw by (eapply steps_wf; [apply sys0_wf|done]). split; [apply Hw|].
  intros sub u Hu. destruct (wf_chans _ Hw _ _ Hu) as (_ & _ & ? & Hs). split; [done|].
  eapply Forall_impl; [done|]. by intros ? [_ ?].
Qed.

(** ** At most once per subscriber, while acknowledgements succeed *)
Definition mapped (s : Sys) (sub : nat) : Prop := ∃ k, sy_subs s !! k = Some sub.
Definition ack_pending (s : Sys) (sub : nat) (id : Z) : Prop :=
  ∃ t d ids, sy_run s !! t = Some d ∧ dl_sub d = sub ∧ dl_stage d = Accepted ids ∧ id ∈ ids.
(** What is in the channel is out of the table or about to leave it, and what
    was selected is not yet in the channel. *)
Record once (s : Sys) : Prop := {
  once_sent : ∀ sub u, sy_chans s !! sub = Some u → NoDup (sub_sent u).*1;
  once_acked : ∀ sub u id, mapped s sub → sy_chans s !! sub = Some u → id ∈ (sub_sent u).*1 →
    et_rows (sy_table s) !! id = None ∨ ack_pending s sub id;
  once_drained : ∀ t d es u, sy_run s !! t = Some d → dl_stage d = Drained es → sy_chans s !! dl_sub d = Some u →
    NoDup es.*1 ∧ (mapped s (dl_sub d) → ∀ id, id ∈ es.*1 → id ∉ (sub_sent u).*1) }.

(** Actions that send nothing and forget no acknowledgement. *)
Lemma once_frame s s' :
  sys_wf s → once s → table_step (sy_table s) (sy_table s') →
  (∀ sub u', sy_chans s' !! sub = Some u' →
     sub_sent u' = [] ∨ ∃ u, sy_chans s !! sub = Some u ∧ sub_sent u' = sub_sent u) →
  (∀ sub, mapped s' sub → is_Some (sy_chans s !! sub) → mapped s sub) →
  (∀ t d, sy_run s' !! t = Some d → sy_run s !! t = Some d ∨ ∃ n, dl_stage d = Room n) →
  (∀ t d ids, sy_run s !! t = Some d → dl_stage d = Accepted ids → mapped s' (dl_sub d) → sy_run s' !! t = Some d) →
  once s'.
Proof.
  intros Hw [H1 H2 H3] [_ Ht] Hc Hm Hr Ha. constructor.
  - intros sub u' Hu. destruct (Hc _ _ Hu) as [->|(u & ? & ->)]; [constructor|eauto].
  - intros sub u' id Hx Hu. destruct (Hc _ _ Hu) as [->|(u & Hu0 & ->)]; [set_solver|]. intros Hin.
    destruct (H2 sub u id) as [Hn|(t & d & ids & Hd & <- & Hg & Hi)]; eauto.
    + left. destruct (et_rows (sy_table s') !! id) as [r|] eqn:E; [|done]. apply Ht in E as [?|[E _]]; [congruence|].
      destruct E. apply list_elem_of_fmap in Hin as (kr & -> & Hin). destruct (wf_chans _ Hw _ _ Hu0) as (_ & _ & _ & Hk).
      rewrite Forall_forall in Hk. by destruct (Hk _ Hin) as [[? _] _].
    + right. exists t, d, ids. eauto.
  - intros t d es u' Hd Hg Hu. destruct (Hr _ _ Hd) as [Hd'|[n ?]]; [|congruence].
    destruct (wf_run _ Hw _ _ Hd') as (u0 & Hu0 & _). destruct (H3 _ _ _ _ Hd' Hg Hu0) as [? Hdj]. split; [done|].
    intros Hx id Hin. destruct (Hc _ _ Hu) as [->|(u & Hu1 & ->)]; [set_solver|]. simplify_eq. eauto.
Qed.
Lemma once_drain t now n s s' : sys_wf s → once s → drain t now n s = Some s' → once s'.
Proof.
  intros Hw Ho. unfold drain. destruct (sy_run s !! t) as [d|] eqn:Hd; [|done].
  destruct (dl_stage d) as [cap| |] eqn:Hg; try done.
  assert (once (with_run (delete t (sy_run s)) s)) as Hdel.
  { apply (once_frame s); try done; cbn; [apply table_step_refl|by eauto| |].
    - intros t' d' [_ ?]%lookup_delete_Some. by left.
    - intros t' d' ids Hd' Hg' _. apply lookup_delete_Some. split; [|done]. intros ->. congruence. }
  destruct n; [|by intros [= <-]]. destruct (ecDrainEventsSQL _ _ _ _) as [|e es] eqn:He; intros [= <-]; [done|].
  destruct Ho as [H1 H2 H3]. constructor; cbn; [done| |].
  - intros sub u id Hx Hu Hin. destruct (H2 _ _ _ Hx Hu Hin) as [?|(t' & d' & ids & Hd' & ? & Hg' & ?)]; [by left|].
    right. exists t', d', ids. split_and!; try done. cbn. rewrite lookup_insert_ne; [done|]. intros ->. congruence.
  - intros t' d' es' u [[<- <-]|[_ Hd']]%lookup_insert_Some Hg' Hu; [|by eauto]. cbn in Hg', Hu. simplify_eq.
    rewrite <- He. unfold ecDrainEventsSQL. rewrite fmap_take. split; [eapply sublist_NoDup; [apply NoDup_pending|apply sublist_take]|].
    intros Hx id Hin Hsent. apply elem_of_take in Hin as (i & Hin & _). apply list_elem_of_lookup_2, list_elem_of_fmap in Hin.
    destruct Hin as (kr & -> & (Hrow & _)%elem_pending). destruct (H2 _ _ _ Hx Hu Hsent) as [?|(t' & d' & ids & Hd' & Hs & Hg'' & _)]; [congruence|].
    assert (t' = t) as -> by (eapply wf_mutex; eauto). congruence.
Qed.
Lemma once_deliver t s s' : sys_wf s → once s → deliver t s = Some s' → once s'.
Proof.
  intros Hw Ho. unfold deliver. destruct (sy_run s !! t) as [d|] eqn:Hd; [|done].
  destruct (dl_stage d) as [|es|] eqn:Hg; try done.
  assert (once (with_run (delete t (sy_run s)) s)) as Hdel.
  { apply (once_frame s); try done; cbn; [apply table_step_refl|by eauto| |].
    - intros t' d' [_ ?]%lookup_delete_Some. by left.
    - intros t' d' ids Hd' Hg' _. apply lookup_delete_Some. split; [|done]. intros ->. congruence. }
  destruct (sy_subs s !! _) as [cur|] eqn:Hx; [|by intros [= <-]].
  destruct (sy_chans s !! dl_sub d) as [u|] eqn:Hu; [|by intros [= <-]].
  case_bool_decide as Hc; [|by intros [= <-]]. subst cur.
  destruct (sub_closed u); [intros [= <-]; by destruct Ho|]. intros [= <-].
  destruct Ho as [H1 H2 H3]. destruct (H3 _ _ _ _ Hd Hg Hu) as [Hnd Hdj]. specialize (Hdj (ex_intro _ _ Hx)).
  assert (NoDup (take (room u) es).*1 ∧ ∀ id, id ∈ (take (room u) es).*1 → id ∈ es.*1) as [Hnd' Hsub].
  { rewrite fmap_take. split; [eapply sublist_NoDup; [done|apply sublist_take]|].
    intros id Hin. apply elem_of_take in Hin as (i & Hi & _). by eapply list_elem_of_lookup_2. }
  destruct (take (room u) es) as [|a acc] eqn:Ha.
  { apply (once_frame (with_run (delete t (sy_run s)) s)); cbn; try done; [by apply delete_run_wf|apply table_step_refl| |by eauto].
    intros sub u' [[<- <-]|[_ ?]]%lookup_insert_Some; right; [exists u|by eauto]. cbn. by rewrite app_nil_r. }
  constructor; cbn.
  - intros sub u' [[<- <-]|[_ ?]]%lookup_insert_Some; [|by eauto]. cbn. rewrite fmap_app. apply NoDup_app.
    split_and!; [by eauto| |done]. intros id Hin Hacc. by eapply Hdj; [apply Hsub|].
  - intros sub u' id Hm Hu' Hin. apply lookup_insert_Some in Hu' as [[<- <-]|[Hne Hu']].
    + cbn [sub_sent set_sent] in Hin. rewrite fmap_app, elem_of_app in Hin. destruct Hin as [Hin|Hin].
      * destruct (H2 _ _ id Hm Hu Hin) as [?|(t' & d' & ids & Hd' & Hs & Hg' & _)]; [by left|].
        assert (t' = t) as -> by (eapply wf_mutex; eauto). congruence.
      * right. exists t, (set_stage (Accepted (a :: acc).*1) d), ((a :: acc).*1). cbn. by rewrite lookup_insert_eq.
    + destruct (H2 _ _ _ Hm Hu' Hin) as [?|(t' & d' & ids & Hd' & Hs & Hg' & ?)]; [by left|].
      right. exists t', d', ids. cbn. rewrite lookup_insert_ne; [done|]. intros ->. congruence.
  - intros t' d' es' u' [[<- <-]|[Hne Hd']]%lookup_insert_Some Hg' Hu'; [done|].
    rewrite lookup_insert_ne in Hu'; [by eauto|]. intros He. apply Hne. eapply wf_mutex; eauto.
Qed.
Lemma once_ack t n s s' : sys_wf s → once s → n ≠ NetErr false → ack t n s = Some s' → once s'.
Proof.
  intros Hw [H1 H2 H3] Hn. unfold ack. destruct (sy_run s !! t) as [d|] eqn:Hd; [|done].
  destruct (dl_stage d) as [| |ids] eqn:Hg; try done. intros [= <-].
  destruct (wf_run _ Hw _ _ Hd) as (u & Hu & _ & Hj & _).
  assert (once (with_table (ecAckEventsSQL (dl_job d) ids (sy_table s)) (with_run (delete t (sy_run s)) s))) as Hres.
  { constructor; cbn; [done| |].
    - intros sub v id Hx Hv Hin. destruct (H2 _ _ _ Hx Hv Hin) as [E|(t' & d' & ids' & Hd' & Hs & Hg' & Hi)].
      { left. apply map_lookup_filter_None. by left. }
      destruct (decide (t' = t)) as [->|].
      + left. apply map_lookup_filter_None. right. intros r Hr Hno.
        assert (d' = d) as -> by congruence. assert (ids' = ids) as -> by congruence. simplify_eq. apply Hno. split; [|done].
        apply list_elem_of_fmap in Hin as (kr & -> & Hin). destruct (wf_chans _ Hw _ _ Hu) as (_ & _ & _ & Hk).
        rewrite Forall_forall in Hk. destruct (Hk _ Hin) as [[_ E] E2]. cbn. rewrite (E r Hr). congruence.
      + right. exists t', d', ids'. cbn. by rewrite lookup_delete_ne.
    - intros t' d' es v [_ Hd']%lookup_delete_Some. eauto. }
  by destruct n as [|[]].
Qed.

Lemma once_quiet s s' :
  sys_wf s → once s → table_step (sy_table s) (sy_table s') → sy_run s' = sy_run s →
  (∀ sub u', sy_chans s' !! sub = Some u' →
     sub_sent u' = [] ∨ ∃ u, sy_chans s !! sub = Some u ∧ sub_sent u' = sub_sent u) →
  (∀ sub, mapped s' sub → is_Some (sy_chans s !! sub) → mapped s sub) →
  once s'.
Proof. intros Hw Ho Ht Hr Hc Hm. apply (once_frame s); rewrite ?Hr; eauto. Qed.
Lemma sent_of_update (m : gmap nat eventSub) x v v' sub u' :
  m !! x = Some v → sub_sent v' = sub_sent v → <[x := v']> m !! sub = Some u' →
  sub_sent u' = [] ∨ ∃ u, m !! sub = Some u ∧ sub_sent u' = sub_sent u.
Proof. intros Hv Hs [[<- <-]|[_ ?]]%lookup_insert_Some; right; eauto. Qed.

Lemma once_step a s s' :
  sys_wf s → once s → (∀ t, a ≠ AAck t (NetErr false)) → step a s = Some s' → once s'.
Proof.
  intros Hw Ho Ha H. destruct a; unfold step in H.
  - destruct (event_IsValid e); [|done]. simplify_eq.
    apply (once_quiet s); try done; [apply (produce_step now (λ _, (id, n)))|by eauto].
  - simplify_eq. apply (once_quiet s); try done; [apply purge_step|by eauto].
  - unfold subscribe in H. destruct (sy_chans s !! sub) eqn:Hf; [done|]. case_bool_decide; [done|]. simplify_eq.
    apply (once_quiet s); cbn; try done; [apply table_step_refl| |].
    + intros x u' [[<- <-]|[_ ?]]%lookup_insert_Some; eauto.
    + intros x [k Hk] [u Hu]. cbn in Hk. apply lookup_insert_Some in Hk as [[_ <-]|[_ Hk]]; [congruence|by exists k].
  - unfold leave in H. destruct (sy_chans s !! sub) as [u|] eqn:Hu; [|done]. injection H as <-.
    case_bool_decide; apply (once_quiet s); cbn; try done; try apply table_step_refl;
      try (intros x u'; by eapply sent_of_update).
    intros x [k Hk] _. cbn in Hk. apply lookup_delete_Some in Hk as [_ ?]. by exists k.
  - unfold close in H. destruct (sy_chans s !! sub) as [u|] eqn:Hu; [|done]. destruct (sub_leaving u); [|done]. injection H as <-.
    apply (once_quiet s); cbn; try done; [apply table_step_refl|intros x u'; by eapply sent_of_update].
  - unfold begin in H. destruct (sy_run s !! thread) eqn:Ht; [done|].
    destruct (sy_subs s !! (client, job)) as [sub|]; [|by simplify_eq]. destruct (sy_chans s !! sub) as [u|]; [|done].
    case_bool_decide; [|done]. destruct (room u =? 0)%nat; simplify_eq; [done|].
    apply (once_frame s); cbn; try done; [apply table_step_refl|by eauto| |].
    + intros t' d' [[<- <-]|[_ ?]]%lookup_insert_Some; [right; by eexists|by left].
    + intros t' d' ids Hd' _ _. rewrite lookup_insert_ne; [done|]. congruence.
  - by eapply once_drain.
  - by eapply once_deliver.
  - eapply once_ack; eauto. intros ->. by eapply Ha.
  - unfold receive in H. destruct (sy_chans s !! sub) as [u|] eqn:Hu; [|done].
    destruct (sub_taken u <? length (sub_sent u))%nat; [|done]. injection H as <-.
    apply (once_quiet s); cbn; try done; [apply table_step_refl|intros x u'; by eapply sent_of_update].
  - injection H as <-. apply (once_frame s); cbn; try done; [apply table_step_refl|by eauto| | |].
    + intros x [k Hk] _. cbn in Hk. apply map_lookup_filter_Some in Hk as [? _]. by exists k.
    + intros t d [? _]%map_lookup_filter_Some. by left.
    + intros t d ids Hd _ [[c j] Hk]. cbn in Hk. apply map_lookup_filter_Some in Hk as [Hk Hc]. apply map_lookup_filter_Some. split; [done|].
      destruct (wf_subs _ Hw _ _ _ Hk) as (u & Hu & ? & _), (wf_run _ Hw _ _ Hd) as (u2 & Hu2 & ? & _).
      assert (u2 = u) as -> by congruence. cbn in *. congruence.
Qed.

(** Redelivery only follows a failed acknowledgement: as long as no
    deletion of delivered rows is lost, no event is sent twice to the same
    subscriber. *)
Theorem event_sent_once_per_subscriber acts s sub u :
  Forall (λ a, ∀ t, a ≠ AAck t (NetErr false)) acts →
  steps acts sys0 = Some s → sy_chans s !! sub = Some u → NoDup (sub_sent u).*1.
Proof.
  intros Ha Hs Hu. cut (once s); [intros [H _ _]; eauto|]. clear Hu.
  assert (once sys0) as H0 by (constructor; cbn; intros; by simplify_map_eq).
  pose proof sys0_wf as Hw. revert Hs Hw H0. generalize sys0.
  induction acts as [|a acts IH]; intros s0 Hs Hw H0; cbn in Hs; [by simplify_eq|].
  inv Ha. destruct (step a s0) as [s1|] eqn:E; [|done].
  eapply IH; [done|done|by eapply step_wf|by eapply once_step].
Qed.

(** ** Delivery of pending events *)

(** [deliverJobEvents] of one thread with nobody else in between; [steps]
    below runs it inside any other actions. *)
Definition deliverJobEvents (thread client : nat) (job : string) (now : Z) : list Act :=
  [ABegin thread client job; ADrain thread now NetOk; ADeliver thread].

(** Delivery makes progress: when the rescan (or a notification, or a new
    subscription) runs a delivery for a subscribed job and the query succeeds,
    exactly the oldest unexpired events of the job that fit into the channel
    are sent to it, in ID order; so a cancel event sent while nobody was
    subscribed reaches the next subscriber. *)
Theorem rescan_delivers acts s thread client job sub u now :
  steps acts sys0 = Some s →
  sy_subs s !! (client, job) = Some sub → sy_chans s !! sub = Some u →
  sy_run s !! thread = None → map_Forall (λ _ d, dl_sub d ≠ sub) (sy_run s) → room u ≠ O →
  pending_events now job (sy_table s) ≠ [] →
  ∃ s' u', steps (deliverJobEvents thread client job now) s = Some s' ∧ sy_chans s' !! sub = Some u' ∧
    sub_sent u' = app (sub_sent u) (take (room u) (pending_events now job (sy_table s))).
Proof.
  intros Hs Hx Hu Ht Hf Hr Hp. assert (sys_wf s) as Hw by (eapply steps_wf; [apply sys0_wf|done]).
  destruct (wf_subs _ Hw _ _ _ Hx) as (u2 & Hu2 & _ & _ & Hl). simplify_eq.
  destruct (wf_chans _ Hw _ _ Hu) as (Hc & _ & _ & _).
  assert (sub_closed u = false) as Hcl by (destruct (sub_closed u); [rewrite Hc in Hl by done; done|done]).
  assert (∃ e es, take (room u) (pending_events now job (sy_table s)) = e :: es) as (e & es & He).
  { destruct (pending_events _ _ _) as [|e es], (room u) as [|n]; try done. by exists e, (take n es). }
  set (d := {| dl_client := client; dl_job := job; dl_sub := sub; dl_stage := Room (room u) |}).
  set (s1 := with_run (<[thread := d]> (sy_run s)) s).
  set (s2 := with_run (<[thread := set_stage (Drained (e :: es)) d]> (sy_run s1)) s1).
  assert (begin thread client job s = Some s1) as Hb.
  { unfold begin. rewrite Ht, Hx, Hu, bool_decide_eq_true_2, (proj2 (Nat.eqb_neq _ _) Hr) by done. done. }
  assert (drain thread now NetOk s1 = Some s2) as Hd.
  { unfold drain, s1. cbn [sy_run with_run]. rewrite lookup_insert_eq. cbn [d dl_stage dl_job sy_table with_run].
    unfold ecDrainEventsSQL. by rewrite He. }
  unfold deliverJobEvents, steps, step. rewrite Hb, Hd. unfold deliver, s2. cbn [sy_run with_run]. rewrite lookup_insert_eq.
  cbn [dl_stage set_stage dl_client dl_job dl_sub sy_subs sy_chans s1 with_run d].
  rewrite Hx, Hu, bool_decide_eq_true_2, Hcl by done.
  do 2 eexists. split_and!; [done|cbn; by rewrite lookup_insert_eq|]. cbn [sub_sent set_sent]. f_equal.
  rewrite <- He, take_take. by rewrite Nat.min_id.
Qed.

(** ** Runs *)
Module EventRuns.
Definition cancel_of (job : string) : BatchEvent := {| be_ID := job; be_Type := BatchEventCancel; be_TTL := 60 |}.
Definition row_of (job : string) : EventRow := {| ev_job := job; ev_type := 0; ev_expires := 160 |}.
(** An event sent before anyone subscribed, whose first acknowledgement is
    lost; then the subscriber is replaced. *)
Definition before : list Act := [ASend 7 100 (NetErr true) (cancel_of "b1"); ASubscribe 1 "b1" 10].
Definition after_ack (n : net) : list Act :=
  app (deliverJobEvents 5 1 "b1" 100000000) [AAck 5 n; ALeave 10; AClose 10; ASubscribe 2 "b1" 11].
Definition state (l : list Act) : Sys := default sys0 (steps l sys0).

Lemma events_at_least_once_run :
  let s := state before in let s' := state (app before (after_ack (NetErr false))) in
  et_rows (sy_table s') !! 7 = Some (row_of "b1") ∨
  (∃ sub u, sy_chans s' !! sub = Some u ∧ sub_job u = ev_job (row_of "b1") ∧ (7, row_of "b1") ∈ sub_sent u) ∨
  (∃ now, APurge now ∈ after_ack (NetErr false) ∧ ev_expires (row_of "b1") < epoch_seconds now).
Proof. apply (events_at_least_once before (after_ack (NetErr false)) (state before)); vm_compute; reflexivity. Defined.
Lemma delivery_is_panic_free_run :
  sy_panic (state (app before (after_ack NetOk))) = false.
Proof. apply (delivery_is_panic_free (app before (after_ack NetOk))). vm_compute. reflexivity. Defined.
Lemma event_sent_once_per_subscriber_run :
  NoDup [7].
Proof.
  apply (event_sent_once_per_subscriber (app before (after_ack NetOk)) (state (app before (after_ack NetOk))) 10
           {| sub_client := 1; sub_job := "b1"; sub_sent := [(7, row_of "b1")]; sub_taken := 0; sub_leaving := true;
              sub_closed := true |}); [|vm_compute; reflexivity|vm_compute; reflexivity].
  repeat constructor; discriminate.
Defined.
Lemma rescan_delivers_run :
  ∃ s' u', steps (deliverJobEvents 5 1 "b1" 100000000) (state before) = Some s' ∧ sy_chans s' !! 10%nat = Some u' ∧
    sub_sent u' = [(7, row_of "b1")].
Proof.
  apply (rescan_delivers before (state before) 5 1 "b1" 10 (newSub 1 "b1") 100000000); try (vm_compute; reflexivity).
  - apply map_Forall_empty.
  - vm_compute. discriminate.
  - vm_compute. discriminate.
Defined.
End EventRuns.
