(* ===== verification/Listener.v ===== *)
(** * The notification listener and the event dispatcher

    [internal/database/postgresql/pg_listen.go] and the part of
    [batch_event.go] that decides when a delivery begins: the connection that
    waits for notifications, its fan-out into bounded wake-up channels, the
    dispatcher that turns wake-ups, ticks and reconnects into deliveries, the
    calls of [deliverJobEvents], start-up and shutdown, and the sweep of
    expired events.  [lstep] executes one atomic action of this system on top
    of the delivery steps of [Events.v], and each is a run of those steps
    ([lstep_refines]), so their theorems hold here.

    [c_left] records the jobs for which one of the branches was taken that rely
    on the periodic rescan: the wake-up channel was full, the job's channel was
    full, or the query failed.  [Wakeups.v] proves that nothing else is lost.

    The clock is that of the database, in microseconds, and does not run
    backwards. *)

From Stdlib Require Import ZArith Lia.
From stdpp Require Import base gmap strings list.
From S2P Require Import Prelude Openai Store StoreOps Query Events.
Local Open Scope string_scope.
Local Open Scope Z_scope.

(** ** The listener *)

(** The connection of [run] and [listenLoop]: none, acquired from the pool,
    listening before [onReconnect] was called, or in [WaitForNotification].
    The server queues the notifications committed since LISTEN. *)
Inductive Conn := Down | Acquired | Attached (wire : list string) | Listening (wire : list string).
Record pgListener := {
  l_conn : Conn; l_subs : gmap nat (list string); l_nextID : nat; l_deferred : nat; l_closed : bool }.
Definition newPGListener : pgListener :=
  {| l_conn := Down; l_subs := ∅; l_nextID := 0; l_deferred := 0; l_closed := false |}.
Definition set_conn (k : Conn) (l : pgListener) : pgListener :=
  {| l_conn := k; l_subs := l_subs l; l_nextID := l_nextID l; l_deferred := l_deferred l; l_closed := l_closed l |}.
Definition set_queues (m : gmap nat (list string)) (l : pgListener) : pgListener :=
  {| l_conn := l_conn l; l_subs := m; l_nextID := l_nextID l; l_deferred := l_deferred l; l_closed := l_closed l |}.

Definition wakeBufSize : nat := 100.
Definition subscribe_wake (l : pgListener) : pgListener * nat :=
  ({| l_conn := l_conn l; l_subs := <[l_nextID l := []]> (l_subs l); l_nextID := S (l_nextID l);
      l_deferred := l_deferred l; l_closed := l_closed l |}, l_nextID l).
Definition unsubscribe (id : nat) (l : pgListener) : pgListener := set_queues (delete id (l_subs l)) l.
(** A non-blocking send to every subscriber. *)
Definition full (q : list string) : bool := (wakeBufSize <=? length q)%nat.
Definition offer (payload : string) (q : list string) : list string := if full q then q else app q [payload].
Definition deliver_payload (payload : string) (l : pgListener) : pgListener :=
  {| l_conn := l_conn l; l_subs := offer payload <$> l_subs l; l_nextID := l_nextID l;
     l_deferred := (l_deferred l + size (filter (λ kq, full kq.2 = true) (l_subs l)))%nat; l_closed := l_closed l |}.
(** [close] cancels [run] and waits for it. *)
Definition close_listener (l : pgListener) : pgListener :=
  {| l_conn := Down; l_subs := l_subs l; l_nextID := l_nextID l; l_deferred := l_deferred l; l_closed := true |}.
(** The server appends a committed notification to a listening session. *)
Definition notified (payload : string) (l : pgListener) : pgListener :=
  match l_conn l with
  | Attached w => set_conn (Attached (app w [payload])) l
  | Listening w => set_conn (Listening (app w [payload])) l
  | _ => l
  end.

(** ** The client *)

(** [PostgresBatchEventClient]: the dispatcher's subscription (none once it
    has stopped), the nudge of [onReconnect], the jobs the dispatcher has
    still to visit, and the jobs left to the next rescan. *)
Record Client := {
  c_listener : pgListener; c_wake : option nat; c_rescanNow : bool; c_todo : gset string; c_cancelled : bool;
  c_left : gset string }.
Definition on_listener (f : pgListener → pgListener) (cl : Client) : Client :=
  {| c_listener := f (c_listener cl); c_wake := c_wake cl; c_rescanNow := c_rescanNow cl; c_todo := c_todo cl;
     c_cancelled := c_cancelled cl; c_left := c_left cl |}.
Definition set_rescan (b : bool) (cl : Client) : Client :=
  {| c_listener := c_listener cl; c_wake := c_wake cl; c_rescanNow := b; c_todo := c_todo cl;
     c_cancelled := c_cancelled cl; c_left := c_left cl |}.
Definition set_todo (jobs : gset string) (cl : Client) : Client :=
  {| c_listener := c_listener cl; c_wake := c_wake cl; c_rescanNow := c_rescanNow cl; c_todo := jobs;
     c_cancelled := c_cancelled cl; c_left := c_left cl |}.
Definition set_cancelled (cl : Client) : Client :=
  {| c_listener := c_listener cl; c_wake := c_wake cl; c_rescanNow := c_rescanNow cl; c_todo := c_todo cl;
     c_cancelled := true; c_left := c_left cl |}.
Definition set_left (jobs : gset string) (cl : Client) : Client :=
  {| c_listener := c_listener cl; c_wake := c_wake cl; c_rescanNow := c_rescanNow cl; c_todo := c_todo cl;
     c_cancelled := c_cancelled cl; c_left := jobs |}.
(** The buffered channel [wake] of a running dispatcher. *)
Definition wake_queue (cl : Client) : option (list string) := c_wake cl ≫= λ id, l_subs (c_listener cl) !! id.

(** The constructor: the listener and, by [startEventDispatcher], the
    dispatcher's subscription.  Nobody can subscribe to a job before it
    returns. *)
Definition startEventDispatcher (l : pgListener) : Client :=
  let '(l', id) := subscribe_wake l in
  {| c_listener := l'; c_wake := Some id; c_rescanNow := false; c_todo := ∅; c_cancelled := false; c_left := ∅ |}.
Definition NewPostgresBatchEventClient : Client := startEventDispatcher newPGListener.
(** A non-blocking send on a channel of capacity one. *)
Definition onReconnect (cl : Client) : Client := set_rescan true cl.
(** The dispatcher returns and unsubscribes. *)
Definition stop_dispatcher (cl : Client) : Client :=
  {| c_listener := match c_wake cl with Some id => unsubscribe id (c_listener cl) | None => c_listener cl end;
     c_wake := None; c_rescanNow := c_rescanNow cl; c_todo := c_todo cl; c_cancelled := c_cancelled cl;
     c_left := c_left cl |}.

(** ** The sweep of expired events *)
Definition purgeExpired (now : Z) (n : net) : M EventTable nat :=
  ev_exec n (λ t, let t' := ecPurgeExpiredEventsSQL now t in (t', Ok (size (et_rows t) - size (et_rows t'))%nat)).
(** [PostgresBatchEventGC.Run]: one sweep at start-up and one per tick until
    the context ends. *)
Definition gc_Run (cancelled : bool) (first : Z * net) (ticks : list (Z * net)) (t : EventTable) : EventTable :=
  if cancelled then t else foldl (λ t x, (purgeExpired x.1 x.2 t).1) t (first :: ticks).

(** A row outlives the sweeps exactly when no sweep that reached the database
    found it expired. *)
Theorem sweeps_remove_expired cancelled first ticks t id r :
  et_rows (gc_Run cancelled first ticks t) !! id = Some r ↔
  et_rows t !! id = Some r ∧
  (cancelled = false → Forall (λ x, x.2 ≠ NetErr false → epoch_seconds x.1 ≤ ev_expires r) (first :: ticks)).
Proof.
  unfold gc_Run. destruct cancelled; [naive_solver|]. generalize (first :: ticks). clear first ticks. intros l.
  revert t. induction l as [|[now n] l IH]; intros t; cbn [foldl]; [naive_solver|]. rewrite IH, Forall_cons. clear IH.
  assert (et_rows (purgeExpired now n t).1 !! id = Some r ↔
          et_rows t !! id = Some r ∧ (n ≠ NetErr false → epoch_seconds now ≤ ev_expires r)) as E.
  { unfold purgeExpired, ev_exec. destruct n as [|[]]; cbn; [rewrite map_lookup_filter_Some; cbn; rewrite Z.nlt_ge; naive_solver..|].
    naive_solver. }
  cbn [fst snd]. rewrite E. naive_solver.
Qed.

(** ** The system *)

(** A call of [deliverJobEvents] before it holds the subscriber's
    [deliveryMu]: nothing read yet, or the subscriber looked up. *)
Inductive Call := Calling (job : string) | Locking (job : string) (sub : nat).
Record LSys := { ls_base : Sys; ls_clients : gmap nat Client; ls_calls : gmap nat (nat * Call); ls_clock : Z }.
Definition ls0 : LSys := {| ls_base := sys0; ls_clients := ∅; ls_calls := ∅; ls_clock := 0 |}.
Definition with_base (b : Sys) (s : LSys) : LSys :=
  {| ls_base := b; ls_clients := ls_clients s; ls_calls := ls_calls s; ls_clock := ls_clock s |}.
Definition with_clients (m : gmap nat Client) (s : LSys) : LSys :=
  {| ls_base := ls_base s; ls_clients := m; ls_calls := ls_calls s; ls_clock := ls_clock s |}.
Definition with_calls (m : gmap nat (nat * Call)) (s : LSys) : LSys :=
  {| ls_base := ls_base s; ls_clients := ls_clients s; ls_calls := m; ls_clock := ls_clock s |}.
Definition with_clock (now : Z) (s : LSys) : LSys :=
  {| ls_base := ls_base s; ls_clients := ls_clients s; ls_calls := ls_calls s; ls_clock := now |}.

(** Threads: the dispatcher of a client and the callers of
    [ECConsumerGetChannel]. *)
Definition dispatcher (c : nat) : nat := (2 * c)%nat.
Definition caller (k : nat) : nat := (2 * k + 1)%nat.
Definition free_thread (t : nat) (s : LSys) : bool :=
  bool_decide (ls_calls s !! t = None ∧ sy_run (ls_base s) !! t = None).
(** The keys of [eventSubs]. *)
Definition jobs_of (c : nat) (s : LSys) : gset string :=
  set_map snd (filter (λ k, k.1 = c) (dom (sy_subs (ls_base s)))).
(** What a wake-up asks for: an empty payload means every subscribed job. *)
Definition aims (payload : string) (jobs : gset string) : gset string :=
  if bool_decide (payload = "") then jobs else {[payload]}.

(** The dispatcher is in its select. *)
Definition idle (c : nat) (cl : Client) (s : LSys) : bool :=
  free_thread (dispatcher c) s && bool_decide (c_todo cl = ∅) && bool_decide (c_wake cl ≠ None).

Definition update (c : nat) (cl : Client) (s : LSys) : LSys := with_clients (<[c := cl]> (ls_clients s)) s.
Definition on_client (c : nat) (f : Client → option Client) (s : LSys) : option LSys :=
  match ls_clients s !! c with
  | Some cl => match f cl with Some cl' => Some (update c cl' s) | None => None end
  | None => None
  end.
Definition on_base (b : option Sys) (s : LSys) : option LSys :=
  match b with Some b' => Some (with_base b' s) | None => None end.
Definition leave_behind (short : bool) (c : nat) (job : string) (s : LSys) : LSys :=
  if short then with_clients (alter (λ cl, set_left ({[job]} ∪ c_left cl) cl) c (ls_clients s)) s else s.
Definition taken_up (c : nat) (job : string) (s : LSys) : LSys :=
  with_clients (alter (λ cl, set_left (c_left cl ∖ {[job]}) cl) c (ls_clients s)) s.

(** [run]: one attempt to acquire a connection. *)
Definition acquire_conn (n : net) (cl : Client) : option Client :=
  match l_conn (c_listener cl) with
  | Down => if l_closed (c_listener cl) then None
            else Some (on_listener (set_conn (match n with NetOk => Acquired | _ => Down end)) cl)
  | _ => None
  end.
(** [listenLoop]: LISTEN, then [onReconnect], then the notifications. *)
Definition listen (n : net) (cl : Client) : option Client :=
  match l_conn (c_listener cl) with
  | Acquired => Some (on_listener (set_conn (match n with NetOk => Attached [] | _ => Down end)) cl)
  | _ => None
  end.
Definition nudge (cl : Client) : option Client :=
  match l_conn (c_listener cl) with
  | Attached w => Some (onReconnect (on_listener (set_conn (Listening w)) cl))
  | _ => None
  end.
Definition notification (jobs : gset string) (cl : Client) : option Client :=
  match l_conn (c_listener cl) with
  | Listening (p :: w) =>
      let cl' := on_listener (λ l, deliver_payload p (set_conn (Listening w) l)) cl in
      Some (match wake_queue cl with
            | Some q => if full q then set_left (aims p jobs ∪ c_left cl) cl' else cl'
            | None => cl'
            end)
  | _ => None
  end.
Definition drop_conn (cl : Client) : option Client :=
  match l_conn (c_listener cl) with Listening _ => Some (on_listener (set_conn Down) cl) | _ => None end.

(** [runEventDispatcher]: the branches of its select. *)
Definition on_wake (jobs : gset string) (cl : Client) : option Client :=
  match c_wake cl, wake_queue cl with
  | Some id, Some (p :: q) =>
      if c_cancelled cl then Some (stop_dispatcher cl)
      else Some (set_todo (aims p jobs) (on_listener (λ l, set_queues (<[id := q]> (l_subs l)) l) cl))
  | _, _ => None
  end.
Definition deliverAllJobEvents (jobs : gset string) (cl : Client) : Client := set_todo jobs cl.
Definition on_rescan (jobs : gset string) (cl : Client) : option Client :=
  if c_rescanNow cl then Some (deliverAllJobEvents jobs (set_rescan false cl)) else None.

Inductive LAct :=
| LStart (c : nat) | LAcquire (c : nat) (n : net) | LListen (c : nat) (n : net) | LNudge (c : nat) | LNotify (c : nat)
| LDrop (c : nat) | LWake (c : nat) | LTick (c : nat) | LRescan (c : nat) | LVisit (c : nat) (job : string)
| LCancel (c : nat) | LStop (c : nat) | LCloseListener (c : nat) | LCrash (c : nat)
| LSend (id now : Z) (n : net) (e : BatchEvent) | LSweep (n : net) | LClock (now : Z)
| LSubscribe (c : nat) (job : string) (sub k : nat) | LLeave (sub : nat) | LClose (sub : nat) | LReceive (sub : nat)
| LLookup (c t : nat) | LLock (c t : nat) | LDrain (c t : nat) (n : net) | LDeliver (c t : nat)
| LAck (c t : nat) (n : net).

(** An insert commits its notification with its row. *)
Definition committed (id : Z) (n : net) (t : EventTable) : bool :=
  bool_decide (id ∉ et_used t) && match n with NetErr false => false | _ => true end.
Definition send_event (id now : Z) (n : net) (e : BatchEvent) (s : LSys) : option LSys :=
  match on_base (step (ASend id now n e) (ls_base s)) s with
  | Some s' => Some (if committed id n (sy_table (ls_base s))
                     then with_clients (on_listener (notified (be_ID e)) <$> ls_clients s) s' else s')
  | None => None
  end.

(** [deliverJobEvents]: the lookup, the lock with the second look at the map
    and the room of the channel, the query, the sends and the deletion. *)
Definition lookup_sub (c t : nat) (s : LSys) : option LSys :=
  match ls_calls s !! t with
  | Some (c', Calling job) =>
      if (c' =? c)%nat then
        Some (with_calls (match sy_subs (ls_base s) !! (c, job) with
                          | Some sub => <[t := (c, Locking job sub)]> (ls_calls s)
                          | None => delete t (ls_calls s)
                          end) s)
      else None
  | _ => None
  end.
Definition no_room (sub : nat) (b : Sys) : bool :=
  match sy_chans b !! sub with Some u => (room u =? 0)%nat | None => true end.
Definition lock_sub (c t : nat) (s : LSys) : option LSys :=
  match ls_calls s !! t with
  | Some (c', Locking job sub) =>
      if (c' =? c)%nat then
        let s' := with_calls (delete t (ls_calls s)) s in
        if bool_decide (sy_subs (ls_base s) !! (c, job) = Some sub) then
          match begin t c job (ls_base s) with
          | Some b => Some (with_base b (if no_room sub (ls_base s) then leave_behind true c job s'
                                         else taken_up c job s'))
          | None => None
          end
        else Some s'
      else None
  | _ => None
  end.
Definition of_client (c t : nat) (s : LSys) : option Delivery :=
  match sy_run (ls_base s) !! t with
  | Some d => if (dl_client d =? c)%nat then Some d else None
  | None => None
  end.
(** The selected rows do not include every pending one. *)
Definition short_drain (d : Delivery) (now : Z) (n : net) (t : EventTable) : bool :=
  match dl_stage d, n with
  | Room capacity, NetOk => (capacity <? length (pending_events now (dl_job d) t))%nat
  | _, _ => true
  end.
Definition drain_job (c t : nat) (n : net) (s : LSys) : option LSys :=
  match of_client c t s with
  | Some d => on_base (drain t (ls_clock s) n (ls_base s))
                (leave_behind (short_drain d (ls_clock s) n (sy_table (ls_base s))) c (dl_job d) s)
  | None => None
  end.
(** The channel took fewer events than were selected. *)
Definition short_deliver (d : Delivery) (b : Sys) : bool :=
  match dl_stage d, sy_chans b !! dl_sub d with
  | Drained events, Some u => (room u <? length events)%nat
  | _, _ => true
  end.
Definition deliver_job (c t : nat) (s : LSys) : option LSys :=
  match of_client c t s with
  | Some d => on_base (deliver t (ls_base s)) (leave_behind (short_deliver d (ls_base s)) c (dl_job d) s)
  | None => None
  end.
Definition ack_job (c t : nat) (n : net) (s : LSys) : option LSys :=
  match of_client c t s with Some d => on_base (ack t n (ls_base s)) s | None => None end.

(** [ECConsumerGetChannel]: the subscription, then a delivery by the same
    thread. *)
Definition get_channel (c : nat) (job : string) (sub k : nat) (s : LSys) : option LSys :=
  match ls_clients s !! c with
  | Some _ => if free_thread (caller k) s
              then on_base (subscribe c job sub (ls_base s))
                     (with_calls (<[caller k := (c, Calling job)]> (ls_calls s)) s)
              else None
  | None => None
  end.

Definition in_select (c : nat) (f : Client → option Client) (s : LSys) : option LSys :=
  on_client c (λ cl, if idle c cl s then f cl else None) s.
Definition visit (c : nat) (job : string) (s : LSys) : option LSys :=
  match ls_clients s !! c with
  | Some cl => if free_thread (dispatcher c) s && bool_decide (job ∈ c_todo cl)
               then Some (update c (set_todo (c_todo cl ∖ {[job]}) cl)
                            (with_calls (<[dispatcher c := (c, Calling job)]> (ls_calls s)) s))
               else None
  | None => None
  end.

(** One atomic action; [None] when it is not enabled.  [LCancel], [LStop] and
    [LCloseListener] are [Close]; [LTick] is the rescan ticker. *)
Definition lstep (a : LAct) (s : LSys) : option LSys :=
  match a with
  | LStart c => match ls_clients s !! c with None => Some (update c NewPostgresBatchEventClient s) | Some _ => None end
  | LAcquire c n => on_client c (acquire_conn n) s
  | LListen c n => on_client c (listen n) s
  | LNudge c => on_client c nudge s
  | LNotify c => on_client c (notification (jobs_of c s)) s
  | LDrop c => on_client c drop_conn s
  | LWake c => in_select c (on_wake (jobs_of c s)) s
  | LTick c => in_select c (λ cl, Some (deliverAllJobEvents (jobs_of c s) cl)) s
  | LRescan c => in_select c (on_rescan (jobs_of c s)) s
  | LVisit c job => visit c job s
  | LCancel c => on_client c (λ cl, Some (set_cancelled cl)) s
  | LStop c => in_select c (λ cl, if c_cancelled cl then Some (stop_dispatcher cl) else None) s
  | LCloseListener c => on_client c (λ cl, match c_wake cl with None => Some (on_listener close_listener cl) | Some _ => None end) s
  | LCrash c => Some (with_base (crash c (ls_base s))
                       (with_calls (filter (λ kx, kx.2.1 ≠ c) (ls_calls s)) (with_clients (delete c (ls_clients s)) s)))
  | LSend id now n e => send_event id now n e s
  | LSweep n => Some (with_base (with_table (purgeExpired (ls_clock s) n (sy_table (ls_base s))).1 (ls_base s)) s)
  | LClock now => if ls_clock s <=? now then Some (with_clock now s) else None
  | LSubscribe c job sub k => get_channel c job sub k s
  | LLeave sub => on_base (leave sub (ls_base s)) s
  | LClose sub => on_base (close sub (ls_base s)) s
  | LReceive sub => on_base (receive sub (ls_base s)) s
  | LLookup c t => lookup_sub c t s
  | LLock c t => lock_sub c t s
  | LDrain c t n => drain_job c t n s
  | LDeliver c t => deliver_job c t s
  | LAck c t n => ack_job c t n s
  end.
Fixpoint lsteps (l : list LAct) (s : LSys) : option LSys :=
  match l with [] => Some s | a :: l' => match lstep a s with Some s' => lsteps l' s' | None => None end end.

(** ** Every run is a run of the delivery steps *)
Lemma lstep_refines a s s' :
  lstep a s = Some s' → ∃ l, steps l (ls_base s) = Some (ls_base s').
Proof.
  assert (Hb : ∀ x b s1 s2, step x (ls_base s) = b → on_base b s1 = Some s2 → ∃ l, steps l (ls_base s) = Some (ls_base s2)).
  { intros x [b|] s1 s2 Hx [= <-]. exists [x]. cbn. by rewrite Hx. }
  assert (Hn : ∀ s1, ls_base s1 = ls_base s → Some s1 = Some s' → ∃ l, steps l (ls_base s) = Some (ls_base s')).
  { intros s1 Hs [= <-]. exists []. cbn. by rewrite Hs. }
  assert (Hc : ∀ c f, on_client c f s = Some s' → ∃ l, steps l (ls_base s) = Some (ls_base s')).
  { intros c f. unfold on_client. repeat destruct_match; try done. by apply Hn. }
  destruct a; cbn [lstep]; try apply Hc.
  - destruct_match; [done|]. by apply Hn.
  - unfold visit. repeat destruct_match; try done. by apply Hn.
  - intros [= <-]. by exists [ACrash c].
  - unfold send_event. destruct (on_base _ s) as [s1|] eqn:E; [|done]. eapply (Hb (ASend id now n e)) in E as [l Hl]; [|done].
    intros [= <-]. exists l. by destruct (committed _ _ _).
  - intros [= <-]. unfold purgeExpired, ev_exec. destruct n as [|[]]; cbn.
    + by exists [APurge (ls_clock s)].
    + by exists [APurge (ls_clock s)].
    + exists []. cbn. by destruct (ls_base s).
  - destruct_match; [|done]. by apply Hn.
  - unfold get_channel. repeat destruct_match; try done. by apply (Hb (ASubscribe c job sub)).
  - by apply (Hb (ALeave sub)).
  - by apply (Hb (AClose sub)).
  - by apply (Hb (AReceive sub)).
  - unfold lookup_sub. repeat destruct_match; try done; by apply Hn.
  - unfold lock_sub. destruct (ls_calls s !! t) as [[c' [|job sub]]|]; try done.
    destruct (c' =? c)%nat; [|done]. case_bool_decide; [|by apply Hn].
    destruct (begin t c job (ls_base s)) as [b|] eqn:E; [|done]. intros [= <-]. exists [ABegin t c job]. cbn. by rewrite E.
  - unfold drain_job. destruct (of_client c t s); [|done]. by apply (Hb (ADrain t (ls_clock s) n)).
  - unfold deliver_job. destruct (of_client c t s); [|done]. by apply (Hb (ADeliver t)).
  - unfold ack_job. destruct (of_client c t s); [|done]. by apply (Hb (AAck t n)).
Qed.
