(* ===== verification/Wakeups.v ===== *)
(** * No wake-up is lost

    The invariant of the listener and the dispatcher of [Listener.v]
    ([accounted]): while a client listens, every unexpired event of a job it
    is subscribed to was sent to the subscriber, or something on the way will
    select it, or the job is left to the rescan.  The client's own work is
    finite ([work]) and it never blocks itself, so it always comes to rest with
    every event sent or left to the rescan ([wakeups_are_not_lost]). *)

From Stdlib Require Import ZArith Lia.
From stdpp Require Import base gmap strings list.
From S2P Require Import Prelude Openai Store StoreOps Query Events Listener.
Local Open Scope string_scope.
Local Open Scope Z_scope.

Lemma steps_app l1 l2 s : steps (app l1 l2) s = steps l1 s ≫= steps l2.
Proof. revert s. induction l1 as [|a l1 IH]; intros s; cbn; [done|]. by destruct (step a s). Qed.
(** Every run of the listeners and dispatchers is a run of the deliveries. *)
Lemma lsteps_refine l s s' : lsteps l s = Some s' → ∃ acts, steps acts (ls_base s) = Some (ls_base s').
Proof.
  revert s. induction l as [|a l IH]; intros s; cbn; [intros [= <-]; by exists []|].
  destruct (lstep a s) as [s1|] eqn:Ha; [|done]. intros Hs.
  destruct (lstep_refines _ _ _ Ha) as [l1 H1], (IH _ Hs) as [l2 H2]. exists (app l1 l2). by rewrite steps_app, H1.
Qed.
Lemma lsteps_app l1 l2 s : lsteps (app l1 l2) s = lsteps l1 s ≫= lsteps l2.
Proof. revert s. induction l1 as [|a l1 IH]; intros s; cbn; [done|]. by destruct (lstep a s). Qed.

(** ** What is on its way to a subscriber *)
Definition means (payload job : string) : Prop := payload = "" ∨ payload = job.
Inductive signalled (cl : Client) (job : string) : Prop :=
| sig_attached w : l_conn (c_listener cl) = Attached w → signalled cl job
| sig_rescan : c_rescanNow cl = true → signalled cl job
| sig_left : job ∈ c_left cl → signalled cl job
| sig_todo : job ∈ c_todo cl → signalled cl job
| sig_wire w p : l_conn (c_listener cl) = Listening w → p ∈ w → means p job → signalled cl job
| sig_wake q p : wake_queue cl = Some q → p ∈ q → means p job → signalled cl job.
Definition call_for (job : string) (sub : nat) (k : Call) : Prop :=
  match k with Calling j => j = job | Locking j x => j = job ∧ x = sub end.
Definition holds (kr : Z * EventRow) (g : Stage) : Prop :=
  match g with Room _ => True | Drained es => kr ∈ es | Accepted _ => False end.
Definition called (calls : gmap nat (nat * Call)) (c : nat) (job : string) (sub : nat) : Prop :=
  ∃ t k, calls !! t = Some (c, k) ∧ call_for job sub k.
Definition selecting (run : gmap nat Delivery) (c : nat) (job : string) (sub : nat) (kr : Z * EventRow) : Prop :=
  ∃ t d, run !! t = Some d ∧ dl_client d = c ∧ dl_job d = job ∧ dl_sub d = sub ∧ holds kr (dl_stage d).

(** The client's connection listens and its dispatcher runs. *)
Definition live (cl : Client) : Prop :=
  match l_conn (c_listener cl) with Attached _ | Listening _ => True | _ => False end ∧ is_Some (wake_queue cl).
(** An unexpired row of a job that a listening client is subscribed to. *)
Record due (s : LSys) (c : nat) (cl : Client) (job : string) (sub : nat) (u : eventSub) (kr : Z * EventRow) : Prop := {
  due_client : ls_clients s !! c = Some cl;
  due_live : live cl;
  due_sub : sy_subs (ls_base s) !! (c, job) = Some sub;
  due_chan : sy_chans (ls_base s) !! sub = Some u;
  due_row : et_rows (sy_table (ls_base s)) !! kr.1 = Some kr.2;
  due_job : ev_job kr.2 = job;
  due_fresh : epoch_seconds (ls_clock s) < ev_expires kr.2 }.
Definition accounted (s : LSys) : Prop :=
  ∀ c cl job sub u kr, due s c cl job sub u kr →
    kr ∈ sub_sent u ∨ signalled cl job ∨ called (ls_calls s) c job sub ∨ selecting (sy_run (ls_base s)) c job sub kr.

Lemma elem_jobs c job s : job ∈ jobs_of c s ↔ is_Some (sy_subs (ls_base s) !! (c, job)).
Proof.
  unfold jobs_of. rewrite elem_of_map. split.
  - intros ([c' j] & -> & Hj). apply elem_of_filter in Hj as [<- Hj]. by apply elem_of_dom.
  - intros H. exists (c, job). split; [done|]. apply elem_of_filter. split; [done|]. by apply elem_of_dom.
Qed.
Lemma means_aims p job jobs : means p job → job ∈ jobs → job ∈ aims p jobs.
Proof. unfold aims. intros [->| ->] Hj; case_bool_decide; set_solver. Qed.
Lemma signalled_left cl X job : (job ∈ c_left cl → job ∈ X) → signalled cl job → signalled (set_left X cl) job.
Proof. intros HX [w|?|?|?|w p|q p]; eauto using signalled. Qed.
Lemma live_left cl X : live (set_left X cl) ↔ live cl.
Proof. done. Qed.
Lemma epoch_mono a b : a ≤ b → epoch_seconds a ≤ epoch_seconds b.
Proof. intros H. unfold epoch_seconds. apply Z.div_le_mono; lia. Qed.

(** ** Frames *)

(** One client moves and calls are only added. *)
Lemma accounted_client c cl cl' m s :
  accounted s → ls_clients s !! c = Some cl → (∀ t x, ls_calls s !! t = Some x → m !! t = Some x) →
  (∀ job, job ∈ jobs_of c s → live cl' →
     signalled cl' job ∨ (live cl ∧ (signalled cl job → signalled cl' job ∨ ∃ t, m !! t = Some (c, Calling job)))) →
  accounted (update c cl' (with_calls m s)).
Proof.
  intros Ha Hc Hm Hs c1 cl1 job sub u kr [H1 H2 H3 H4 H5 H6 H7]; cbn in *.
  assert (∀ c j sub, called (ls_calls s) c j sub → called m c j sub) as Hcl.
  { intros ? ? ? (t & k & Ht & Hk). exists t, k. eauto. }
  rewrite lookup_insert in H1. case_decide; simplify_eq.
  - destruct (Hs (ev_job kr.2)) as [?|[Hl Hsig]]; [apply elem_jobs; eauto|done|by eauto|].
    destruct (Ha c1 cl (ev_job kr.2) sub u kr) as [?|[[?|(t & Ht)]%Hsig|[?|?]]]; eauto; [by constructor|].
    right; right; left. by exists t, (Calling (ev_job kr.2)).
  - destruct (Ha c1 cl1 (ev_job kr.2) sub u kr) as [?|[?|[?|?]]]; eauto. by constructor.
Qed.
(** The clients stay; what remains due was due, and deliveries still hold
    what they held. *)
Lemma accounted_base b s now :
  accounted s → ls_clock s ≤ now →
  (∀ k x, sy_subs b !! k = Some x → sy_subs (ls_base s) !! k = Some x) →
  (∀ x u', sy_chans b !! x = Some u' → ∃ u, sy_chans (ls_base s) !! x = Some u ∧ sub_sent u = sub_sent u') →
  (∀ id r, et_rows (sy_table b) !! id = Some r → et_rows (sy_table (ls_base s)) !! id = Some r) →
  (∀ t d, sy_run (ls_base s) !! t = Some d → sy_run b !! t = Some d ∨ ∃ ids, dl_stage d = Accepted ids) →
  accounted (with_base b (with_clock now s)).
Proof.
  intros Ha Hn Hs Hc Ht Hr c cl job sub u kr [H1 H2 H3 H4 H5 H6 H7]; cbn in *.
  destruct (Hc _ _ H4) as (u0 & Hu0 & <-). pose proof (epoch_mono _ _ Hn).
  destruct (Ha c cl job sub u0 kr) as [?|[?|[?|(t & d & Hd & ? & ? & ? & Hh)]]]; eauto.
  - constructor; eauto. lia.
  - destruct (Hr _ _ Hd) as [?|[ids Hi]]; [|by rewrite Hi in Hh]. right; right; right. by exists t, d.
Qed.
(** Recording that a job is left to the rescan. *)
Lemma accounted_left b c job s : accounted s → accounted (leave_behind b c job s).
Proof.
  intros Ha c1 cl1 j sub u kr. unfold leave_behind. destruct b; [|apply Ha].
  intros [H1 H2 H3 H4 H5 H6 H7]; cbn in *. rewrite lookup_alter in H1.
  case_decide; [|by destruct (Ha c1 cl1 j sub u kr) as [?|[?|[?|?]]]; eauto; constructor].
  subst. destruct (ls_clients s !! c1) as [cl|] eqn:Hc; [|done]. injection H1 as <-.
  destruct (Ha c1 cl (ev_job kr.2) sub u kr) as [?|[?|[?|?]]]; eauto; [by constructor|].
  right; left. apply signalled_left; [set_solver|done].
Qed.

(** ** Steps of the listener and of the dispatcher's select *)
Lemma wake_queue_deliver p k cl :
  wake_queue (on_listener (λ l, deliver_payload p (set_conn k l)) cl) = offer p <$> wake_queue cl.
Proof. unfold wake_queue. cbn. destruct (c_wake cl) as [id|]; [|done]. cbn. by rewrite lookup_fmap. Qed.

(** [cl'] is listening after [cl] with every signal of [cl] kept, or tells the
    dispatcher to visit every job. *)
Definition keeps (jobs : gset string) (cl cl' : Client) : Prop :=
  ∀ job, job ∈ jobs → live cl' → signalled cl' job ∨ (live cl ∧ (signalled cl job → signalled cl' job)).

Lemma acquire_keeps jobs n cl cl' : acquire_conn n cl = Some cl' → keeps jobs cl cl'.
Proof.
  unfold acquire_conn. intros H job _ [Hl _]. destruct (l_conn _); try done. destruct (l_closed _); [done|].
  injection H as <-. by destruct n.
Qed.
Lemma listen_keeps jobs n cl cl' : listen n cl = Some cl' → keeps jobs cl cl'.
Proof.
  unfold listen. intros H job _ [Hl _]. destruct (l_conn _); try done. injection H as <-.
  destruct n; [|done]. left. by eapply sig_attached.
Qed.
Lemma nudge_keeps jobs cl cl' : nudge cl = Some cl' → keeps jobs cl cl'.
Proof. unfold nudge. intros H job _ _. destruct (l_conn _); try done. injection H as <-. left. by apply sig_rescan. Qed.
Lemma notification_keeps jobs cl cl' : notification jobs cl = Some cl' → keeps jobs cl cl'.
Proof.
  unfold notification. intros H job Hj Hl. destruct (l_conn (c_listener cl)) as [| | |[|p w]] eqn:Hk; try done.
  injection H as <-. right.
  assert (is_Some (wake_queue cl)) as [q Hq].
  { destruct Hl as [_ Hl]. destruct (wake_queue cl) eqn:E; [done|]. by rewrite wake_queue_deliver, E in Hl. }
  split; [split; [by rewrite Hk|by rewrite Hq]|]. rewrite Hq. clear Hl. pose proof (wake_queue_deliver p (Listening w) cl) as Hd.
  rewrite Hq in Hd. set (cl1 := on_listener _ cl) in *. change (wake_queue cl1 = Some (offer p q)) in Hd. unfold offer in Hd.
  intros Hs. assert (signalled cl1 job ∨ means p job) as [Hs1|Hp].
  { destruct Hs as [w0|?|?|?|w0 p0 Hw Hp Hm|q0 p0 Hq0 Hp Hm]; eauto using signalled; [by congruence| |].
    - assert (w0 = p :: w) as -> by congruence. apply elem_of_cons in Hp as [->|Hp]; [by right|].
      left. by eapply (sig_wire cl1 job w).
    - assert (q0 = q) as -> by congruence. left. eapply (sig_wake _ _ _ p0); [apply Hd| |done]. destruct (full q); [done|]. apply elem_of_app. by left. }
  - destruct (full q); [|done]. apply signalled_left; [|done]. cbn. set_solver.
  - destruct (full q); [|eapply (sig_wake _ _ _ p); [apply Hd| |done]; apply elem_of_app; right; by apply list_elem_of_singleton].
    apply sig_left. cbn. pose proof (means_aims _ _ _ Hp Hj). set_solver.
Qed.
Lemma drop_keeps jobs cl cl' : drop_conn cl = Some cl' → keeps jobs cl cl'.
Proof. unfold drop_conn. intros H job _ [Hl _]. destruct (l_conn _); try done. by injection H as <-. Qed.
Lemma stop_keeps jobs cl : keeps jobs cl (stop_dispatcher cl).
Proof. intros job _ [_ [q Hq]]. by unfold wake_queue in Hq. Qed.
Lemma wake_keeps jobs cl cl' : c_todo cl = ∅ → on_wake jobs cl = Some cl' → keeps jobs cl cl'.
Proof.
  unfold on_wake. intros Ht H. destruct (c_wake cl) as [id|] eqn:Hid; [|done].
  destruct (wake_queue cl) as [[|p q]|] eqn:Hq; try done. destruct (c_cancelled cl); injection H as <-; [apply stop_keeps|].
  intros job Hj [Hl _]. right. split; [by split; [|by rewrite Hq]|].
  assert (wake_queue (set_todo (aims p jobs) (on_listener (λ l, set_queues (<[id := q]> (l_subs l)) l) cl)) = Some q) as Hq'.
  { unfold wake_queue. cbn. rewrite Hid. cbn. by rewrite lookup_insert_eq. }
  intros [w0|?|?|?|w0 p0 Hw Hp Hm|q0 p0 Hq0 Hp Hm]; eauto using signalled; [by set_solver|].
  assert (q0 = p :: q) as -> by congruence. apply elem_of_cons in Hp as [->|Hp]; [|by eapply sig_wake].
  apply sig_todo. by apply means_aims.
Qed.
Lemma all_keeps jobs cl : keeps jobs cl (deliverAllJobEvents jobs cl).
Proof. intros job Hj _. left. by apply sig_todo. Qed.
Lemma rescan_keeps jobs cl cl' : on_rescan jobs cl = Some cl' → keeps jobs cl cl'.
Proof.
  unfold on_rescan. intros H job Hj _. destruct (c_rescanNow cl); [|done]. injection H as <-. left. by apply sig_todo.
Qed.
Lemma cancel_keeps jobs cl : keeps jobs cl (set_cancelled cl).
Proof. intros job _ Hl. right. split; [done|]. intros [w0|?|?|?|w0 p0 Hw Hp Hm|q0 p0 Hq0 Hp Hm]; eauto using signalled. Qed.
Lemma close_keeps jobs cl : keeps jobs cl (on_listener close_listener cl).
Proof. by intros job _ [Hl _]. Qed.

Lemma with_calls_id s : with_calls (ls_calls s) s = s.
Proof. by destruct s. Qed.
Lemma accounted_on_client c f s s' :
  accounted s → on_client c f s = Some s' →
  (∀ cl cl', ls_clients s !! c = Some cl → f cl = Some cl' → keeps (jobs_of c s) cl cl') → accounted s'.
Proof.
  intros Ha. unfold on_client. destruct (ls_clients s !! c) as [cl|] eqn:Hc; [|done].
  destruct (f cl) as [cl'|] eqn:Hf; [|done]. intros [= <-] Hk. rewrite <- (with_calls_id s) at 1.
  apply (accounted_client c cl); try done. intros job Hj Hl. destruct (Hk cl cl' eq_refl Hf job Hj Hl) as [?|[? ?]]; eauto.
Qed.
Lemma accounted_in_select c f s s' :
  accounted s → in_select c f s = Some s' →
  (∀ cl cl', c_todo cl = ∅ → f cl = Some cl' → keeps (jobs_of c s) cl cl') → accounted s'.
Proof.
  intros Ha Hs Hk. eapply accounted_on_client; [done|done|]. intros cl cl' _. cbn. destruct (idle c cl s) eqn:Hi; [|done].
  unfold idle in Hi. boolify. naive_solver.
Qed.

(** ** Events are sent *)
Lemma produce_table id now n e t :
  event_IsValid e = Ok tt →
  (ECProducerSendEvents now (λ _, (id, n)) [e] t).1 =
    if committed id n t
    then {| et_rows := <[id := {| ev_job := be_ID e; ev_type := be_Type e; ev_expires := now + be_TTL e |}]> (et_rows t);
            et_used := {[id]} ∪ et_used t |}
    else t.
Proof.
  intros Hv. unfold ECProducerSendEvents. cbn [validate_events send_events]. rewrite Hv.
  unfold bindM, ev_exec, ret, committed, ecSendEventSQL. cbn [fst snd].
  destruct (decide (id ∈ et_used t)); [rewrite bool_decide_eq_true_2, bool_decide_eq_false_2 by tauto|
    rewrite bool_decide_eq_false_2, bool_decide_eq_true_2 by tauto]; by destruct n as [|[]].
Qed.
Lemma wake_queue_notified p cl : wake_queue (on_listener (notified p) cl) = wake_queue cl.
Proof. unfold wake_queue, notified. cbn. by destruct (l_conn (c_listener cl)). Qed.
Lemma live_notified p cl : live (on_listener (notified p) cl) → live cl.
Proof.
  unfold live. rewrite wake_queue_notified. unfold notified. cbn. by destruct (l_conn (c_listener cl)) eqn:E; cbn; rewrite ?E.
Qed.
Lemma signalled_notified p cl job : signalled cl job → signalled (on_listener (notified p) cl) job.
Proof.
  intros [w Hw|?|?|?|w p0 Hw Hp Hm|q p0 Hq Hp Hm]; [|by apply sig_rescan|by apply sig_left|by apply sig_todo| |].
  - eapply sig_attached. unfold notified. cbn. by rewrite Hw.
  - eapply (sig_wire _ _ (app w [p]) p0); [unfold notified; cbn; by rewrite Hw|set_solver|done].
  - eapply (sig_wake _ _ q p0); [by rewrite wake_queue_notified|done|done].
Qed.
Lemma notified_signals p cl : live cl → signalled (on_listener (notified p) cl) p.
Proof.
  intros [Hl _]. destruct (l_conn (c_listener cl)) as [| |w|w] eqn:Hw; try done.
  - eapply sig_attached. unfold notified. cbn. by rewrite Hw.
  - eapply (sig_wire _ _ (app w [p]) p); [unfold notified; cbn; by rewrite Hw|set_solver|by right].
Qed.
Lemma accounted_send id now n e s s' : accounted s → send_event id now n e s = Some s' → accounted s'.
Proof.
  intros Ha. unfold send_event, step. destruct (event_IsValid e) as [[]|] eqn:Hv; [|done]. cbn [on_base].
  rewrite produce_table by done. intros [= <-]. destruct (committed id n (sy_table (ls_base s))).
  - intros c cl job sub u kr [H1 H2 H3 H4 H5 H6 H7]; cbn in *. rewrite lookup_fmap in H1.
    destruct (ls_clients s !! c) as [cl0|] eqn:Hc; [|done]. injection H1 as <-. apply live_notified in H2.
    apply lookup_insert_Some in H5 as [[_ Hr]|[_ Hr]].
    + right; left. rewrite <- Hr in H6. cbn in H6. subst job. by apply notified_signals.
    + destruct (Ha c cl0 job sub u kr) as [?|[?|[?|?]]]; eauto using signalled_notified. by constructor.
  - by destruct s as [[]].
Qed.

(** ** Subscribers and deliveries *)
Lemma accounted_subscribe c job sub k s s' :
  sys_wf (ls_base s) → accounted s → get_channel c job sub k s = Some s' → accounted s'.
Proof.
  intros Hw Ha. unfold get_channel. destruct (ls_clients s !! c); [|done]. destruct (free_thread _ s) eqn:Hf; [|done].
  unfold free_thread in Hf. boolify. destruct Hf as [Hf _]. unfold subscribe. destruct (sy_chans (ls_base s) !! sub) eqn:Hs; [done|].
  case_bool_decide; [done|]. intros [= <-]. intros c1 cl j x u kr [H1 H2 H3 H4 H5 H6 H7]; cbn in *.
  apply lookup_insert_Some in H3 as [[[= <- <-] _]|[_ H3]].
  - right; right; left. exists (caller k), (Calling job). by rewrite lookup_insert_eq.
  - destruct (wf_subs _ Hw _ _ _ H3) as (v & Hv & _). rewrite lookup_insert_ne in H4 by congruence.
    destruct (Ha c1 cl j x u kr) as [?|[?|[(t & y & Ht & ?)|?]]]; eauto; [by constructor|].
    right; right; left. exists t, y. by rewrite lookup_insert_ne by congruence.
Qed.
Lemma accounted_lookup c t s s' : accounted s → lookup_sub c t s = Some s' → accounted s'.
Proof.
  intros Ha. unfold lookup_sub. destruct (ls_calls s !! t) as [[c' [job|]]|] eqn:Ht; try done.
  destruct (Nat.eqb_spec c' c) as [->|]; [|done]. intros [= <-].
  intros c1 cl j x u kr [H1 H2 H3 H4 H5 H6 H7]; cbn in *.
  destruct (Ha c1 cl j x u kr) as [?|[?|[(t1 & y & Ht1 & Hy)|?]]]; eauto; [by constructor|].
  right; right; left. destruct (decide (t1 = t)) as [->|].
  - rewrite Ht in Ht1. simplify_eq. cbn in Hy. subst job. rewrite H3. exists t, (Locking (ev_job kr.2) x).
    by rewrite lookup_insert_eq.
  - exists t1, y. split; [|done]. destruct (sy_subs (ls_base s) !! (c, job)); [rewrite lookup_insert_ne by congruence|rewrite lookup_delete_ne by congruence]; done.
Qed.
Lemma accounted_lock c t s s' :
  sys_wf (ls_base s) → accounted s → lock_sub c t s = Some s' → accounted s'.
Proof.
  intros Hw Ha. unfold lock_sub. destruct (ls_calls s !! t) as [[c' [|job sub]]|] eqn:Ht; try done.
  destruct (Nat.eqb_spec c' c) as [->|]; [|done].
  (** what was accounted for by other means than this call *)
  assert (Hrest : ∀ c1 cl j x u kr, due s c1 cl j x u kr → (c1, j) ≠ (c, job) ∨ x ≠ sub →
    kr ∈ sub_sent u ∨ signalled cl j ∨ called (delete t (ls_calls s)) c1 j x ∨ selecting (sy_run (ls_base s)) c1 j x kr).
  { intros c1 cl j x u kr Hd Hne. destruct (Ha _ _ _ _ _ _ Hd) as [?|[?|[(t1 & y & Ht1 & Hy)|?]]]; eauto.
    right; right; left. exists t1, y. split; [|done]. rewrite lookup_delete_ne; [done|]. intros <-.
    rewrite Ht in Ht1. simplify_eq. cbn in Hy. naive_solver. }
  case_bool_decide as Hsub.
  2:{ intros [= <-] c1 cl j x u kr [H1 H2 H3 H4 H5 H6 H7]; cbn in *. apply (Hrest c1 cl j x u kr); [by constructor|].
      destruct (decide ((c1, j) = (c, job))); [right; congruence|by left]. }
  unfold begin, no_room. destruct (sy_run (ls_base s) !! t) eqn:Hrun; [done|]. rewrite Hsub.
  destruct (sy_chans (ls_base s) !! sub) as [v|] eqn:Hv; [|done]. case_bool_decide; [|done].
  destruct (room v =? 0)%nat; intros [= <-].
  - intros c1 cl j x u kr [H1 H2 H3 H4 H5 H6 H7]; cbn in *. rewrite lookup_alter in H1. case_decide.
    + subst c1. destruct (ls_clients s !! c) as [cl0|] eqn:Hc; [|done]. injection H1 as <-.
      destruct (decide (j = job)) as [->|]; [right; left; apply sig_left; cbn; set_solver|].
      destruct (Hrest c cl0 j x u kr) as [?|[?|[?|?]]]; [by constructor|left; congruence|by eauto| |by eauto|by eauto].
      right; left. apply signalled_left; [set_solver|done].
    + apply (Hrest c1 cl j x u kr); [by constructor|left; congruence].
  - assert (Hrun' : ∀ c1 j x kr, selecting (sy_run (ls_base s)) c1 j x kr →
      selecting (<[t := {| dl_client := c; dl_job := job; dl_sub := sub; dl_stage := Room (room v) |}]> (sy_run (ls_base s))) c1 j x kr).
    { intros c1 j x kr (t1 & d & Hd & ?). exists t1, d. by rewrite lookup_insert_ne by congruence. }
    intros c1 cl j x u kr [H1 H2 H3 H4 H5 H6 H7]; cbn in *. rewrite lookup_alter in H1. case_decide.
    + subst c1. destruct (ls_clients s !! c) as [cl0|] eqn:Hc; [|done]. injection H1 as <-.
      destruct (decide (j = job)) as [->|].
      * right; right; right. exists t. eexists. rewrite lookup_insert_eq. split_and!; try done. cbn. congruence.
      * destruct (Hrest c cl0 j x u kr) as [?|[?|[?|?]]]; [by constructor|left; congruence|by eauto| |by eauto|by eauto].
        right; left. apply signalled_left; [set_solver|done].
    + destruct (Hrest c1 cl j x u kr) as [?|[?|[?|?]]]; eauto; [by constructor|left; congruence].
Qed.
(** The query: what it does not select is left to the rescan. *)
Lemma of_client_Some c t s d : of_client c t s = Some d → sy_run (ls_base s) !! t = Some d ∧ dl_client d = c.
Proof.
  unfold of_client. destruct (sy_run _ !! t) as [d'|]; [|done]. destruct (Nat.eqb_spec (dl_client d') c); [|done]. naive_solver.
Qed.
Lemma leave_behind_base b c job s : ls_base (leave_behind b c job s) = ls_base s.
Proof. by destruct b. Qed.
Lemma leave_behind_calls b c job s : ls_calls (leave_behind b c job s) = ls_calls s.
Proof. by destruct b. Qed.
Lemma leave_behind_clock b c job s : ls_clock (leave_behind b c job s) = ls_clock s.
Proof. by destruct b. Qed.
Lemma left_behind c job s cl : ls_clients (leave_behind true c job s) !! c = Some cl → signalled cl job.
Proof.
  unfold leave_behind. cbn. rewrite lookup_alter_eq. destruct (ls_clients s !! c); [|done]. intros [= <-].
  apply sig_left. cbn. set_solver.
Qed.
(** A delivery of the client advances: whatever it was selecting it still
    holds, has sent, or is left behind. *)
Lemma accounted_advance c t d b short s :
  accounted s → of_client c t s = Some d →
  sy_subs b = sy_subs (ls_base s) → sy_table b = sy_table (ls_base s) →
  (∀ x u', sy_chans b !! x = Some u' → ∃ u, sy_chans (ls_base s) !! x = Some u ∧ ∀ kr, kr ∈ sub_sent u → kr ∈ sub_sent u') →
  (∀ t' d', t' ≠ t → sy_run (ls_base s) !! t' = Some d' → sy_run b !! t' = Some d') →
  (∀ u' kr, sy_subs b !! (c, dl_job d) = Some (dl_sub d) → sy_chans b !! dl_sub d = Some u' →
     kr ∈ pending_events (ls_clock s) (dl_job d) (sy_table b) → holds kr (dl_stage d) →
     short = true ∨ kr ∈ sub_sent u' ∨ selecting (sy_run b) c (dl_job d) (dl_sub d) kr) →
  accounted (with_base b (leave_behind short c (dl_job d) s)).
Proof.
  intros Ha Hd Hs Ht Hc Hr Hk. apply of_client_Some in Hd as [Hd Hdc].
  intros c1 cl j x u' kr [H1 H2 H3 H4 H5 H6 H7]; cbn in *. rewrite leave_behind_calls. rewrite leave_behind_clock in H7.
  destruct (Hc _ _ H4) as (u & Hu & Hsub). pose proof (accounted_left short c (dl_job d) s Ha) as Ha'.
  destruct (Ha' c1 cl j x u kr) as [?|[?|[Hcl|(t1 & d1 & Hd1 & Hc1 & Hj1 & Hx1 & Hh)]]]; eauto.
  - constructor; rewrite ?leave_behind_base, ?leave_behind_clock; try done; congruence.
  - right; right; left. by rewrite leave_behind_calls in Hcl.
  - rewrite leave_behind_base in Hd1. destruct (decide (t1 = t)) as [->|]; [|right; right; right; exists t1, d1; split_and!; [by apply Hr|done|done|done|done]].
    assert (d1 = d) as -> by congruence. assert (c1 = c) as -> by congruence. subst x.
    destruct (Hk u' kr) as [->|[?|?]].
    + by rewrite Hj1.
    + done.
    + apply elem_pending. split_and!; [done|congruence|done].
    + done.
    + right; left. rewrite <- Hj1. by apply (left_behind c (dl_job d) s).
    + by left.
    + right; right; right. by rewrite <- Hj1.
Qed.
Lemma accounted_drain c t n s s' : accounted s → drain_job c t n s = Some s' → accounted s'.
Proof.
  intros Ha. unfold drain_job. destruct (of_client c t s) as [d|] eqn:Hd; [|done].
  pose proof (of_client_Some _ _ _ _ Hd) as [Hr Hc]. unfold drain. rewrite Hr.
  destruct (dl_stage d) as [k|?|?] eqn:Hg; try done.
  assert (Hsel : ∀ kr, kr ∈ pending_events (ls_clock s) (dl_job d) (sy_table (ls_base s)) →
    n = NetOk → (short_drain d (ls_clock s) n (sy_table (ls_base s)) = true) ∨
    kr ∈ ecDrainEventsSQL (ls_clock s) (dl_job d) k (sy_table (ls_base s))).
  { intros kr Hkr ->. unfold short_drain. rewrite Hg. destruct (Nat.ltb_spec k (length (pending_events (ls_clock s) (dl_job d) (sy_table (ls_base s))))); [by left|].
    right. unfold ecDrainEventsSQL. by rewrite take_ge by lia. }
  assert (Herr : n ≠ NetOk → short_drain d (ls_clock s) n (sy_table (ls_base s)) = true).
  { unfold short_drain. rewrite Hg. by destruct n. }
  destruct n as [|b]; [destruct (ecDrainEventsSQL _ _ _ _) as [|e es] eqn:He|]; intros [= <-];
    (eapply accounted_advance; [done|done|done|done|cbn; eauto|cbn; intros|cbn; intros u' kr _ _ Hkr _]);
    rewrite ?lookup_delete_ne, ?lookup_insert_ne by congruence; try done.
  - destruct (Hsel kr Hkr eq_refl) as [?|Hin]; [by left|]. by apply not_elem_of_nil in Hin.
  - destruct (Hsel kr Hkr eq_refl) as [?|Hin]; [by left|]. right; right. exists t. eexists. rewrite lookup_insert_eq.
    split_and!; done.
  - left. by apply Herr.
Qed.
(** The current subscriber's channel is open. *)
Lemma current_open b k cur u :
  sys_wf b → sy_subs b !! k = Some cur → sy_chans b !! cur = Some u → sub_closed u = false.
Proof.
  intros Hw Hk Hu. destruct k as [c job]. destruct (wf_subs _ Hw _ _ _ Hk) as (v & Hv & _ & _ & Hl), (wf_chans _ Hw _ _ Hu) as [Hcl _].
  assert (v = u) as -> by congruence. destruct (sub_closed u); [|done]. by rewrite Hcl in Hl.
Qed.
Lemma accounted_deliver c t s s' :
  sys_wf (ls_base s) → accounted s → deliver_job c t s = Some s' → accounted s'.
Proof.
  intros Hw Ha. unfold deliver_job. destruct (of_client c t s) as [d|] eqn:Hd; [|done].
  pose proof (of_client_Some _ _ _ _ Hd) as [Hr Hc]. unfold deliver. rewrite Hr.
  destruct (dl_stage d) as [?|es|?] eqn:Hg; try done.
  destruct (sy_chans (ls_base s) !! dl_sub d) as [u|] eqn:Hu; [|by destruct (wf_run _ Hw _ _ Hr) as (? & ? & _); congruence].
  destruct (sy_subs (ls_base s) !! (dl_client d, dl_job d)) as [cur|] eqn:Hcur; [case_bool_decide as Hx|].
  - rewrite (current_open _ _ _ _ Hw Hcur) by congruence.
    intros [= <-]. eapply accounted_advance; [done|done|done|done| | |]; cbn [sy_chans sy_run sy_subs sy_table with_run with_chans].
    + intros x u' [[<- <-]|[_ ?]]%lookup_insert_Some; [|by eauto]. exists u. split; [done|]. cbn. set_solver.
    + intros t' d' Hne Hd'. destruct (take (room u) es); [rewrite lookup_delete_ne by congruence|rewrite lookup_insert_ne by congruence]; done.
    + intros u' kr _ Hu' _ Hh. rewrite lookup_insert_eq in Hu'. injection Hu' as <-. rewrite Hg in Hh. cbn [holds sub_sent set_sent] in *.
      unfold short_deliver. rewrite Hg, Hu. destruct (Nat.ltb_spec (room u) (length es)); [by left|].
      right; left. rewrite take_ge by lia. set_solver.
  - intros [= <-]. eapply accounted_advance; [done|done|done|done|cbn; eauto| |]; cbn.
    + intros. by rewrite lookup_delete_ne.
    + intros u' kr Hs. congruence.
  - intros [= <-]. eapply accounted_advance; [done|done|done|done|cbn; eauto| |]; cbn.
    + intros. by rewrite lookup_delete_ne.
    + intros u' kr Hs. congruence.
Qed.

(** Only [begin] starts a delivery. *)
Lemma run_from x b b' t d' :
  step x b = Some b' → (∀ t' c job, x ≠ ABegin t' c job) → sy_run b' !! t = Some d' →
  ∃ d, sy_run b !! t = Some d ∧ dl_client d = dl_client d'.
Proof.
  assert (Hset : ∀ th d g m, sy_run b !! th = Some d → m = delete th (sy_run b) ∨ m = <[th := set_stage g d]> (sy_run b) →
    m !! t = Some d' → ∃ d, sy_run b !! t = Some d ∧ dl_client d = dl_client d').
  { intros th d g m Hd [-> | ->]; [intros [_ ?]%lookup_delete_Some; eauto|].
    intros [[<- <-]|[_ ?]]%lookup_insert_Some; eauto. }
  intros H Hx Ht. destruct x as [| | | | |thread c job|thread now n|thread|thread n| |c]; unfold step in H.
  - destruct (event_IsValid e); [|done]. injection H as <-. eauto.
  - injection H as <-. eauto.
  - unfold subscribe in H. destruct (sy_chans b !! sub); [done|]. case_bool_decide; [done|]. injection H as <-. eauto.
  - unfold leave in H. destruct (sy_chans b !! sub) as [u|]; [|done]. injection H as <-. case_bool_decide; eauto.
  - unfold close in H. destruct (sy_chans b !! sub) as [u|]; [|done]. destruct (sub_leaving u); [|done]. injection H as <-. eauto.
  - by destruct (Hx thread c job).
  - unfold drain in H. destruct (sy_run b !! thread) as [d|] eqn:Hd; [|done]. destruct (dl_stage d) as [k| |]; try done.
    destruct n, (ecDrainEventsSQL now (dl_job d) k (sy_table b)) as [|e es]; injection H as <-;
      first [eapply (Hset thread d (Drained (e :: es))); [done| |apply Ht]; by auto
            |eapply (Hset thread d (Drained [])); [done| |apply Ht]; by auto].
  - unfold deliver in H. destruct (sy_run b !! thread) as [d|] eqn:Hd; [|done]. destruct (dl_stage d) as [|es|]; try done.
    destruct (sy_subs b !! _) as [cur|], (sy_chans b !! dl_sub d) as [u|];
      [case_bool_decide; [destruct (sub_closed u); [|destruct (take (room u) es) as [|y l]]|]|..]; injection H as <-;
      first [by exists d'|eapply (Hset thread d (Accepted (y :: l).*1)); [done| |apply Ht]; by auto
            |eapply (Hset thread d (Accepted [])); [done| |apply Ht]; by auto].
  - unfold ack in H. destruct (sy_run b !! thread) as [d|] eqn:Hd; [|done]. destruct (dl_stage d) as [| |ids]; try done.
    injection H as <-. eapply (Hset thread d (Accepted ids)); [done| |apply Ht]. by destruct n as [|[]]; left.
  - unfold receive in H. destruct (sy_chans b !! sub) as [u|]; [|done]. destruct (_ <? _)%nat; [|done]. injection H as <-. eauto.
  - injection H as <-. cbn in Ht. apply map_lookup_filter_Some in Ht as [? _]. eauto.
Qed.

(** ** Threads

    A thread is in a call or in a delivery, not both, and the dispatcher's
    thread works for its own client. *)
Definition owner_ok (t c : nat) : Prop := ∀ c', t = dispatcher c' → c' = c.
Record threads (s : LSys) : Prop := {
  th_calls : ∀ t x, ls_calls s !! t = Some x → sy_run (ls_base s) !! t = None ∧ owner_ok t x.1;
  th_run : ∀ t d, sy_run (ls_base s) !! t = Some d → owner_ok t (dl_client d) }.

Lemma threads_frame s s' :
  threads s → (∀ t x, ls_calls s' !! t = Some x → ∃ y, ls_calls s !! t = Some y ∧ x.1 = y.1) →
  (∀ t d', sy_run (ls_base s') !! t = Some d' → ∃ d, sy_run (ls_base s) !! t = Some d ∧ dl_client d = dl_client d') →
  threads s'.
Proof.
  intros [Hc Hr] Hcs Hrs. constructor.
  - intros t x (y & Hy & ->)%Hcs. destruct (Hc _ _ Hy) as [Hn Ho]. split; [|done].
    destruct (sy_run (ls_base s') !! t) as [d'|] eqn:Hd; [|done]. apply Hrs in Hd as (d & Hd & _). congruence.
  - intros t d' (d & Hd & <-)%Hrs. eauto.
Qed.
Lemma threads_on_client c f s s' : threads s → on_client c f s = Some s' → threads s'.
Proof.
  intros Hf. unfold on_client. destruct (ls_clients s !! c); [|done]. destruct (f _); [|done]. intros [= <-].
  apply (threads_frame s); cbn; eauto.
Qed.
Lemma threads_on_base x b1 s s1 s' :
  threads s → step x (ls_base s) = b1 → on_base b1 s1 = Some s' → (∀ t' c job, x ≠ ABegin t' c job) →
  ls_calls s1 = ls_calls s → threads s'.
Proof.
  intros Hf Hx H Hb Hc. destruct b1 as [b|]; [|done]. injection H as <-. apply (threads_frame s); cbn; [done|rewrite Hc; eauto|].
  intros t d' Hd. by eapply run_from.
Qed.
Lemma threads_add t c k s b :
  threads s → free_thread t s = true → owner_ok t c → sy_run b = sy_run (ls_base s) →
  threads (with_base b (with_calls (<[t := (c, k)]> (ls_calls s)) s)).
Proof.
  intros [Hc Hr] Ht Ho Hb. unfold free_thread in Ht. boolify. destruct Ht as [_ Ht].
  constructor; cbn; rewrite Hb; [|done]. intros t' x [[<- <-]|[_ ?]]%lookup_insert_Some; [done|by apply Hc].
Qed.
Lemma owner_dispatcher c : owner_ok (dispatcher c) c.
Proof. intros c'. unfold dispatcher. lia. Qed.
Lemma owner_caller k c : owner_ok (caller k) c.
Proof. intros c'. unfold dispatcher, caller. lia. Qed.
Lemma threads_lock c t s s' : threads s → lock_sub c t s = Some s' → threads s'.
Proof.
  intros Hth. pose proof Hth as [Hc Hr]. unfold lock_sub. destruct (ls_calls s !! t) as [[c' [|job sub]]|] eqn:Ht; try done.
  destruct (Nat.eqb_spec c' c) as [->|]; [|done]. destruct (Hc _ _ Ht) as [_ Ho]. cbn in Ho.
  assert (Hcs : ∀ t' x, delete t (ls_calls s) !! t' = Some x → ∃ y, ls_calls s !! t' = Some y ∧ x.1 = y.1).
  { intros t' x [_ ?]%lookup_delete_Some. eauto. }
  case_bool_decide as Hs; [|intros [= <-]; apply (threads_frame s); cbn; eauto]. unfold begin. rewrite Hs.
  destruct (sy_run (ls_base s) !! t) eqn:Hn; [done|]. destruct (sy_chans _ !! sub) as [u|]; [|done]. case_bool_decide; [|done].
  destruct (room u =? 0)%nat; intros [= <-]; [destruct (no_room _ _); apply (threads_frame s); cbn; eauto|].
  constructor.
  - intros t' x. destruct (no_room _ _); cbn; intros [Hne Hy]%lookup_delete_Some; rewrite lookup_insert_ne by done; by apply Hc.
  - intros t' d. destruct (no_room _ _); cbn; intros [[<- <-]|[_ ?]]%lookup_insert_Some; eauto.
Qed.
Lemma threads_step a s s' : threads s → lstep a s = Some s' → threads s'.
Proof.
  intros Hf. destruct a; cbn [lstep]; try (by apply threads_on_client).
  - destruct_match; [done|]. intros [= <-]. apply (threads_frame s); cbn; eauto.
  - unfold visit. destruct (ls_clients s !! c) as [cl|]; [|done]. destruct (_ && _) eqn:Hg; [|done]. boolify. intros [= <-].
    pose proof (threads_add (dispatcher c) c (Calling job) s (ls_base s) Hf ltac:(done) (owner_dispatcher c) eq_refl) as Ht.
    apply (threads_frame _ _ Ht); cbn; eauto.
  - intros [= <-]. apply (threads_frame s); cbn; [done|intros t x [? _]%map_lookup_filter_Some|intros t x [? _]%map_lookup_filter_Some];
      eauto.
  - unfold send_event. destruct (on_base _ s) as [s1|] eqn:E; [|done].
    assert (threads s1) by (eapply (threads_on_base (ASend id now n e)); try done). intros [= <-].
    destruct (committed id n (sy_table (ls_base s))); [|done]. apply (threads_frame s1); cbn; eauto.
  - intros [= <-]. apply (threads_frame s); cbn; eauto.
  - destruct (_ <=? _); [|done]. intros [= <-]. apply (threads_frame s); cbn; eauto.
  - unfold get_channel. destruct (ls_clients s !! c); [|done]. destruct (free_thread _ s) eqn:Hg; [|done]. unfold subscribe.
    destruct (sy_chans _ !! sub); [done|]. case_bool_decide; [done|]. intros [= <-]. by apply threads_add; [..|apply owner_caller|].
  - intros H. by eapply (threads_on_base (ALeave sub)).
  - intros H. by eapply (threads_on_base (AClose sub)).
  - intros H. by eapply (threads_on_base (AReceive sub)).
  - unfold lookup_sub. destruct (ls_calls s !! t) as [[c' [job|]]|] eqn:Ht; try done. destruct (Nat.eqb_spec c' c) as [->|]; [|done].
    intros [= <-]. apply (threads_frame s); cbn; [done| |eauto]. intros t' y.
    destruct (sy_subs _ !! _); [intros [[<- <-]|[_ ?]]%lookup_insert_Some|intros [_ ?]%lookup_delete_Some]; eauto.
  - by apply threads_lock.
  - unfold drain_job. destruct (of_client c t s) as [d|]; [|done]. intros H.
    eapply (threads_on_base (ADrain t (ls_clock s) n)); [done|done|done|done|]. by rewrite leave_behind_calls.
  - unfold deliver_job. destruct (of_client c t s) as [d|]; [|done]. intros H.
    eapply (threads_on_base (ADeliver t)); [done|done|done|done|]. by rewrite leave_behind_calls.
  - unfold ack_job. destruct (of_client c t s) as [d|]; [|done]. intros H. by eapply (threads_on_base (AAck t n)).
Qed.

Lemma with_clock_id s : with_clock (ls_clock s) s = s.
Proof. by destruct s. Qed.
(** Steps that only receive, close, delete rows or forget subscribers. *)
Lemma accounted_quiet b s :
  accounted s → (∀ k x, sy_subs b !! k = Some x → sy_subs (ls_base s) !! k = Some x) →
  (∀ x u', sy_chans b !! x = Some u' → ∃ u, sy_chans (ls_base s) !! x = Some u ∧ sub_sent u = sub_sent u') →
  (∀ id r, et_rows (sy_table b) !! id = Some r → et_rows (sy_table (ls_base s)) !! id = Some r) →
  (∀ t d, sy_run (ls_base s) !! t = Some d → sy_run b !! t = Some d ∨ ∃ ids, dl_stage d = Accepted ids) →
  accounted (with_base b s).
Proof. intros. rewrite <- (with_clock_id s) at 1. by apply accounted_base. Qed.
Lemma sent_update x v v' u' y (m : gmap nat eventSub) :
  m !! x = Some v → sub_sent v = sub_sent v' → <[x := v']> m !! y = Some u' → ∃ u, m !! y = Some u ∧ sub_sent u = sub_sent u'.
Proof. intros Hv Hs [[<- <-]|[_ ?]]%lookup_insert_Some; eauto. Qed.
Lemma accounted_visit c job s s' : accounted s → visit c job s = Some s' → accounted s'.
Proof.
  intros Ha. unfold visit. destruct (ls_clients s !! c) as [cl|] eqn:Hc; [|done].
  destruct (_ && _) eqn:Hg; [|done]. boolify. unfold free_thread in *. boolify. intros [= <-].
  apply (accounted_client c cl); try done; [intros t x Hx; rewrite lookup_insert_ne; [done|]; intros <-; naive_solver|].
  intros j Hj Hl. right. split; [done|]. intros Hs. destruct (decide (j = job)) as [->|Hne].
  - right. exists (dispatcher c). by rewrite lookup_insert_eq.
  - left. destruct Hs as [w0|?|?|?|w0 p0|q0 p0]; eauto using signalled. apply sig_todo. cbn. set_solver.
Qed.
Lemma accounted_crash c s s' : accounted s → lstep (LCrash c) s = Some s' → accounted s'.
Proof.
  intros Ha [= <-] c1 cl j x u kr [H1 H2 H3 H4 H5 H6 H7]; cbn in *. apply lookup_delete_Some in H1 as [Hne H1].
  apply map_lookup_filter_Some in H3 as [H3 _].
  destruct (Ha c1 cl j x u kr) as [?|[?|[(t & k & Ht & Hk)|(t & d & Hd & Hc & ? & ? & ?)]]]; eauto; [by constructor| |].
  - right; right; left. exists t, k. split; [|done]. by apply map_lookup_filter_Some.
  - right; right; right. exists t, d. split_and!; try done. apply map_lookup_filter_Some. split; [done|]. cbn. congruence.
Qed.
Lemma accounted_ack c t n s s' : accounted s → ack_job c t n s = Some s' → accounted s'.
Proof.
  intros Ha. unfold ack_job. destruct (of_client c t s) as [d|] eqn:Hd; [|done]. apply of_client_Some in Hd as [Hd _].
  unfold ack. rewrite Hd. destruct (dl_stage d) as [| |ids] eqn:Hg; try done. intros [= <-].
  apply accounted_quiet; [done|by destruct n as [|[]]|destruct n as [|[]]; cbn; eauto| |].
  - intros id r. destruct n as [|[]]; cbn; [intros [? _]%map_lookup_filter_Some|intros [? _]%map_lookup_filter_Some|]; done.
  - intros t' d' Hd'. destruct (decide (t' = t)) as [->|]; [right; exists ids; congruence|left].
    destruct n as [|[]]; cbn; by rewrite lookup_delete_ne.
Qed.

(** ** The invariant *)
Record linv (s : LSys) : Prop := { li_wf : sys_wf (ls_base s); li_threads : threads s; li_acc : accounted s }.
Lemma ls0_inv : linv ls0.
Proof.
  constructor; [apply sys0_wf|constructor; intros t x; cbn; by rewrite lookup_empty|].
  intros c cl j x u kr [H1 _ _ _ _ _ _]; cbn in H1. by rewrite lookup_empty in H1.
Qed.
Lemma accounted_lstep a s s' : sys_wf (ls_base s) → accounted s → lstep a s = Some s' → accounted s'.
Proof.
  intros Hw Ha. destruct a; cbn [lstep].
  - destruct (ls_clients s !! c) eqn:Hc; [done|]. intros [= <-] c1 cl j x u kr [H1 H2 H3 H4 H5 H6 H7]; cbn in *.
    apply lookup_insert_Some in H1 as [[_ <-]|[_ H1]]; [by destruct H2|].
    destruct (Ha c1 cl j x u kr) as [?|[?|[?|?]]]; eauto. by constructor.
  - intros H. eapply accounted_on_client; [done|done|]. intros cl cl' _. apply acquire_keeps.
  - intros H. eapply accounted_on_client; [done|done|]. intros cl cl' _. apply listen_keeps.
  - intros H. eapply accounted_on_client; [done|done|]. intros cl cl' _. apply nudge_keeps.
  - intros H. eapply accounted_on_client; [done|done|]. intros cl cl' _. apply notification_keeps.
  - intros H. eapply accounted_on_client; [done|done|]. intros cl cl' _. apply drop_keeps.
  - intros H. eapply accounted_in_select; [done|done|]. apply wake_keeps.
  - intros H. eapply accounted_in_select; [done|done|]. intros cl cl' _ [= <-]. apply all_keeps.
  - intros H. eapply accounted_in_select; [done|done|]. intros cl cl' _. apply rescan_keeps.
  - by apply accounted_visit.
  - intros H. eapply accounted_on_client; [done|done|]. intros cl cl' _ [= <-]. apply cancel_keeps.
  - intros H. eapply accounted_in_select; [done|done|]. cbn. intros cl cl' _. destruct (c_cancelled cl); [|done].
    intros [= <-]. apply stop_keeps.
  - intros H. eapply accounted_on_client; [done|done|]. cbn. intros cl cl' _. destruct (c_wake cl); [done|].
    intros [= <-]. apply close_keeps.
  - by apply accounted_crash.
  - by apply accounted_send.
  - intros [= <-]. apply accounted_quiet; cbn; eauto. intros id r. unfold purgeExpired, ev_exec.
    destruct n as [|[]]; cbn; [intros [? _]%map_lookup_filter_Some|intros [? _]%map_lookup_filter_Some|]; done.
  - destruct (Z.leb_spec (ls_clock s) now); [|done]. intros [= <-].
    assert (with_clock now s = with_base (ls_base s) (with_clock now s)) as -> by done. apply accounted_base; eauto.
  - by apply accounted_subscribe.
  - unfold leave. destruct (sy_chans (ls_base s) !! sub) as [v|] eqn:Hv; [|done].
    case_bool_decide; intros [= <-]; apply accounted_quiet; cbn; eauto; try (intros x u'; by eapply sent_update).
    by intros k x [_ ?]%lookup_delete_Some.
  - unfold close. destruct (sy_chans (ls_base s) !! sub) as [v|] eqn:Hv; [|done]. destruct (sub_leaving v); [|done].
    intros [= <-]. apply accounted_quiet; cbn; eauto. intros x u'. by eapply sent_update.
  - unfold receive. destruct (sy_chans (ls_base s) !! sub) as [v|] eqn:Hv; [|done]. destruct (_ <? _)%nat; [|done].
    intros [= <-]. apply accounted_quiet; cbn; eauto. intros x u'. by eapply sent_update.
  - by apply accounted_lookup.
  - by apply accounted_lock.
  - by apply accounted_drain.
  - by apply accounted_deliver.
  - by apply accounted_ack.
Qed.
Lemma linv_step a s s' : linv s → lstep a s = Some s' → linv s'.
Proof.
  intros [Hw Hf Ha] H. constructor; [|by eapply threads_step|by eapply accounted_lstep].
  destruct (lstep_refines _ _ _ H) as [l Hl]. by eapply steps_wf.
Qed.
Lemma linv_steps l s s' : linv s → lsteps l s = Some s' → linv s'.
Proof.
  revert s. induction l as [|a l IH]; intros s Hi; cbn; [by intros [= <-]|].
  destruct (lstep a s) as [s1|] eqn:Ha; [|done]. apply IH. by eapply linv_step.
Qed.

(** ** The client's own work is finite *)

(** Steps of the client's listener, dispatcher and delivery calls that need
    nothing from outside. *)
Definition internal (c : nat) (a : LAct) : Prop :=
  match a with
  | LNudge c' | LNotify c' | LWake c' | LRescan c' | LVisit c' _ | LLookup c' _ | LLock c' _ | LDrain c' _ _
  | LDeliver c' _ | LAck c' _ _ => c' = c
  | _ => False
  end.
Definition call_work (c : nat) (x : nat * Call) : Z :=
  if (x.1 =? c)%nat then match x.2 with Calling _ => 5 | Locking _ _ => 4 end else 0.
Definition run_work (c : nat) (d : Delivery) : Z :=
  if (dl_client d =? c)%nat then match dl_stage d with Room _ => 3 | Drained _ => 2 | Accepted _ => 1 end else 0.
(** [w] bounds the work of one visit to every job. *)
Definition client_work (w : Z) (cl : Client) : Z :=
  match l_conn (c_listener cl) with
  | Attached l => (w + 1) * (1 + Z.of_nat (length l))
  | Listening l => (w + 1) * Z.of_nat (length l)
  | _ => 0
  end + w * Z.of_nat (length (default [] (wake_queue cl))) + (if c_rescanNow cl then w else 0)
  + 6 * Z.of_nat (size (c_todo cl)).
Definition scan_work (c : nat) (s : LSys) : Z := 6 * Z.of_nat (size (jobs_of c s)) + 8.
Definition work (c : nat) (s : LSys) : Z :=
  match ls_clients s !! c with Some cl => client_work (scan_work c s) cl | None => 0 end
  + map_total (call_work c) (ls_calls s) + map_total (run_work c) (sy_run (ls_base s)).

Lemma call_work_nonneg c x : 0 ≤ call_work c x.
Proof. unfold call_work. destruct (_ =? _)%nat; [|lia]. destruct x.2; lia. Qed.
Lemma run_work_nonneg c d : 0 ≤ run_work c d.
Proof. unfold run_work. destruct (_ =? _)%nat; [|lia]. destruct (dl_stage d); lia. Qed.
Lemma client_work_nonneg w cl : 0 ≤ w → 0 ≤ client_work w cl.
Proof. intros. unfold client_work. destruct (l_conn _), (c_rescanNow cl); nia. Qed.
Lemma work_nonneg c s : 0 ≤ work c s.
Proof.
  unfold work. pose proof (map_total_nonneg (call_work c) (ls_calls s) (call_work_nonneg c)).
  pose proof (map_total_nonneg (run_work c) (sy_run (ls_base s)) (run_work_nonneg c)).
  destruct (ls_clients s !! c) as [cl|]; [|lia]. pose proof (client_work_nonneg (scan_work c s) cl).
  unfold scan_work in *. lia.
Qed.
Lemma client_work_left w X cl : client_work w (set_left X cl) = client_work w cl.
Proof. done. Qed.

Lemma on_client_work c f s s' :
  on_client c f s = Some s' →
  (∀ cl cl', f cl = Some cl' → client_work (scan_work c s) cl' < client_work (scan_work c s) cl) → work c s' < work c s.
Proof.
  unfold on_client. destruct (ls_clients s !! c) as [cl|] eqn:Hc; [|done]. destruct (f cl) as [cl'|] eqn:Hf; [|done].
  intros [= <-] H. specialize (H _ _ Hf). unfold work. cbn. rewrite lookup_insert_eq, Hc.
  change (scan_work c (update c cl' s)) with (scan_work c s). lia.
Qed.
Lemma in_select_work c f s s' :
  in_select c f s = Some s' →
  (∀ cl cl', c_todo cl = ∅ → f cl = Some cl' → client_work (scan_work c s) cl' < client_work (scan_work c s) cl) →
  work c s' < work c s.
Proof.
  intros H Hf. eapply on_client_work; [done|]. cbn. intros cl cl'. destruct (idle c cl s) eqn:Hi; [|done].
  unfold idle in Hi. boolify. by apply Hf.
Qed.
Lemma nudge_work w cl cl' : 0 ≤ w → nudge cl = Some cl' → client_work w cl' < client_work w cl.
Proof.
  unfold nudge, client_work. intros Hw H. destruct (l_conn (c_listener cl)) as [| |l|] eqn:Hk; try done. injection H as <-.
  change (wake_queue (onReconnect _)) with (wake_queue cl). cbn [onReconnect set_rescan c_listener on_listener l_conn set_conn
    c_rescanNow c_todo]. destruct (c_rescanNow cl); lia.
Qed.
Lemma notification_work w jobs cl cl' : 0 ≤ w → notification jobs cl = Some cl' → client_work w cl' < client_work w cl.
Proof.
  unfold notification. intros Hw H. destruct (l_conn (c_listener cl)) as [| | |[|p l]] eqn:Hk; try done. injection H as <-.
  set (cl1 := on_listener _ cl).
  assert (client_work w cl1 < client_work w cl) as Hlt.
  { unfold client_work. unfold cl1 at 2. rewrite wake_queue_deliver, Hk. cbn [cl1 on_listener c_listener deliver_payload l_conn
      set_conn c_rescanNow c_todo length].
    assert ((length (default [] (offer p <$> wake_queue cl)) ≤ S (length (default [] (wake_queue cl))))%nat) as Hq.
    { destruct (wake_queue cl) as [q|]; [|cbn; lia]. cbn [fmap option_fmap option_map default from_option id]. unfold offer.
      destruct (full q); [lia|]. rewrite length_app. cbn [length]. lia. }
    nia. }
  destruct (wake_queue cl) as [q|]; [|done]. by destruct (full q).
Qed.
Lemma aims_size p jobs : (size (aims p jobs) ≤ size jobs + 1)%nat.
Proof. unfold aims. case_bool_decide; [lia|]. rewrite size_singleton. lia. Qed.
Lemma wake_work w jobs cl cl' :
  6 * Z.of_nat (size jobs) + 8 ≤ w → c_todo cl = ∅ → on_wake jobs cl = Some cl' → client_work w cl' < client_work w cl.
Proof.
  unfold on_wake. intros Hw Ht H. destruct (c_wake cl) as [i|] eqn:Hid; [|done].
  destruct (wake_queue cl) as [[|p q]|] eqn:Hq; try done. unfold client_work at 2. rewrite Hq, Ht, size_empty.
  cbn [default from_option id length]. destruct (c_cancelled cl); injection H as <-; unfold client_work.
  - assert (wake_queue (stop_dispatcher cl) = None) as -> by done.
    assert (l_conn (c_listener (stop_dispatcher cl)) = l_conn (c_listener cl)) as ->.
    { unfold stop_dispatcher. by rewrite Hid. }
    cbn [stop_dispatcher c_rescanNow c_todo default from_option length]. rewrite Ht, size_empty. nia.
  - match goal with |- context [wake_queue ?x] => assert (wake_queue x = Some q) as -> end.
    { unfold wake_queue. cbn. rewrite Hid. cbn. by rewrite lookup_insert_eq. }
    cbn [set_todo on_listener set_queues c_listener l_conn c_rescanNow c_todo default from_option id].
    pose proof (aims_size p jobs). nia.
Qed.
Lemma rescan_work w jobs cl cl' :
  6 * Z.of_nat (size jobs) + 8 ≤ w → c_todo cl = ∅ → on_rescan jobs cl = Some cl' → client_work w cl' < client_work w cl.
Proof.
  unfold on_rescan. intros Hw Ht H. destruct (c_rescanNow cl) eqn:Hr; [|done]. injection H as <-. unfold client_work.
  rewrite Hr, Ht, size_empty. change (wake_queue (deliverAllJobEvents _ _)) with (wake_queue cl).
  cbn [deliverAllJobEvents set_todo set_rescan c_listener l_conn c_rescanNow c_todo]. lia.
Qed.
Lemma visit_work c job s s' : visit c job s = Some s' → work c s' < work c s.
Proof.
  unfold visit. destruct (ls_clients s !! c) as [cl|] eqn:Hc; [|done]. destruct (_ && _) eqn:Hg; [|done]. boolify.
  unfold free_thread in *. boolify. intros [= <-]. unfold work. cbn. rewrite lookup_insert_eq, Hc, map_total_insert by naive_solver.
  unfold call_work at 1. cbn [fst snd]. rewrite Nat.eqb_refl. match goal with |- context [scan_work c ?x] => change (scan_work c x) with (scan_work c s) end.
  unfold client_work. change (wake_queue (set_todo _ _)) with (wake_queue cl). cbn [set_todo c_listener c_rescanNow c_todo].
  rewrite size_difference, size_singleton by set_solver.
  assert (size (c_todo cl) ≠ O) by (rewrite size_non_empty_iff; set_solver). lia.
Qed.
(** Deliveries do not change the subscriptions, so the bound [scan_work]
    stays, and recording that a job is left behind or taken up costs nothing. *)
Lemma work_alter b g c s :
  sy_subs b = sy_subs (ls_base s) →
  work c (with_base b (with_clients (alter (λ cl, set_left (g cl) cl) c (ls_clients s)) s)) =
    work c s + map_total (run_work c) (sy_run b) - map_total (run_work c) (sy_run (ls_base s)).
Proof.
  intros Hs. unfold work. match goal with |- context [scan_work c (with_base ?x ?y)] =>
    assert (scan_work c (with_base x y) = scan_work c s) as -> by (unfold scan_work, jobs_of; cbn; by rewrite Hs) end.
  cbn. rewrite lookup_alter_eq. destruct (ls_clients s !! c) as [cl|]; cbn [fmap option_fmap option_map];
    rewrite ?client_work_left; lia.
Qed.
Lemma work_left b short c job s :
  sy_subs b = sy_subs (ls_base s) →
  work c (with_base b (leave_behind short c job s)) =
    work c s + map_total (run_work c) (sy_run b) - map_total (run_work c) (sy_run (ls_base s)).
Proof.
  intros Hs. destruct short; [by apply work_alter|]. unfold leave_behind, work.
  assert (scan_work c (with_base b s) = scan_work c s) as -> by (unfold scan_work, jobs_of; cbn; by rewrite Hs). cbn. lia.
Qed.
Lemma lookup_work c t s s' : lookup_sub c t s = Some s' → work c s' < work c s.
Proof.
  unfold lookup_sub. destruct (ls_calls s !! t) as [[c' [job|]]|] eqn:Ht; try done.
  destruct (Nat.eqb_spec c' c) as [->|]; [|done]. intros [= <-]. unfold work. cbn.
  match goal with |- context [scan_work c (with_calls ?m s)] => change (scan_work c (with_calls m s)) with (scan_work c s) end.
  destruct (sy_subs _ !! _).
  - rewrite (map_total_update _ _ _ _ _ Ht). unfold call_work at 2 3. cbn. rewrite Nat.eqb_refl. lia.
  - rewrite (map_total_delete _ (ls_calls s) _ _ Ht). unfold call_work at 2. cbn. rewrite Nat.eqb_refl. lia.
Qed.
Lemma lock_work c t s s' : lock_sub c t s = Some s' → work c s' < work c s.
Proof.
  unfold lock_sub. destruct (ls_calls s !! t) as [[c' [|job sub]]|] eqn:Ht; try done.
  destruct (Nat.eqb_spec c' c) as [->|]; [|done].
  assert (Hd : work c (with_calls (delete t (ls_calls s)) s) = work c s - 4).
  { unfold work. cbn. change (scan_work c (with_calls _ s)) with (scan_work c s).
    rewrite (map_total_delete _ (ls_calls s) _ _ Ht). unfold call_work at 2. cbn. rewrite Nat.eqb_refl. lia. }
  case_bool_decide as Hsub; [|intros [= <-]; lia]. unfold begin, no_room. destruct (sy_run (ls_base s) !! t) eqn:Hr; [done|].
  rewrite Hsub. destruct (sy_chans (ls_base s) !! sub) as [v|]; [|done]. case_bool_decide; [|done].
  destruct (room v =? 0)%nat; intros [= <-]; unfold taken_up.
  - pose proof (work_alter (ls_base s) (λ cl, {[job]} ∪ c_left cl) c (with_calls (delete t (ls_calls s)) s) eq_refl) as E.
    cbn in E. rewrite E. cbn. lia.
  - match goal with |- work c (with_base ?b _) < _ =>
      pose proof (work_alter b (λ cl, c_left cl ∖ {[job]}) c (with_calls (delete t (ls_calls s)) s) eq_refl) as E end.
    cbn in E |- *. rewrite E, map_total_insert by done. unfold run_work at 1. cbn. rewrite Nat.eqb_refl. lia.
Qed.
Lemma drain_work c t n s s' : drain_job c t n s = Some s' → work c s' < work c s.
Proof.
  unfold drain_job. destruct (of_client c t s) as [d|] eqn:Hd; [|done]. apply of_client_Some in Hd as [Hr Hc].
  unfold drain. rewrite Hr. destruct (dl_stage d) as [k| |] eqn:Hg; try done.
  assert (run_work c d = 3) as Hw by (unfold run_work; by rewrite Hc, Nat.eqb_refl, Hg).
  assert (∀ es, run_work c (set_stage (Drained es) d) = 2) as Hw2 by (intros; unfold run_work; cbn; by rewrite Hc, Nat.eqb_refl).
  destruct n, (ecDrainEventsSQL (ls_clock s) (dl_job d) k (sy_table (ls_base s))); intros [= <-]; rewrite work_left by done; cbn;
    try (rewrite (map_total_delete _ (sy_run (ls_base s)) _ _ Hr); lia).
  rewrite (map_total_update _ _ _ _ _ Hr), Hw2. lia.
Qed.
Lemma deliver_work c t s s' : sys_wf (ls_base s) → deliver_job c t s = Some s' → work c s' < work c s.
Proof.
  intros Hwf. unfold deliver_job. destruct (of_client c t s) as [d|] eqn:Hd; [|done]. apply of_client_Some in Hd as [Hr Hc].
  unfold deliver. rewrite Hr. destruct (dl_stage d) as [|es|] eqn:Hg; try done.
  assert (run_work c d = 2) as Hw by (unfold run_work; by rewrite Hc, Nat.eqb_refl, Hg).
  assert (∀ ids, run_work c (set_stage (Accepted ids) d) = 1) as Hw2 by (intros; unfold run_work; cbn; by rewrite Hc, Nat.eqb_refl).
  assert (map_total (run_work c) (delete t (sy_run (ls_base s))) < map_total (run_work c) (sy_run (ls_base s))) as Hdel.
  { rewrite (map_total_delete _ (sy_run (ls_base s)) _ _ Hr). lia. }
  destruct (sy_subs (ls_base s) !! _) as [cur|] eqn:Hcur, (sy_chans (ls_base s) !! dl_sub d) as [u|] eqn:Hu;
    try (intros [= <-]; rewrite work_left by done; cbn; lia).
  case_bool_decide; [|intros [= <-]; rewrite work_left by done; cbn; lia].
  rewrite (current_open _ _ _ _ Hwf Hcur) by congruence.
  destruct (take (room u) es); intros [= <-]; rewrite work_left by done; cbn; [lia|].
  rewrite (map_total_update _ _ _ _ _ Hr), Hw2. lia.
Qed.
Lemma ack_work c t n s s' : ack_job c t n s = Some s' → work c s' < work c s.
Proof.
  unfold ack_job. destruct (of_client c t s) as [d|] eqn:Hd; [|done]. apply of_client_Some in Hd as [Hr Hc].
  unfold ack. rewrite Hr. destruct (dl_stage d) as [| |ids] eqn:Hg; try done. intros [= <-].
  assert (run_work c d = 1) as Hw by (unfold run_work; by rewrite Hc, Nat.eqb_refl, Hg).
  destruct n as [|[]]; (change (with_base ?b s) with (with_base b (leave_behind false c "" s))); rewrite work_left by done; cbn;
    rewrite (map_total_delete _ (sy_run (ls_base s)) _ _ Hr); lia.
Qed.
Lemma internal_work c a s s' : linv s → internal c a → lstep a s = Some s' → work c s' < work c s.
Proof.
  intros [Hw _ _] Hi. assert (0 ≤ scan_work c s) by (unfold scan_work; lia).
  assert (6 * Z.of_nat (size (jobs_of c s)) + 8 ≤ scan_work c s) by (unfold scan_work; lia).
  destruct a; cbn in Hi; try done; subst; cbn [lstep].
  - intros E. eapply on_client_work; [done|]. intros cl cl'. by apply nudge_work.
  - intros E. eapply on_client_work; [done|]. intros cl cl'. by apply notification_work.
  - intros E. eapply in_select_work; [done|]. intros cl cl'. by apply wake_work.
  - intros E. eapply in_select_work; [done|]. intros cl cl'. by apply rescan_work.
  - apply visit_work.
  - apply lookup_work.
  - apply lock_work.
  - apply drain_work.
  - by apply deliver_work.
  - apply ack_work.
Qed.
Lemma internal_bounded c l s s' :
  linv s → Forall (internal c) l → lsteps l s = Some s' → Z.of_nat (length l) + work c s' ≤ work c s.
Proof.
  revert s. induction l as [|a l IH]; intros s Hi Hl; cbn [lsteps length]; [intros [= <-]; lia|].
  inv Hl. destruct (lstep a s) as [s1|] eqn:Ha; [|done]. intros Hs.
  pose proof (internal_work _ _ _ _ Hi ltac:(done) Ha). specialize (IH s1 (linv_step _ _ _ Hi Ha) ltac:(done) Hs). lia.
Qed.

(** ** A client at rest *)
Definition at_rest (c : nat) (s : LSys) : Prop := ∀ a, internal c a → lstep a s = None.

(** A delivery can always take its next step. *)
Lemma rest_runs c s t d :
  linv s → at_rest c s → sy_run (ls_base s) !! t = Some d → dl_client d ≠ c.
Proof.
  intros [Hw _ _] Hr Hd Hc. destruct (wf_run _ Hw _ _ Hd) as (u & Hu & _).
  assert (Ho : of_client c t s = Some d) by (unfold of_client; by rewrite Hd, Hc, Nat.eqb_refl).
  destruct (dl_stage d) as [k|es|ids] eqn:Hg.
  - pose proof (Hr (LDrain c t NetOk) eq_refl) as H. cbn in H. unfold drain_job in H. rewrite Ho in H. unfold drain in H. rewrite Hd, Hg in H.
    by destruct (ecDrainEventsSQL (ls_clock s) (dl_job d) k (sy_table (ls_base s))).
  - pose proof (Hr (LDeliver c t) eq_refl) as H. cbn in H. unfold deliver_job in H. rewrite Ho in H. unfold deliver in H.
    rewrite Hd, Hg, Hu in H. destruct (sy_subs (ls_base s) !! (dl_client d, dl_job d)) as [cur|]; [|done].
    case_bool_decide; [|done]. by destruct (sub_closed u).
  - pose proof (Hr (LAck c t NetOk) eq_refl) as H. cbn in H. unfold ack_job in H. rewrite Ho in H. unfold ack in H.
    by rewrite Hd, Hg in H.
Qed.
(** A call never waits for good: the mutex it wants is free. *)
Lemma rest_calls c s t k : linv s → at_rest c s → ls_calls s !! t ≠ Some (c, k).
Proof.
  intros Hi Hr Ht. pose proof Hi as [Hw [Hf _] _]. destruct k as [job|job sub].
  - pose proof (Hr (LLookup c t) eq_refl) as H. cbn in H. unfold lookup_sub in H. by rewrite Ht, Nat.eqb_refl in H.
  - pose proof (Hr (LLock c t) eq_refl) as H. cbn in H. unfold lock_sub in H. rewrite Ht, Nat.eqb_refl in H.
    case_bool_decide as Hs; [|done]. unfold begin in H. rewrite (proj1 (Hf _ _ Ht)), Hs in H.
    destruct (wf_subs _ Hw _ _ _ Hs) as (u & Hu & Hc & _). rewrite Hu in H. rewrite bool_decide_eq_true_2 in H.
    + by destruct (room u =? 0)%nat.
    + intros t' d Hd Hx. destruct (wf_run _ Hw _ _ Hd) as (v & Hv & Hcv & _).
      apply (rest_runs c s t' d Hi Hr Hd). congruence.
Qed.
Lemma rest_free c s : linv s → at_rest c s → free_thread (dispatcher c) s = true.
Proof.
  intros Hi Hr. pose proof Hi as [_ [Hc Hd] _]. unfold free_thread. apply bool_decide_eq_true. split.
  - destruct (ls_calls s !! dispatcher c) as [[c' k]|] eqn:E; [|done]. destruct (Hc _ _ E) as [_ Ho].
    specialize (Ho c eq_refl). cbn in Ho. subst c'. by apply (rest_calls c s (dispatcher c) k) in E.
  - destruct (sy_run (ls_base s) !! dispatcher c) as [d|] eqn:E; [|done]. pose proof (Hd _ _ E c eq_refl) as Ho.
    by apply (rest_runs c s _ d Hi Hr) in E.
Qed.
Lemma rest_signals c s cl job :
  linv s → at_rest c s → ls_clients s !! c = Some cl → live cl → signalled cl job → job ∈ c_left cl.
Proof.
  intros Hi Hr Hc [Hl [q Hq]] Hs. pose proof (rest_free c s Hi Hr) as Hf.
  assert (c_wake cl ≠ None) as Hw by (intros E; unfold wake_queue in Hq; by rewrite E in Hq).
  assert (c_todo cl = ∅) as Ht.
  { destruct (decide (c_todo cl = ∅)) as [|[j Hj]%set_choose_L]; [done|].
    pose proof (Hr (LVisit c j) eq_refl) as H. cbn in H. unfold visit in H. rewrite Hc, Hf, bool_decide_eq_true_2 in H by done. done. }
  assert (idle c cl s = true) as Hid.
  { unfold idle. rewrite Hf, !bool_decide_eq_true_2 by done. done. }
  assert (Hsel : ∀ f, in_select c f s = None → f cl = None).
  { intros f H. unfold in_select, on_client in H. rewrite Hc, Hid in H. by destruct (f cl). }
  destruct Hs as [w Hw0|Hre|?|Hj|w p Hw0 Hp _|q' p Hq' Hp _]; [| |done|set_solver| |].
  - pose proof (Hr (LNudge c) eq_refl) as H. cbn in H. unfold on_client, nudge in H. by rewrite Hc, Hw0 in H.
  - pose proof (Hsel _ (Hr (LRescan c) eq_refl)) as H. unfold on_rescan in H. by rewrite Hre in H.
  - destruct w as [|p' w]; [by apply not_elem_of_nil in Hp|]. pose proof (Hr (LNotify c) eq_refl) as H. cbn in H.
    unfold on_client, notification in H. by rewrite Hc, Hw0 in H.
  - destruct q' as [|p' q']; [by apply not_elem_of_nil in Hp|]. pose proof (Hsel _ (Hr (LWake c) eq_refl)) as H.
    unfold on_wake in H. rewrite Hq' in H. destruct (c_wake cl); [|done]. by destruct (c_cancelled cl).
Qed.

(** [C11] NOTIFY loses no event while a client listens.  However subscribers,
    producers, connection losses, crashes and deliveries interleaved before,
    the client's own work is finite, and once it has nothing left to do, every
    unexpired event of every job it is subscribed to has been sent to the
    subscriber or its job is recorded as left to the periodic rescan, which
    happens only when the wake-up channel or the job's channel was full or a
    query failed.  In particular the nudge after LISTEN makes up for every
    notification missed while the connection was down. *)
Theorem wakeups_are_not_lost acts s c acts' s' :
  lsteps acts ls0 = Some s → Forall (internal c) acts' → lsteps acts' s = Some s' →
  Z.of_nat (length acts') ≤ work c s ∧
  (at_rest c s' → ∀ cl job sub u kr, due s' c cl job sub u kr → kr ∈ sub_sent u ∨ job ∈ c_left cl).
Proof.
  intros Hs Hl Hs'. pose proof (linv_steps _ _ _ ls0_inv Hs) as Hi. pose proof (linv_steps _ _ _ Hi Hs') as Hi'.
  split; [pose proof (internal_bounded _ _ _ _ Hi Hl Hs'); pose proof (work_nonneg c s'); lia|].
  intros Hr cl job sub u kr Hd. destruct (li_acc _ Hi' _ _ _ _ _ _ Hd) as [?|[Hsig|[(t & k & Ht & _)|(t & d & Ht & Hc & _)]]].
  - by left.
  - right. apply (rest_signals c s'); try done; apply Hd.
  - by destruct (rest_calls c s' t k Hi' Hr).
  - by destruct (rest_runs c s' t d Hi' Hr Ht).
Qed.

(** ** Runs *)
Module WakeupRuns.
Definition lstate (l : list LAct) : LSys := default ls0 (lsteps l ls0).
(** A job is subscribed, the connection is lost, a cancel event is sent, and
    the client listens again. *)
Definition flap : list LAct :=
  [LStart 1; LAcquire 1 NetOk; LListen 1 NetOk; LNudge 1; LRescan 1; LSubscribe 1 "b1" 10 0; LLookup 1 (caller 0);
   LLock 1 (caller 0); LDrain 1 (caller 0) NetOk; LDrop 1; LSend 7 100 NetOk (EventRuns.cancel_of "b1"); LAcquire 1 NetOk;
   LListen 1 NetOk].
(** The client's own work, with the deletion of the delivered row lost. *)
Definition settle : list LAct :=
  [LNudge 1; LRescan 1; LVisit 1 "b1"; LLookup 1 (dispatcher 1); LLock 1 (dispatcher 1); LDrain 1 (dispatcher 1) NetOk;
   LDeliver 1 (dispatcher 1); LAck 1 (dispatcher 1) (NetErr false)].
Lemma settled_rest : at_rest 1 (lstate (app flap settle)).
Proof. intros a Ha. destruct a; cbn in Ha; try done; subst; vm_compute; reflexivity. Qed.
Lemma wakeups_are_not_lost_run :
  8 ≤ work 1 (lstate flap) ∧
  (∃ cl u, ls_clients (lstate (app flap settle)) !! 1%nat = Some cl ∧
     sy_chans (ls_base (lstate (app flap settle))) !! 10%nat = Some u ∧ c_left cl = ∅ ∧
     ((7, EventRuns.row_of "b1") ∈ sub_sent u ∨ "b1" ∈ c_left cl)).
Proof.
  destruct (wakeups_are_not_lost flap (lstate flap) 1 settle (lstate (app flap settle))) as [Hw Hd].
  - vm_compute. reflexivity.
  - repeat constructor.
  - vm_compute. reflexivity.
  - split; [exact Hw|].
    destruct (ls_clients (lstate (app flap settle)) !! 1%nat) as [cl|] eqn:Hc; [|vm_compute in Hc; discriminate].
    destruct (sy_chans (ls_base (lstate (app flap settle))) !! 10%nat) as [u|] eqn:Hu; [|vm_compute in Hu; discriminate].
    exists cl, u. split_and!; [reflexivity|reflexivity|vm_compute in Hc; injection Hc as <-; reflexivity|].
    apply (Hd settled_rest cl "b1" 10%nat u (7, EventRuns.row_of "b1")). constructor; [exact Hc| | |exact Hu|..].
    + vm_compute in Hc. injection Hc as <-. split; [exact I|by eexists].
    + vm_compute. reflexivity.
    + vm_compute. reflexivity.
    + vm_compute. reflexivity.
    + vm_compute. reflexivity.
Defined.
End WakeupRuns.
