(* ===== verification/Rest.v ===== *)
(** * The REST layer of the API server

    What every handler of [internal/apiserver] shares: API errors
    ([shared/openai/apierror.go]), responses and request headers
    ([apiserver/common/rest.go], [middleware/request_middleware.go]), the
    handlers' configuration ([common/config.go]) and the parsing of the [after]
    cursor ([common/pagination.go]), with the standard library functions that
    read integers.

    A response is the value it marshals or the API error; JSON and the wire
    are left out.  Query parameters are ASCII strings. *)

From Stdlib Require Import ZArith Lia Ascii String.
From stdpp Require Import base gmap strings list pretty.
From S2P Require Import Prelude Openai Store StoreOps Ownership Planner Preprocess Files ResultStore Finalizer Events.
Local Open Scope string_scope.
Local Open Scope Z_scope.

(** ** Errors and responses *)

(** [Code] and [Param] are nil in every error the handlers build. *)
Record APIError := { HTTPStatus : Z; ae_Type : string; ae_Message : string }.
Definition StatusBadRequest : Z := 400.
Definition StatusNotFound : Z := 404.
Definition StatusConflict : Z := 409.
Definition StatusInternalServerError : Z := 500.

Definition ErrorCodeToType (code : Z) : string :=
  if code =? 400 then "invalid_request_error"
  else if code =? 401 then "authentication_error"
  else if code =? 403 then "permission_error"
  else if code =? 404 then "not_found_error"
  else if code =? 422 then "invalid_request_error"
  else if code =? 429 then "rate_limit_error"
  else if 500 <=? code then "server_error"
  else "api_error".
Definition NewAPIError (httpStatus : Z) (errorType message : string) : APIError :=
  {| HTTPStatus := httpStatus;
     ae_Type := if bool_decide (errorType = "") then ErrorCodeToType httpStatus else errorType;
     ae_Message := message |}.
Definition internalServerError : APIError := NewAPIError StatusInternalServerError "" "Internal Server Error".

(** [WriteJSONResponse] with status 200, or [WriteAPIError]. *)
Inductive Response (A : Type) := Reply (a : A) | Refuse (e : APIError).
Arguments Reply {A} a.
Arguments Refuse {A} e.
Definition refusal {A} (r : Response A) : option Z := match r with Reply _ => None | Refuse e => Some (HTTPStatus e) end.

(** ** Configuration *)
Record APIConfig := {
  ac_TenantHeader : string; ac_BatchEventTTLSeconds : Z; ac_PassThroughHeaders : list string;
  ac_Allowlist : EndpointAllowlist; ac_DefaultExpirationSeconds : Z; ac_MaxSizeBytes : Z; ac_MaxLineCount : Z }.
(** The values of the YAML file that reach the handlers. *)
Record YamlConfig := {
  yc_InputHeaders : gmap string string; yc_BatchEventTTLSeconds : Z; yc_PassThroughHeaders : list string;
  yc_ExtraEndpoints : list string; yc_DefaultExpirationSeconds : Z; yc_MaxSizeBytes : Z; yc_MaxLineCount : Z }.
Definition DefaultTenantHeader := "X-MaaS-Username".
Definition DefaultBatchEventTTLSeconds : Z := 2592000.
Definition DefaultFileExpirationSeconds : Z := 7776000.
Definition DefaultMaxFileSizeBytes : Z := 209715200.
Definition DefaultMaxFileLineCount : Z := 50000.
Definition GetInputHeader (headers : gmap string string) (key fallback : string) : string :=
  match headers !! key with
  | Some v => if bool_decide (v = "") then fallback else v
  | None => fallback
  end.
Definition or_default (v d : Z) : Z := if v <=? 0 then d else v.
(** [applyDefaults], then the part of [Validate] and [NewBatchAPIHandler] that
    concerns the endpoints. *)
Definition NewAPIConfig (y : YamlConfig) : result APIConfig :=
  match NewEndpointAllowlist (yc_ExtraEndpoints y) with
  | Err e => Err e
  | Ok al =>
      Ok {| ac_TenantHeader := GetInputHeader (yc_InputHeaders y) "tenant" DefaultTenantHeader;
            ac_BatchEventTTLSeconds := or_default (yc_BatchEventTTLSeconds y) DefaultBatchEventTTLSeconds;
            ac_PassThroughHeaders := yc_PassThroughHeaders y; ac_Allowlist := al;
            ac_DefaultExpirationSeconds := or_default (yc_DefaultExpirationSeconds y) DefaultFileExpirationSeconds;
            ac_MaxSizeBytes := or_default (yc_MaxSizeBytes y) DefaultMaxFileSizeBytes;
            ac_MaxLineCount := or_default (yc_MaxLineCount y) DefaultMaxFileLineCount |}
  end.

(** ** Requests *)

(** The values of each header, the path parameter and the query parameters. *)
Record Request := { rq_Header : string → list string; rq_PathValue : string; rq_Query : string → string }.
Definition LastHeaderValue (r : Request) (header defaultVal : string) : string :=
  match last (rq_Header r header) with
  | Some v => if bool_decide (v = "") then defaultVal else v
  | None => defaultVal
  end.
Definition DefaultTenantID := "default".
(** The tenant the middleware puts into the context. *)
Definition tenant_of (cfg : APIConfig) (r : Request) : string := LastHeaderValue r (ac_TenantHeader cfg) DefaultTenantID.

Lemma tenant_nonempty cfg r : tenant_of cfg r ≠ "".
Proof. unfold tenant_of, LastHeaderValue. destruct (last _) as [v|]; [|done]. by case_bool_decide. Qed.

(** ** Integers *)
Definition isDigit (c : ascii) : bool :=
  let n := Z.of_nat (nat_of_ascii c) in (48 <=? n) && (n <=? 57).
Definition isDigits (s : string) : bool := forallb isDigit (chars s) && negb (bool_decide (s = "")).

Fixpoint digits_value (acc : Z) (cs : list ascii) : Z :=
  match cs with [] => acc | c :: cs' => digits_value (10 * acc + (Z.of_nat (nat_of_ascii c) - 48)) cs' end.
(** [strconv.ParseInt(s, 10, 64)] and [strconv.Atoi] (int is 64 bits wide). *)
Definition Atoi (s : string) : option Z :=
  let '(neg, cs) := match chars s with
                    | c :: cs => if bool_decide (c = "-"%char) then (true, cs)
                                 else if bool_decide (c = "+"%char) then (false, cs) else (false, c :: cs)
                    | [] => (false, [])
                    end in
  match cs with
  | [] => None
  | _ => if forallb isDigit cs then
           let v := if (neg : bool) then - digits_value 0 cs else digits_value 0 cs in
           if (- 2 ^ 63 <=? v) && (v <? 2 ^ 63) then Some v else None
         else None
  end.

Fixpoint span_digits (cs : list ascii) : list ascii * list ascii :=
  match cs with
  | c :: cs' => if isDigit c then let '(a, b) := span_digits cs' in (c :: a, b) else ([], cs)
  | [] => ([], [])
  end.
Definition isSpace (c : ascii) : bool := char_in [" "%char; "009"%char; "011"%char; "012"%char; "013"%char] c.
(** [fmt.Sscanf(s, "%d", &v)]: white space is skipped (a newline is an error)
    and what follows the number is ignored. *)
Fixpoint skip_space (cs : list ascii) : list ascii :=
  match cs with c :: cs' => if isSpace c then skip_space cs' else cs | [] => [] end.
Definition Sscanf_d (s : string) : option Z :=
  let cs := skip_space (chars s) in
  let '(sign, cs) := match cs with
                     | c :: cs' => if char_in ["-"%char; "+"%char] c then ([c], cs') else ([], cs)
                     | [] => ([], [])
                     end in
  let '(ds, _) := span_digits cs in
  Atoi (string_of_list_ascii (app sign ds)).

Example atoi_values : Atoi "20" = Some 20 ∧ Atoi "-7" = Some (-7) ∧ Atoi "20x" = None ∧ Atoi "" = None ∧
  Atoi "9223372036854775807" = Some 9223372036854775807 ∧ Atoi "9223372036854775808" = None.
Proof. vm_compute. done. Qed.
Example sscanf_values : Sscanf_d " 20x" = Some 20 ∧ Sscanf_d "x" = None ∧ Sscanf_d "+" = None.
Proof. vm_compute. done. Qed.

(** ** [ParseAfter] *)
Definition FileIDPrefix := "file_".
Definition BatchIDPrefix := "batch_".
Definition ParseAfter (after idPrefix : string) : result (nat * string) :=
  if bool_decide (after = "") then Ok (O, "")
  else if isDigits after then
    match Atoi after with
    | Some offset => Ok (Z.to_nat offset, "")
    | None => Err (ErrOther "after offset is out of range")
    end
  else if has_prefix idPrefix after && (String.length idPrefix <? String.length after)%nat then Ok (O, after)
  else Err (ErrOther "after must be an object ID or a non-negative integer offset").

Lemma ParseAfter_id p id :
  isDigits id = false → has_prefix p id = true → (String.length p < String.length id)%nat →
  ParseAfter id p = Ok (O, id).
Proof.
  intros Hd Hp Hl. unfold ParseAfter. rewrite Hd, Hp, bool_decide_eq_false_2 by (intros ->; cbn in Hl; lia).
  by rewrite (proj2 (Nat.ltb_lt _ _) Hl).
Qed.

(** ** The state of the API server *)

(** Database, file store and file table, and the event table. *)
Record AWorld := { aw_p : PWorld; aw_ev : EventTable }.
Definition aw_db (s : AWorld) : DB := w_db (pw (aw_p s)).
Definition aw_files (s : AWorld) : gmap string FileRow := pw_files (aw_p s).
Definition on_pw {A} (m : M PWorld A) : M AWorld A :=
  λ s, let '(p, r) := m (aw_p s) in ({| aw_p := p; aw_ev := aw_ev s |}, r).
Definition on_adb {A} (m : M DB A) : M AWorld A := on_pw (on_world (on_db m)).
Definition on_ev {A} (m : M EventTable A) : M AWorld A :=
  λ s, let '(t, r) := m (aw_ev s) in ({| aw_p := aw_p s; aw_ev := t |}, r).
Definition on_files {A} (m : M (gmap string FileRow) A) : M AWorld A :=
  λ s, let '(f, r) := m (aw_files s) in ({| aw_p := {| pw := pw (aw_p s); pw_files := f |}; aw_ev := aw_ev s |}, r).

(** ** Handlers

    A handler changes the state and answers.  A refusal ends it, as [return]
    after [WriteAPIError] does. *)
Definition HM (A : Type) : Type := AWorld → AWorld * Response A.
Definition reply {A} (a : A) : HM A := λ s, (s, Reply a).
Definition refuse {A} (e : APIError) : HM A := λ s, (s, Refuse e).
Definition bindH {A B} (m : HM A) (k : A → HM B) : HM B :=
  λ s, match m s with (s', Reply a) => k a s' | (s', Refuse e) => (s', Refuse e) end.
Notation "x <-- m ;; k" := (bindH m (λ x, k)) (at level 100, m at next level, right associativity) : gateway_scope.
(** A call of a client whose error is answered with [onErr]. *)
Definition call {A} (m : M AWorld A) (onErr : err → APIError) : HM A :=
  λ s, match m s with (s', Ok a) => (s', Reply a) | (s', Err e) => (s', Refuse (onErr e)) end.
Definition ise (_ : err) : APIError := internalServerError.
(** What other clients of the database do before the next step. *)
Definition meanwhile (ss : list Stmt) : M AWorld unit := on_adb (λ db, (run_all ss db, Ok tt)).

Lemma bindH_reply {A B} (m : HM A) (k : A → HM B) s s' b :
  bindH m k s = (s', Reply b) → ∃ s1 a, m s = (s1, Reply a) ∧ k a s1 = (s', Reply b).
Proof. unfold bindH. destruct (m s) as [s1 [a|e]]; [eauto|done]. Qed.
