(* ===== verification/FileItems.v ===== *)
(** * The file table

    [internal/database/postgresql/file_db.go] over [db_core.go], the converter
    of [shared/converter/file_converter.go] and the file objects of
    [shared/openai/file.go].  A row is the object its spec marshals with its
    tenant ([FileRow]); the columns [expiry] and [purpose] are derived from it.
    Files carry no tags and no status document. *)

From Stdlib Require Import ZArith Lia.
From stdpp Require Import base gmap strings list sorting.
From S2P Require Import Prelude Openai Store StoreOps Planner Preprocess Files ResultStore Finalizer Query Collector.
Local Open Scope string_scope.
Local Open Scope Z_scope.

(** ** Purposes *)
Definition FileObjectPurposeBatch := "batch".
Definition purposes : list string :=
  ["assistants"; "assistants_output"; FileObjectPurposeBatch; FileObjectPurposeBatchOutput; "fine-tune";
   "fine-tune-results"; "vision"; "user_data"].
Definition purpose_IsValid (p : string) : bool := bool_decide (p ∈ purposes).

(** ** Conversion *)
Record FileObject := {
  fo_ID : string; fo_Bytes : Z; fo_CreatedAt : Z; fo_ExpiresAt : option Z; fo_Filename : string; fo_Purpose : string }.
Definition FileToDBItem (file : FileObject) (tenantID : string) : string * FileRow :=
  (fo_ID file, {| fr_tenant := tenantID; fr_filename := fo_Filename file; fr_bytes := fo_Bytes file;
                  fr_purpose := fo_Purpose file; fr_created := fo_CreatedAt file; fr_expires := fo_ExpiresAt file |}).
Definition DBItemToFile (item : string * FileRow) : FileObject :=
  {| fo_ID := item.1; fo_Bytes := fr_bytes item.2; fo_CreatedAt := fr_created item.2; fo_ExpiresAt := fr_expires item.2;
     fo_Filename := fr_filename item.2; fo_Purpose := fr_purpose item.2 |}.
Lemma DBItemToFile_ToDBItem file tenant : DBItemToFile (FileToDBItem file tenant) = file.
Proof. by destruct file. Qed.

(** ** Queries *)
Record FileQuery := {
  fq_IDs : list string; fq_TenantID : string; fq_Expired : bool; fq_AfterID : string; fq_Descending : bool;
  fq_Purpose : string }.
Definition file_conditions (now : Z) (q : FileQuery) : list (string → FileRow → bool) :=
  app (if bool_decide (fq_IDs q = []) then [] else [λ id _, bool_decide (id ∈ fq_IDs q)])
  (app (if bool_decide (fq_TenantID q = "") then [] else [λ _ r, bool_decide (fr_tenant r = fq_TenantID q)])
  (app (if fq_Expired q then [λ _ r, expired_at now (file_expiry r)] else [])
  (app (if bool_decide (fq_Purpose q = "") then [] else [λ _ r, bool_decide (fr_purpose r = fq_Purpose q)])
       (if bool_decide (fq_AfterID q = "") then [] else [λ id _, after_id (fq_Descending q) (fq_AfterID q) id])))).
Definition file_page (now : Z) (q : FileQuery) (start limit : nat) (m : gmap string FileRow)
    : list (string * FileRow) * nat * bool :=
  match file_conditions now q with
  | [] => ([], O, false)
  | cs => get_at (select_rows (fq_Descending q) (λ id r, forallb (λ c, c id r) cs) m)
            (if bool_decide (fq_AfterID q = "") then start else O) start limit
  end.
Definition FileDBGet (now : Z) (n : net) (q : FileQuery) (start limit : nat)
    : M (gmap string FileRow) (list (string * FileRow) * nat * bool) := λ m,
  match n with NetOk => (m, Ok (file_page now q start limit m)) | NetErr _ => (m, Err ErrIO) end.

(** ** Writes *)
Definition file_exec {A} (n : net) (stmt : gmap string FileRow → gmap string FileRow * result A)
    : M (gmap string FileRow) A := λ m,
  let '(m', a) := stmt m in
  match n with NetOk => (m', a) | NetErr true => (m', Err ErrIO) | NetErr false => (m, Err ErrIO) end.
Definition FileDBStore (n : net) (item : string * FileRow) : M (gmap string FileRow) unit :=
  if bool_decide (item.1 = "") then throw (ErrOther "ID is empty")
  else file_exec n (λ m, match m !! item.1 with
                         | Some _ => (m, Err (ErrOther "unique violation"))
                         | None => (<[item.1 := item.2]> m, Ok tt)
                         end).
Definition FileDBDelete (n : net) (ids : list string) : M (gmap string FileRow) (list string) :=
  match ids with
  | [] => ret []
  | _ => file_exec n (λ m, (filter (λ kr, kr.1 ∉ ids) m, Ok (filter (λ id, is_Some (m !! id)) (remove_dups ids))))
  end.

(** ** One row by ID and tenant *)
Definition file_by_id (id tenantID : string) : FileQuery :=
  {| fq_IDs := [id]; fq_TenantID := tenantID; fq_Expired := false; fq_AfterID := ""; fq_Descending := false;
     fq_Purpose := "" |}.

Lemma select_one {A} desc (sel : string → A → bool) (m : gmap string A) id :
  (∀ k r, sel k r = true → k = id) →
  select_rows desc sel m = match m !! id with Some r => if sel id r then [(id, r)] else [] | None => [] end.
Proof.
  intros Hs. apply list_eq_Forall2. set (l := select_rows desc sel m).
  assert (∀ k r, (k, r) ∈ l ↔ m !! k = Some r ∧ sel k r = true) as He by (intros; apply elem_of_select_rows).
  assert (NoDup l.*1) as Hn by apply NoDup_select_rows.
  assert (∀ x, x ∈ l → x.1 = id) as Hid by (intros [k r] [_ ?]%He; cbn; eauto).
  destruct l as [|[k r] [|[k' r'] l]].
  - destruct (m !! id) as [r|] eqn:Hm; [|done]. destruct (sel id r) eqn:E; [|done].
    assert ((id, r) ∈ @nil (string * A)) by (apply He; done). set_solver.
  - destruct (He k r) as [H1 _]. destruct H1 as [Hm E]; [set_solver|]. assert (k = id) as -> by (by eapply Hs). rewrite Hm, E. by constructor.
  - assert (k = id) as -> by (apply (Hid (k, r)); set_solver). assert (k' = id) as -> by (apply (Hid (k', r')); set_solver).
    cbn in Hn. apply NoDup_cons in Hn as [Hn _]. set_solver.
Qed.

Lemma file_page_by_id now id tenant m :
  tenant ≠ "" →
  file_page now (file_by_id id tenant) 0 1 m =
  match m !! id with
  | Some r => if bool_decide (fr_tenant r = tenant) then ([(id, r)], 1%nat, false) else ([], O, false)
  | None => ([], O, false)
  end.
Proof.
  intros Ht. unfold file_page, file_conditions. cbn [fq_IDs fq_TenantID fq_Expired fq_AfterID fq_Purpose file_by_id].
  rewrite (bool_decide_eq_false_2 ([id] = [])), (bool_decide_eq_false_2 (tenant = "")), (bool_decide_eq_true_2 ("" = "")) by done. cbn [app].
  erewrite (select_one _ _ m id).
  - destruct (m !! id) as [r|] eqn:Hm; [|done]. cbn. rewrite bool_decide_eq_true_2 by set_solver.
    cbn. by case_bool_decide.
  - intros k r H. cbn in H. boolify. set_solver.
Qed.
