(* ===== verification/BatchHandlers.v ===== *)
(** * The batch handlers of the API server

    [internal/apiserver/batch/batch_handler.go] over the modelled clients, with
    the conversions of [shared/converter/batch_converter.go]: create, list,
    retrieve and cancel.  The JSON encoding of a batch's spec is a parameter;
    the decoded request body, the new UUID and the injected trace context are
    inputs.  In [CancelBatch] the other clients of the database act between any
    two calls ([ce_others]). *)

From Stdlib Require Import ZArith Lia Ascii String.
From stdpp Require Import base gmap strings list sorting pretty.
From S2P Require Import Prelude Openai Store StoreOps Ownership Planner Preprocess Files ResultStore Finalizer Query.
From S2P Require Import Events Rest FileItems.
Local Open Scope string_scope.
Local Open Scope Z_scope.

(** ** Batches ([openai.Batch]) *)
Record BatchSpec := {
  sp_Endpoint : string; sp_InputFileID : string; sp_CompletionWindow : string; sp_Metadata : gmap string string;
  sp_CreatedAt : Z }.
Record Batch := { b_ID : string; b_Spec : BatchSpec; b_Info : BatchStatusInfo }.
Definition zeroSpec : BatchSpec :=
  {| sp_Endpoint := ""; sp_InputFileID := ""; sp_CompletionWindow := ""; sp_Metadata := ∅; sp_CreatedAt := 0 |}.
Definition zeroInfo : BatchStatusInfo :=
  {| Status := ""; OutputFileID := None; ErrorFileID := None; CancelledAt := None; CancellingAt := None;
     CompletedAt := None; ExpiredAt := None; ExpiresAt := None; FailedAt := None; FinalizingAt := None;
     InProgressAt := None; Model := ""; RequestCounts := {| Total := 0; Completed := 0; Failed := 0 |};
     Errors := None; Usage := None |}.
Record ListBatchResponse := {
  lb_Data : list Batch; lb_HasMore : bool; lb_FirstID : option string; lb_LastID : option string }.

(** [time.Unix(sec, 0).Add(d).UnixMicro()]. *)
Definition deadline_micro (sec d : Z) : Z :=
  wrap64 ((sec + d / 1000000000) * 1000000 + (d mod 1000000000) / 1000).

Section BatchHandlers.
Context (marshal_spec : BatchSpec → string) (unmarshal_spec : string → option BatchSpec).

(** ** Conversion *)
Definition batch_priority (spec : BatchSpec) : result Z :=
  if negb (bool_decide (sp_CompletionWindow spec = "")) && (0 <? sp_CreatedAt spec) then
    match Duration.ParseDuration (sp_CompletionWindow spec) with
    | None => Err (ErrOther "failed to parse completion window")
    | Some d => Ok (deadline_micro (sp_CreatedAt spec) d)
    end
  else Ok 0.
(** The fields the converter leaves alone are Go zero values. *)
Definition BatchToDBItem (batch : Batch) (tenantID : string) (tags : gmap string string) : result BatchItem :=
  match batch_priority (b_Spec batch) with
  | Err e => Err e
  | Ok priority =>
      Ok {| bi_ID := b_ID batch;
            bi_row := {| r_tenant := tenantID; r_expiry := default 0 (ExpiresAt (b_Info batch)); r_tags := tags;
                         r_spec := marshal_spec (b_Spec batch); r_status := Some (b_Info batch); r_processor := None;
                         r_priority := Some priority; r_epoch := 0; r_attempts := 0; r_resumable := false;
                         r_lease := None |};
            bi_BumpEpoch := false; bi_ExpectedResumable := None |}
  end.
Definition DBItemToBatch (item : string * Row) : result Batch :=
  match (if bool_decide (r_spec item.2 = "") then Some zeroSpec else unmarshal_spec (r_spec item.2)) with
  | None => Err (ErrOther "failed to unmarshal batch spec")
  | Some spec => Ok {| b_ID := item.1; b_Spec := spec; b_Info := default zeroInfo (r_status item.2) |}
  end.
(** A conversion whose failure is an internal error. *)
Definition convert (item : string * Row) : HM Batch :=
  match DBItemToBatch item with Ok b => reply b | Err _ => refuse internalServerError end.

Context (cfg : APIConfig).

(** ** [CreateBatch] *)
Record CreateEnv := {
  cr_createdAt : Z; cr_now : Z; cr_file : net; cr_store : net; cr_uuid : string; cr_trace : gmap string string }.
Definition NewBatchID (uuid : string) : string := BatchIDPrefix +:+ uuid.

(** Later assignments to a tag win. *)
Definition create_tags (env : CreateEnv) (r : Request) (req : CreateBatchRequest) : gmap string string :=
  let expires := match cbr_OutputExpiresAfter req with
                 | Some oea => <["output_expires_after_seconds" := pretty (Seconds oea)]>
                                 (<["output_expires_after_anchor" := Anchor oea]> ∅)
                 | None => ∅
                 end in
  let headers := foldl (λ tags h, let v := LastHeaderValue r h "" in
                                  if bool_decide (v = "") then tags else <["pth:" +:+ h := v]> tags)
                       expires (ac_PassThroughHeaders cfg) in
  foldl (λ tags kv, <["otel:" +:+ kv.1 := kv.2]> tags) headers (map_to_list (cr_trace env)).

Definition new_batch (env : CreateEnv) (req : CreateBatchRequest) : Batch :=
  {| b_ID := NewBatchID (cr_uuid env);
     b_Spec := {| sp_Endpoint := Endpoint req; sp_InputFileID := InputFileID req;
                  sp_CompletionWindow := CompletionWindow req; sp_Metadata := Metadata req;
                  sp_CreatedAt := cr_createdAt env |};
     b_Info := set_Status BatchStatusValidating zeroInfo |}.

(** [body] is the outcome of [DecodeJSON]. *)
Definition CreateBatch (env : CreateEnv) (r : Request) (body : result CreateBatchRequest) : HM Batch :=
  match body with
  | Err _ => refuse (NewAPIError StatusBadRequest "" "failed to decode request")
  | Ok req =>
  match ValidateWithEndpointAllowlist (ac_Allowlist cfg) req with
  | Err _ => refuse (NewAPIError StatusBadRequest "" "failed to validate request")
  | Ok _ =>
      let tenantID := tenant_of cfg r in
      page <-- call (on_files (FileDBGet (cr_now env) (cr_file env) (file_by_id (InputFileID req) tenantID) 0 1)) ise ;;
      match page.1.1 with
      | [] => refuse (NewAPIError StatusBadRequest "invalid_request_error"
                        ("Input file with ID '" +:+ InputFileID req +:+ "' not found"))
      | file :: _ =>
          if negb (bool_decide (fr_purpose file.2 = FileObjectPurposeBatch))
          then refuse (NewAPIError StatusBadRequest "invalid_request_error"
                         ("Input file '" +:+ InputFileID req +:+ "' has purpose '" +:+ fr_purpose file.2
                          +:+ "', but must have purpose 'batch'"))
          else
            let batch := new_batch env req in
            match BatchToDBItem batch tenantID (create_tags env r req) with
            | Err _ => refuse internalServerError
            | Ok dbItem => _ <-- call (on_adb (DBStore (cr_store env) (Some dbItem))) ise ;; reply batch
            end
      end
  end end.

(** ** [ListBatches] *)
Definition page_query (tenantID afterID : string) : BatchQuery :=
  {| bq_IDs := []; bq_TenantID := tenantID; bq_TagSelectors := ∅; bq_TagsOr := false; bq_Expired := false;
     bq_AfterID := afterID; bq_Descending := false; bq_ProcessorID := ""; bq_NonTerminal := false;
     bq_HasProcessorID := false |}.
Definition parse_limit (limitStr : string) : Response Z :=
  if bool_decide (limitStr = "") then Reply 20
  else match Sscanf_d limitStr with
       | None => Refuse (NewAPIError StatusBadRequest "" "invalid limit parameter: must be an integer")
       | Some v => if (v <? 1) || (100 <? v)
                   then Refuse (NewAPIError StatusBadRequest "" "invalid limit parameter: must be between 1 and 100")
                   else Reply v
       end.
Definition list_response (batches : list Batch) (more : bool) : ListBatchResponse :=
  {| lb_Data := batches; lb_HasMore := more; lb_FirstID := b_ID <$> head batches; lb_LastID := b_ID <$> last batches |}.
Fixpoint convert_all (items : list (string * Row)) : HM (list Batch) :=
  match items with
  | [] => reply []
  | item :: items' => b <-- convert item ;; bs <-- convert_all items' ;; reply (b :: bs)
  end.
Definition ListBatches (now : Z) (n : net) (r : Request) : HM ListBatchResponse :=
  match parse_limit (rq_Query r "limit") with
  | Refuse e => refuse e
  | Reply limit =>
      match ParseAfter (rq_Query r "after") BatchIDPrefix with
      | Err _ => refuse (NewAPIError StatusBadRequest "" "invalid after parameter")
      | Ok (after, afterID) =>
          page <-- call (on_adb (DBGet now n (Some (page_query (tenant_of cfg r) afterID)) true after (Z.to_nat limit))) ise ;;
          batches <-- convert_all page.1.1 ;;
          reply (list_response batches page.2)
      end
  end.

(** ** [RetrieveBatch] *)
Definition id_query (batchID tenantID : string) : BatchQuery :=
  {| bq_IDs := [batchID]; bq_TenantID := tenantID; bq_TagSelectors := ∅; bq_TagsOr := false; bq_Expired := false;
     bq_AfterID := ""; bq_Descending := false; bq_ProcessorID := ""; bq_NonTerminal := false;
     bq_HasProcessorID := false |}.
Definition notFound (batchID : string) : APIError :=
  NewAPIError StatusNotFound "" ("Batch with ID " +:+ batchID +:+ " not found").
Definition getBatchItemFromDB (now : Z) (n : net) (r : Request) : HM (string * Row) :=
  let batchID := rq_PathValue r in
  if bool_decide (batchID = "") then refuse (NewAPIError StatusBadRequest "" "batch_id is required")
  else
    let tenantID := tenant_of cfg r in
    page <-- call (on_adb (DBGet now n (Some (id_query batchID tenantID)) true 0 1)) ise ;;
    match page.1.1 with
    | [] => refuse (notFound batchID)
    | item :: _ => if negb (bool_decide (r_tenant item.2 = tenantID)) then refuse (notFound batchID) else reply item
    end.
Definition RetrieveBatch (now : Z) (n : net) (r : Request) : HM Batch :=
  item <-- getBatchItemFromDB now n r ;; convert item.

(** ** [CancelBatch] *)

(** Clocks, outcomes and what others do, by the order of the calls: the first
    read 0, the queue removal 1, the second read 2, and for attempt [k] of
    [markCancelling] the update [2k+1] and the read [2k+2]. *)
Record CancelEnv := {
  ce_now : nat → Z; ce_clock : nat → Z; ce_others : nat → list Stmt; ce_net : nat → net; ce_locked : gset string;
  ce_event : Z * net }.

Definition maxCancelAttempts : nat := 3.
Definition cancelling_doc (at_ : Z) (d : BatchStatusInfo) : BatchStatusInfo :=
  set_CancellingAt (Some at_) (set_Status BatchStatusCancelling d).
(** The write of one attempt: conditional on the status document, the epoch
    and the class of the row it is based on. *)
Definition cancel_item (tenantID : string) (at_ : Z) (item : string * Row) (batch : Batch) : result BatchItem :=
  match BatchToDBItem {| b_ID := b_ID batch; b_Spec := b_Spec batch; b_Info := cancelling_doc at_ (b_Info batch) |}
          tenantID (r_tags item.2) with
  | Err e => Err e
  | Ok it => Ok {| bi_ID := bi_ID it; bi_row := set_r_epoch (r_epoch item.2) (bi_row it); bi_BumpEpoch := false;
                   bi_ExpectedResumable := Some (r_resumable item.2) |}
  end.
Fixpoint mark_loop (env : CancelEnv) (tenantID : string) (fromStatus : BatchStatus) (left attempt : nat)
    (item : string * Row) (batch : Batch) : M AWorld Batch :=
  match left with
  | O => throw (ErrOther "unreachable")
  | S left' =>
      let at_ := ce_clock env (2 * attempt + 1) in
      match cancel_item tenantID at_ item batch with
      | Err e => throw e
      | Ok dbItem =>
          meanwhile (ce_others env (2 * attempt + 1)) ;;;
          w <- try (on_adb (DBUpdate (ce_net env (2 * attempt + 1)) (Some dbItem) (r_status item.2))) ;;
          match w with
          | Ok _ => ret {| b_ID := b_ID batch; b_Spec := b_Spec batch; b_Info := cancelling_doc at_ (b_Info batch) |}
          | Err e =>
              if negb (bool_decide (e = ErrConflict)) || (left' =? 0)%nat then throw e
              else
                meanwhile (ce_others env (2 * attempt + 2)) ;;;
                page <- on_adb (DBGet (ce_now env (2 * attempt + 2)) (ce_net env (2 * attempt + 2))
                                  (Some (id_query item.1 tenantID)) true 0 1) ;;
                match page.1.1 with
                | [fresh] =>
                    if negb (r_epoch fresh.2 =? r_epoch item.2) then throw ErrConflict
                    else match DBItemToBatch fresh with
                         | Err e => throw e
                         | Ok freshBatch =>
                             if negb (bool_decide (Status (b_Info freshBatch) = fromStatus)) then throw ErrConflict
                             else mark_loop env tenantID fromStatus left' (S attempt) fresh freshBatch
                         end
                | _ => throw ErrConflict
                end
          end
      end
  end.
Definition markCancelling (env : CancelEnv) (tenantID : string) (item : string * Row) (batch : Batch) : M AWorld Batch :=
  mark_loop env tenantID (Status (b_Info batch)) maxCancelAttempts 1 item batch.

Definition cancel_event (batchID : string) : BatchEvent :=
  {| be_ID := batchID; be_Type := BatchEventCancel; be_TTL := ac_BatchEventTTLSeconds cfg |}.
Definition send_cancel (env : CancelEnv) (batch : Batch) : HM Batch :=
  _ <-- call (on_ev (ECProducerSendEvents (ce_clock env 0) (λ _, ce_event env) [cancel_event (b_ID batch)])) ise ;;
  reply batch.
Definition cancel_error (e : err) : APIError :=
  if bool_decide (e = ErrConflict) then NewAPIError StatusConflict "" "batch changed state during cancel, retry"
  else internalServerError.

Definition queue_job (batchID : string) : BatchJobPriority :=
  {| bj_ID := batchID; bj_SLO := None; bj_Epoch := 0; bj_ProcessorID := ""; bj_ExpectedStatus := "";
     bj_RecoveryAttempts := 0; bj_Resumable := false |}.
Definition CancelBatch (env : CancelEnv) (r : Request) : HM Batch :=
  _ <-- call (meanwhile (ce_others env 0)) ise ;;
  item <-- getBatchItemFromDB (ce_now env 0) (ce_net env 0) r ;;
  batch <-- convert item ;;
  let status := Status (b_Info batch) in
  if bool_decide (status = BatchStatusCancelled) then reply batch
  else if negb (IsCancellable status)
  then refuse (NewAPIError StatusBadRequest "" ("Batch with status " +:+ status +:+ " cannot be cancelled"))
  else if bool_decide (status = BatchStatusCancelling) then send_cancel env batch
  else
    _ <-- call (meanwhile (ce_others env 1)) ise ;;
    nDeleted <-- call (on_adb (PQDelete (ce_clock env 1) (ce_net env 1) (ce_locked env) (Some (queue_job (b_ID batch))))) ise ;;
    match nDeleted with
    | S _ =>
        _ <-- call (meanwhile (ce_others env 2)) ise ;;
        freshItem <-- getBatchItemFromDB (ce_now env 2) (ce_net env 2) r ;;
        convert freshItem
    | O =>
        batch <-- call (markCancelling env (tenant_of cfg r) item batch) cancel_error ;;
        send_cancel env batch
    end.
End BatchHandlers.
