(* ===== verification/Cancellation.v ===== *)
(** * Cancelling a batch

    Theorems about [CancelBatch] of [BatchHandlers] against arbitrary activity
    of the other clients: a run of the handler is a trace of statements, its
    own and theirs. *)

From Stdlib Require Import ZArith Lia Ascii String.
From stdpp Require Import base gmap strings list sorting pretty.
From S2P Require Import Prelude Openai Store StoreOps Ownership Planner Preprocess Files ResultStore Finalizer Query.
From S2P Require Import Events Rest FileItems BatchHandlers.
Local Open Scope string_scope.
Local Open Scope Z_scope.

(** ** Reading one row *)
Lemma db_page_by_id now id tenant db :
  tenant ≠ "" →
  db_page now (id_query id tenant) 0 1 db =
  match items db !! id with
  | Some r => if bool_decide (r_tenant r = tenant) then ([(id, r)], 1%nat, false) else ([], O, false)
  | None => ([], O, false)
  end.
Proof.
  intros Ht. unfold db_page, conditions.
  cbn [bq_IDs bq_TenantID bq_TagSelectors bq_Expired bq_AfterID bq_ProcessorID bq_NonTerminal bq_HasProcessorID id_query].
  rewrite (bool_decide_eq_false_2 ([id] = [])), (bool_decide_eq_false_2 (tenant = "")), !bool_decide_eq_true_2 by done.
  cbn [app]. rewrite (select_one _ _ (items db) id).
  - destruct (items db !! id) as [r|] eqn:Hm; [|done]. cbn. rewrite bool_decide_eq_true_2 by set_solver.
    cbn. by case_bool_decide.
  - intros k r H. cbn in H. boolify. set_solver.
Qed.

Lemma on_adb_get now n q start limit s :
  on_adb (DBGet now n (Some q) true start limit) s =
  (s, match n with NetOk => Ok (db_page now q start limit (aw_db s)) | NetErr _ => Err ErrIO end).
Proof.
  destruct s as [[[db fs] files] ev]. unfold on_adb, on_pw, on_world, on_db, DBGet, query, bindM, exec, aw_db.
  cbn [aw_p pw w_db]. destruct n as [|[]]; [|done..]. by destruct (db_page now q start limit db) as [[rows cur] more].
Qed.

Section Cancellation.
Context (marshal_spec : BatchSpec → string) (unmarshal_spec : string → option BatchSpec) (cfg : APIConfig).
#[local] Abbreviation DBItemToBatch := (DBItemToBatch unmarshal_spec).
#[local] Abbreviation getItem := (getBatchItemFromDB cfg).

Definition by_id (id tenant : string) (db : DB) : option (string * Row) :=
  match items db !! id with Some r => if bool_decide (r_tenant r = tenant) then Some (id, r) else None | None => None end.
Lemma getItem_eq now n r s :
  getItem now n r s =
  (s, if bool_decide (rq_PathValue r = "") then Refuse (NewAPIError StatusBadRequest "" "batch_id is required")
      else match n with
           | NetErr _ => Refuse internalServerError
           | NetOk => match by_id (rq_PathValue r) (tenant_of cfg r) (aw_db s) with
                      | Some item => Reply item
                      | None => Refuse (notFound (rq_PathValue r))
                      end
           end).
Proof.
  unfold getBatchItemFromDB. case_bool_decide; [done|]. unfold bindH, call. rewrite on_adb_get.
  destruct n as [|[]]; [|done..]. rewrite db_page_by_id by apply tenant_nonempty. unfold by_id.
  destruct (items (aw_db s) !! rq_PathValue r) as [row|]; [|done]. case_bool_decide as Ht; cbn; [|done].
  by rewrite bool_decide_eq_true_2.
Qed.

(** ** Traces *)

(** How the handler may change the row it cancels. *)
Definition cancel_move (r r' : Row) : Prop :=
  r' = r ∨ (nonTerminalCondition r = true ∧
            (status_is BatchStatusCancelling r' = true ∨ status_is BatchStatusCancelled r' = true)).
(** A statement of the handler: nothing changes but the row [b], and that one
    only by a [cancel_move]. *)
Definition own_ok (b : string) (st : Stmt) (db : DB) : Prop :=
  entries (run st db) = entries db ∧ (∀ k, k ≠ b → items (run st db) !! k = items db !! k) ∧
  match items db !! b with
  | None => items (run st db) !! b = None
  | Some r => ∃ r', items (run st db) !! b = Some r' ∧ cancel_move r r'
  end.
(** [tr] is an interleaving of statements of the handler (marked [true]) and
    of the others that leads from [db] to [db']. *)
Definition traced (b : string) (others : nat → list Stmt) (db db' : DB) (tr : list (bool * Stmt)) : Prop :=
  db' = run_all tr.*2 db ∧ Forall (λ x, x.1 = false → ∃ i, x.2 ∈ others i) tr ∧
  ∀ t1 st t2, tr = app t1 ((true, st) :: t2) → own_ok b st (run_all t1.*2 db).

Lemma traced_nil b others db : traced b others db db [].
Proof. split_and!; [done|constructor|]. intros t1 st t2 H. by destruct t1. Qed.
Lemma traced_env b others i db : traced b others db (run_all (others i) db) ((λ st, (false, st)) <$> others i).
Proof.
  split_and!.
  - by rewrite <- list_fmap_compose, list_fmap_id.
  - apply Forall_fmap, Forall_forall. eauto.
  - intros t1 st t2 H. assert ((true, st) ∈ (λ st, (false, st)) <$> others i) as Hin by (rewrite H; set_solver).
    apply list_elem_of_fmap in Hin as (? & [=] & _).
Qed.
Lemma traced_own b others st db : own_ok b st db → traced b others db (run st db) [(true, st)].
Proof.
  intros Ho. split_and!; [done|by constructor|]. intros t1 st' t2 H. destruct t1 as [|x [|y t1]]; simplify_list_eq; done.
Qed.
Lemma traced_app b others db1 db2 db3 tr1 tr2 :
  traced b others db1 db2 tr1 → traced b others db2 db3 tr2 → traced b others db1 db3 (app tr1 tr2).
Proof.
  intros (-> & H1 & O1) (-> & H2 & O2). split_and!; [by rewrite fmap_app, run_all_app|by apply Forall_app|].
  intros t1 st t2 H. apply app_eq_inv in H as [(l & E1 & E2)|(l & E1 & E2)].
  - destruct l as [|x l].
    + rewrite app_nil_r in E1. subst tr1. specialize (O2 [] st t2 (eq_sym E2)). done.
    + injection E2 as <- ->. by eapply O1.
  - subst t1. rewrite fmap_app, run_all_app. by eapply O2.
Qed.

(** The two statements of the handler. *)
Lemma update_row_own b g f db st :
  run st db = (update_row g f b db).1 → (∀ r, g r = true → cancel_move r (f r)) → own_ok b st db.
Proof.
  intros Hrun Hm. unfold own_ok. rewrite Hrun. unfold update_row. destruct (items db !! b) as [r|] eqn:Hr.
  - destruct (g r) eqn:Hg; cbn.
    + split_and!; [done|intros k Hk; by rewrite lookup_insert_ne|]. rewrite lookup_insert_eq. eauto.
    + split_and!; [done..|]. exists r. split; [done|by left].
  - cbn. done.
Qed.
Lemma pqdelete_own locked now b db : own_ok b (SPQDelete locked now b) db.
Proof.
  destruct (decide (b ∈ locked)) as [Hl|Hl].
  - unfold own_ok. cbn [run]. unfold sql_pqdelete. rewrite bool_decide_eq_true_2 by done. cbn.
    split_and!; [done..|]. destruct (items db !! b) as [r|]; [|done]. exists r. split; [done|by left].
  - eapply update_row_own; [cbn [run]; unfold sql_pqdelete; by rewrite bool_decide_eq_false_2|].
    intros r Hq. unfold queued in Hq. boolify. right. unfold status_is in *. cbn.
    destruct (r_status r) as [d|] eqn:Hd; [|done]. split.
    + unfold nonTerminalCondition. rewrite Hd. boolify. by rewrite H0.
    + right. cbn. by apply bool_decide_eq_true_2.
Qed.
Lemma update_own b doc tags c d db :
  uc_status c = Some d → IsTerminal (Status d) = false → Status doc = BatchStatusCancelling →
  own_ok b (SUpdate b (Some doc) tags c false) db.
Proof.
  intros Hc Ht Hs. eapply update_row_own; [done|]. intros r Hg. unfold update_guard in Hg. rewrite Hc in Hg. boolify.
  right. split; [unfold nonTerminalCondition; by rewrite H, Ht|]. left. unfold status_is.
  unfold update_set. cbn.
  case_bool_decide; cbn; by apply bool_decide_eq_true_2.
Qed.

(** What a conditional update does to the database, whatever happens to its
    response. *)
Lemma DBUpdate_effect n it doc exp db db' res :
  r_status (bi_row it) = Some doc → bi_BumpEpoch it = false →
  DBUpdate n (Some it) exp db = (db', res) →
  let c := {| uc_status := exp; uc_epoch := if 0 <? r_epoch (bi_row it) then Some (r_epoch (bi_row it)) else None;
              uc_resumable := bi_ExpectedResumable it |} in
  let db1 := run (SUpdate (bi_ID it) (Some doc) (r_tags (bi_row it)) c false) db in
  (db' = db ∨ db' = db1) ∧
  (res = Ok tt → db' = db1 ∧ ∃ r, items db1 !! bi_ID it = Some r ∧ r_status r = Some doc).
Proof.
  intros Hd Hb. unfold DBUpdate. destruct (bool_decide (bi_ID it = "")); [intros [= <- <-]; split; [by left|done]|].
  rewrite Hd, Hb, orb_false_r. unfold bindM, exec, total. cbn [run bool_decide andb].
  rewrite bool_decide_eq_false_2 by done. cbn [andb].
  set (c := {| uc_status := _; uc_epoch := _; uc_resumable := _ |}).
  destruct (sql_update (bi_ID it) (Some doc) (r_tags (bi_row it)) c false db) as [db1 k] eqn:Hu. cbn [fst].
  assert (k ≠ O → ∃ r, items db1 !! bi_ID it = Some r ∧ r_status r = Some doc) as Hok.
  { intros Hk. unfold sql_update, update_row in Hu. destruct (items db !! bi_ID it) as [r|]; [|by simplify_eq].
    destruct (update_guard c r); [|by simplify_eq]. injection Hu as <- <-. cbn. rewrite lookup_insert_eq.
    eexists. split; [done|]. unfold update_set. by case_bool_decide. }
  destruct n as [|[]].
  - destruct k; [|intros [= <- <-]; split; [by right|auto]].
    destruct (_ && _ && _); intros [= <- <-]; (split; [by right|done]).
  - intros [= <- <-]. split; [by right|done].
  - intros [= <- <-]. split; [by left|done].
Qed.
Lemma PQDelete_effect now n locked j db db' res :
  PQDelete now n locked (Some j) db = (db', res) →
  db' = db ∨ db' = run (SPQDelete locked now (bj_ID j)) db.
Proof.
  unfold PQDelete, exec, total. cbn [run]. destruct (sql_pqdelete locked now (bj_ID j) db) as [db1 k].
  destruct n as [|[]]; intros [= <- <-]; auto.
Qed.

(** ** The handler *)

(** Only the database changes. *)
Definition same_rest (s s' : AWorld) : Prop :=
  w_fs (pw (aw_p s')) = w_fs (pw (aw_p s)) ∧ aw_files s' = aw_files s ∧ aw_ev s' = aw_ev s.
Lemma on_adb_run {A} (m : M DB A) s s' res :
  on_adb m s = (s', res) → ∃ db', m (aw_db s) = (db', res) ∧ aw_db s' = db' ∧ same_rest s s'.
Proof.
  destruct s as [[[db fs] files] ev]. unfold on_adb, on_pw, on_world, on_db, aw_db. cbn.
  destruct (m db) as [db' r]. intros [= <- <-]. exists db'. done.
Qed.
Lemma meanwhile_run ss s :
  ∃ s', meanwhile ss s = (s', Ok tt) ∧ aw_db s' = run_all ss (aw_db s) ∧ same_rest s s'.
Proof.
  destruct (meanwhile ss s) as [s' res] eqn:H. pose proof H as H'. apply on_adb_run in H' as (db' & [= <- <-] & ? & ?). eauto.
Qed.
Lemma same_rest_trans s1 s2 s3 : same_rest s1 s2 → same_rest s2 s3 → same_rest s1 s3.
Proof. unfold same_rest. intuition congruence. Qed.

(** The row [r] at [b] as the batch the handler works with. *)
Definition converted (b : string) (item : string * Row) (batch : Batch) : Prop :=
  item.1 = b ∧ b_ID batch = b ∧ b_Info batch = default zeroInfo (r_status item.2).
Lemma DBItemToBatch_converted item batch : DBItemToBatch item = Ok batch → converted item.1 item batch.
Proof. unfold BatchHandlers.DBItemToBatch. intros H. repeat (case_match; try done); by simplify_eq. Qed.
Lemma cancellable_doc b item batch :
  converted b item batch → IsCancellable (Status (b_Info batch)) = true →
  ∃ d, r_status item.2 = Some d ∧ b_Info batch = d ∧ IsTerminal (Status d) = false.
Proof.
  intros (_ & _ & Hi). rewrite Hi. destruct (r_status item.2) as [d|]; [|done]. cbn. intros Hc. exists d. split_and!; [done..|].
  unfold IsCancellable in Hc. rewrite !orb_true_iff in Hc. destruct Hc as [[Hc|Hc]|Hc]; boolify; by rewrite Hc.
Qed.

(** One attempt's update. *)
Lemma attempt_update b others tenantID at_ item batch it n s s' w :
  converted b item batch → IsCancellable (Status (b_Info batch)) = true →
  cancel_item marshal_spec tenantID at_ item batch = Ok it →
  try (on_adb (DBUpdate n (Some it) (r_status item.2))) s = (s', w) →
  same_rest s s' ∧ ∃ tr res, w = Ok res ∧ traced b others (aw_db s) (aw_db s') tr ∧
    (res = Ok tt → ∃ r, items (aw_db s') !! b = Some r ∧ status_is BatchStatusCancelling r = true).
Proof.
  intros Hc Hs Hit. destruct (cancellable_doc _ _ _ Hc Hs) as (d & Hd & Hi & Ht). destruct Hc as (_ & Hb & _).
  unfold cancel_item, BatchToDBItem in Hit. destruct (batch_priority _) as [p|]; [|done]. cbn in Hit.
  unfold try. destruct (on_adb _ s) as [s1 res] eqn:H. intros [= <- <-].
  apply on_adb_run in H as (db' & H & <- & Hr). split; [done|].
  eapply (DBUpdate_effect n it (cancelling_doc at_ (b_Info batch))) in H as [He Hok]; [|by simplify_eq|by simplify_eq].
  assert (bi_ID it = b) as Hid by (simplify_eq; done). rewrite Hid in *.
  set (st := SUpdate b _ _ _ _) in He, Hok.
  assert (own_ok b st (aw_db s)) as Hown by (by apply (update_own _ _ _ _ d)).
  destruct He as [He|He]; rewrite He.
  - exists [], res. split_and!; [done|apply traced_nil|]. intros Hres. destruct (Hok Hres) as (E & r & Hr1 & Hr2).
    rewrite He in E. exists r. rewrite E. split; [done|]. unfold status_is. rewrite Hr2. by apply bool_decide_eq_true_2.
  - exists [(true, st)], res. split_and!; [done|by apply traced_own|]. intros Hres. destruct (Hok Hres) as (_ & r & Hr1 & Hr2).
    exists r. split; [done|]. unfold status_is. rewrite Hr2. by apply bool_decide_eq_true_2.
Qed.

Definition is_cancelling (b : string) (db : DB) : Prop :=
  ∃ r, items db !! b = Some r ∧ status_is BatchStatusCancelling r = true.
Lemma mark_loop_spec env tenantID from left attempt b item batch s s' res :
  tenantID ≠ "" → converted b item batch → IsCancellable from = true → Status (b_Info batch) = from →
  mark_loop marshal_spec unmarshal_spec env tenantID from left attempt item batch s = (s', res) →
  same_rest s s' ∧ ∃ tr, traced b (ce_others env) (aw_db s) (aw_db s') tr ∧
    ∀ x, res = Ok x → b_ID x = b ∧ Status (b_Info x) = BatchStatusCancelling ∧ is_cancelling b (aw_db s').
Proof.
  intros Ht. revert attempt item batch s. induction left as [|left IH]; intros attempt item batch s Hc Hcan Hf;
    cbn [mark_loop]; [intros [= <- <-]; split; [done|]; exists []; split; [apply traced_nil|done]|].
  destruct (cancel_item _ _ _ _ _) as [it|e] eqn:Hit; [|intros [= <- <-]; split; [done|]; exists []; split; [apply traced_nil|done]].
  unfold bindM. destruct (meanwhile_run (ce_others env (2 * attempt + 1)) s) as (s1 & -> & Hs1 & Hr1).
  pose proof (traced_env b (ce_others env) (2 * attempt + 1) (aw_db s)) as T1. rewrite <- Hs1 in T1.
  destruct (try _ s1) as [s2 w] eqn:Hw. rewrite <- Hf in Hcan.
  destruct (attempt_update b (ce_others env) _ _ _ _ _ _ _ _ _ Hc Hcan Hit Hw) as (Hr2 & tr2 & [[]|e] & -> & T2 & Hok).
  { intros [= <- <-]. split; [by eapply same_rest_trans|]. eexists. split; [by eapply traced_app|].
    intros x [= <-]. destruct Hc as (_ & ? & _). split_and!; [done|done|]. by apply Hok. }
  assert (same_rest s s2) as Hr by by eapply same_rest_trans.
  assert (∀ y e', (s2, Err e') = (s', res) ∨ (∃ tr', traced b (ce_others env) (aw_db s2) (aw_db y) tr' ∧ same_rest s2 y ∧ (y, Err e') = (s', res)) →
    same_rest s s' ∧ ∃ tr, traced b (ce_others env) (aw_db s) (aw_db s') tr ∧
    ∀ x, res = Ok x → b_ID x = b ∧ Status (b_Info x) = BatchStatusCancelling ∧ is_cancelling b (aw_db s')) as Hstop.
  { intros y e' [[= <- <-]|(tr' & T & R & [= <- <-])].
    - split; [done|]. eexists. split; [by eapply traced_app|done].
    - split; [by eapply same_rest_trans|]. eexists. split; [eapply traced_app; [done|by eapply traced_app]|done]. }
  destruct (_ || _); [intros H; apply (Hstop s2 e); by left|].
  destruct (meanwhile_run (ce_others env (2 * attempt + 2)) s2) as (s3 & E3 & Hs3 & Hr3). rewrite E3.
  pose proof (traced_env b (ce_others env) (2 * attempt + 2) (aw_db s2)) as T3. rewrite <- Hs3 in T3. rewrite on_adb_get.
  destruct (ce_net env (2 * attempt + 2)); [|intros H; apply (Hstop s3 ErrIO); right; eauto].
  rewrite db_page_by_id by done.
  destruct (items (aw_db s3) !! item.1) as [row|] eqn:Hrow; [|intros H; apply (Hstop s3 ErrConflict); right; eauto].
  case_bool_decide; [|intros H'; apply (Hstop s3 ErrConflict); right; eauto]. cbn [fst snd].
  destruct (negb _); [intros H'; apply (Hstop s3 ErrConflict); right; eauto|].
  destruct (DBItemToBatch (item.1, row)) as [fresh|e'] eqn:Hfresh; [|intros H'; apply (Hstop s3 e'); right; eauto].
  case_bool_decide as Hst; cbn [negb]; [|intros H'; apply (Hstop s3 ErrConflict); right; eauto].
  intros H'. apply DBItemToBatch_converted in Hfresh. cbn in Hfresh. destruct Hc as (<- & _).
  apply IH in H' as (R & tr & T & Hx); [|done|by rewrite <- Hf|done].
  split; [eapply same_rest_trans; [done|]; by eapply same_rest_trans|].
  eexists. split; [eapply traced_app; [done|]; eapply traced_app; [done|]; by eapply traced_app|done].
Qed.

Definition cancel_row (env : CancelEnv) (b : string) : EventRow :=
  {| ev_job := b; ev_type := BatchEventCancel; ev_expires := ce_clock env 0 + ac_BatchEventTTLSeconds cfg |}.
Lemma send_cancel_spec env batch s s' resp :
  send_cancel cfg env batch s = (s', resp) →
  aw_p s' = aw_p s ∧
  ∀ x, resp = Reply x → x = batch ∧ et_rows (aw_ev s') !! (ce_event env).1 = Some (cancel_row env (b_ID batch)).
Proof.
  unfold send_cancel, bindH, call, on_ev.
  destruct (ECProducerSendEvents _ _ _ (aw_ev s)) as [t [ids|e]] eqn:He; intros [= <- <-]; (split; [done|]); [|done].
  intros x [= <-]. split; [done|]. cbn [aw_ev]. unfold ECProducerSendEvents in He. cbn [validate_events send_events] in He.
  destruct (event_IsValid _) as [[]|]; [|done]. unfold bindM, ev_exec, ret, throw, ecSendEventSQL in He.
  destruct (bool_decide _), (ce_event env).2 as [|[]]; try done. simplify_eq. cbn. by rewrite lookup_insert_eq.
Qed.

Definition was_cancelled (b : string) (db : DB) : Prop :=
  ∃ r, items db !! b = Some r ∧ status_is BatchStatusCancelled r = true.
(** The moment that justifies what the handler did: the batch was cancelled,
    or it was cancelling and the event is in the table. *)
Definition settled_at (env : CancelEnv) (b : string) (db : DB) (ev : EventTable) : Prop :=
  was_cancelled b db ∨ (is_cancelling b db ∧ et_rows ev !! (ce_event env).1 = Some (cancel_row env b)).

(** Everything the theorems need of a run. *)
Definition cancel_outcome (env : CancelEnv) (b : string) (s s' : AWorld) (resp : Response Batch) : Prop :=
  ∃ t1 t2, traced b (ce_others env) (aw_db s) (aw_db s') (app t1 t2) ∧
    (aw_ev s' ≠ aw_ev s → is_cancelling b (run_all t1.*2 (aw_db s))) ∧
    (∀ x, resp = Reply x → settled_at env b (run_all t1.*2 (aw_db s)) (aw_ev s')).

Lemma cancel_outcome_quiet env b s s' e t :
  traced b (ce_others env) (aw_db s) (aw_db s') t → aw_ev s' = aw_ev s → cancel_outcome env b s s' (Refuse e).
Proof. intros T He. exists t, []. rewrite app_nil_r. split_and!; [done|by rewrite He|done]. Qed.
(** A run whose event comes after a moment at which the row was cancelling. *)
Lemma cancel_outcome_send env b s s1 s' resp batch t :
  traced b (ce_others env) (aw_db s) (aw_db s1) t → is_cancelling b (aw_db s1) → b_ID batch = b →
  send_cancel cfg env batch s1 = (s', resp) → cancel_outcome env b s s' resp.
Proof.
  intros T Hc Hb H. apply send_cancel_spec in H as [Hp Hr]. exists t, []. rewrite app_nil_r.
  assert (aw_db s' = aw_db s1) as -> by (unfold aw_db; by rewrite Hp).
  pose proof T as (Ht & _). rewrite <- Ht, Hb in *. split_and!; [done|done|]. intros x Hx. right. split; [done|]. by destruct (Hr x Hx).
Qed.
Lemma status_of b item batch st db :
  converted b item batch → items db !! b = Some item.2 → Status (b_Info batch) = st → st ≠ "" →
  ∃ r, items db !! b = Some r ∧ status_is st r = true.
Proof.
  intros (_ & _ & Hi) Hr Hs Hne. exists item.2. split; [done|]. rewrite Hi in Hs. unfold status_is.
  destruct (r_status item.2); [|by cbn in Hs]. cbn in Hs. by apply bool_decide_eq_true_2.
Qed.
Lemma by_id_Some id tenant db item : by_id id tenant db = Some item → item.1 = id ∧ items db !! id = Some item.2.
Proof. unfold by_id. destruct (items db !! id) as [r|]; [|done]. case_bool_decide; [|done]. by intros [= <-]. Qed.

(** The part of the handler after the queue refused the removal. *)
Lemma cancel_running env b tenant item batch s s1 s' resp t :
  tenant ≠ "" → converted b item batch → IsCancellable (Status (b_Info batch)) = true →
  traced b (ce_others env) (aw_db s) (aw_db s1) t → aw_ev s1 = aw_ev s →
  bindH (call (markCancelling marshal_spec unmarshal_spec env tenant item batch) cancel_error) (send_cancel cfg env) s1
    = (s', resp) →
  cancel_outcome env b s s' resp.
Proof.
  intros Ht Hc Hcan T He. unfold bindH, call, markCancelling. destruct (mark_loop _ _ _ _ _ _ _ _ _ s1) as [s2 res] eqn:Hm.
  eapply mark_loop_spec in Hm as ((_ & _ & Hev) & tr & T2 & Hok); [|done..].
  destruct res as [x|e].
  - intros H. destruct (Hok x eq_refl) as (Hx & _ & Hcl). eapply cancel_outcome_send; [|done|done|done]. by eapply traced_app.
  - intros [= <- <-]. eapply cancel_outcome_quiet; [by eapply traced_app|congruence].
Qed.

Lemma call_meanwhile ss s :
  ∃ s', call (meanwhile ss) ise s = (s', Reply tt) ∧ aw_db s' = run_all ss (aw_db s) ∧ same_rest s s'.
Proof. destruct (meanwhile_run ss s) as (s' & H & ? & ?). exists s'. unfold call. by rewrite H. Qed.
Lemma convert_spec item s s' resp :
  convert unmarshal_spec item s = (s', resp) → s' = s ∧ ∀ b, resp = Reply b → converted item.1 item b.
Proof.
  unfold convert. destruct (DBItemToBatch item) as [b|e] eqn:H; intros [= <- <-]; (split; [done|]); [|done].
  intros x [= <-]. by apply DBItemToBatch_converted.
Qed.
(** After the queue removal succeeded: the row was cancelled then. *)
Lemma pqdelete_cancelled now n locked j db db' k :
  PQDelete now n locked (Some j) db = (db', Ok (S k)) → was_cancelled (bj_ID j) db'.
Proof.
  unfold PQDelete, exec, total, sql_pqdelete. case_bool_decide; [by destruct n as [|[]]|]. unfold update_row.
  destruct (items db !! bj_ID j) as [r|]; [|by destruct n as [|[]]]. destruct (queued r) eqn:Hq; [|by destruct n as [|[]]].
  destruct n as [|[]]; try done. intros [= <- <-]. unfold was_cancelled. cbn. rewrite lookup_insert_eq. eexists. split; [done|].
  unfold queued, status_is in *. boolify. cbn. destruct (r_status r); [|done]. cbn. by apply bool_decide_eq_true_2.
Qed.

(** The second read, after the removal from the queue. *)
Lemma cancel_dequeued env r s s4 s' resp t :
  let b := rq_PathValue r in
  traced b (ce_others env) (aw_db s) (aw_db s4) t → aw_ev s4 = aw_ev s → was_cancelled b (aw_db s4) →
  bindH (call (meanwhile (ce_others env 2)) ise)
    (λ _, bindH (getItem (ce_now env 2) (ce_net env 2) r) (convert unmarshal_spec)) s4 = (s', resp) →
  cancel_outcome env b s s' resp.
Proof.
  intros b T4 E4 Hwas. unfold bindH at 1. destruct (call_meanwhile (ce_others env 2) s4) as (s5 & -> & Hs5 & R5).
  pose proof (traced_env b (ce_others env) 2 (aw_db s4)) as T5. rewrite <- Hs5 in T5.
  assert (aw_ev s5 = aw_ev s) as E5 by (rewrite <- E4; apply R5).
  assert (∀ resp, cancel_outcome env b s s5 resp) as Hfin.
  { intros resp'. eexists t, _. split_and!; [by eapply traced_app|by rewrite E5|]. intros x _. left. by destruct T4 as (<- & _). }
  unfold bindH. rewrite getItem_eq. intros H. case_bool_decide; [simplify_eq; by apply Hfin|].
  destruct (ce_net env 2); [|simplify_eq; by apply Hfin]. destruct (by_id _ _ (aw_db s5)) as [fresh|]; [|simplify_eq; by apply Hfin].
  apply convert_spec in H as [-> _]. by apply Hfin.
Qed.
(** From the queue removal on. *)
Lemma cancel_from_queue env r item batch s s1 s' resp t :
  let b := rq_PathValue r in
  converted b item batch → IsCancellable (Status (b_Info batch)) = true →
  traced b (ce_others env) (aw_db s) (aw_db s1) t → aw_ev s1 = aw_ev s →
  bindH (call (meanwhile (ce_others env 1)) ise) (λ _,
    bindH (call (on_adb (PQDelete (ce_clock env 1) (ce_net env 1) (ce_locked env) (Some (queue_job (b_ID batch))))) ise)
      (λ nDeleted, match nDeleted with
       | S _ => bindH (call (meanwhile (ce_others env 2)) ise)
                  (λ _, bindH (getItem (ce_now env 2) (ce_net env 2) r) (convert unmarshal_spec))
       | O => bindH (call (markCancelling marshal_spec unmarshal_spec env (tenant_of cfg r) item batch) cancel_error)
                (send_cancel cfg env)
       end)) s1 = (s', resp) →
  cancel_outcome env b s s' resp.
Proof.
  intros b Hc Hcan T1 E1. unfold bindH at 1. destruct (call_meanwhile (ce_others env 1) s1) as (s3 & -> & Hs3 & R3).
  pose proof (traced_env b (ce_others env) 1 (aw_db s1)) as T3. rewrite <- Hs3 in T3.
  pose proof (traced_app _ _ _ _ _ _ _ T1 T3) as T13. unfold bindH at 1. unfold call at 1.
  destruct (on_adb _ s3) as [s4 k] eqn:Hpq. apply on_adb_run in Hpq as (db4 & Hpq & Hdb4 & R4).
  assert (aw_ev s4 = aw_ev s) as E4 by (rewrite <- E1; apply (same_rest_trans _ _ _ R3 R4)).
  pose proof (pqdelete_own (ce_locked env) (ce_clock env 1) b (aw_db s3)) as Hown.
  assert (∃ t, traced b (ce_others env) (aw_db s) (aw_db s4) t) as [t4 T4].
  { rewrite Hdb4. destruct (PQDelete_effect _ _ _ _ _ _ _ Hpq) as [-> | ->]; [by eexists|]. cbn [queue_job bj_ID].
    rewrite (proj1 (proj2 Hc)). eexists. eapply traced_app; [exact T13|exact (traced_own b (ce_others env) _ _ Hown)]. }
  destruct k as [[|k]|e]; [| |intros [= <- <-]; by eapply cancel_outcome_quiet].
  - intros H. eapply (cancel_running env b (tenant_of cfg r) item batch); [apply tenant_nonempty|done|done|done|done|exact H].
  - apply pqdelete_cancelled in Hpq. cbn in Hpq. destruct Hc as (_ & Hb & _). rewrite Hb, <- Hdb4 in Hpq.
    by eapply cancel_dequeued.
Qed.

Lemma CancelBatch_spec env r s s' resp :
  CancelBatch marshal_spec unmarshal_spec cfg env r s = (s', resp) →
  cancel_outcome env (rq_PathValue r) s s' resp.
Proof.
  unfold CancelBatch. set (b := rq_PathValue r). unfold bindH at 1.
  destruct (call_meanwhile (ce_others env 0) s) as (s1 & -> & Hs1 & R1).
  pose proof (traced_env b (ce_others env) 0 (aw_db s)) as T1. rewrite <- Hs1 in T1. pose proof (proj2 (proj2 R1)) as E1.
  assert (∀ e, cancel_outcome env b s s1 (Refuse e)) as Hquit by (intros; by eapply cancel_outcome_quiet).
  unfold bindH at 1. rewrite getItem_eq. fold b. case_bool_decide; [intros [= <- <-]; apply Hquit|].
  destruct (ce_net env 0); [|intros [= <- <-]; apply Hquit].
  destruct (by_id _ _ _) as [item|] eqn:Hget; [|intros [= <- <-]; apply Hquit].
  destruct (by_id_Some _ _ _ _ Hget) as [Hid Hrow].
  unfold bindH at 1. destruct (convert _ item s1) as [s2 [batch|e]] eqn:Hconv;
    apply convert_spec in Hconv as [-> Hc]; [|intros [= <- <-]; apply Hquit].
  specialize (Hc batch eq_refl). rewrite Hid in Hc. cbv zeta.
  case_bool_decide as Hst; [intros [= <- <-]|].
  { eexists _, []. rewrite app_nil_r. split_and!; [done|by rewrite E1|]. intros x _. left.
    pose proof T1 as (<- & _). by eapply status_of. }
  destruct (negb _) eqn:Hcan; [intros [= <- <-]; apply Hquit|]. apply negb_false_iff in Hcan.
  case_bool_decide as Hcg.
  { eapply cancel_outcome_send; [done|by eapply status_of|apply Hc]. }
  by eapply cancel_from_queue.
Qed.

(** A terminal row admits no move. *)
Lemma own_ok_terminal b st db row :
  own_ok b st db → items db !! b = Some row → terminal_row row → items (run st db) !! b = Some row.
Proof.
  intros (_ & _ & H) Hr Ht. rewrite Hr in H. destruct H as (r' & -> & [->|[Hn _]]); [done|].
  destruct (terminal_row_conds row Ht) as [Ht' _]. congruence.
Qed.

(** [C18] Cancelling never undoes a result: in every interleaving with the
    workers and the other clients of the database, each statement the cancel
    handler itself executes leaves every other batch and all entries alone, and
    leaves the cancelled batch alone if it has reached a terminal status by
    then; otherwise it only moves it from a non-terminal status to cancelling
    or cancelled. *)
Theorem cancel_never_overwrites env r s s' resp :
  CancelBatch marshal_spec unmarshal_spec cfg env r s = (s', resp) →
  let b := rq_PathValue r in
  ∃ tr, traced b (ce_others env) (aw_db s) (aw_db s') tr ∧
    ∀ t1 st t2 row, tr = app t1 ((true, st) :: t2) → items (run_all t1.*2 (aw_db s)) !! b = Some row →
      terminal_row row → items (run_all (app t1 [(true, st)]).*2 (aw_db s)) !! b = Some row.
Proof.
  intros H. apply CancelBatch_spec in H as (t1 & t2 & T & _). exists (app t1 t2). split; [done|].
  intros u1 st u2 row E Hr Ht. rewrite fmap_app, run_all_app. cbn. eapply own_ok_terminal; [|done|done].
  destruct T as (_ & _ & T). by apply (T u1 st u2).
Qed.

(** What a cancel request promises is durable: when the handler answers
    200, the batch was durably cancelled at some moment of the request, or it
    was durably cancelling and the cancel event for the worker is in the event
    table; and an event is only ever inserted after a moment at which the row
    was cancelling, so that a worker never acts on a cancel that the store
    does not show. *)
Theorem cancel_reply_is_durable env r s s' resp :
  CancelBatch marshal_spec unmarshal_spec cfg env r s = (s', resp) →
  let b := rq_PathValue r in
  ∃ t1 t2, traced b (ce_others env) (aw_db s) (aw_db s') (app t1 t2) ∧
    let db := run_all t1.*2 (aw_db s) in
    (aw_ev s' ≠ aw_ev s → is_cancelling b db) ∧
    (∀ x, resp = Reply x →
       was_cancelled b db ∨
       (is_cancelling b db ∧ et_rows (aw_ev s') !! (ce_event env).1 = Some (cancel_row env b))).
Proof. apply CancelBatch_spec. Qed.

(** A cancel whose event or response was lost is completed by repeating
    it: while the row is cancelling, the handler only sends the event again
    and answers with the batch. *)
Theorem cancel_retry_completes env r s row batch :
  let b := rq_PathValue r in
  b ≠ "" → items (aw_db s) !! b = Some row → r_tenant row = tenant_of cfg r →
  status_is BatchStatusCancelling row = true → DBItemToBatch (b, row) = Ok batch →
  ce_others env 0%nat = [] → ce_net env 0%nat = NetOk →
  (ce_event env).2 = NetOk → (ce_event env).1 ∉ et_used (aw_ev s) → 0 < ac_BatchEventTTLSeconds cfg →
  ∃ s', CancelBatch marshal_spec unmarshal_spec cfg env r s = (s', Reply batch) ∧ aw_p s' = aw_p s ∧
    et_rows (aw_ev s') = <[(ce_event env).1 := cancel_row env b]> (et_rows (aw_ev s)).
Proof.
  intros b Hb Hr Ht Hst Hconv Ho Hn He Hu Httl. unfold CancelBatch, bindH at 1.
  rewrite Ho. assert (call (meanwhile []) ise s = (s, Reply tt)) as -> by by destruct s as [[[]]].
  unfold bindH at 1. rewrite getItem_eq, Hn. fold b. rewrite bool_decide_eq_false_2 by done. unfold by_id.
  rewrite Hr, bool_decide_eq_true_2 by done. unfold bindH at 1, convert. rewrite Hconv. unfold reply. cbv zeta.
  pose proof (DBItemToBatch_converted _ _ Hconv) as (_ & Hid & Hi). cbn in Hid, Hi.
  assert (Status (b_Info batch) = BatchStatusCancelling) as ->.
  { rewrite Hi. unfold status_is in Hst. destruct (r_status row); [|done]. by boolify. }
  rewrite (bool_decide_eq_false_2 (BatchStatusCancelling = BatchStatusCancelled)) by done.
  change (IsCancellable BatchStatusCancelling) with true. cbn [negb]. rewrite (bool_decide_eq_true_2 (_ = _)) by done.
  unfold send_cancel, bindH, call, on_ev, ECProducerSendEvents. cbn [validate_events send_events].
  unfold event_IsValid. cbn. rewrite Hid, bool_decide_eq_false_2 by done. cbn.
  destruct (Z.leb_spec (ac_BatchEventTTLSeconds cfg) 0); [lia|]. unfold bindM, ev_exec, ecSendEventSQL. rewrite He.
  rewrite bool_decide_eq_false_2 by done. by eexists.
Qed.
End Cancellation.
