(* ===== verification/Keyset.v ===== *)
(** * Keyset pagination

    The pages that [buildGetQuery] of [db_core.go] selects when [AfterID] is
    set: rows of the query beyond the cursor, in ID order of either direction.
    A client that follows the cursor of each page sees the selected rows
    exactly once and in order. *)

From Stdlib Require Import ZArith Lia.
From stdpp Require Import base gmap strings list sorting.
From S2P Require Import Prelude Store StoreOps Query Rest.
Local Open Scope string_scope.

Section Keyset.
Context {A : Type} (desc : bool).
Implicit Types (l : list (string * A)) (m : gmap string A) (sel : string → A → bool).

(** The order of a listing. *)
Definition listed (x y : string * A) : Prop := if desc then id_le y x else id_le x y.
#[local] Instance listed_trans : Transitive listed.
Proof. intros x y z. unfold listed. destruct desc; intros ??; by etrans. Qed.

Lemma listed_sorted sel m : StronglySorted listed (select_rows desc sel m).
Proof.
  unfold select_rows, by_id, listed. destruct desc; [|apply (StronglySorted_merge_sort _)].
  assert (Transitive (flip (@id_le A))) by (intros x y z ??; cbn in *; by etrans).
  assert (base.Total (flip (@id_le A))) by (intros x y; cbn; destruct (base.total id_le x y); auto).
  apply (StronglySorted_merge_sort _).
Qed.
Lemma StronglySorted_filter (P : string * A → Prop) `{!∀ x, Decision (P x)} l :
  StronglySorted listed l → StronglySorted listed (filter P l).
Proof.
  induction 1 as [|x l Hsl IH Hx]; [constructor|]. rewrite filter_cons. case_decide; [|done]. constructor; [done|].
  rewrite Forall_forall in *. intros y [_ Hy]%list_elem_of_filter. auto.
Qed.

(** Two listings of rows of one table with the same rows are equal. *)
Lemma listing_unique m l1 l2 :
  (∀ k r, (k, r) ∈ l1 → m !! k = Some r) → (∀ k r, (k, r) ∈ l2 → m !! k = Some r) →
  StronglySorted listed l1 → StronglySorted listed l2 → l1 ≡ₚ l2 → l1 = l2.
Proof.
  intros H1 H2. apply StronglySorted_unique_strong. intros [k1 r1] [k2 r2] E1%H1 E2%H2 Ha Hb.
  assert (k1 = k2) as -> by (unfold listed, id_le in *; destruct desc; cbn in *; by apply (anti_symm String.le)).
  congruence.
Qed.
Lemma select_rows_ext sel1 sel2 m1 m2 :
  (∀ k r, m1 !! k = Some r ∧ sel1 k r = true ↔ m2 !! k = Some r ∧ sel2 k r = true) →
  select_rows desc sel1 m1 = select_rows desc sel2 m2.
Proof.
  intros H. assert (∀ k r, (k, r) ∈ select_rows desc sel1 m1 ↔ (k, r) ∈ select_rows desc sel2 m2) as He.
  { intros k r. rewrite !elem_of_select_rows. apply H. }
  apply (listing_unique m1).
  - intros k r [? _]%elem_of_select_rows. done.
  - intros k r [? _]%He%elem_of_select_rows. done.
  - apply listed_sorted.
  - apply listed_sorted.
  - apply NoDup_Permutation; [eapply NoDup_fmap_1, NoDup_select_rows..|]. intros [k r]. apply He.
Qed.
Lemma select_rows_filter sel (f : string → bool) m :
  select_rows desc (λ k r, sel k r && f k) m = filter (λ kr, f kr.1 = true) (select_rows desc sel m).
Proof.
  assert (∀ k r, (k, r) ∈ select_rows desc (λ k r, sel k r && f k) m ↔ (k, r) ∈ filter (λ kr, f kr.1 = true) (select_rows desc sel m)) as He.
  { intros k r. rewrite list_elem_of_filter, !elem_of_select_rows, andb_true_iff. cbn. tauto. }
  apply (listing_unique m).
  - intros k r [? _]%elem_of_select_rows. done.
  - intros k r [_ [? _]%elem_of_select_rows]%list_elem_of_filter. done.
  - apply listed_sorted.
  - apply StronglySorted_filter, listed_sorted.
  - apply NoDup_Permutation; [|apply NoDup_filter|]; [eapply NoDup_fmap_1, NoDup_select_rows..|]. intros [k r]. apply He.
Qed.

(** Beyond the cursor lies the rest of the listing. *)
Lemma keyset_filter_after l1 x l2 :
  StronglySorted listed (app l1 (x :: l2)) → NoDup (app l1 (x :: l2)).*1 →
  filter (λ kr, after_id desc x.1 kr.1 = true) (app l1 (x :: l2)) = l2.
Proof.
  intros Hs Hn. rewrite filter_app, filter_cons. rewrite fmap_app, fmap_cons in Hn.
  apply NoDup_app in Hn as (_ & Hd & Hn). apply NoDup_cons in Hn as [Hx Hn].
  assert (∀ y, y ∈ l2 → after_id desc x.1 y.1 = true) as H2.
  { intros y Hy. apply StronglySorted_app_1_r in Hs. apply StronglySorted_inv in Hs as [_ Hs]. rewrite Forall_forall in Hs.
    specialize (Hs y Hy). unfold after_id. rewrite bool_decide_eq_false_2.
    - unfold listed, id_le in Hs. cbn. by destruct desc; apply bool_decide_eq_true_2.
    - intros E. apply Hx. rewrite <- E. by apply list_elem_of_fmap_2. }
  assert (∀ y, y ∈ l1 → after_id desc x.1 y.1 = false) as H1.
  { intros y Hy. pose proof (StronglySorted_app_1_elem_of _ _ _ _ x Hs Hy ltac:(set_solver)) as Hle. unfold after_id.
    destruct (decide (y.1 = x.1)) as [E|E]; [by rewrite bool_decide_eq_true_2|]. rewrite bool_decide_eq_false_2 by done. cbn.
    unfold listed, id_le in Hle. destruct desc; apply bool_decide_eq_false_2; intros Hle'; apply E; by apply (anti_symm String.le). }
  assert (after_id desc x.1 x.1 = false) as Hself by (unfold after_id; by rewrite bool_decide_eq_true_2).
  rewrite decide_False by congruence. replace (filter _ l1) with (@nil (string * A)).
  - cbn. clear -H2. induction l2 as [|y l IH]; [done|]. rewrite filter_cons, decide_True by (apply H2; set_solver).
    f_equal. apply IH. intros. apply H2. set_solver.
  - symmetry. clear -H1. induction l1 as [|y l IH]; [done|]. rewrite filter_cons, decide_False.
    + apply IH. intros. apply H1. set_solver.
    + rewrite H1 by set_solver. done.
Qed.

(** ** Following the cursor *)

(** The page after a cursor ([""]: from the start) and whether more follow. *)
Definition keyset_page (limit : nat) l (after : string) : list (string * A) * bool :=
  let rest := if bool_decide (after = "") then l else filter (λ kr, after_id desc after kr.1 = true) l in
  (take limit rest, (limit <? length (take (S limit) rest))%nat).
Fixpoint keyset_walk (fuel limit : nat) l (after : string) : list (string * A) :=
  match fuel with
  | O => []
  | S fuel =>
      let '(page, more) := keyset_page limit l after in
      app page (if (more : bool) then match last page with Some x => keyset_walk fuel limit l x.1 | None => [] end else [])
  end.

Lemma page_more {B} limit (rest : list B) : (limit <? length (take (S limit) rest))%nat = (limit <? length rest)%nat.
Proof. rewrite length_take. apply eq_true_iff_eq. rewrite !Nat.ltb_lt. lia. Qed.

Lemma keyset_walk_from fuel limit l1 l2 :
  (0 < limit)%nat → (length l2 < fuel)%nat → "" ∉ (app l1 l2).*1 →
  StronglySorted listed (app l1 l2) → NoDup (app l1 l2).*1 →
  keyset_walk fuel limit (app l1 l2) (match last l1 with Some x => x.1 | None => "" end) = l2.
Proof.
  intros Hl. revert l1 l2. induction fuel as [|fuel IH]; intros l1 l2 Hf He Hs Hn; [lia|]. cbn [keyset_walk].
  assert ((if bool_decide ((match last l1 with Some x => x.1 | None => "" end) = "") then app l1 l2
          else filter (λ kr, after_id desc (match last l1 with Some x => x.1 | None => "" end) kr.1 = true) (app l1 l2)) = l2) as Hrest.
  { destruct (last l1) as [x|] eqn:Hx; [|apply last_None in Hx; by subst].
    apply last_Some in Hx as [l' ->]. rewrite bool_decide_eq_false_2.
    - rewrite <- app_assoc in *. by apply keyset_filter_after.
    - intros E. apply He. rewrite <- E. set_solver. }
  unfold keyset_page. rewrite Hrest, page_more. destruct (Nat.ltb_spec limit (length l2)) as [Hm|Hm].
  - assert (∃ x, last (take limit l2) = Some x) as [x Hx].
    { destruct (last (take limit l2)) eqn:E; [by eexists|]. apply last_None in E. apply (f_equal length) in E.
      rewrite length_take in E. cbn in E. lia. }
    rewrite Hx. assert (app l1 l2 = app (app l1 (take limit l2)) (drop limit l2)) as Hsplit by by rewrite <- app_assoc, take_drop.
    rewrite Hsplit in *. specialize (IH (app l1 (take limit l2)) (drop limit l2)). rewrite last_app, Hx in IH.
    rewrite IH; [apply take_drop|rewrite length_drop; lia|done..].
  - rewrite app_nil_r. by rewrite take_ge.
Qed.
End Keyset.

(** The whole listing, from the first page on. *)
Lemma keyset_walk_complete {A} desc sel (m : gmap string A) fuel limit :
  (0 < limit)%nat → (length (select_rows desc sel m) < fuel)%nat → "" ∉ (select_rows desc sel m).*1 →
  keyset_walk desc fuel limit (select_rows desc sel m) "" = select_rows desc sel m.
Proof.
  intros Hl Hf He. apply (keyset_walk_from desc fuel limit []); try done; [apply listed_sorted|apply NoDup_select_rows].
Qed.

(** ** Clients of a list endpoint *)

(** The request for the page after a cursor. *)
Definition at_cursor (r : Request) (after : string) : Request :=
  {| rq_Header := rq_Header r; rq_PathValue := rq_PathValue r;
     rq_Query := λ k, if bool_decide (k = "after") then after else rq_Query r k |}.

(** A client that passes [last_id] as the next cursor while [has_more] is set;
    [fetch] answers with a page, its last ID and [has_more]. *)
Fixpoint follow {B} (fetch : string → HM (list B * option string * bool)) (fuel : nat) (after : string) : HM (list B) :=
  match fuel with
  | O => reply []
  | S fuel =>
      resp <-- fetch after ;;
      let '(data, lastID, more) := resp in
      if (more : bool) then
        match lastID with
        | Some id => rest <-- follow fetch fuel id ;; reply (app data rest)
        | None => reply data
        end
      else reply data
  end.

Section Follow.
Context {A B : Type} (desc : bool) (fetch : string → HM (list B * option string * bool)).
Context (conv : string * A → B → Prop) (good : string → Prop) (limit : nat) (rows : list (string * A)) (s : AWorld).
Context (Hgood : Forall (λ x, good x.1) rows).
(** What a list handler answers for a cursor. *)
Context (Hfetch : ∀ after, after = "" ∨ good after →
  let '(page, more) := keyset_page desc limit rows after in
  ∃ bs, fetch after s = (s, Reply (bs, fst <$> last page, more)) ∧ Forall2 conv page bs).

Lemma keyset_page_elem after x : x ∈ (keyset_page desc limit rows after).1 → x ∈ rows.
Proof.
  unfold keyset_page. cbn. intros H%subseteq_take. case_bool_decide; [done|]. by apply list_elem_of_filter in H as [_ ?].
Qed.
Lemma follow_walk fuel after :
  after = "" ∨ good after →
  ∃ bs, follow fetch fuel after s = (s, Reply bs) ∧ Forall2 conv (keyset_walk desc fuel limit rows after) bs.
Proof.
  revert after. induction fuel as [|fuel IH]; intros after Ha; [by exists []|]. cbn [follow keyset_walk]. unfold bindH at 1.
  pose proof (Hfetch after Ha) as Hp. pose proof (keyset_page_elem after) as Hin.
  destruct (keyset_page desc limit rows after) as [page more]. destruct Hp as (bs & -> & Hbs).
  destruct more; [|rewrite app_nil_r; by exists bs].
  destruct (last page) as [x|] eqn:Hx; cbn; [|rewrite app_nil_r; by exists bs]. unfold bindH.
  destruct (IH x.1) as (rest & -> & Hr); [|exists (app bs rest); split; [done|by apply Forall2_app]].
  right. rewrite Forall_forall in Hgood. apply Hgood, Hin. apply last_Some in Hx as [l' ->]. set_solver.
Qed.
End Follow.
