(* ===== verification/Statements.v ===== *)
(** * The SQL the table clients send

    [internal/database/postgresql/db_core.go] builds its statements at run
    time: conditions, numbered placeholders and the argument list grow side by
    side, and rows come back as lists of columns that are scanned by position.
    [Query], [FileItems] and [Store] describe what those statements do to the
    tables; here the statements themselves are built the way the code builds
    them, printed, and executed against rows seen as columns, and shown to do
    just that.  [TableDescriptor] is the interface the core is written
    against, with the instances of [batch_db.go] and [file_db.go].

    A Go map is iterated in any order: the entries of a map are a list here, and
    theorems hold for every order. *)

From Stdlib Require Import ZArith Lia.
From stdpp Require Import base gmap strings list sorting pretty.
From S2P Require Import Prelude Openai Store StoreOps Finalizer Query Collector FileItems Keyset.
Local Open Scope string_scope.
Local Open Scope Z_scope.

(** ** Columns and values *)
Definition colID := "id".
Definition colTenantID := "tenant_id".
Definition colExpiry := "expiry".
Definition colTags := "tags".
Definition colSpec := "spec".
Definition colStatus := "status".
Definition colProcessorID := "processor_id".
Definition colPriority := "priority".
Definition colEpoch := "epoch".
Definition colRecoveryAttempts := "recovery_attempts".
Definition colResumable := "resumable".
Definition colOwnerLeaseExpiryAt := "owner_lease_expires_at".
Definition colPurpose := "purpose".

#[export] Instance file_row_eq_dec : EqDecision FileRow.
Proof. solve_decision. Defined.

(** A column or an argument.  A JSONB column holds the document its text
    encodes: a tag map, a status document, or the file object of a spec. *)
Inductive value :=
| VNull
| VText (s : string)
| VInt (z : Z)
| VBool (b : bool)
| VTime (t : Z)
| VTags (m : gmap string string)
| VStatus (d : BatchStatusInfo)
| VFile (r : FileRow)
| VIDs (ids : list string).
#[export] Instance value_eq_dec : EqDecision value.
Proof. solve_decision. Defined.

Definition opt_value {A} (f : A → value) (x : option A) : value := match x with Some a => f a | None => VNull end.

(** ** The table interface *)
Class TableDescriptor (A : Type) := {
  TableName : string;
  ExtraColumns : list string;
  (** The columns of the row [r] with the given ID. *)
  cell : string → A → string → value }.
Arguments TableName A {_}.
Arguments ExtraColumns A {_}.

Definition batch_cell (id : string) (r : Row) (col : string) : value :=
  if bool_decide (col = colID) then VText id else
  if bool_decide (col = colTenantID) then VText (r_tenant r) else
  if bool_decide (col = colExpiry) then VInt (r_expiry r) else
  if bool_decide (col = colTags) then VTags (r_tags r) else
  if bool_decide (col = colSpec) then VText (r_spec r) else
  if bool_decide (col = colStatus) then opt_value VStatus (r_status r) else
  if bool_decide (col = colProcessorID) then opt_value VText (r_processor r) else
  if bool_decide (col = colPriority) then opt_value VInt (r_priority r) else
  if bool_decide (col = colEpoch) then VInt (r_epoch r) else
  if bool_decide (col = colRecoveryAttempts) then VInt (r_attempts r) else
  if bool_decide (col = colResumable) then VBool (r_resumable r) else
  if bool_decide (col = colOwnerLeaseExpiryAt) then opt_value VTime (r_lease r) else VNull.
#[export] Instance batchDescriptor : TableDescriptor Row := {|
  TableName := "batch_items";
  ExtraColumns := [colProcessorID; colPriority; colEpoch; colRecoveryAttempts; colResumable; colOwnerLeaseExpiryAt];
  cell := batch_cell |}.

Definition file_cell (id : string) (r : FileRow) (col : string) : value :=
  if bool_decide (col = colID) then VText id else
  if bool_decide (col = colTenantID) then VText (fr_tenant r) else
  if bool_decide (col = colExpiry) then VInt (file_expiry r) else
  if bool_decide (col = colTags) then VTags ∅ else
  if bool_decide (col = colSpec) then VFile r else
  if bool_decide (col = colPurpose) then VText (fr_purpose r) else VNull.
#[export] Instance fileTableDescriptor : TableDescriptor FileRow := {|
  TableName := "file_items"; ExtraColumns := [colPurpose]; cell := file_cell |}.

Section Columns.
Context (A : Type) `{TableDescriptor A}.
Definition allColumns : list string :=
  app [colID; colTenantID; colExpiry; colTags] (app (ExtraColumns A) [colSpec; colStatus]).
Definition selectColumns (includeStatic : bool) : list string :=
  app [colID; colTenantID; colExpiry; colTags]
    (app (ExtraColumns A) (if includeStatic then [colStatus; colSpec] else [colStatus])).
End Columns.

(** ** Conditions: tokens, text and meaning *)

(** The atoms of a WHERE clause; [n] is the number of a placeholder. *)
Inductive atom :=
| AAny (col : string) (n : nat)
| AEq (col : string) (n : nat)
| AContains (col : string) (n : nat)
| APositive (col : string)
| ADue (col : string)
| AAfter (col : string) (desc : bool) (n : nat)
| ANonTerminal (col : string)
| ANotNull (col : string).
Inductive tok := TAtom (a : atom) | TAnd | TOr | TOpen | TClose.

Definition placeholder (n : nat) : string := "$" ++ pretty n.
Definition buildNonTerminalCondition (column : string) : string :=
  column ++ "::jsonb->>'status' NOT IN (" ++ String.concat "," ((λ s, "'" ++ s ++ "'") <$> terminalStatuses) ++ ")".
Definition atom_text (a : atom) : string :=
  match a with
  | AAny col n => col ++ " = ANY(" ++ placeholder n ++ ")"
  | AEq col n => col ++ " = " ++ placeholder n
  | AContains col n => col ++ " @> " ++ placeholder n ++ "::jsonb"
  | APositive col => col ++ " > 0"
  | ADue col => col ++ " <= EXTRACT(EPOCH FROM NOW())::BIGINT"
  | AAfter col desc n => col ++ (if desc then " < " else " > ") ++ placeholder n
  | ANonTerminal col => buildNonTerminalCondition col
  | ANotNull col => col ++ " IS NOT NULL"
  end.
Definition tok_text (t : tok) : string :=
  match t with TAtom a => atom_text a | TAnd => " AND " | TOr => " OR " | TOpen => "(" | TClose => ")" end.
Definition text (ts : list tok) : string := String.concat "" (tok_text <$> ts).

Definition expiryCondition : list tok := [TAtom (APositive colExpiry); TAnd; TAtom (ADue colExpiry)].

(** The argument a placeholder stands for; they count from 1. *)
Definition arg (args : list value) (n : nat) : option value := match n with O => None | S i => args !! i end.

(** SQL equality: NULL equals nothing. *)
Definition sql_eq (v w : value) : bool := bool_decide (v ≠ VNull) && bool_decide (v = w).
Definition holds (now : Z) (args : list value) (cells : string → value) (a : atom) : bool :=
  match a with
  | AAny col n => match cells col, arg args n with VText s, Some (VIDs ids) => bool_decide (s ∈ ids) | _, _ => false end
  | AEq col n => match arg args n with Some v => sql_eq (cells col) v | None => false end
  | AContains col n => match cells col, arg args n with VTags m, Some (VTags sel) => bool_decide (sel ⊆ m) | _, _ => false end
  | APositive col => match cells col with VInt z => 0 <? z | _ => false end
  | ADue col => match cells col with VInt z => z <=? epoch_seconds now | _ => false end
  | AAfter col desc n =>
      match cells col, arg args n with VText id, Some (VText after) => after_id desc after id | _, _ => false end
  | ANonTerminal col => match cells col with VStatus d => negb (IsTerminal (Status d)) | _ => false end
  | ANotNull col => bool_decide (cells col ≠ VNull)
  end.

(** AND binds tighter than OR; parentheses are a stack.  [o] is the value of
    the finished disjuncts, [a] that of the current one. *)
Fixpoint eval (f : atom → bool) (ts : list tok) (stack : list (bool * bool)) (o a : bool) : bool :=
  match ts with
  | [] => o || a
  | TAtom x :: ts => eval f ts stack o (a && f x)
  | TAnd :: ts => eval f ts stack o a
  | TOr :: ts => eval f ts stack (o || a) true
  | TOpen :: ts => eval f ts ((o, a) :: stack) false true
  | TClose :: ts => match stack with (o', a') :: st => eval f ts st o' (a' && (o || a)) | [] => false end
  end.
Definition where_holds (f : atom → bool) (ts : list tok) : bool := eval f ts [] false true.

(** [strings.Join]. *)
Fixpoint join_toks (sep : tok) (conds : list (list tok)) : list tok :=
  match conds with
  | [] => []
  | [c] => c
  | c :: rest => app c (sep :: join_toks sep rest)
  end.

(** ** [buildGetQuery] *)
Record BaseQuery := {
  q_IDs : list string; q_TenantID : string; q_TagSelectors : list (string * string); q_TagsOr : bool;
  q_Expired : bool; q_AfterID : string; q_Descending : bool }.

Record Builder := { b_conditions : list (list tok); b_args : list value; b_argIdx : nat }.
Definition noConditions : Builder := {| b_conditions := []; b_args := []; b_argIdx := 1 |}.
(** Append a condition with its argument, and count the placeholder. *)
Definition emit (mk : nat → list tok) (v : value) (b : Builder) : Builder :=
  {| b_conditions := app (b_conditions b) [mk (b_argIdx b)]; b_args := app (b_args b) [v];
     b_argIdx := S (b_argIdx b) |}.
Definition emit_raw (c : list tok) (b : Builder) : Builder :=
  {| b_conditions := app (b_conditions b) [c]; b_args := b_args b; b_argIdx := b_argIdx b |}.
(** The loop over the tag selectors: each gets a placeholder, then one
    parenthesised condition joins them. *)
Definition tag_cond (b : Builder) (kv : string * string) : Builder :=
  emit (λ n, [TAtom (AContains colTags n)]) (VTags {[kv.1 := kv.2]}) b.
Definition emit_tags (or : bool) (sel : list (string * string)) (b : Builder) : Builder :=
  let t := foldl tag_cond {| b_conditions := []; b_args := b_args b; b_argIdx := b_argIdx b |} sel in
  {| b_conditions := app (b_conditions b)
       [TOpen :: app (join_toks (if or then TOr else TAnd) (b_conditions t)) [TClose]];
     b_args := b_args t; b_argIdx := b_argIdx t |}.
Definition emit_filter (b : Builder) (cv : string * value) : Builder := emit (λ n, [TAtom (AEq cv.1 n)]) cv.2 b.

Definition get_conditions (bq : BaseQuery) (extraFilters : list (string * value)) (rawConditions : list (list tok))
    : Builder :=
  let b := noConditions in
  let b := if bool_decide (q_IDs bq = []) then b else emit (λ n, [TAtom (AAny colID n)]) (VIDs (q_IDs bq)) b in
  let b := if bool_decide (q_TenantID bq = "") then b
           else emit (λ n, [TAtom (AEq colTenantID n)]) (VText (q_TenantID bq)) b in
  let b := if bool_decide (q_TagSelectors bq = []) then b else emit_tags (q_TagsOr bq) (q_TagSelectors bq) b in
  let b := if q_Expired bq then emit_raw expiryCondition b else b in
  let b := foldl emit_filter b extraFilters in
  let b := if bool_decide (q_AfterID bq = "") then b
           else emit (λ n, [TAtom (AAfter colID (q_Descending bq) n)]) (VText (q_AfterID bq)) b in
  foldl (flip emit_raw) b rawConditions.

Record Select := {
  s_cols : list string; s_table : string; s_where : list tok; s_desc : bool; s_offsetArg : nat; s_limitArg : nat;
  s_args : list value }.
Definition select_text (s : Select) : string :=
  "SELECT " ++ String.concat ", " (s_cols s) ++ " FROM " ++ s_table s ++ " WHERE " ++ text (s_where s)
  ++ " ORDER BY " ++ colID ++ " " ++ (if s_desc s then "DESC" else "ASC")
  ++ " OFFSET " ++ placeholder (s_offsetArg s) ++ " LIMIT " ++ placeholder (s_limitArg s).

(** What [scanRow] returns; the extra columns carry their names. *)
Record Scanned := {
  sc_ID : string; sc_TenantID : string; sc_Expiry : Z; sc_Tags : gmap string string; sc_Extras : list (string * value);
  sc_Status : value; sc_Spec : value }.

Section Core.
Context {A : Type} `{TableDescriptor A}.

Definition buildGetQuery (bq : BaseQuery) (includeStatic : bool) (start limit : nat)
    (extraFilters : list (string * value)) (rawConditions : list (list tok)) : option Select :=
  let b := get_conditions bq extraFilters rawConditions in
  let start := if bool_decide (q_AfterID bq = "") then start else O in
  if bool_decide (b_conditions b = []) then None
  else Some {| s_cols := selectColumns A includeStatic; s_table := TableName A;
               s_where := join_toks TAnd (b_conditions b); s_desc := q_Descending bq;
               s_offsetArg := b_argIdx b; s_limitArg := S (b_argIdx b);
               s_args := app (b_args b) [VInt (Z.of_nat start); VInt (Z.of_nat limit)] |}.

(** The rows a SELECT returns: the listed columns of the rows that satisfy
    the condition, in ID order, after the offset and up to the limit. *)
Definition int_arg (args : list value) (n : nat) : nat :=
  match arg args n with Some (VInt z) => Z.to_nat z | _ => O end.
Definition exec_select (now : Z) (s : Select) (m : gmap string A) : list (list value) :=
  (λ kr, cell kr.1 kr.2 <$> s_cols s) <$>
  take (int_arg (s_args s) (s_limitArg s))
    (drop (int_arg (s_args s) (s_offsetArg s))
      (select_rows (s_desc s) (λ id r, where_holds (holds now (s_args s) (cell id r)) (s_where s)) m)).

(** The columns by position. *)
Definition scanRow (includeStatic : bool) (row : list value) : result Scanned :=
  match row with
  | VText id :: VText tenant :: VInt expiry :: tags :: rest =>
      let k := length (ExtraColumns A) in
      match tags, drop k rest, includeStatic with
      | VTags tags, [status; spec], true =>
          Ok {| sc_ID := id; sc_TenantID := tenant; sc_Expiry := expiry; sc_Tags := tags;
                sc_Extras := zip (ExtraColumns A) (take k rest); sc_Status := status; sc_Spec := spec |}
      | VTags tags, [status], false =>
          Ok {| sc_ID := id; sc_TenantID := tenant; sc_Expiry := expiry; sc_Tags := tags;
                sc_Extras := zip (ExtraColumns A) (take k rest); sc_Status := status; sc_Spec := VNull |}
      | _, _, _ => Err ErrIO
      end
  | _ => Err ErrIO
  end.
Fixpoint scan_rows (includeStatic : bool) (rows : list (list value)) : result (list Scanned) :=
  match rows with
  | [] => Ok []
  | r :: rs => and_then (scanRow includeStatic r) (λ x, and_then (scan_rows includeStatic rs) (λ xs, Ok (x :: xs)))
  end.

(** [get] on a healthy connection. *)
Definition get (now : Z) (bq : BaseQuery) (includeStatic : bool) (start limit : nat)
    (extraFilters : list (string * value)) (rawConditions : list (list tok)) (m : gmap string A)
    : result (list Scanned * nat * bool) :=
  match buildGetQuery bq includeStatic start (S limit) extraFilters rawConditions with
  | None => Ok ([], O, false)
  | Some s =>
      and_then (scan_rows includeStatic (exec_select now s m)) (λ got,
      let page := if (limit <? length got)%nat then take limit got else got in
      Ok (page, (start + length page)%nat, (limit <? length got)%nat))
  end.
End Core.
Arguments buildGetQuery A {_} _ _ _ _ _ _.
Arguments scanRow A {_} _ _.
Arguments scan_rows A {_} _ _.

(** ** [PostgresBatchDBClient.DBGet] *)

(** [api.BatchItem] as Go has it: no NULLs. *)
Record GoItem := {
  gi_ID : string; gi_TenantID : string; gi_Expiry : Z; gi_Tags : gmap string string; gi_Spec : string;
  gi_Status : option BatchStatusInfo; gi_ProcessorID : string; gi_Priority : Z; gi_Epoch : Z;
  gi_RecoveryAttempts : Z; gi_Resumable : bool; gi_OwnerLeaseExpiresAt : option Z }.

Definition extra (sc : Scanned) (col : string) : value :=
  match list_find (λ cv, cv.1 = col) (sc_Extras sc) with Some (_, (_, v)) => v | None => VNull end.
(** Type assertions that leave the zero value when they fail. *)
Definition as_string (v : value) : string := match v with VText s => s | _ => "" end.
Definition as_int64 (v : value) : Z := match v with VInt z => z | _ => 0 end.
Definition as_bool (v : value) : bool := match v with VBool b => b | _ => false end.
Definition as_time (v : value) : option Z := match v with VTime t => Some t | _ => None end.
Definition as_status (v : value) : option BatchStatusInfo := match v with VStatus d => Some d | _ => None end.
Definition batch_item (sc : Scanned) : GoItem :=
  {| gi_ID := sc_ID sc; gi_TenantID := sc_TenantID sc; gi_Expiry := sc_Expiry sc; gi_Tags := sc_Tags sc;
     gi_Spec := as_string (sc_Spec sc); gi_Status := as_status (sc_Status sc);
     gi_ProcessorID := as_string (extra sc colProcessorID); gi_Priority := as_int64 (extra sc colPriority);
     gi_Epoch := as_int64 (extra sc colEpoch); gi_RecoveryAttempts := as_int64 (extra sc colRecoveryAttempts);
     gi_Resumable := as_bool (extra sc colResumable);
     gi_OwnerLeaseExpiresAt := as_time (extra sc colOwnerLeaseExpiryAt) |}.

Definition rawConditions (q : BatchQuery) : list (list tok) :=
  app (if bq_NonTerminal q then [[TAtom (ANonTerminal colStatus)]] else [])
      (if bq_HasProcessorID q then [[TAtom (ANotNull colProcessorID)]] else []).
Definition extraFilters (q : BatchQuery) : list (string * value) :=
  if bool_decide (bq_ProcessorID q = "") then [] else [(colProcessorID, VText (bq_ProcessorID q))].
(** [sel]: the tag selectors in the order the map is iterated. *)
Definition base_query (sel : list (string * string)) (q : BatchQuery) : BaseQuery :=
  {| q_IDs := bq_IDs q; q_TenantID := bq_TenantID q; q_TagSelectors := sel; q_TagsOr := bq_TagsOr q;
     q_Expired := bq_Expired q; q_AfterID := bq_AfterID q; q_Descending := bq_Descending q |}.
Definition batch_get (sel : list (string * string)) (now : Z) (q : BatchQuery) (includeStatic : bool) (start limit : nat)
    (m : gmap string Row) : result (list GoItem * nat * bool) :=
  and_then (get now (base_query sel q) includeStatic start limit (extraFilters q) (rawConditions q) m)
    (λ '(scanned, cursor, more), Ok (batch_item <$> scanned, cursor, more)).

(** ** [PostgresFileDBClient.DBGet] *)
Definition file_base_query (q : FileQuery) : BaseQuery :=
  {| q_IDs := fq_IDs q; q_TenantID := fq_TenantID q; q_TagSelectors := []; q_TagsOr := false;
     q_Expired := fq_Expired q; q_AfterID := fq_AfterID q; q_Descending := fq_Descending q |}.
Definition file_filters (q : FileQuery) : list (string * value) :=
  if bool_decide (fq_Purpose q = "") then [] else [(colPurpose, VText (fq_Purpose q))].
Definition file_get (now : Z) (q : FileQuery) (includeStatic : bool) (start limit : nat) (m : gmap string FileRow)
    : result (list (Scanned * string) * nat * bool) :=
  and_then (get now (file_base_query q) includeStatic start limit (file_filters q) [] m)
    (λ '(scanned, cursor, more), Ok ((λ sc, (sc, as_string (extra sc colPurpose))) <$> scanned, cursor, more)).

(** ** What a built condition means *)

(** A fragment that reads as one conjunct with value [b], wherever it stands. *)
Definition conjunct (f : atom → bool) (c : list tok) (b : bool) : Prop :=
  ∀ ts st o a, eval f (app c ts) st o a = eval f ts st o (a && b).

Lemma conjunct_atom f x : conjunct f [TAtom x] (f x).
Proof. done. Qed.
Lemma conjunct_join f conds bs : Forall2 (conjunct f) conds bs → conjunct f (join_toks TAnd conds) (forallb id bs).
Proof.
  intros HF. induction HF as [|c b conds bs Hc HF IH]; intros ts st o a; cbn [join_toks forallb].
  - cbn. by rewrite andb_true_r.
  - destruct HF as [|c' b' conds bs Hc' HF]; [rewrite Hc; cbn; by rewrite andb_true_r|].
    rewrite <- app_assoc, Hc. cbn [app eval]. rewrite IH. cbn. by rewrite !andb_assoc.
Qed.
Lemma disjuncts f conds bs ts st o o' a' :
  Forall2 (conjunct f) conds bs → conds ≠ [] →
  eval f (app (join_toks TOr conds) (TClose :: ts)) ((o', a') :: st) o true
  = eval f ts st o' (a' && (o || existsb id bs)).
Proof.
  intros HF. revert o. induction HF as [|c b conds bs Hc HF IH]; intros o Hne; [done|].
  destruct HF as [|c' b' conds bs Hc' HF]; cbn [join_toks].
  - rewrite Hc. cbn. by rewrite orb_false_r.
  - rewrite <- app_assoc, Hc. cbn [app eval]. rewrite IH by done. cbn. by rewrite !orb_assoc.
Qed.
Lemma conjunct_group f (or : bool) conds bs :
  Forall2 (conjunct f) conds bs → conds ≠ [] →
  conjunct f (TOpen :: app (join_toks (if or then TOr else TAnd) conds) [TClose])
    ((if or then existsb id else forallb id) bs).
Proof.
  intros HF Hne ts st o a. cbn [app eval]. rewrite <- app_assoc. cbn [app]. destruct or.
  - by rewrite (disjuncts f conds bs).
  - rewrite (conjunct_join f conds bs) by done. done.
Qed.

Section Denotation.
Context (now : Z) (cells : string → value).

(** The placeholders of the conditions so far are numbered, and however the
    argument list grows the conditions mean [bs]. *)
Definition denotes (b : Builder) (bs : list bool) : Prop :=
  b_argIdx b = S (length (b_args b)) ∧
  ∀ later, Forall2 (conjunct (holds now (app (b_args b) later) cells)) (b_conditions b) bs.

Lemma arg_next args v later : arg (app (app args [v]) later) (S (length args)) = Some v.
Proof. cbn. rewrite <- app_assoc, lookup_app_r, Nat.sub_diag by lia. done. Qed.

Lemma denotes_none : denotes noConditions [].
Proof. split; [done|]. intros. constructor. Qed.
Lemma denotes_emit mk v x b bs :
  (∀ args n, arg args n = Some v → conjunct (holds now args cells) (mk n) x) →
  denotes b bs → denotes (emit mk v b) (app bs [x]).
Proof.
  intros Hmk [Hi HF]. split; cbn; [rewrite length_app; cbn; lia|]. intros later. apply Forall2_app.
  - rewrite <- app_assoc. apply HF.
  - constructor; [|done]. apply Hmk. rewrite Hi. apply arg_next.
Qed.
Lemma denotes_raw c x b bs :
  (∀ args, conjunct (holds now args cells) c x) → denotes b bs → denotes (emit_raw c b) (app bs [x]).
Proof. intros Hc [Hi HF]. split; [done|]. intros later. apply Forall2_app; [apply HF|]. constructor; [apply Hc|done]. Qed.
Lemma denotes_raws cs xs b bs :
  Forall2 (λ c x, ∀ args, conjunct (holds now args cells) c x) cs xs →
  denotes b bs → denotes (foldl (flip emit_raw) b cs) (app bs xs).
Proof.
  intros HF. revert b bs. induction HF as [|c x cs xs Hc HF IH]; intros b bs Hb; cbn; [by rewrite app_nil_r|].
  specialize (IH (emit_raw c b) (app bs [x])). rewrite <- app_assoc in IH. apply IH. by apply denotes_raw.
Qed.
Lemma denotes_filters fs b bs :
  denotes b bs → denotes (foldl emit_filter b fs) (app bs ((λ cv, sql_eq (cells cv.1) cv.2) <$> fs)).
Proof.
  revert b bs. induction fs as [|[col v] fs IH]; intros b bs Hb; cbn; [by rewrite app_nil_r|].
  specialize (IH (emit_filter b (col, v)) (app bs [sql_eq (cells col) v])). rewrite <- app_assoc in IH.
  apply IH. apply denotes_emit; [|done]. intros args n Hn ts st o a. cbn. by rewrite Hn.
Qed.
Lemma denotes_tag_conds sel b bs tags :
  cells colTags = VTags tags →
  denotes b bs → denotes (foldl tag_cond b sel) (app bs (tag_match tags <$> sel)).
Proof.
  intros Ht. revert b bs. induction sel as [|[k v] sel IH]; intros b bs Hb; cbn; [by rewrite app_nil_r|].
  specialize (IH (tag_cond b (k, v)) (app bs [tag_match tags (k, v)])). rewrite <- app_assoc in IH.
  apply IH. apply denotes_emit; [|done]. intros args n Hn ts st o a. cbn. rewrite Hn, Ht. do 2 f_equal.
  unfold tag_match. apply bool_decide_ext. apply map_singleton_subseteq_l.
Qed.
Lemma denotes_tags or sel b bs tags :
  cells colTags = VTags tags → sel ≠ [] → denotes b bs →
  denotes (emit_tags or sel b) (app bs [(if or then existsb id else forallb id) (tag_match tags <$> sel)]).
Proof.
  intros Ht Hne [Hi HF]. unfold emit_tags.
  set (b0 := {| b_conditions := []; b_args := b_args b; b_argIdx := b_argIdx b |}).
  assert (denotes (foldl tag_cond b0 sel) (tag_match tags <$> sel)) as [Hi' HF'].
  { apply (denotes_tag_conds sel b0 [] tags Ht). split; [done|]. intros. constructor. }
  assert (∃ more, b_args (foldl tag_cond b0 sel) = app (b_args b) more) as [more Hm].
  { change (b_args b) with (b_args b0). generalize b0. clear. induction sel as [|kv sel IH]; intros b; cbn.
    - exists []. by rewrite app_nil_r.
    - destruct (IH (tag_cond b kv)) as [more ->]. cbn. rewrite <- app_assoc. eauto. }
  split; [done|]. cbn [b_args b_conditions]. intros later. apply Forall2_app.
  - rewrite Hm, <- app_assoc. apply HF.
  - constructor; [|done]. apply conjunct_group; [apply HF'|]. intros E. specialize (HF' later). rewrite E in HF'.
    apply Forall2_length in HF'. rewrite length_fmap in HF'. destruct sel; done.
Qed.
Lemma denotes_if (c : bool) b b' bs bs' :
  denotes b bs → denotes b' bs' → denotes (if c then b else b') (if c then bs else bs').
Proof. by destruct c. Qed.
End Denotation.

(** ** Placeholders *)
Definition tok_args (t : tok) : list nat :=
  match t with TAtom (AAny _ n | AEq _ n | AContains _ n | AAfter _ _ n) => [n] | _ => [] end.
Definition placeholders (ts : list tok) : list nat := ts ≫= tok_args.

Lemma placeholders_join sep conds : tok_args sep = [] → placeholders (join_toks sep conds) = conds ≫= placeholders.
Proof.
  intros Hs. unfold placeholders. induction conds as [|c conds IH]; [done|]. destruct conds as [|c' conds].
  - cbn. by rewrite app_nil_r.
  - cbn [join_toks]. rewrite bind_app, (bind_cons (λ c, c ≫= tok_args) c). f_equal.
    rewrite bind_cons, Hs. cbn [app]. apply IH.
Qed.

Lemma placeholders_group c : placeholders (TOpen :: app c [TClose]) = placeholders c.
Proof. unfold placeholders. rewrite bind_cons, bind_app. cbn. by rewrite app_nil_r. Qed.

(** The conditions name the arguments so far in order, each once. *)
Definition numbered (b : Builder) : Prop :=
  b_argIdx b = S (length (b_args b)) ∧ b_conditions b ≫= placeholders = seq 1 (length (b_args b)).
Lemma numbered_emit mk v b : (∀ n, placeholders (mk n) = [n]) → numbered b → numbered (emit mk v b).
Proof.
  intros Hmk [Hi Hp]. split; cbn; rewrite length_app; cbn; [lia|]. rewrite bind_app, Hp. cbn. rewrite Hmk, Hi.
  rewrite Nat.add_1_r, seq_S. done.
Qed.
Lemma numbered_raw c b : placeholders c = [] → numbered b → numbered (emit_raw c b).
Proof. intros Hc [Hi Hp]. split; [done|]. cbn. rewrite bind_app, Hp. cbn. by rewrite Hc, !app_nil_r. Qed.
Lemma numbered_foldl {X} (f : Builder → X → Builder) xs b :
  (∀ x b, x ∈ xs → numbered b → numbered (f b x)) → numbered b → numbered (foldl f b xs).
Proof.
  revert b. induction xs as [|x xs IH]; intros b Hf Hb; [done|]. cbn.
  apply IH; [intros; apply Hf; [by right|done]|]. apply Hf; [left|done].
Qed.
(** The loop over the selectors continues the numbering of [b]. *)
Lemma tag_loop sel b b' :
  b_args b' = b_args b → b_argIdx b' = b_argIdx b → b_argIdx b = S (length (b_args b)) →
  let t := foldl tag_cond b' sel in
  b_argIdx t = S (length (b_args t)) ∧ length (b_args t) = (length (b_args b) + length sel)%nat ∧
  b_conditions t ≫= placeholders = app (b_conditions b' ≫= placeholders) (seq (b_argIdx b) (length sel)).
Proof.
  revert b b'. induction sel as [|kv sel IH]; intros b b' Ha Hi Hl; cbn [foldl length].
  - rewrite Ha, Hi, app_nil_r. split_and!; [done|lia|done].
  - destruct (IH (tag_cond b kv) (tag_cond b' kv)) as (Hi' & Hl' & Hp'); cbn.
    + by rewrite Ha.
    + by rewrite Hi.
    + rewrite length_app. cbn. lia.
    + split_and!; [done|rewrite Hl'; cbn; rewrite length_app; cbn; lia|]. rewrite Hp'. cbn.
      rewrite bind_app, <- app_assoc. cbn. rewrite Hi. done.
Qed.
Lemma numbered_tags or sel b : numbered b → numbered (emit_tags or sel b).
Proof.
  intros [Hi Hp]. unfold emit_tags.
  destruct (tag_loop sel b {| b_conditions := []; b_args := b_args b; b_argIdx := b_argIdx b |}) as (Hi' & Hl' & Hp'); [done..|].
  split; [exact Hi'|]. cbn [b_conditions b_args]. rewrite bind_app, Hp, Hl', seq_app. f_equal. cbn [mbind list_bind]. rewrite app_nil_r.
  rewrite placeholders_group.
  rewrite placeholders_join by (by destruct or). rewrite Hp'. cbn [b_conditions mbind list_bind app]. by rewrite Hi.
Qed.
Lemma numbered_if (c : bool) b b' : numbered b → numbered b' → numbered (if c then b else b').
Proof. by destruct c. Qed.
Lemma get_conditions_numbered bq fs raw :
  Forall (λ c, placeholders c = []) raw → numbered (get_conditions bq fs raw).
Proof.
  intros Hraw. unfold get_conditions. apply numbered_foldl.
  { rewrite Forall_forall in Hraw. intros c b Hc. apply numbered_raw. by apply Hraw. }
  assert (∀ (c : bool) mk v b, (∀ n, placeholders (mk n) = [n]) → numbered b → numbered (if c then b else emit mk v b)) as He
    by (intros [] **; [done|by apply numbered_emit]).
  apply He; [done|]. apply numbered_foldl; [intros cv b _; by apply numbered_emit|].
  set (b2 := if bool_decide (q_TagSelectors bq = []) then _ else _).
  assert (numbered b2) by (unfold b2; destruct (bool_decide _); [|apply numbered_tags]; repeat (apply He; [done|]); done).
  destruct (q_Expired bq); [by apply numbered_raw|done].
Qed.

(** In the text of a SELECT the placeholders are [$1], [$2], ... in order, and
    there is one argument for each: conditions, selectors and filters cannot
    shift each other's arguments, in whatever order the maps are iterated. *)
Theorem select_arguments_line_up {A} `{TableDescriptor A} bq includeStatic start limit fs raw s :
  Forall (λ c, placeholders c = []) raw →
  buildGetQuery A bq includeStatic start limit fs raw = Some s →
  app (placeholders (s_where s)) [s_offsetArg s; s_limitArg s] = seq 1 (length (s_args s)).
Proof.
  intros Hraw. unfold buildGetQuery. case_bool_decide; [done|]. intros [= <-]. cbn [s_where s_offsetArg s_limitArg s_args].
  destruct (get_conditions_numbered bq fs raw Hraw) as [Hi Hp]. rewrite placeholders_join, Hp, Hi, length_app by done.
  rewrite seq_app. done.
Qed.

Section Meaning.
Context (now : Z) (cells : string → value) (key tenant : string) (expiry : Z) (tags : gmap string string).
Context (Hid : cells colID = VText key) (Htenant : cells colTenantID = VText tenant)
        (Hexpiry : cells colExpiry = VInt expiry) (Htags : cells colTags = VTags tags).
Local Abbreviation denotes := (denotes now cells).

Lemma denotes_unless (c : bool) b b' bs x :
  (c = false → denotes b bs → denotes b' (app bs [x])) →
  denotes b bs → denotes (if c then b else b') (app bs (if c then [] else [x])).
Proof. destruct c; [by rewrite app_nil_r|auto]. Qed.
Lemma denotes_ids ids b bs :
  denotes b bs →
  denotes (if bool_decide (ids = []) then b else emit (λ n, [TAtom (AAny colID n)]) (VIDs ids) b)
    (app bs (if bool_decide (ids = []) then [] else [bool_decide (key ∈ ids)])).
Proof.
  apply denotes_unless. intros _. apply denotes_emit. intros args n Hn ts st o a. cbn. by rewrite Hn, Hid.
Qed.
Lemma denotes_tenant t b bs :
  denotes b bs →
  denotes (if bool_decide (t = "") then b else emit (λ n, [TAtom (AEq colTenantID n)]) (VText t) b)
    (app bs (if bool_decide (t = "") then [] else [bool_decide (tenant = t)])).
Proof.
  apply denotes_unless. intros _. apply denotes_emit. intros args n Hn ts st o a. cbn. rewrite Hn, Htenant.
  unfold sql_eq. rewrite bool_decide_eq_true_2 by done. do 2 f_equal. apply bool_decide_ext. split; congruence.
Qed.
Lemma denotes_selectors or sel b bs :
  denotes b bs →
  denotes (if bool_decide (sel = []) then b else emit_tags or sel b)
    (app bs (if bool_decide (sel = []) then [] else [(if or then existsb id else forallb id) (tag_match tags <$> sel)])).
Proof. apply denotes_unless. intros Hne. boolify. by apply denotes_tags. Qed.
Lemma denotes_expired (c : bool) b bs :
  denotes b bs →
  denotes (if c then emit_raw expiryCondition b else b) (app bs (if c then [expired_at now expiry] else [])).
Proof.
  destruct c; [|by rewrite app_nil_r]. apply denotes_raw. intros args ts st o a. cbn. rewrite Hexpiry.
  unfold expired_at. by rewrite andb_assoc.
Qed.
Lemma denotes_after desc after b bs :
  denotes b bs →
  denotes (if bool_decide (after = "") then b else emit (λ n, [TAtom (AAfter colID desc n)]) (VText after) b)
    (app bs (if bool_decide (after = "") then [] else [after_id desc after key])).
Proof.
  apply denotes_unless. intros _. apply denotes_emit. intros args n Hn ts st o a. cbn. by rewrite Hn, Hid.
Qed.

(** The conjuncts of a query on a row with these columns. *)
Definition meaning (bq : BaseQuery) (fs : list (string * value)) (raws : list bool) : list bool :=
  app (if bool_decide (q_IDs bq = []) then [] else [bool_decide (key ∈ q_IDs bq)])
  (app (if bool_decide (q_TenantID bq = "") then [] else [bool_decide (tenant = q_TenantID bq)])
  (app (if bool_decide (q_TagSelectors bq = []) then []
        else [(if q_TagsOr bq then existsb id else forallb id) (tag_match tags <$> q_TagSelectors bq)])
  (app (if q_Expired bq then [expired_at now expiry] else [])
  (app ((λ cv, sql_eq (cells cv.1) cv.2) <$> fs)
  (app (if bool_decide (q_AfterID bq = "") then [] else [after_id (q_Descending bq) (q_AfterID bq) key]) raws))))).

Lemma get_conditions_mean bq fs raw raws :
  Forall2 (λ c x, ∀ args, conjunct (holds now args cells) c x) raw raws →
  denotes (get_conditions bq fs raw) (meaning bq fs raws).
Proof.
  intros Hraw. unfold get_conditions, meaning. rewrite !app_assoc.
  apply denotes_raws, denotes_after, denotes_filters, denotes_expired, denotes_selectors, denotes_tenant; [done|].
  apply (denotes_ids _ _ []), denotes_none.
Qed.
Lemma where_meaning b bs later :
  denotes b bs →
  where_holds (holds now (app (b_args b) later) cells) (join_toks TAnd (b_conditions b)) = forallb id bs.
Proof.
  intros [_ HF]. unfold where_holds. rewrite <- (app_nil_r (join_toks _ _)).
  by rewrite (conjunct_join _ _ _ (HF later)).
Qed.
End Meaning.

(** ** Reading *)
Section Reading.
Context {A : Type} `{TableDescriptor A}.

(** The two last arguments are the offset and the limit. *)
Lemma int_arg_last b offset limit :
  b_argIdx b = S (length (b_args b)) →
  int_arg (app (b_args b) [VInt (Z.of_nat offset); VInt (Z.of_nat limit)]) (b_argIdx b) = offset ∧
  int_arg (app (b_args b) [VInt (Z.of_nat offset); VInt (Z.of_nat limit)]) (S (b_argIdx b)) = limit.
Proof.
  intros Hi. unfold int_arg. rewrite Hi. cbn [arg]. rewrite !lookup_app_r, Nat.sub_diag by lia.
  replace (S (length (b_args b)) - length (b_args b))%nat with 1%nat by lia. cbn. by rewrite !Nat2Z.id.
Qed.

(** [scanRow] reads every row of the SELECT, whatever the table. *)
Definition scanned (incl : bool) (id : string) (r : A) : Scanned :=
  {| sc_ID := as_string (cell id r colID); sc_TenantID := as_string (cell id r colTenantID);
     sc_Expiry := as_int64 (cell id r colExpiry);
     sc_Tags := match cell id r colTags with VTags m => m | _ => ∅ end;
     sc_Extras := (λ col, (col, cell id r col)) <$> (ExtraColumns A); sc_Status := cell id r colStatus;
     sc_Spec := if incl then cell id r colSpec else VNull |}.
Definition base_columns (id : string) (r : A) : Prop :=
  ∃ tenant expiry tags, cell id r colID = VText id ∧ cell id r colTenantID = VText tenant ∧
    cell id r colExpiry = VInt expiry ∧ cell id r colTags = VTags tags.
Lemma scanRow_columns incl id r :
  base_columns id r → scanRow A incl (cell id r <$> selectColumns A incl) = Ok (scanned incl id r).
Proof.
  intros (tenant & expiry & tags & Hid & Ht & He & Hg). unfold selectColumns, scanned. rewrite !fmap_app. cbn [fmap list_fmap app].
  rewrite Hid, Ht, He, Hg. cbn [scanRow].
  assert (length (ExtraColumns A) = length (cell id r <$> (ExtraColumns A))) as Hl by by rewrite length_fmap.
  rewrite !Hl, drop_app_length, take_app_length. replace (zip (ExtraColumns A) (cell id r <$> (ExtraColumns A)))
    with ((λ col, (col, cell id r col)) <$> (ExtraColumns A)); [by destruct incl|].
  clear. induction (ExtraColumns A); cbn; congruence.
Qed.
Lemma scan_rows_columns incl (rows : list (string * A)) :
  (∀ id r, base_columns id r) →
  scan_rows A incl ((λ kr, cell kr.1 kr.2 <$> selectColumns A incl) <$> rows)
  = Ok ((λ kr, scanned incl kr.1 kr.2) <$> rows).
Proof.
  intros Hb. induction rows as [|kr rows IH]; [done|]. cbn [fmap list_fmap scan_rows].
  rewrite (scanRow_columns incl kr.1 kr.2 (Hb _ _)). cbn [and_then]. by rewrite IH.
Qed.

(** [get] returns the page of the rows that satisfy the query's conjuncts. *)
Lemma get_pages now bq incl start limit fs raw m (bs : string → A → list bool) :
  (∀ id r, base_columns id r) →
  b_argIdx (get_conditions bq fs raw) = S (length (b_args (get_conditions bq fs raw))) →
  (∀ id r, denotes now (cell id r) (get_conditions bq fs raw) (bs id r)) →
  get now bq incl start limit fs raw m =
    if bool_decide (b_conditions (get_conditions bq fs raw) = []) then Ok ([], O, false) else
    let '(rows, cursor, more) :=
      get_at (select_rows (q_Descending bq) (λ k r, forallb id (bs k r)) m)
        (if bool_decide (q_AfterID bq = "") then start else O) start limit in
    Ok ((λ kr, scanned incl kr.1 kr.2) <$> rows, cursor, more).
Proof.
  intros Hcols Hi Hb. unfold get, buildGetQuery. case_bool_decide as E; [done|]. unfold exec_select.
  cbn [s_cols s_table s_where s_desc s_offsetArg s_limitArg s_args].
  set (b := get_conditions bq fs raw) in *. set (offset := if bool_decide _ then start else O).
  destruct (int_arg_last b offset (S limit) Hi) as [-> ->].
  rewrite (select_rows_ext (q_Descending bq) _ (λ k r, forallb id (bs k r)) m m)
    by (intros k r; by rewrite (where_meaning _ _ _ _ _ (Hb k r))).
  rewrite (scan_rows_columns incl _ Hcols). cbn [and_then]. unfold get_at. rewrite length_fmap.
  destruct (Nat.ltb_spec limit (length (take (S limit) (drop offset (select_rows (q_Descending bq) (λ k r, forallb id (bs k r)) m))))) as [Hl|Hl].
  - by rewrite <- fmap_take, length_fmap.
  - by rewrite (take_ge _ limit), length_fmap by done.
Qed.
End Reading.

Lemma forallb_fmap {X} (f : X → bool) l : forallb id (f <$> l) = forallb f l.
Proof. induction l; cbn; congruence. Qed.
Lemma existsb_fmap {X} (f : X → bool) l : existsb id (f <$> l) = existsb f l.
Proof. induction l; cbn; congruence. Qed.
Lemma forallb_perm {X} (f : X → bool) l l' : l ≡ₚ l' → forallb f l = forallb f l'.
Proof. induction 1; cbn; [done|congruence|by rewrite !andb_assoc, (andb_comm (f y))|congruence]. Qed.
Lemma existsb_perm {X} (f : X → bool) l l' : l ≡ₚ l' → existsb f l = existsb f l'.
Proof. induction 1; cbn; [done|congruence|by rewrite !orb_assoc, (orb_comm (f y))|congruence]. Qed.

Section Refinement.
Context {A : Type} `{TableDescriptor A} (witness : A).

(** A query whose conditions mean the predicates [cs] reads their page. *)
Lemma get_refines now bq incl start limit fs raw m (cs : list (string → A → bool)) :
  (∀ id r, base_columns id r) → Forall (λ c, placeholders c = []) raw →
  (∀ id r, denotes now (cell id r) (get_conditions bq fs raw) ((λ c : string → A → bool, c id r) <$> cs)) →
  get now bq incl start limit fs raw m =
    let '(rows, cursor, more) :=
      match cs with
      | [] => ([], O, false)
      | c :: cs => get_at (select_rows (q_Descending bq) (λ id r, forallb (λ c, c id r) (c :: cs)) m)
                (if bool_decide (q_AfterID bq = "") then start else O) start limit
      end in
    Ok ((λ kr, scanned incl kr.1 kr.2) <$> rows, cursor, more).
Proof.
  intros Hcols Hraw Hb. destruct (get_conditions_numbered bq fs raw Hraw) as [Hi _].
  rewrite (get_pages now bq incl start limit fs raw m _ Hcols Hi Hb).
  assert (length (b_conditions (get_conditions bq fs raw)) = length cs) as Hl.
  { destruct (Hb "" witness) as [_ HF]. rewrite (Forall2_length _ _ _ (HF [])). by rewrite length_fmap. }
  destruct cs as [|c cs]; [by rewrite bool_decide_eq_true_2 by by apply nil_length_inv|].
  rewrite bool_decide_eq_false_2 by (by intros E; rewrite E in Hl).
  by rewrite (select_rows_ext (q_Descending bq) _ (λ id r, forallb (λ c, c id r) (c :: cs)) m m)
    by (intros k r; by rewrite forallb_fmap).
Qed.
End Refinement.

(** ** The batch table *)
Definition zeroRow : Row :=
  {| r_tenant := ""; r_expiry := 0; r_tags := ∅; r_spec := ""; r_status := None; r_processor := None;
     r_priority := None; r_epoch := 0; r_attempts := 0; r_resumable := false; r_lease := None |}.
(** The item of a row. *)
Definition go_item (kr : string * Row) : GoItem :=
  {| gi_ID := kr.1; gi_TenantID := r_tenant kr.2; gi_Expiry := r_expiry kr.2; gi_Tags := r_tags kr.2;
     gi_Spec := r_spec kr.2; gi_Status := r_status kr.2; gi_ProcessorID := default "" (r_processor kr.2);
     gi_Priority := default 0 (r_priority kr.2); gi_Epoch := r_epoch kr.2; gi_RecoveryAttempts := r_attempts kr.2;
     gi_Resumable := r_resumable kr.2; gi_OwnerLeaseExpiresAt := r_lease kr.2 |}.

Lemma batch_columns id (r : Row) : base_columns id r.
Proof. by exists (r_tenant r), (r_expiry r), (r_tags r). Qed.
Lemma batch_item_scanned incl k r : batch_item (scanned incl k r) = go_item (if incl then (k, r) else without_spec (k, r)).
Proof. destruct r as [???? [] [] [] ??? []], incl; reflexivity. Qed.

Section BatchGet.
Context (sel : list (string * string)) (now : Z) (q : BatchQuery).
Context (Hsel : sel ≡ₚ map_to_list (bq_TagSelectors q)).

Lemma raw_conditions_mean (id : string) (r : Row) :
  Forall2 (λ c x, ∀ args, conjunct (holds now args (cell id r)) c x) (rawConditions q)
    (app (if bq_NonTerminal q then [nonTerminalCondition r] else [])
         (if bq_HasProcessorID q then [bool_decide (r_processor r ≠ None)] else [])).
Proof.
  apply Forall2_app; [destruct (bq_NonTerminal q)|destruct (bq_HasProcessorID q)]; repeat constructor; intros args ts st o a; cbn [eval app holds].
  - change (cell id r colStatus) with (opt_value VStatus (r_status r)). unfold nonTerminalCondition. by destruct (r_status r).
  - change (cell id r colProcessorID) with (opt_value VText (r_processor r)). do 2 f_equal. apply bool_decide_ext.
    by destruct (r_processor r).
Qed.
Lemma raw_conditions_plain : Forall (λ c, placeholders c = []) (rawConditions q).
Proof. apply Forall_app. split; [destruct (bq_NonTerminal q)|destruct (bq_HasProcessorID q)]; by repeat constructor. Qed.

Lemma batch_conditions_mean (id : string) (r : Row) :
  denotes now (cell id r) (get_conditions (base_query sel q) (extraFilters q) (rawConditions q))
    ((λ c, c id r) <$> conditions now q).
Proof.
  replace ((λ c, c id r) <$> conditions now q)
    with (meaning now (cell id r) id (r_tenant r) (r_expiry r) (r_tags r) (base_query sel q) (extraFilters q)
            (app (if bq_NonTerminal q then [nonTerminalCondition r] else [])
                 (if bq_HasProcessorID q then [bool_decide (r_processor r ≠ None)] else []))).
  { apply get_conditions_mean; [done..|]. apply raw_conditions_mean. }
  unfold meaning, conditions, extraFilters. rewrite !fmap_app. cbn [base_query q_IDs q_TenantID q_TagSelectors q_TagsOr q_Expired q_AfterID q_Descending].
  f_equal; [by case_bool_decide|]. f_equal; [by case_bool_decide|]. f_equal.
  { rewrite (bool_decide_ext (sel = []) (bq_TagSelectors q = ∅)).
    - case_bool_decide; [done|]. cbn. destruct (bq_TagsOr q).
      + by rewrite existsb_fmap, (existsb_perm _ _ _ Hsel).
      + by rewrite forallb_fmap, (forallb_perm _ _ _ Hsel).
    - rewrite <- map_to_list_empty_iff. split; intros E; rewrite E in Hsel;
        [symmetry; by apply Permutation_nil_l|by apply Permutation_nil_r]. }
  f_equal; [by destruct (bq_Expired q)|]. f_equal.
  { case_bool_decide; [done|]. cbn [fmap list_fmap fst snd].
    change (cell id r colProcessorID) with (opt_value VText (r_processor r)). unfold sql_eq. destruct (r_processor r) as [p|]; cbn.
    - rewrite bool_decide_eq_true_2 by done. f_equal. apply bool_decide_ext. split; congruence.
    - done. }
  f_equal; [by case_bool_decide|]. f_equal; [by destruct (bq_NonTerminal q)|by destruct (bq_HasProcessorID q)].
Qed.
End BatchGet.

Lemma batch_get_page sel now q includeStatic start limit db :
  sel ≡ₚ map_to_list (bq_TagSelectors q) →
  batch_get sel now q includeStatic start limit (items db) =
  let '(rows, cursor, more) := db_page now q start limit db in
  Ok (go_item <$> (if includeStatic then rows else without_spec <$> rows), cursor, more).
Proof.
  intros Hsel. unfold batch_get.
  rewrite (get_refines zeroRow now (base_query sel q) includeStatic start limit (extraFilters q) (rawConditions q) (items db)
    (conditions now q) batch_columns (raw_conditions_plain q) (batch_conditions_mean sel now q Hsel)).
  cbn [base_query q_Descending q_AfterID]. fold (db_page now q start limit db).
  destruct (db_page now q start limit db) as [[rows cursor] more]. cbn [and_then]. f_equal. f_equal. f_equal.
  rewrite <- list_fmap_compose. destruct includeStatic; [|rewrite <- list_fmap_compose]; apply list_fmap_ext; intros ? [k r] _; cbn [compose fst snd];
    by rewrite batch_item_scanned.
Qed.

(** [C26] Reading batches is exact: whatever a query selects, orders and skips, the
    SELECT that [DBGet] builds names its arguments [$1], [$2], ... in the order of
    the argument list, each once, and executing it on the table and scanning its
    rows by position returns the items of the page [Query.db_page] describes, with
    its cursor and whether more rows are left, for every order in which the
    selectors of the tag map are iterated. *)
Theorem batch_get_refines sel now q includeStatic start limit db :
  sel ≡ₚ map_to_list (bq_TagSelectors q) →
  (∀ s, buildGetQuery Row (base_query sel q) includeStatic start (S limit) (extraFilters q) (rawConditions q) = Some s →
        app (placeholders (s_where s)) [s_offsetArg s; s_limitArg s] = seq 1 (length (s_args s))) ∧
  batch_get sel now q includeStatic start limit (items db) =
    let '(rows, cursor, more) := db_page now q start limit db in
    Ok (go_item <$> (if includeStatic then rows else without_spec <$> rows), cursor, more).
Proof.
  intros Hsel. split; [|by apply batch_get_page].
  intros s. apply select_arguments_line_up, raw_conditions_plain.
Qed.

(** ** The file table *)
Definition zeroFile : FileRow :=
  {| fr_tenant := ""; fr_filename := ""; fr_bytes := 0; fr_purpose := ""; fr_created := 0; fr_expires := None |}.
Lemma file_columns id (r : FileRow) : base_columns id r.
Proof. by exists (fr_tenant r), (file_expiry r), ∅. Qed.
Lemma file_conditions_mean now q (id : string) (r : FileRow) :
  denotes now (cell id r) (get_conditions (file_base_query q) (file_filters q) []) ((λ c, c id r) <$> file_conditions now q).
Proof.
  replace ((λ c, c id r) <$> file_conditions now q)
    with (meaning now (cell id r) id (fr_tenant r) (file_expiry r) ∅ (file_base_query q) (file_filters q) []).
  { apply get_conditions_mean; [done..|]. constructor. }
  unfold meaning, file_conditions, file_filters. rewrite !fmap_app.
  cbn [file_base_query q_IDs q_TenantID q_TagSelectors q_TagsOr q_Expired q_AfterID q_Descending].
  f_equal; [by case_bool_decide|]. f_equal; [by case_bool_decide|]. rewrite bool_decide_eq_true_2 by done. cbn [app].
  f_equal; [by destruct (fq_Expired q)|]. f_equal; [|rewrite app_nil_r; by case_bool_decide].
  case_bool_decide; [done|]. cbn [fmap list_fmap fst snd]. change (cell id r colPurpose) with (VText (fr_purpose r)).
  unfold sql_eq. rewrite bool_decide_eq_true_2 by done. cbn. f_equal. apply bool_decide_ext. split; congruence.
Qed.

(** [DBGet] of the file client is [FileItems.file_page]: with the spec it
    returns the rows of the page, whole. *)
Theorem file_get_refines now q includeStatic start limit m :
  file_get now q includeStatic start limit m =
  let '(rows, cursor, more) := file_page now q start limit m in
  Ok ((λ kr, (scanned includeStatic kr.1 kr.2, fr_purpose kr.2)) <$> rows, cursor, more).
Proof.
  unfold file_get.
  rewrite (get_refines zeroFile now (file_base_query q) includeStatic start limit (file_filters q) [] m
    (file_conditions now q) file_columns (Forall_nil_2 _) (file_conditions_mean now q)).
  cbn [file_base_query q_Descending q_AfterID]. fold (file_page now q start limit m).
  destruct (file_page now q start limit m) as [[rows cursor] more]. cbn [and_then].
  by rewrite <- list_fmap_compose.
Qed.
