(* ===== verification/Writes.v ===== *)
(** * INSERT and UPDATE of the table clients

    [store] and [update] of [db_core.go] with [DBStore] and [DBUpdate] of
    [batch_db.go] and [DBStore] of [file_db.go]: the statements as they are
    built, executed column by column, and shown to be the transitions
    [Store.sql_insert] and [StoreOps.DBUpdate] that the rest of the development
    reasons about. *)

From Stdlib Require Import ZArith Lia.
From stdpp Require Import base gmap strings list sorting pretty.
From S2P Require Import Prelude Openai Store StoreOps Finalizer Query Collector FileItems Keyset Statements.
Local Open Scope string_scope.
Local Open Scope Z_scope.

(** ** INSERT *)
Record Insert := { i_table : string; i_cols : list string; i_placeholders : list nat; i_args : list value }.
Definition insert_text (s : Insert) : string :=
  "INSERT INTO " ++ i_table s ++ " (" ++ String.concat ", " (i_cols s) ++ ") VALUES ("
  ++ String.concat ", " (placeholder <$> i_placeholders s) ++ ")".

(** The values of the extra columns, in column order. *)
Fixpoint extra_args (cols : list string) (vals : gmap string value) : result (list value) :=
  match cols with
  | [] => Ok []
  | col :: cols =>
      match vals !! col with
      | Some v => and_then (extra_args cols vals) (λ vs, Ok (v :: vs))
      | None => Err (ErrOther "missing required extra column")
      end
  end.
(** [BaseIndexes] and [BaseContents] of an item. *)
Record Base := {
  ba_ID : string; ba_TenantID : string; ba_Expiry : Z; ba_Tags : gmap string string; ba_Spec : value; ba_Status : value }.
Definition store (A : Type) `{TableDescriptor A} (it : Base) (extraValues : gmap string value) : result Insert :=
  if bool_decide (ba_ID it = "") then Err (ErrOther "ID is empty") else
  and_then (extra_args (ExtraColumns A) extraValues) (λ extras,
  Ok {| i_table := TableName A; i_cols := allColumns A; i_placeholders := S <$> seq 0 (length (allColumns A));
        i_args := app [VText (ba_ID it); VText (ba_TenantID it); VInt (ba_Expiry it); VTags (ba_Tags it)]
                    (app extras [ba_Spec it; ba_Status it]) |}).

(** The column an INSERT writes: its position in the list, then the argument of
    the placeholder at that position. *)
Definition inserted (s : Insert) (col : string) : value :=
  match list_find (λ c, c = col) (i_cols s) with
  | Some (i, _) => default VNull (i_placeholders s !! i ≫= arg (i_args s))
  | None => VNull
  end.

(** *** Batches *)
(** The row a tuple of columns makes; a column of the wrong type is refused. *)
Definition not_null {X} (f : value → option X) (v : value) : option (option X) :=
  match v with VNull => Some None | _ => Some <$> f v end.
Definition is_text (v : value) : option string := match v with VText s => Some s | _ => None end.
Definition is_int (v : value) : option Z := match v with VInt z => Some z | _ => None end.
Definition is_bool (v : value) : option bool := match v with VBool b => Some b | _ => None end.
Definition is_tags (v : value) : option (gmap string string) := match v with VTags m => Some m | _ => None end.
Definition row_of_cells (f : string → value) : option Row :=
  tenant ← is_text (f colTenantID); expiry ← is_int (f colExpiry); tags ← is_tags (f colTags);
  spec ← is_text (f colSpec); status ← not_null as_status (f colStatus);
  processor ← not_null is_text (f colProcessorID); priority ← not_null is_int (f colPriority);
  epoch ← is_int (f colEpoch); attempts ← is_int (f colRecoveryAttempts); resumable ← is_bool (f colResumable);
  lease ← not_null as_time (f colOwnerLeaseExpiryAt);
  Some {| r_tenant := tenant; r_expiry := expiry; r_tags := tags; r_spec := spec; r_status := status;
          r_processor := processor; r_priority := priority; r_epoch := epoch; r_attempts := attempts;
          r_resumable := resumable; r_lease := lease |}.

(** [DBStore]: the empty processor ID and the zero lease are NULL. *)
Definition batch_extras (it : GoItem) : gmap string value :=
  {[ colProcessorID := if bool_decide (gi_ProcessorID it = "") then VNull else VText (gi_ProcessorID it);
     colPriority := VInt (gi_Priority it); colEpoch := VInt (gi_Epoch it);
     colRecoveryAttempts := VInt (gi_RecoveryAttempts it); colResumable := VBool (gi_Resumable it);
     colOwnerLeaseExpiryAt := opt_value VTime (gi_OwnerLeaseExpiresAt it) ]}.
Definition batch_base (it : GoItem) : Base :=
  {| ba_ID := gi_ID it; ba_TenantID := gi_TenantID it; ba_Expiry := gi_Expiry it; ba_Tags := gi_Tags it;
     ba_Spec := VText (gi_Spec it); ba_Status := opt_value VStatus (gi_Status it) |}.
Definition batch_store (it : GoItem) (db : DB) : DB * result unit :=
  match store Row (batch_base it) (batch_extras it) with
  | Err e => (db, Err e)
  | Ok s => match inserted s colID, row_of_cells (inserted s) with
            | VText id, Some r => sql_insert id r db
            | _, _ => (db, Err ErrIO)
            end
  end.
(** The row of an item. *)
Definition go_row (it : GoItem) : Row :=
  {| r_tenant := gi_TenantID it; r_expiry := gi_Expiry it; r_tags := gi_Tags it; r_spec := gi_Spec it;
     r_status := gi_Status it; r_processor := if bool_decide (gi_ProcessorID it = "") then None else Some (gi_ProcessorID it);
     r_priority := Some (gi_Priority it); r_epoch := gi_Epoch it; r_attempts := gi_RecoveryAttempts it;
     r_resumable := gi_Resumable it; r_lease := gi_OwnerLeaseExpiresAt it |}.

(** *** Files *)
Definition file_base (id : string) (r : FileRow) : Base :=
  {| ba_ID := id; ba_TenantID := fr_tenant r; ba_Expiry := file_expiry r; ba_Tags := ∅; ba_Spec := VFile r;
     ba_Status := VNull |}.
Definition file_store (id : string) (r : FileRow) : result Insert :=
  store FileRow (file_base id r) {[ colPurpose := VText (fr_purpose r) ]}.

(** ** UPDATE *)

(** A SET clause assigns an argument, or counts a column up. *)
Inductive set_clause := SArg (col : string) (n : nat) | SIncr (col : string).
Definition set_text (s : set_clause) : string :=
  match s with
  | SArg col n => col ++ " = " ++ placeholder n
  | SIncr col => col ++ " = " ++ col ++ " + 1"
  end.
Record Update := { u_table : string; u_set : list set_clause; u_where : list tok; u_args : list value }.
Definition update_text (s : Update) : string :=
  "UPDATE " ++ u_table s ++ " SET " ++ String.concat ", " (set_text <$> u_set s) ++ " WHERE " ++ text (u_where s).

(** A SET clause with its argument, counted like a condition. *)
Definition emit_set (col : string) (v : value) (p : list set_clause * list value * nat) : list set_clause * list value * nat :=
  let '(sets, args, idx) := p in (app sets [SArg col idx], app args [v], S idx).
(** [None]: there is nothing to set and no statement is sent. *)
Definition build_update (A : Type) `{TableDescriptor A} (id : string) (status : option BatchStatusInfo)
    (tags : gmap string string) (expectedStatus : option BatchStatusInfo) (extraConditions : list (string * value))
    (rawSets : list set_clause) : option Update :=
  let p := ([], [], 1%nat) in
  let p := match status with Some d => emit_set colStatus (VStatus d) p | None => p end in
  let p := if bool_decide (tags = ∅) then p else emit_set colTags (VTags tags) p in
  let '(sets, args, idx) := p in
  match sets with
  | [] => None
  | _ =>
      let b := emit (λ n, [TAtom (AEq colID n)]) (VText id) {| b_conditions := []; b_args := args; b_argIdx := idx |} in
      let b := match expectedStatus with
               | Some d => emit (λ n, [TAtom (AEq colStatus n)]) (VStatus d) b
               | None => b
               end in
      let b := foldl emit_filter b extraConditions in
      Some {| u_table := TableName A; u_set := app sets rawSets; u_where := join_toks TAnd (b_conditions b);
              u_args := b_args b |}
  end.

(** The columns after an UPDATE; the right-hand sides read the old row. *)
Definition assign (args : list value) (old : string → value) (new : string → value) (s : set_clause) : string → value :=
  match s with
  | SArg col n => λ c, if bool_decide (c = col) then default VNull (arg args n) else new c
  | SIncr col => λ c, if bool_decide (c = col) then match old col with VInt z => VInt (z + 1) | v => v end else new c
  end.
Definition updated_row (s : Update) (id : string) (r : Row) : Row :=
  default r (row_of_cells (foldl (assign (u_args s) (cell id r)) (cell id r) (u_set s))).
Definition exec_update (now : Z) (s : Update) (db : DB) : DB * nat :=
  let sel id r := where_holds (holds now (u_args s) (cell id r)) (u_where s) in
  ({| items := map_imap (λ id r, Some (if sel id r then updated_row s id r else r)) (items db); entries := entries db |},
   length (select_rows false sel (items db))).

(** [DBUpdate]: [fs] are the entries of the condition map in iteration order. *)
Definition update_conditions (it : BatchItem) : list (string * value) :=
  app (if (0 <? r_epoch (bi_row it)) || bi_BumpEpoch it then [(colEpoch, VInt (r_epoch (bi_row it)))] else [])
      match bi_ExpectedResumable it with Some b => [(colResumable, VBool b)] | None => [] end.
Definition batch_update (now : Z) (fs : list (string * value)) (it : BatchItem) (expectedStatus : option BatchStatusInfo)
    (db : DB) : DB * result unit :=
  if bool_decide (bi_ID it = "") then (db, Err (ErrOther "ID is empty")) else
  match build_update Row (bi_ID it) (r_status (bi_row it)) (r_tags (bi_row it)) expectedStatus fs
          (if bi_BumpEpoch it then [SIncr colEpoch] else []) with
  | None => (db, Ok tt)
  | Some s =>
      match exec_update now s db with
      | (db', O) => (db', Err (if bool_decide (expectedStatus = None) && bool_decide (fs = [])
                               then ErrOther "item not found" else ErrConflict))
      | (db', S _) => (db', Ok tt)
      end
  end.

(** ** Inserting *)
Lemma row_of_cells_cell id r : row_of_cells (cell id r) = Some r.
Proof. destruct r as [???? [] [] [] ??? []]; reflexivity. Qed.
Lemma go_item_row it : go_item (gi_ID it, go_row it) = it.
Proof. destruct it. unfold go_row, go_item. cbn. f_equal. by case_bool_decide. Qed.

(** What is inserted is the row of the item, column for column. *)
Lemma batch_store_row it db :
  batch_store it db =
    if bool_decide (gi_ID it = "") then (db, Err (ErrOther "ID is empty")) else sql_insert (gi_ID it) (go_row it) db.
Proof.
  unfold batch_store, store. cbn [batch_base ba_ID]. case_bool_decide; [done|].
  destruct it as [id tenant expiry tags spec [] proc prio ep ra res []]; unfold go_row; cbn [gi_ProcessorID];
    (destruct (bool_decide (proc = "")) eqn:E; unfold batch_extras; cbn [gi_ProcessorID]; rewrite E; reflexivity).
Qed.

(** The query for one ID. *)
Definition by_key (id : string) : BatchQuery :=
  {| bq_IDs := [id]; bq_TenantID := ""; bq_TagSelectors := ∅; bq_TagsOr := false; bq_Expired := false; bq_AfterID := "";
     bq_Descending := false; bq_ProcessorID := ""; bq_NonTerminal := false; bq_HasProcessorID := false |}.
Lemma db_page_by_key now id limit db :
  db_page now (by_key id) 0 (S limit) db =
    match items db !! id with Some r => ([(id, r)], 1%nat, false) | None => ([], O, false) end.
Proof.
  unfold db_page. change (conditions now (by_key id)) with [λ (k : string) (_ : Row), bool_decide (k ∈ [id])]. cbn iota.
  rewrite (select_one _ _ _ id) by (intros k r Hk; cbn in Hk; boolify; set_solver).
  destruct (items db !! id); [|by destruct limit]. cbn [forallb]. rewrite bool_decide_eq_true_2 by set_solver.
  by destruct limit.
Qed.

(** An item that was stored is read back whole by its ID, at any time and with any
    page size: no column is swapped, lost or changed on the way, although INSERT
    lists the spec before the status and SELECT after it, and NULL stands for the
    empty processor ID. *)
Theorem stored_item_reads_back now it db db' limit :
  batch_store it db = (db', Ok tt) →
  batch_get [] now (by_key (gi_ID it)) true 0 (S limit) (items db') = Ok ([it], 1%nat, false).
Proof.
  rewrite batch_store_row. intros H. case_bool_decide; [done|]. unfold sql_insert in H.
  destruct (items db !! gi_ID it); [done|]. injection H as <-.
  rewrite batch_get_page, db_page_by_key by done. cbn [items]. rewrite lookup_insert_eq. cbn [fmap list_fmap].
  by rewrite go_item_row.
Qed.

(** The INSERT of a file writes every column of its row. *)
Theorem file_insert_columns id r :
  id ≠ "" → ∃ s, file_store id r = Ok s ∧ ∀ col, col ∈ allColumns FileRow → inserted s col = cell id r col.
Proof.
  intros Hid. unfold file_store, store. cbn [file_base ba_ID]. rewrite bool_decide_eq_false_2 by done.
  eexists. split; [reflexivity|]. intros col Hcol. unfold allColumns in Hcol. cbn [app ExtraColumns fileTableDescriptor] in Hcol.
  repeat (apply elem_of_cons in Hcol as [->|Hcol]; [reflexivity|]). by apply elem_of_nil in Hcol.
Qed.

(** ** Updating *)
Section Updating.
Context (now : Z) (id : string) (status : option BatchStatusInfo) (tags : gmap string string)
        (expected : option BatchStatusInfo) (fs : list (string * value)) (bump : bool).
Definition rawSets : list set_clause := if bump then [SIncr colEpoch] else [].

(** The SET clauses name the first arguments, so the conditions follow. *)
Definition update_sets : list set_clause * list value * nat :=
  let p := ([], [], 1%nat) in
  let p := match status with Some d => emit_set colStatus (VStatus d) p | None => p end in
  if bool_decide (tags = ∅) then p else emit_set colTags (VTags tags) p.
Lemma update_sets_counted : update_sets.2 = S (length update_sets.1.2).
Proof. unfold update_sets. destruct status, (bool_decide (tags = ∅)); reflexivity. Qed.

Definition update_builder : Builder :=
  let b := emit (λ n, [TAtom (AEq colID n)]) (VText id)
    {| b_conditions := []; b_args := update_sets.1.2; b_argIdx := update_sets.2 |} in
  let b := match expected with Some d => emit (λ n, [TAtom (AEq colStatus n)]) (VStatus d) b | None => b end in
  foldl emit_filter b fs.
Lemma build_update_eq :
  build_update Row id status tags expected fs rawSets =
  if bool_decide (status = None) && bool_decide (tags = ∅) then None
  else Some {| u_table := TableName Row; u_set := app update_sets.1.1 rawSets;
               u_where := join_toks TAnd (b_conditions update_builder); u_args := b_args update_builder |}.
Proof.
  unfold build_update, update_builder, update_sets.
  destruct status; [rewrite (bool_decide_eq_false_2 (Some _ = None)) by done|rewrite (bool_decide_eq_true_2 (None = None)) by done];
    destruct (bool_decide (tags = ∅)), expected; reflexivity.
Qed.

Lemma update_builder_means k (r : Row) :
  denotes now (cell k r) update_builder
    (app [bool_decide (k = id)]
      (app (match expected with Some d => [bool_decide (r_status r = Some d)] | None => [] end)
           ((λ cv, sql_eq (cell k r cv.1) cv.2) <$> fs))).
Proof.
  unfold update_builder. rewrite app_assoc. apply denotes_filters.
  assert (denotes now (cell k r) {| b_conditions := []; b_args := update_sets.1.2; b_argIdx := update_sets.2 |} []) as H0
    by (split; [apply update_sets_counted|intros; constructor]).
  assert (denotes now (cell k r) (emit (λ n, [TAtom (AEq colID n)]) (VText id)
    {| b_conditions := []; b_args := update_sets.1.2; b_argIdx := update_sets.2 |}) [bool_decide (k = id)]) as H1.
  { apply (denotes_emit _ _ _ _ _ _ []); [|done]. intros args n Hn ts st o a. cbn [eval app holds]. rewrite Hn.
    change (cell k r colID) with (VText k). unfold sql_eq. rewrite bool_decide_eq_true_2 by done. cbn. do 2 f_equal.
    apply bool_decide_ext. split; congruence. }
  destruct expected as [d|]; [|by rewrite app_nil_r]. apply denotes_emit; [|done].
  intros args n Hn ts st o a. cbn [eval app holds]. rewrite Hn.
  change (cell k r colStatus) with (opt_value VStatus (r_status r)). unfold sql_eq. destruct (r_status r); cbn; [|done].
  rewrite bool_decide_eq_true_2 by done. cbn. do 2 f_equal. apply bool_decide_ext. split; congruence.
Qed.
Lemma updated_row_set w k (r : Row) :
  updated_row {| u_table := TableName Row; u_set := app update_sets.1.1 rawSets; u_where := w; u_args := b_args update_builder |} k r
  = update_set status tags bump r.
Proof.
  assert (∃ more, b_args update_builder = app update_sets.1.2 more) as [more E].
  { unfold update_builder. cbn zeta. set (b0 := match expected with Some _ => _ | None => _ end).
    assert (∃ more, b_args b0 = app update_sets.1.2 more) as [more E] by (unfold b0; destruct expected; cbn; rewrite <- ?app_assoc; eauto).
    clearbody b0. revert b0 more E. induction fs as [|cv l IH]; intros b0 more E; [eauto|]. cbn.
    eapply (IH _ (app more [cv.2])). cbn. by rewrite E, app_assoc. }
  unfold updated_row. cbn [u_set u_args]. rewrite E. unfold update_sets, rawSets, update_set.
  destruct r as [???? s0 p0 pr0 ??? l0].
  destruct status, (bool_decide (tags = ∅)), bump; cbn -[row_of_cells]; destruct s0, p0, pr0, l0; reflexivity.
Qed.
End Updating.

Lemma map_imap_one {A} (sel : string → A → bool) (g : A → bool) (f : string → A → A) id (m : gmap string A) :
  (∀ k r, sel k r = bool_decide (k = id) && g r) →
  map_imap (λ k r, Some (if sel k r then f k r else r)) m =
  match m !! id with Some r => if g r then <[id := f id r]> m else m | None => m end.
Proof.
  intros Hs. apply map_eq. intros k. rewrite map_lookup_imap. destruct (decide (k = id)) as [->|Hne].
  - destruct (m !! id) as [r|] eqn:E; cbn; [|by rewrite E]. rewrite Hs, bool_decide_eq_true_2 by done. cbn.
    destruct (g r); [by rewrite lookup_insert_eq|by rewrite E].
  - transitivity (m !! k).
    + destruct (m !! k); cbn; [|done]. by rewrite Hs, bool_decide_eq_false_2.
    + destruct (m !! id) as [r|]; [|done]. destruct (g r); [|done]. by rewrite lookup_insert_ne.
Qed.
Lemma exec_update_one now s id g f db :
  (∀ k r, where_holds (holds now (u_args s) (cell k r)) (u_where s) = bool_decide (k = id) && g r) →
  (∀ k r, updated_row s k r = f r) →
  exec_update now s db = update_row g f id db.
Proof.
  intros Hs Hf. unfold exec_update. rewrite (map_imap_one _ g _ id _ Hs).
  rewrite (select_one _ _ _ id) by (intros k r Hk; rewrite Hs in Hk; by boolify). unfold update_row.
  destruct db as [its ents]. cbn [items entries]. destruct (its !! id) as [r|]; [|done].
  rewrite Hs, bool_decide_eq_true_2, Hf by done. by destruct (g r).
Qed.

Lemma update_guard_means k r it expected fs :
  fs ≡ₚ update_conditions it →
  forallb id (app [bool_decide (k = bi_ID it)]
        (app (match expected with Some d => [bool_decide (r_status r = Some d)] | None => [] end)
             ((λ cv, sql_eq (cell k r cv.1) cv.2) <$> fs))) =
  bool_decide (k = bi_ID it) &&
  update_guard {| uc_status := expected;
    uc_epoch := if (0 <? r_epoch (bi_row it)) || bi_BumpEpoch it then Some (r_epoch (bi_row it)) else None;
    uc_resumable := bi_ExpectedResumable it |} r.
Proof.
  intros Hp. cbn [app forallb]. f_equal. rewrite forallb_app, forallb_fmap, (forallb_perm _ _ _ Hp). unfold update_guard, update_conditions.
  cbn [uc_status uc_epoch uc_resumable]. rewrite forallb_app, andb_assoc. f_equal; [f_equal|].
  - destruct expected; cbn; [by rewrite andb_true_r|done].
  - destruct (_ || _); [|done]. cbn [forallb fst snd]. change (cell k r colEpoch) with (VInt (r_epoch r)). unfold sql_eq.
    rewrite bool_decide_eq_true_2, andb_true_r by done. cbn [andb]. destruct (Z.eqb_spec (r_epoch r) (r_epoch (bi_row it))) as [->|Hne].
    + by apply bool_decide_eq_true_2.
    + apply bool_decide_eq_false_2. congruence.
  - destruct (bi_ExpectedResumable it); [|done]. cbn [forallb fst snd]. change (cell k r colResumable) with (VBool (r_resumable r)). unfold sql_eq.
    rewrite bool_decide_eq_true_2, andb_true_r by done. cbn. apply bool_decide_ext. split; congruence.
Qed.

Lemma update_conditions_nil fs it :
  fs ≡ₚ update_conditions it →
  bool_decide (fs = []) =
  bool_decide ((if (0 <? r_epoch (bi_row it)) || bi_BumpEpoch it then Some (r_epoch (bi_row it)) else None) = None)
  && bool_decide (bi_ExpectedResumable it = None).
Proof.
  intros Hp. rewrite (bool_decide_ext (fs = []) (update_conditions it = [])).
  - unfold update_conditions. destruct (_ || _), (bi_ExpectedResumable it); cbn;
      repeat first [rewrite bool_decide_eq_false_2 by done|rewrite bool_decide_eq_true_2 by done]; done.
  - split; intros E; rewrite E in Hp; [symmetry; by apply Permutation_nil_l|by apply Permutation_nil_r].
Qed.

(** [C27] [DBUpdate] of the batch client is [StoreOps.DBUpdate]: the statement it builds
    updates the row with the item's ID if the status, epoch and resumable
    conditions hold, sets exactly the given columns and the bumped epoch, and a
    statement that matched no row is a conflict if it carried a condition. This
    holds for every order in which the conditions of the map are iterated. *)
Theorem batch_update_refines now fs it expected db :
  fs ≡ₚ update_conditions it →
  batch_update now fs it expected db = DBUpdate NetOk (Some it) expected db.
Proof.
  intros Hp. unfold batch_update, DBUpdate. case_bool_decide; [done|]. cbn zeta.
  rewrite (build_update_eq (bi_ID it) _ _ expected fs (bi_BumpEpoch it)).
  destruct (bool_decide (r_status (bi_row it) = None) && _) eqn:E; [done|].
  erewrite exec_update_one; cycle 1.
  - intros k r. cbn [u_args u_where]. pose proof (update_builder_means now (bi_ID it) (r_status (bi_row it)) (r_tags (bi_row it)) expected fs k r) as Hm.
    rewrite <- (app_nil_r (b_args _)), (where_meaning _ _ _ _ [] Hm). by apply update_guard_means.
  - intros k r. apply updated_row_set.
  - unfold sql_update, exec, bindM, total. destruct (update_row _ _ _ db) as [db' [|k]]; [|done].
    cbn [uc_status uc_epoch uc_resumable]. rewrite <- andb_assoc, (update_conditions_nil fs it Hp).
    by destruct (bool_decide _ && (_ && _)).
Qed.

(** ** On concrete tables *)
Module StatementRuns.
Definition doc (st : BatchStatus) : BatchStatusInfo :=
  {| Status := st; OutputFileID := None; ErrorFileID := None; CancelledAt := None; CancellingAt := None;
     CompletedAt := None; ExpiredAt := None; ExpiresAt := None; FailedAt := None; FinalizingAt := None;
     InProgressAt := None; Model := ""; RequestCounts := {| Total := 0; Completed := 0; Failed := 0 |};
     Errors := None; Usage := None |}.
Definition row (tags : gmap string string) (st : BatchStatus) : Row :=
  {| r_tenant := "t"; r_expiry := 0; r_tags := tags; r_spec := "spec"; r_status := Some (doc st); r_processor := Some "p";
     r_priority := Some 7; r_epoch := 3; r_attempts := 0; r_resumable := true; r_lease := None |}.
Definition db : DB :=
  {| items := {[ "a" := row {[ "k" := "v" ]} "in_progress"; "b" := row {[ "l" := "w" ]} "in_progress";
                 "c" := row ∅ "in_progress"; "d" := row {[ "k" := "v" ]} "completed" ]}; entries := ∅ |}.
(** The open batches of the tenant with one of two tags. *)
Definition q : BatchQuery :=
  {| bq_IDs := []; bq_TenantID := "t"; bq_TagSelectors := {[ "k" := "v"; "l" := "w" ]}; bq_TagsOr := true;
     bq_Expired := false; bq_AfterID := ""; bq_Descending := true; bq_ProcessorID := ""; bq_NonTerminal := true;
     bq_HasProcessorID := false |}.
Definition sel : list (string * string) := [("l", "w"); ("k", "v")].

Example select_in_either_order :
  select_text <$> buildGetQuery Row (base_query sel q) false 0 11 (extraFilters q) (rawConditions q) =
  Some ("SELECT id, tenant_id, expiry, tags, processor_id, priority, epoch, recovery_attempts, resumable, "
        ++ "owner_lease_expires_at, status FROM batch_items WHERE tenant_id = $1 AND "
        ++ "(tags @> $2::jsonb OR tags @> $3::jsonb) AND status::jsonb->>'status' NOT IN "
        ++ "('completed','failed','expired','cancelled') ORDER BY id DESC OFFSET $4 LIMIT $5").
Proof. vm_compute. reflexivity. Qed.
Example update_with_fence :
  update_text <$> build_update Row "a" (Some (doc "cancelling")) {[ "k" := "v" ]} None
    [(colResumable, VBool true); (colEpoch, VInt 3)] [SIncr colEpoch] =
  Some "UPDATE batch_items SET status = $1, tags = $2, epoch = epoch + 1 WHERE id = $3 AND resumable = $4 AND epoch = $5".
Proof. vm_compute. reflexivity. Qed.

Lemma sel_perm : sel ≡ₚ map_to_list (bq_TagSelectors q).
Proof.
  apply NoDup_Permutation; [repeat constructor; set_solver|apply NoDup_map_to_list|].
  intros [k v]. rewrite elem_of_map_to_list. cbn [q bq_TagSelectors]. unfold sel.
  rewrite !elem_of_cons, elem_of_nil, lookup_insert_Some, lookup_singleton_Some. naive_solver.
Qed.
Lemma batch_get_refines_run :
  batch_get sel 0 q false 0 10 (items db) =
  Ok ([go_item (without_spec ("b", row {[ "l" := "w" ]} "in_progress"));
       go_item (without_spec ("a", row {[ "k" := "v" ]} "in_progress"))], 2%nat, false).
Proof.
  destruct (batch_get_refines sel 0 q false 0 10 db sel_perm) as [_ ->]. vm_compute. reflexivity.
Defined.

Definition write : BatchItem :=
  {| bi_ID := "a"; bi_row := row ∅ "cancelling"; bi_BumpEpoch := true; bi_ExpectedResumable := Some true |}.
Lemma batch_update_refines_run :
  let '(db', r) := batch_update 0 (rev (update_conditions write)) write (Some (doc "in_progress")) db in
  r = Ok tt ∧ (r_epoch <$> items db' !! "a") = Some 4 ∧
  batch_update 0 (rev (update_conditions write)) write None db' = (db', Err ErrConflict).
Proof.
  rewrite (batch_update_refines 0 (rev (update_conditions write)) write (Some (doc "in_progress")) db)
    by (symmetry; apply Permutation_rev).
  destruct (DBUpdate NetOk (Some write) (Some (doc "in_progress")) db) as [db' r] eqn:E. vm_compute in E. injection E as <- <-.
  split_and!; vm_compute; reflexivity.
Defined.
End StatementRuns.
