(* ===== verification/Connection.v ===== *)
(** * Connections to PostgreSQL

    [db_postgresql.go] with [newPgCore] and [close] of [db_core.go]: how a
    client opens its pool, runs the schema and gives the pool back, and the
    names under which its statements are traced.  [pgxpool] is a parameter: what
    parsing a URL yields, and whether creating the pool and pinging the server
    succeed. *)

From Stdlib Require Import ZArith Lia Ascii String.
From stdpp Require Import base gmap strings list sorting pretty.
From S2P Require Import Prelude Openai Store StoreOps Planner Finalizer Query Collector FileItems Keyset Statements Writes.
Local Open Scope string_scope.
Local Open Scope Z_scope.

(** ** The pool *)
Record PostgreSQLConfig := { Url : string; EnableTracing : bool }.
Definition Validate (c : PostgreSQLConfig) : result unit :=
  if bool_decide (Url c = "") then Err (ErrOther "url is required") else Ok tt.

Record Pool := { MaxConns : Z; Traced : bool }.
(** The outcomes of the calls into [pgxpool]: [ParseConfig] (the [MaxConns] of
    the URL), [NewWithConfig] and [Ping]; and of the schema script. *)
Record ConnEnv := { ce_ParseConfig : string → option Z; ce_New : bool; ce_Ping : bool; ce_schema : net }.
(** The pools this process holds open, and the database. *)
Record ConnWorld := { cw_open : nat; cw_db : DB }.
Definition open_pool (s : ConnWorld) : ConnWorld := {| cw_open := S (cw_open s); cw_db := cw_db s |}.
Definition Close (s : ConnWorld) : ConnWorld := {| cw_open := pred (cw_open s); cw_db := cw_db s |}.

Definition newPool (env : ConnEnv) (config : option PostgreSQLConfig) : M ConnWorld Pool := λ s,
  match config with
  | None => (s, Err (ErrOther "config is nil"))
  | Some c =>
      match Validate c with
      | Err e => (s, Err e)
      | Ok _ =>
          match ce_ParseConfig env (Url c) with
          | None => (s, Err (ErrOther "failed to parse connection string"))
          | Some n =>
              let pool := {| MaxConns := if n <? 2 then 2 else n; Traced := EnableTracing c |} in
              if negb (ce_New env) then (s, Err (ErrOther "failed to create connection pool")) else
              let s := open_pool s in
              if negb (ce_Ping env) then (Close s, Err (ErrOther "failed to ping database")) else (s, Ok pool)
          end
      end
  end.

(** [pgCore] with its [closeOnce]. *)
Record pgCore := { core_pool : Pool; core_closed : bool }.
Definition newPgCore (env : ConnEnv) (config : option PostgreSQLConfig) : M ConnWorld pgCore :=
  pool <- newPool env config ;;
  (λ s, let '(db, r) := ensureSchema (ce_schema env) (cw_db s) in
        let s := {| cw_open := cw_open s; cw_db := db |} in
        match r with
        | Ok _ => (s, Ok {| core_pool := pool; core_closed := false |})
        | Err e => (Close s, Err e)
        end).
Definition core_close (c : pgCore) (s : ConnWorld) : pgCore * ConnWorld :=
  if core_closed c then (c, s) else ({| core_pool := core_pool c; core_closed := true |}, Close s).

(** ** Span names *)
Definition is_space (c : ascii) : bool :=
  bool_decide (c ∈ ["009"; "010"; "011"; "012"; "013"; " "]%char).
(** [strings.Fields] of an ASCII statement; [cur] is the token so far, reversed. *)
Fixpoint fields_from (cur : list ascii) (cs : list ascii) : list (list ascii) :=
  let flush := match cur with [] => [] | _ => [rev cur] end in
  match cs with
  | [] => flush
  | c :: cs => if is_space c then app flush (fields_from [] cs) else fields_from (c :: cur) cs
  end.
Definition Fields (s : string) : list string := string_of_list_ascii <$> fields_from [] (chars s).

Definition lower (c : ascii) : ascii :=
  let n := Ascii.N_of_ascii c in if ((65 <=? n) && (n <=? 90))%N then Ascii.ascii_of_N (n + 32) else c.
Definition ToLower (s : string) : string := string_of_list_ascii (lower <$> chars s).
Definition EqualFold (a b : string) : bool := bool_decide (ToLower a = ToLower b).

Fixpoint tokenAfter (tokens : list string) (keyword : string) : string :=
  match tokens with
  | t :: ((next :: _) as rest) => if EqualFold t keyword then next else tokenAfter rest keyword
  | _ => ""
  end.
Definition span_of_tokens (tokens : list string) : string :=
  match tokens with
  | [] => "db_query"
  | first :: rest =>
      let verb := ToLower first in
      let named table := if bool_decide (table = "") then verb else verb ++ "_" ++ table in
      if bool_decide (verb ∈ ["select"; "delete"]) then named (tokenAfter tokens "FROM")
      else if bool_decide (verb = "insert") then named (tokenAfter tokens "INTO")
      else if bool_decide (verb = "update") then match rest with t :: _ => verb ++ "_" ++ t | [] => verb end
      else verb
  end.
Definition shortSpanName (sql : string) : string := span_of_tokens (Fields sql).

(** The statement of [delete]. *)
Definition delete_text (A : Type) `{TableDescriptor A} : string :=
  "DELETE FROM " ++ TableName A ++ " WHERE " ++ colID ++ " = ANY($1) RETURNING " ++ colID.

(** ** Pools are not leaked *)

(** A client that could not be constructed, for whatever reason, leaves no pool
    open. One that was has exactly one, with room for the connection that
    LISTEN keeps besides another, and has run the schema script. *)
Theorem pool_opened_or_returned env config s s' r :
  newPgCore env config s = (s', r) →
  match r with
  | Ok core => cw_open s' = S (cw_open s) ∧ 2 ≤ MaxConns (core_pool core) ∧ core_closed core = false ∧
               ensureSchema (ce_schema env) (cw_db s) = (cw_db s', Ok tt)
  | Err _ => cw_open s' = cw_open s
  end.
Proof.
  unfold newPgCore, newPool, bindM. intros H.
  destruct config as [c|]; [|by simplify_eq]. destruct (Validate c); [|by simplify_eq].
  destruct (ce_ParseConfig env (Url c)) as [n|]; [|by simplify_eq].
  destruct (ce_New env); [|by cbn in H; simplify_eq]. destruct (ce_Ping env); [|by cbn in H; simplify_eq]. cbn [negb open_pool cw_db] in H.
  destruct (ensureSchema (ce_schema env) (cw_db s)) as [db [[]|e]] eqn:E; simplify_eq; cbn; [|done].
  split_and!; [done| |done|done]. destruct (Z.ltb_spec n 2); lia.
Qed.

(** However often the client is closed, its pool is closed once: the other
    pools of the process stay open. *)
Theorem closed_once c s c1 s1 c2 s2 :
  core_closed c = false → core_close c s = (c1, s1) → core_close c1 s1 = (c2, s2) →
  cw_open s1 = pred (cw_open s) ∧ s2 = s1 ∧ c2 = c1.
Proof. unfold core_close. intros -> [= <- <-] [= <- <-]. done. Qed.

(** ** What the traces are called *)
Lemma fields_from_space cur p rest :
  fields_from cur (app p (" "%char :: rest)) = app (fields_from cur (app p [" "%char])) (fields_from [] rest).
Proof.
  revert cur. induction p as [|c p IH]; intros cur; cbn [app fields_from].
  - destruct (is_space " ") eqn:E; [|done]. by rewrite app_nil_r.
  - destruct (is_space c); [|apply IH]. by rewrite IH, app_assoc.
Qed.
Lemma fields_from_end cur p : fields_from cur (app p [" "%char]) = fields_from cur p.
Proof.
  revert cur. induction p as [|c p IH]; intros cur; cbn.
  - destruct (is_space " ") eqn:E; [by rewrite app_nil_r|done].
  - destruct (is_space c); by rewrite IH.
Qed.
(** The tokens of a statement that starts with the words [p] are those of [p]
    and then those of the rest. *)
Lemma Fields_prefix p rest : Fields (p ++ " " ++ rest) = app (Fields p) (Fields rest).
Proof.
  unfold Fields, chars. rewrite chars_app. change (list_ascii_of_string (" " ++ rest)) with (" "%char :: list_ascii_of_string rest).
  by rewrite fields_from_space, fields_from_end, fmap_app.
Qed.
Lemma span_prefix p rest name : (∀ l, span_of_tokens (app (Fields p) l) = name) → shortSpanName (p ++ " " ++ rest) = name.
Proof. intros H. unfold shortSpanName. by rewrite Fields_prefix. Qed.
(** The statement reduces to its first words and some rest. *)
Ltac span_of p := eapply (span_prefix p); intros; vm_compute; reflexivity.

(** Every statement of the two table clients is traced under its verb and its
    table, whatever conditions it carries ([expiryCondition] has a FROM of its
    own) and whatever it sets. *)
Theorem select_spans bq incl start limit fs raw s :
  (buildGetQuery Row bq incl start limit fs raw = Some s → shortSpanName (select_text s) = "select_batch_items") ∧
  (buildGetQuery FileRow bq incl start limit fs raw = Some s → shortSpanName (select_text s) = "select_file_items").
Proof.
  unfold buildGetQuery. split; (case_bool_decide; [done|]); intros [= <-]; destruct incl.
  - span_of "SELECT id, tenant_id, expiry, tags, processor_id, priority, epoch, recovery_attempts, resumable, owner_lease_expires_at, status, spec FROM batch_items WHERE".
  - span_of "SELECT id, tenant_id, expiry, tags, processor_id, priority, epoch, recovery_attempts, resumable, owner_lease_expires_at, status FROM batch_items WHERE".
  - span_of "SELECT id, tenant_id, expiry, tags, purpose, status, spec FROM file_items WHERE".
  - span_of "SELECT id, tenant_id, expiry, tags, purpose, status FROM file_items WHERE".
Qed.
Theorem write_spans :
  (∀ it vals s, store Row it vals = Ok s → shortSpanName (insert_text s) = "insert_batch_items") ∧
  (∀ it vals s, store FileRow it vals = Ok s → shortSpanName (insert_text s) = "insert_file_items") ∧
  (∀ id st tags exp fs raw s, build_update Row id st tags exp fs raw = Some s →
     shortSpanName (update_text s) = "update_batch_items") ∧
  shortSpanName (delete_text Row) = "delete_batch_items" ∧ shortSpanName (delete_text FileRow) = "delete_file_items".
Proof.
  split_and!; [| | |reflexivity..].
  - intros it vals s. unfold store. case_bool_decide; [done|]. destruct (extra_args _ vals); [|done]. intros [= <-].
    span_of "INSERT INTO batch_items".
  - intros it vals s. unfold store. case_bool_decide; [done|]. destruct (extra_args _ vals); [|done]. intros [= <-].
    span_of "INSERT INTO file_items".
  - intros id st tags exp fs raw s. unfold build_update. destruct (if bool_decide (tags = ∅) then _ else _) as [[[|c sets] args] idx]; [done|].
    intros [= <-]. span_of "UPDATE batch_items".
Qed.
