(* ===== verification/ApiBatches.v ===== *)
(** * Creating, reading and listing batches

    Theorems about [CreateBatch], [RetrieveBatch] and [ListBatches] of
    [BatchHandlers]: a created batch is claimable, tenants do not see each
    other's batches, and following the cursor of the list lists everything. *)

From Stdlib Require Import ZArith Lia Ascii String.
From stdpp Require Import base gmap strings list sorting pretty.
From S2P Require Import Prelude Openai Store StoreOps Ownership Planner Preprocess Files ResultStore Finalizer Query.
From S2P Require Import Collector Events Rest FileItems BatchHandlers Cancellation Keyset.
Local Open Scope string_scope.
Local Open Scope Z_scope.

Section ApiBatches.
Context (marshal_spec : BatchSpec → string) (unmarshal_spec : string → option BatchSpec) (cfg : APIConfig).
#[local] Abbreviation DBItemToBatch := (DBItemToBatch unmarshal_spec).
#[local] Abbreviation CreateBatch := (CreateBatch marshal_spec cfg).

(** ** Creation *)

(** The input file the request may use. *)
Definition input_file (r : Request) (req : CreateBatchRequest) (s : AWorld) : Prop :=
  ∃ f, aw_files s !! InputFileID req = Some f ∧ fr_tenant f = tenant_of cfg r ∧ fr_purpose f = FileObjectPurposeBatch.

Lemma on_files_get now n q start limit s :
  on_files (FileDBGet now n q start limit) s =
  (s, match n with NetOk => Ok (file_page now q start limit (aw_files s)) | NetErr _ => Err ErrIO end).
Proof. destruct s as [[[db fs] files] ev], n; done. Qed.

(** Storing the row of a new batch. *)
Lemma on_adb_store n it s s' res :
  on_adb (DBStore n (Some it)) s = (s', res) →
  (res = Ok tt → items (aw_db s) !! bi_ID it = None ∧
     items (aw_db s') = <[bi_ID it := bi_row it]> (items (aw_db s)) ∧ entries (aw_db s') = entries (aw_db s)) ∧
  (res ≠ Ok tt → n ≠ NetErr true → s' = s) ∧ same_rest s s'.
Proof.
  intros H. assert (same_rest s s') as Hr by (by apply on_adb_run in H as (? & _ & _ & ?)). split_and!; [| |done].
  all: destruct s as [[[db fs] files] ev]; revert H; unfold on_adb, on_pw, on_world, on_db, DBStore, exec, sql_insert; cbn.
  all: case_bool_decide; cbn; [intros [= <- <-]; done|].
  all: destruct (items db !! bi_ID it) eqn:Hi, n as [|[]]; intros [= <- <-]; try done; by destruct db.
Qed.

Lemma CreateBatch_spec env r body s s' resp :
  CreateBatch env r body s = (s', resp) →
  same_rest s s' ∧
  match resp with
  | Refuse _ => cr_store env ≠ NetErr true → s' = s
  | Reply batch =>
      ∃ req it, body = Ok req ∧ ValidateWithEndpointAllowlist (ac_Allowlist cfg) req = Ok tt ∧ input_file r req s ∧
        batch = new_batch env req ∧
        BatchToDBItem marshal_spec batch (tenant_of cfg r) (create_tags cfg env r req) = Ok it ∧
        items (aw_db s) !! b_ID batch = None ∧ items (aw_db s') = <[b_ID batch := bi_row it]> (items (aw_db s)) ∧
        entries (aw_db s') = entries (aw_db s)
  end.
Proof.
  assert (same_rest s s) as R0 by done. unfold BatchHandlers.CreateBatch.
  destruct body as [req|e]; [|by intros [= <- <-]].
  destruct (ValidateWithEndpointAllowlist _ _) as [[]|e] eqn:Hv; [|by intros [= <- <-]]. unfold bindH, call.
  rewrite on_files_get. destruct (cr_file env) as [|[]]; [|by intros [= <- <-]..].
  rewrite file_page_by_id by apply tenant_nonempty.
  destruct (aw_files s !! InputFileID req) as [f|] eqn:Hf; [|by intros [= <- <-]].
  case_bool_decide as Ht; cbn [fst snd]; [|by intros [= <- <-]].
  case_bool_decide as Hp; cbn [negb]; [|by intros [= <- <-]].
  destruct (BatchToDBItem _ _ _ _) as [it|e] eqn:Hit; [|by intros [= <- <-]].
  assert (bi_ID it = b_ID (new_batch env req)) as Hid.
  { unfold BatchToDBItem in Hit. destruct (batch_priority _); [|done]. by simplify_eq. }
  destruct (on_adb _ s) as [s1 res] eqn:Hst. apply on_adb_store in Hst as (Hok & Hno & Hr).
  destruct res as [[]|e]; intros [= <- <-]; (split; [done|]); [|by apply Hno]. destruct (Hok eq_refl) as (? & ? & ?).
  exists req, it. rewrite Hid in *. split_and!; try done. by exists f.
Qed.

(** A batch accepted by the API is in the queue: when create answers with
    a batch, exactly its row was added (under a fresh ID, for the requesting
    tenant, whose input file exists with purpose batch), the row reads back as
    the answered batch, any processor may claim it, and its queue priority is
    the end of its completion window in microseconds.  A refused request
    changes nothing unless the insert's response was lost. *)
Theorem created_batch_is_queued env r body s s' resp :
  CreateBatch env r body s = (s', resp) → 0 < cr_createdAt env →
  (∀ req, body = Ok req → let spec := b_Spec (new_batch env req) in
     unmarshal_spec (marshal_spec spec) = Some spec ∧ marshal_spec spec ≠ "") →
  match resp with
  | Refuse _ => cr_store env ≠ NetErr true → s' = s
  | Reply batch =>
      ∃ req row d, body = Ok req ∧ input_file r req s ∧
        items (aw_db s) !! b_ID batch = None ∧ items (aw_db s') = <[b_ID batch := row]> (items (aw_db s)) ∧
        entries (aw_db s') = entries (aw_db s) ∧ same_rest s s' ∧
        DBItemToBatch (b_ID batch, row) = Ok batch ∧ r_tenant row = tenant_of cfg r ∧
        (∀ secs, claimable secs row = true) ∧
        Duration.ParseDuration (CompletionWindow req) = Some d ∧
        r_priority row = Some (deadline_micro (cr_createdAt env) d)
  end.
Proof.
  intros H Hc Hj. apply CreateBatch_spec in H as [Hr H]. destruct resp as [batch|e]; [|done].
  destruct H as (req & it & Hb & Hv & Hf & -> & Hit & Hn & Hi & He).
  assert (∃ d, CompletionWindow req ≠ "" ∧ Duration.ParseDuration (CompletionWindow req) = Some d) as (d & Hw & Hd).
  { unfold ValidateWithEndpointAllowlist in Hv. case_bool_decide; [done|].
    destruct (Duration.ParseDuration (CompletionWindow req)) as [d|]; [by exists d|done]. }
  unfold BatchToDBItem, batch_priority in Hit. cbn [b_Spec new_batch sp_CompletionWindow sp_CreatedAt] in Hit.
  rewrite bool_decide_eq_false_2, Hd in Hit by done. cbn [negb andb] in Hit.
  destruct (Z.ltb_spec 0 (cr_createdAt env)); [|lia]. simplify_eq. cbn [bi_row] in Hi.
  eexists req, _, d. split_and!; try done; cbn.
  unfold BatchHandlers.DBItemToBatch. cbn [snd r_spec]. destruct (Hj req eq_refl) as [Hu Hne].
  rewrite bool_decide_eq_false_2 by done. cbn [b_Spec new_batch] in Hu. by rewrite Hu.
Qed.

(** ** Expiry *)
Lemma get_at_elem {A} (rows : list (string * A)) offset start limit x : x ∈ (get_at rows offset start limit).1.1 → x ∈ rows.
Proof. unfold get_at. cbn. intros H%subseteq_take%subseteq_take%subseteq_drop. done. Qed.
Lemma db_page_elem now q start limit db k r :
  (k, r) ∈ (db_page now q start limit db).1.1 → items db !! k = Some r ∧ forallb (λ c, c k r) (conditions now q) = true.
Proof.
  unfold db_page. destruct (conditions now q) as [|c cs]; [set_solver|]. intros [? ?]%get_at_elem%elem_of_select_rows. done.
Qed.
Lemma row_step_expiry r r' : row_step r r' → r_expiry r' = r_expiry r.
Proof.
  destruct 1; try done.
  - unfold update_set. destruct st, bump; cbn; by case_bool_decide.
  - unfold migrate_owner. unfold migrate_priority in H. destruct (r_priority r); [|destruct (r_tags r !! _) as [t|]; [destruct (parse_bigint t)|]];
      cbn in H; simplify_eq; by case_match.
Qed.

(** No batch created through the API ever expires: create stores expiry 0
    (nothing sets [expires_at], and no update writes the expiry column), so at
    any later time, whatever the clients do to it short of deleting it, the
    garbage collector's query for expired batches does not return it, and its
    row and result objects are kept forever. *)
Theorem api_batches_never_expire env r body s s' batch ss now start limit :
  CreateBatch env r body s = (s', Reply batch) →
  Forall admissible ss → Forall (keeps (b_ID batch)) ss →
  let page := (db_page now expiredQuery start limit (run_all ss (aw_db s'))).1.1 in
  is_Some (items (run_all ss (aw_db s')) !! b_ID batch) ∧ b_ID batch ∉ page.*1.
Proof.
  intros H Ha Hk page. apply CreateBatch_spec in H as [_ (req & it & _ & _ & _ & -> & Hit & _ & Hi & _)].
  set (b := b_ID (new_batch env req)) in *. assert (items (aw_db s') !! b = Some (bi_row it)) as Hr by (rewrite Hi; apply lookup_insert_eq).
  assert (r_expiry (bi_row it) = 0) as H0 by (unfold BatchToDBItem in Hit; destruct (batch_priority _); by simplify_eq).
  split; [by apply run_all_keeps|]. intros Hin. apply list_elem_of_fmap in Hin as ([k r'] & Hb & Hin). cbn in Hb. subst k.
  assert (items (run_all ss (aw_db s')) !! b = Some r' ∧ expired_at now (r_expiry r') = true) as [Hr' Hx].
  { apply db_page_elem in Hin as [? Hc]. split; [done|]. rewrite forallb_forall in Hc.
    apply (Hc (λ _ r, expired_at now (r_expiry r))). unfold conditions. cbn. left. done. }
  assert (r_expiry r' = r_expiry (bi_row it)) as E.
  { eapply (run_all_row (λ x y, r_expiry y = r_expiry x)); eauto using row_step_expiry. congruence. }
  rewrite E, H0 in Hx. done.
Qed.

(** ** Listing *)

(** The reference: a tenant's rows in ID order. *)
Definition tenant_rows (tenant : string) (db : DB) : list (string * Row) :=
  select_rows false (λ _ r, bool_decide (r_tenant r = tenant)) (items db).

Lemma list_page now tenant after start limit db :
  tenant ≠ "" →
  let rest := if bool_decide (after = "") then drop start (tenant_rows tenant db)
              else filter (λ kr, after_id false after kr.1 = true) (tenant_rows tenant db) in
  (db_page now (page_query tenant after) start limit db).1.1 = take limit rest ∧
  (db_page now (page_query tenant after) start limit db).2 = (limit <? length (take (S limit) rest))%nat.
Proof.
  intros Ht. unfold db_page, conditions.
  cbn [bq_IDs bq_TenantID bq_TagSelectors bq_Expired bq_AfterID bq_ProcessorID bq_NonTerminal bq_HasProcessorID
       bq_Descending page_query].
  rewrite (bool_decide_eq_false_2 (tenant = "")), !(bool_decide_eq_true_2 (_ = _)) by done. cbn [app].
  assert (∀ c : string → bool, select_rows false (λ id r, forallb (λ c : string → Row → bool, c id r)
            [(λ _ r, bool_decide (r_tenant r = tenant)); (λ id _, c id)]) (items db)
          = filter (λ kr, c kr.1 = true) (tenant_rows tenant db)) as Hsel.
  { intros c. unfold tenant_rows. rewrite <- select_rows_filter. apply select_rows_ext. intros k r. cbn. by rewrite andb_true_r. }
  unfold get_at. case_bool_decide as Ha; cbn [app fst snd].
  - rewrite take_take, Nat.min_l by lia.
    replace (select_rows false _ (items db)) with (tenant_rows tenant db); [done|].
    apply select_rows_ext. intros k r. cbn. by rewrite andb_true_r.
  - rewrite Hsel, take_take, Nat.min_l by lia. cbn [drop]. done.
Qed.

(** Rows the converter accepts, and the batches it makes of them. *)
Definition converts (item : string * Row) (b : Batch) : Prop := DBItemToBatch item = Ok b.
Lemma convert_all_ok rows s :
  Forall (λ item, ∃ b, converts item b) rows →
  ∃ bs, convert_all unmarshal_spec rows s = (s, Reply bs) ∧ Forall2 converts rows bs.
Proof.
  induction 1 as [|item rows [b Hb] _ (bs & IH & Hbs)]; [by exists []|]. exists (b :: bs). split; [|by constructor].
  cbn [convert_all]. unfold bindH, convert. unfold converts in Hb. rewrite Hb. cbn. by rewrite IH.
Qed.
(** The answer of a listing does not depend on the state it runs in. *)
Lemma convert_all_pure rows more s1 s2 :
  (bindH (convert_all unmarshal_spec rows) (λ bs, reply (list_response bs more)) s1).2 =
  (bindH (convert_all unmarshal_spec rows) (λ bs, reply (list_response bs more)) s2).2.
Proof.
  assert (∃ resp, ∀ s', convert_all unmarshal_spec rows s' = (s', resp)) as [resp H].
  { induction rows as [|item rows [resp IH]]; [by eexists|]. cbn [convert_all]. unfold bindH, convert.
    destruct (BatchHandlers.DBItemToBatch _ item) as [b|e]; [|by eexists]. unfold reply. setoid_rewrite IH. destruct resp; by eexists. }
  unfold bindH. rewrite !H. by destruct resp.
Qed.
Lemma converts_ids rows bs : Forall2 converts rows bs → b_ID <$> bs = rows.*1.
Proof. induction 1 as [|x y l k H _ IH]; [done|]. cbn. f_equal; [|done]. by apply DBItemToBatch_converted in H as (_ & ? & _). Qed.

(** A client that follows [last_id]. *)
Definition batch_page (now : Z) (r : Request) (after : string) : HM (list Batch * option string * bool) :=
  resp <-- ListBatches unmarshal_spec cfg now NetOk (at_cursor r after) ;; reply (lb_Data resp, lb_LastID resp, lb_HasMore resp).
Definition list_all (fuel : nat) (now : Z) (r : Request) : HM (list Batch) := follow (batch_page now r) fuel "".

(** IDs of the form [NewBatchID] are no offsets. *)
Lemma batch_id_no_digits id : has_prefix BatchIDPrefix id = true → isDigits id = false.
Proof. destruct id as [|c id]; [done|]. cbn. by case_match; subst. Qed.
Definition good_cursor (id : string) : Prop :=
  has_prefix BatchIDPrefix id = true ∧ (String.length BatchIDPrefix < String.length id)%nat.
Lemma ParseAfter_cursor id : good_cursor id → ParseAfter id BatchIDPrefix = Ok (O, id).
Proof. intros [H1 H2]. apply ParseAfter_id; [by apply batch_id_no_digits|done..]. Qed.

Lemma batch_page_eq now r limit after s :
  parse_limit (rq_Query r "limit") = Reply limit → after = "" ∨ good_cursor after →
  let tenant := tenant_of cfg r in
  Forall (λ item, ∃ b, converts item b) (tenant_rows tenant (aw_db s)) →
  let '(page, more) := keyset_page false (Z.to_nat limit) (tenant_rows tenant (aw_db s)) after in
  ∃ bs, batch_page now r after s = (s, Reply (bs, fst <$> last page, more)) ∧ Forall2 converts page bs.
Proof.
  intros Hl Ha tenant Hall. cbv [keyset_page].
  assert (ParseAfter after BatchIDPrefix = Ok (O, after)) as Hp by (destruct Ha as [->|]; [done|by apply ParseAfter_cursor]).
  unfold batch_page, ListBatches. cbn [at_cursor rq_Query]. rewrite (bool_decide_eq_false_2 ("limit" = "after")) by done.
  rewrite (bool_decide_eq_true_2 ("after" = "after")), Hl, Hp by done. unfold bindH at 1 2, call. rewrite on_adb_get.
  pose proof (list_page now (tenant_of cfg (at_cursor r after)) after 0 (Z.to_nat limit) (aw_db s) (tenant_nonempty _ _)) as [H1 H2].
  rewrite drop_0 in H1, H2. change (tenant_of cfg (at_cursor r after)) with tenant in *.
  unfold bindH. rewrite H1, H2.
  destruct (convert_all_ok (take (Z.to_nat limit) (if bool_decide (after = "") then tenant_rows tenant (aw_db s)
    else filter (λ kr, after_id false after kr.1 = true) (tenant_rows tenant (aw_db s)))) s) as (bs & -> & Hbs).
  { apply Forall_take. case_bool_decide; [done|]. rewrite Forall_forall in *. intros x [_ ?]%list_elem_of_filter. auto. }
  exists bs. split; [|done]. cbn. by rewrite <- !fmap_last, (converts_ids _ _ Hbs).
Qed.
Lemma parse_limit_range str l : parse_limit str = Reply l → 1 ≤ l ≤ 100.
Proof.
  unfold parse_limit. case_bool_decide; [by intros [= <-]|]. destruct (Sscanf_d str) as [v|]; [|done].
  destruct (_ || _) eqn:H1; [done|]. intros [= <-]. apply orb_false_iff in H1 as [? ?]. boolify. lia.
Qed.

(** [C29] Listing is complete: a client that starts without a cursor and follows
    [last_id] while [has_more] is set receives, whatever page size it asks for,
    every batch of its tenant exactly once and in ID order, after at most one
    more page than the tenant has batches. *)
Theorem list_follows_every_batch now r limit s fuel :
  parse_limit (rq_Query r "limit") = Reply limit →
  let rows := tenant_rows (tenant_of cfg r) (aw_db s) in
  (∀ k row, items (aw_db s) !! k = Some row → r_tenant row = tenant_of cfg r →
     good_cursor k ∧ ∃ b, DBItemToBatch (k, row) = Ok b) →
  (length rows < fuel)%nat →
  ∃ bs, list_all fuel now r s = (s, Reply bs) ∧ Forall2 (λ item b, DBItemToBatch item = Ok b) rows bs ∧
    b_ID <$> bs = rows.*1 ∧ NoDup (b_ID <$> bs).
Proof.
  intros Hl rows Hall Hf. pose proof (parse_limit_range _ _ Hl).
  assert (Forall (λ item, good_cursor item.1 ∧ ∃ b, converts item b) rows) as HF.
  { apply Forall_forall. intros [k row] Hin. unfold rows, tenant_rows in Hin. apply elem_of_select_rows in Hin as [Hk Ht]. boolify. by apply Hall. }
  destruct (follow_walk false (batch_page now r) converts good_cursor (Z.to_nat limit) rows s) with (fuel := fuel) (after := "")
    as (bs & H1 & H2); [eapply Forall_impl; [exact HF|by intros ? [? _]]| |by left|].
  { intros after Ha. apply batch_page_eq; [done|done|]. eapply Forall_impl; [exact HF|by intros ? [_ ?]]. }
  exists bs. unfold rows, tenant_rows in H2. rewrite keyset_walk_complete in H2; [|lia|done|].
  - pose proof (converts_ids _ _ H2) as Hid. rewrite Hid. split_and!; try done. apply NoDup_select_rows.
  - fold (tenant_rows (tenant_of cfg r) (aw_db s)). fold rows. intros (x & Hx & Hin)%list_elem_of_fmap.
    rewrite Forall_forall in HF. destruct (HF _ Hin) as [[_ Hlen] _]. rewrite <- Hx in Hlen. cbn in Hlen. lia.
Qed.

(** ** Tenants *)

Lemma by_id_iff id tenant db item :
  by_id id tenant db = Some item ↔ item.1 = id ∧ r_tenant item.2 = tenant ∧ items db !! id = Some item.2.
Proof.
  unfold by_id. destruct (items db !! id) as [row|]; [|naive_solver].
  case_bool_decide; destruct item; naive_solver.
Qed.
(** [C19] Tenants are isolated: what retrieve and list answer depends only on
    the rows of the requesting tenant, and a cancel of another tenant's batch
    answers 404 and changes nothing. *)
Theorem tenants_are_isolated now n r s1 s2 :
  (∀ k row, r_tenant row = tenant_of cfg r → items (aw_db s1) !! k = Some row ↔ items (aw_db s2) !! k = Some row) →
  (RetrieveBatch unmarshal_spec cfg now n r s1).2 = (RetrieveBatch unmarshal_spec cfg now n r s2).2 ∧
  (ListBatches unmarshal_spec cfg now n r s1).2 = (ListBatches unmarshal_spec cfg now n r s2).2 ∧
  ∀ env row, rq_PathValue r ≠ "" → items (aw_db s1) !! rq_PathValue r = Some row → r_tenant row ≠ tenant_of cfg r →
    ce_others env 0%nat = [] → ce_net env 0%nat = NetOk →
    CancelBatch marshal_spec unmarshal_spec cfg env r s1 = (s1, Refuse (notFound (rq_PathValue r))).
Proof.
  intros Heq. assert (∀ id, by_id id (tenant_of cfg r) (aw_db s1) = by_id id (tenant_of cfg r) (aw_db s2)) as Hby.
  { intros id. apply option_eq. intros item. rewrite !by_id_iff. naive_solver. }
  assert (tenant_rows (tenant_of cfg r) (aw_db s1) = tenant_rows (tenant_of cfg r) (aw_db s2)) as Hrows.
  { apply select_rows_ext. intros k row. split; intros [H Ht]; boolify; split; try (by apply bool_decide_eq_true_2);
      by apply Heq. }
  split_and!.
  - unfold RetrieveBatch, bindH. rewrite !getItem_eq, Hby. case_bool_decide; [done|]. destruct n; [|done].
    destruct (by_id _ _ (aw_db s2)) as [item|]; [|done]. unfold convert. by destruct (BatchHandlers.DBItemToBatch _ item).
  - unfold ListBatches. destruct (parse_limit _) as [l|]; [|done]. destruct (ParseAfter _ _) as [[start a]|]; [|done].
    unfold bindH, call. rewrite !on_adb_get. destruct n; [|done].
    destruct (list_page now (tenant_of cfg r) a start (Z.to_nat l) (aw_db s1) (tenant_nonempty _ _)) as [-> ->].
    destruct (list_page now (tenant_of cfg r) a start (Z.to_nat l) (aw_db s2) (tenant_nonempty _ _)) as [-> ->].
    rewrite Hrows. apply convert_all_pure.
  - intros env row Hne Hr Ht Ho Hn. unfold CancelBatch, bindH at 1. rewrite Ho.
    assert (call (meanwhile []) ise s1 = (s1, Reply tt)) as -> by by destruct s1 as [[[]]].
    unfold bindH at 1. rewrite getItem_eq, Hn, bool_decide_eq_false_2 by done. unfold by_id.
    by rewrite Hr, bool_decide_eq_false_2.
Qed.
End ApiBatches.
