(* ===== verification/FileHandlers.v ===== *)
(** * The file handlers of the API server

    [internal/apiserver/file/file_handler.go] over the file table ([FileItems])
    and the file store ([Files]): upload, list, retrieve, download, delete.
    The parsed multipart form is an input, with the number of body bytes its
    parser reads; the stream of a download is its content.

    The theorems follow the definitions: an upload answered with 200 can be
    downloaded unchanged, a refused one leaves nothing behind unless a response
    was lost, and a delete that stopped half way is completed by repeating it. *)

From Stdlib Require Import ZArith Lia Ascii String.
From stdpp Require Import base gmap strings list sorting pretty.
From S2P Require Import Prelude Openai Store StoreOps Ownership Planner Preprocess Files ResultStore Finalizer Query.
From S2P Require Import Collector Events Rest FileItems BatchHandlers Keyset.
Local Open Scope string_scope.
Local Open Scope Z_scope.

(** ** Uploads *)
Definition maxUploadFormOverhead : Z := 2 ^ 20.
Definition maxUploadFileSize : Z := 2 ^ 63 - 1 - maxUploadFormOverhead.
Definition maxRequestSize (maxFileSize : Z) : Z :=
  if maxFileSize <=? maxUploadFileSize then maxFileSize + maxUploadFormOverhead else 2 ^ 63 - 1.

(** The outcome of [r.FormFile]; a file has its name, the size of its header
    and its content as it is read. *)
Inductive FormFile := MissingFile | BadForm | FormPart (filename : string) (size : Z) (chunks : list bytes).
Record Upload := {
  up_ContentLength : Z; up_BodySize : Z; up_File : FormFile; up_Purpose : string; up_Anchor : string; up_Seconds : string }.

(** [filepath.Base]. *)
Fixpoint drop_slashes (cs : list ascii) : list ascii :=
  match cs with c :: cs' => if bool_decide (c = "/"%char) then drop_slashes cs' else cs | [] => [] end.
Fixpoint upto_slash (cs : list ascii) : list ascii :=
  match cs with c :: cs' => if bool_decide (c = "/"%char) then [] else c :: upto_slash cs' | [] => [] end.
Definition path_Base (s : string) : string :=
  if bool_decide (s = "") then "."
  else match upto_slash (drop_slashes (rev (chars s))) with
       | [] => "/"
       | cs => string_of_list_ascii (rev cs)
       end.
Example base_values : path_Base "a/b.jsonl" = "b.jsonl" ∧ path_Base "dir/" = "dir" ∧ path_Base "" = "." ∧ path_Base "//" = "/" ∧ path_Base "../.." = "..".
Proof. vm_compute. done. Qed.

Section FileHandlers.
Context (sha256hex : bytes → string) (cfg : APIConfig).
#[local] Abbreviation folder_of := (GetFolderNameByTenantID sha256hex).

Definition badRequest (m : string) : APIError := NewAPIError StatusBadRequest "" m.
Definition sizeError : APIError := badRequest "File size exceeds the maximum allowed size or multipart overhead exceeds its limit".
(** The expiration in seconds the request asks for, or the configured one. *)
Definition parse_expiration (u : Upload) : Response Z :=
  if negb (bool_decide (up_Anchor u = "")) || negb (bool_decide (up_Seconds u = "")) then
    if bool_decide (up_Anchor u = "") || bool_decide (up_Seconds u = "")
    then Refuse (badRequest "both expires_after[anchor] and expires_after[seconds] must be provided together")
    else if negb (bool_decide (up_Anchor u = "created_at"))
    then Refuse (badRequest "invalid expires_after[anchor]. Only 'created_at' is supported")
    else match Atoi (up_Seconds u) with
         | None => Refuse (badRequest "invalid expires_after[seconds]: must be a valid integer")
         | Some v => if (v <? MinExpirationSeconds) || (MaxExpirationSeconds <? v)
                     then Refuse (badRequest "expires_after[seconds] must be between 1 hour and 30 days")
                     else Reply v
         end
  else Reply (ac_DefaultExpirationSeconds cfg).

(** The checks before anything is stored: the purpose, the expiration, the
    file's name and content. *)
Definition check_upload (u : Upload) : Response (string * Z * string * list bytes) :=
  if maxRequestSize (ac_MaxSizeBytes cfg) <? up_ContentLength u then Refuse sizeError
  else if maxRequestSize (ac_MaxSizeBytes cfg) <? up_BodySize u then Refuse sizeError
  else match up_File u with
  | MissingFile => Refuse (badRequest "Missing required parameter: 'file'")
  | BadForm => Refuse internalServerError
  | FormPart filename size chunks =>
      if ac_MaxSizeBytes cfg <? size then Refuse (badRequest "File size exceeds the maximum allowed size")
      else if bool_decide (up_Purpose u = "") then Refuse (badRequest "Missing required parameter: 'purpose'")
      else if negb (purpose_IsValid (up_Purpose u)) then Refuse (badRequest "Invalid file purpose")
      else match parse_expiration u with
           | Refuse e => Refuse e
           | Reply secs => Reply (up_Purpose u, secs, filename, chunks)
           end
  end.
Definition sanitize (fileID filename : string) : string :=
  let origName := path_Base filename in
  if bool_decide (origName ∈ [""; "."; ".."; "/"]) then fileID +:+ ".jsonl" else origName.
Definition store_error (e : err) : APIError :=
  if bool_decide (e = ErrFileTooLarge) then badRequest "File size exceeds the maximum allowed size"
  else if bool_decide (e = ErrTooManyLines) then badRequest "File exceeds the maximum allowed line count"
  else if bool_decide (e = ErrFileExists) then NewAPIError StatusConflict "" "A file with this name already exists"
  else internalServerError.

Record UploadEnv := { ue_createdAt : Z; ue_uuid : string; ue_store : net; ue_insert : net; ue_cleanup : net }.
Definition on_afs {A} (m : M FileStore A) : M AWorld A := on_pw (on_world (on_fs m)).
(** Content first, then the row; the deferred cleanup deletes the content when
    the handler does not get to the end. *)
Definition CreateFile (env : UploadEnv) (r : Request) (u : Upload) : HM FileObject :=
  match check_upload u with
  | Refuse e => refuse e
  | Reply (purpose, secs, filename, chunks) =>
      let expiresAt := wrap64 (ue_createdAt env + secs) in
      let fileID := FileIDPrefix +:+ ue_uuid env in
      let origName := sanitize fileID filename in
      let storageName := FileStorageName fileID origName in
      match folder_of (tenant_of cfg r) with
      | Err _ => refuse internalServerError
      | Ok folderName =>
          fileMeta <-- call (on_afs (FStore (ue_store env) storageName folderName (ac_MaxSizeBytes cfg) (ac_MaxLineCount cfg) chunks))
                         store_error ;;
          let fileObj := {| fo_ID := fileID; fo_Bytes := md_Size fileMeta; fo_CreatedAt := ue_createdAt env;
                            fo_ExpiresAt := if 0 <? expiresAt then Some expiresAt else None; fo_Filename := origName;
                            fo_Purpose := purpose |} in
          stored <-- call (try (on_files (FileDBStore (ue_insert env) (FileToDBItem fileObj (tenant_of cfg r))))) ise ;;
          match stored with
          | Ok _ => reply fileObj
          | Err _ =>
              _ <-- call (try (on_afs (FDelete (ue_cleanup env) storageName folderName))) ise ;;
              refuse internalServerError
          end
      end
  end.

(** ** Reading *)
Definition fileNotFound (fileID : string) : APIError :=
  NewAPIError StatusNotFound "" ("File with ID " +:+ fileID +:+ " not found").
Definition getFileItemFromDB (now : Z) (n : net) (r : Request) : HM (string * FileRow) :=
  let fileID := rq_PathValue r in
  if bool_decide (fileID = "") then refuse (badRequest "file_id is required")
  else
    let tenantID := tenant_of cfg r in
    page <-- call (on_files (FileDBGet now n (file_by_id fileID tenantID) 0 1)) ise ;;
    match page.1.1 with
    | [] => refuse (fileNotFound fileID)
    | item :: _ => if negb (bool_decide (fr_tenant item.2 = tenantID)) then refuse (fileNotFound fileID) else reply item
    end.
Definition RetrieveFile (now : Z) (n : net) (r : Request) : HM FileObject :=
  item <-- getFileItemFromDB now n r ;; reply (DBItemToFile item).
(** The content, its announced length and the name of the attachment. *)
Definition DownloadFile (now : Z) (n nfs : net) (r : Request) : HM (bytes * Z * string) :=
  item <-- getFileItemFromDB now n r ;;
  let fileObj := DBItemToFile item in
  match folder_of (fr_tenant item.2) with
  | Err _ => refuse internalServerError
  | Ok folderName =>
      got <-- call (on_afs (FRetrieve nfs (FileStorageName (fo_ID fileObj) (fo_Filename fileObj)) folderName)) ise ;;
      reply (got.1, md_Size got.2, fo_Filename fileObj)
  end.

(** ** [ListFiles] *)
Definition defaultListFilesLimit : Z := 20.
Definition maxListFilesLimit : Z := 10000.
Record ListFilesResponse := { lf_Data : list FileObject; lf_FirstID : string; lf_LastID : string; lf_HasMore : bool }.
Definition files_limit (limitStr : string) : Response Z :=
  if bool_decide (limitStr = "") then Reply defaultListFilesLimit
  else match Atoi limitStr with
       | None => Refuse (badRequest "Invalid limit parameter: must be an integer")
       | Some v => if (v <? 1) || (maxListFilesLimit <? v) then Refuse (badRequest "Invalid limit parameter: out of range")
                   else Reply v
       end.
Definition files_query (tenantID purpose afterID : string) (desc : bool) : FileQuery :=
  {| fq_IDs := []; fq_TenantID := tenantID; fq_Expired := false; fq_AfterID := afterID; fq_Descending := desc;
     fq_Purpose := purpose |}.
Definition files_response (objs : list FileObject) (more : bool) : ListFilesResponse :=
  {| lf_Data := objs; lf_FirstID := default "" (fo_ID <$> head objs); lf_LastID := default "" (fo_ID <$> last objs);
     lf_HasMore := more |}.
Definition ListFiles (now : Z) (n : net) (r : Request) : HM ListFilesResponse :=
  match ParseAfter (rq_Query r "after") FileIDPrefix with
  | Err _ => refuse (badRequest "Invalid after parameter")
  | Ok (start, afterID) =>
  match files_limit (rq_Query r "limit") with
  | Refuse e => refuse e
  | Reply limit =>
      let order := rq_Query r "order" in
      let purpose := rq_Query r "purpose" in
      if negb (bool_decide (order ∈ [""; "asc"; "desc"])) then refuse (badRequest "Invalid order parameter: must be 'asc' or 'desc'")
      else if negb (bool_decide (purpose = "")) && negb (purpose_IsValid purpose) then refuse (badRequest "Invalid purpose.")
      else
        page <-- call (on_files (FileDBGet now n (files_query (tenant_of cfg r) purpose afterID
                                                    (negb (bool_decide (order = "asc")))) start (Z.to_nat limit))) ise ;;
        reply (files_response (DBItemToFile <$> page.1.1) page.2)
  end end.

(** ** [DeleteFile] *)
Definition DeleteFile (now : Z) (n nfs ndel : net) (r : Request) : HM string :=
  item <-- getFileItemFromDB now n r ;;
  let fileObj := DBItemToFile item in
  match folder_of (fr_tenant item.2) with
  | Err _ => refuse internalServerError
  | Ok folderName =>
      gone <-- call (try (on_afs (FDelete nfs (FileStorageName (fo_ID fileObj) (fo_Filename fileObj)) folderName))) ise ;;
      if match gone with Err e => negb (bool_decide (e = ErrFileNotFound)) | Ok _ => false end
      then refuse internalServerError
      else _ <-- call (on_files (FileDBDelete ndel [fo_ID fileObj])) ise ;; reply (fo_ID fileObj)
  end.

(** ** Lemmas *)
Definition afs (s : AWorld) : FileStore := w_fs (pw (aw_p s)).
Definition aworld (db : DB) (fs : FileStore) (files : gmap string FileRow) (ev : EventTable) : AWorld :=
  {| aw_p := {| pw := {| w_db := db; w_fs := fs |}; pw_files := files |}; aw_ev := ev |}.
Lemma aworld_eta s : s = aworld (aw_db s) (afs s) (aw_files s) (aw_ev s).
Proof. by destruct s as [[[]]]. Qed.
Lemma on_afs_eq {A} (m : M FileStore A) db fs files ev :
  on_afs m (aworld db fs files ev) = (aworld db (m fs).1 files ev, (m fs).2).
Proof. unfold on_afs, on_pw, on_world, on_fs. cbn. by destruct (m fs). Qed.
Lemma on_files_eq {A} (m : M (gmap string FileRow) A) db fs files ev :
  on_files m (aworld db fs files ev) = (aworld db fs (m files).1 ev, (m files).2).
Proof. unfold on_files. cbn. by destruct (m files). Qed.

Definition file_item (id tenant : string) (m : gmap string FileRow) : option (string * FileRow) :=
  match m !! id with Some r => if bool_decide (fr_tenant r = tenant) then Some (id, r) else None | None => None end.
Lemma getFileItem_eq now n r s :
  getFileItemFromDB now n r s =
  (s, if bool_decide (rq_PathValue r = "") then Refuse (badRequest "file_id is required")
      else match n with
           | NetErr _ => Refuse internalServerError
           | NetOk => match file_item (rq_PathValue r) (tenant_of cfg r) (aw_files s) with
                      | Some item => Reply item
                      | None => Refuse (fileNotFound (rq_PathValue r))
                      end
           end).
Proof.
  unfold getFileItemFromDB. case_bool_decide; [done|]. rewrite (aworld_eta s). unfold bindH, call. rewrite on_files_eq.
  unfold FileDBGet. destruct n as [|c]; [|done]. cbn [fst snd]. rewrite file_page_by_id by apply tenant_nonempty.
  unfold file_item. cbn [aw_files aworld pw_files aw_p].
  destruct (aw_files s !! rq_PathValue r) as [row|]; [|done]. case_bool_decide as Ht; cbn; [|done].
  by rewrite bool_decide_eq_true_2.
Qed.

(** ** Uploading *)
Lemma check_upload_ok u purpose secs filename chunks :
  check_upload u = Reply (purpose, secs, filename, chunks) →
  purpose_IsValid purpose = true ∧ purpose = up_Purpose u ∧ parse_expiration u = Reply secs ∧
  ∃ size, up_File u = FormPart filename size chunks.
Proof.
  unfold check_upload. intros H. repeat (case_match; try done). simplify_eq.
  match goal with H : negb (purpose_IsValid _) = false |- _ => apply negb_false_iff in H end. eauto.
Qed.

(** The names an upload is stored under. *)
Definition new_file_id (env : UploadEnv) : string := FileIDPrefix +:+ ue_uuid env.
Definition upload_path (env : UploadEnv) (folder filename : string) : string :=
  join folder (FileStorageName (new_file_id env) (sanitize (new_file_id env) filename)).
Definition upload_object (env : UploadEnv) (purpose filename : string) (secs size : Z) : FileObject :=
  let expiresAt := wrap64 (ue_createdAt env + secs) in
  {| fo_ID := new_file_id env; fo_Bytes := size; fo_CreatedAt := ue_createdAt env;
     fo_ExpiresAt := if 0 <? expiresAt then Some expiresAt else None;
     fo_Filename := sanitize (new_file_id env) filename; fo_Purpose := purpose |}.

Lemma folder_of_tenant r : ∃ f, folder_of (tenant_of cfg r) = Ok ("t-" +:+ f).
Proof. unfold GetFolderNameByTenantID. rewrite bool_decide_eq_false_2 by apply tenant_nonempty. eauto. Qed.
Lemma resolve_upload env f filename :
  resolvePath ("t-" +:+ f) (FileStorageName (new_file_id env) (sanitize (new_file_id env) filename)) =
  Ok (upload_path env ("t-" +:+ f) filename).
Proof. done. Qed.

(** What storing the content does. *)
Lemma FStore_result n name folder path sl ll chunks fs :
  resolvePath folder name = Ok path →
  FStore n name folder sl ll chunks fs =
  match fs !! path with
  | Some _ => (fs, Err ErrFileExists)
  | None => match copy sl ll newCountingReader chunks with
            | Err e => (fs, Err e)
            | Ok r => fs_step n (<[path := mjoin chunks]> fs)
                        {| md_Size := Z.of_nat (length (mjoin chunks)); md_LinesNumber := LineCount r |} fs
            end
  end.
Proof. unfold FStore. by intros ->. Qed.
Lemma FileDBStore_result n item m :
  item.1 ≠ "" →
  FileDBStore n item m =
  match m !! item.1, n with
  | Some _, NetOk => (m, Err (ErrOther "unique violation"))
  | Some _, NetErr _ => (m, Err ErrIO)
  | None, NetOk => (<[item.1 := item.2]> m, Ok tt)
  | None, NetErr true => (<[item.1 := item.2]> m, Err ErrIO)
  | None, NetErr false => (m, Err ErrIO)
  end.
Proof.
  intros H. unfold FileDBStore, file_exec. rewrite bool_decide_eq_false_2 by done. destruct (m !! item.1), n as [|[]]; done.
Qed.

(** The outcomes of an upload that passed the checks. *)
Inductive upload_outcome (env : UploadEnv) (tenant path : string) (obj : FileObject) (content : bytes)
    (db : DB) (fs : FileStore) (files : gmap string FileRow) (ev : EventTable) : AWorld * Response FileObject → Prop :=
| uo_refused e : upload_outcome env tenant path obj content db fs files ev (aworld db fs files ev, Refuse e)
| uo_lost_store e : ue_store env = NetErr true → fs !! path = None →
    upload_outcome env tenant path obj content db fs files ev (aworld db (<[path := content]> fs) files ev, Refuse e)
| uo_done : fs !! path = None → files !! fo_ID obj = None →
    upload_outcome env tenant path obj content db fs files ev
      (aworld db (<[path := content]> fs) (<[fo_ID obj := (FileToDBItem obj tenant).2]> files) ev, Reply obj)
| uo_failed files' : fs !! path = None →
    (files' = files ∨ (ue_insert env = NetErr true ∧ files' = <[fo_ID obj := (FileToDBItem obj tenant).2]> files)) →
    upload_outcome env tenant path obj content db fs files ev
      (aworld db (FDelete (ue_cleanup env) (FileStorageName (fo_ID obj) (fo_Filename obj))
                    (match folder_of tenant with Ok f => f | Err _ => "" end) (<[path := content]> fs)).1 files' ev,
       Refuse internalServerError).

Lemma CreateFile_outcome env r u db fs files ev purpose secs filename chunks folder :
  check_upload u = Reply (purpose, secs, filename, chunks) → folder_of (tenant_of cfg r) = Ok folder →
  let obj := upload_object env purpose filename secs (Z.of_nat (length (mjoin chunks))) in
  upload_outcome env (tenant_of cfg r) (upload_path env folder filename) obj (mjoin chunks) db fs files ev
    (CreateFile env r u (aworld db fs files ev)) ∧
  (∀ s', CreateFile env r u (aworld db fs files ev) = (s', Reply obj) →
     ∃ rd, copy (ac_MaxSizeBytes cfg) (ac_MaxLineCount cfg) newCountingReader chunks = Ok rd).
Proof.
  intros Hc Hf obj. destruct (folder_of_tenant r) as [f Hf']. rewrite Hf in Hf'. injection Hf' as ->.
  unfold CreateFile. rewrite Hc, Hf. fold (new_file_id env). unfold bindH at 1 4, call at 1 4. rewrite !on_afs_eq.
  rewrite !(FStore_result _ _ _ (upload_path env ("t-" +:+ f) filename)) by apply resolve_upload.
  set (path := upload_path env ("t-" +:+ f) filename).
  destruct (fs !! path) as [x|] eqn:Hp; [cbn; split; [constructor|done]|].
  destruct (copy _ _ _ _) as [rd|e] eqn:Hcopy; [|cbn; split; [constructor|done]].
  unfold fs_step. destruct (ue_store env) as [|[]] eqn:Hs; cbn [fst snd]; [|split; [by constructor|done]..].
  split; [|by eexists]. cbn [md_Size].
  unfold bindH at 1, call at 1, try at 1. rewrite on_files_eq, FileDBStore_result by done. cbn [fst snd FileToDBItem fo_ID].
  unfold bindH, call, try.
  destruct (files !! new_file_id env) as [y|] eqn:Hy, (ue_insert env) as [|[]] eqn:Hi; cbn [fst snd]; try rewrite on_afs_eq; cbn [fst snd].
  all: try (by apply uo_done).
  all: assert (("t-" +:+ f) = (match folder_of (tenant_of cfg r) with Ok f => f | Err _ => "" end)) as -> by by rewrite Hf.
  all: apply (uo_failed env (tenant_of cfg r) path obj); auto.
Qed.

(** An answered upload passed the checks. *)
Lemma CreateFile_inv env r u s s' resp :
  CreateFile env r u s = (s', resp) →
  (∃ e, resp = Refuse e ∧ s' = s) ∨
  ∃ purpose secs filename chunks folder, check_upload u = Reply (purpose, secs, filename, chunks) ∧
    folder_of (tenant_of cfg r) = Ok folder ∧
    let obj := upload_object env purpose filename secs (Z.of_nat (length (mjoin chunks))) in
    upload_outcome env (tenant_of cfg r) (upload_path env folder filename) obj (mjoin chunks)
      (aw_db s) (afs s) (aw_files s) (aw_ev s) (s', resp) ∧
    (resp = Reply obj → ∃ rd, copy (ac_MaxSizeBytes cfg) (ac_MaxLineCount cfg) newCountingReader chunks = Ok rd).
Proof.
  intros H. destruct (check_upload u) as [[[[purpose secs] filename] chunks]|e] eqn:Hc;
    [|unfold CreateFile in H; rewrite Hc in H; injection H as <- <-; eauto].
  right. destruct (folder_of_tenant r) as [f Hf]. rewrite (aworld_eta s) in H.
  destruct (CreateFile_outcome env r u (aw_db s) (afs s) (aw_files s) (aw_ev s) _ _ _ _ _ Hc Hf) as [Ho Hr].
  rewrite H in Ho, Hr. eexists _, _, _, _, _. do 2 (split; [done|]). split; [exact Ho|]. intros ->. by eapply Hr.
Qed.

Lemma file_lookup r id tenant row files :
  rq_PathValue r = id → id ≠ "" → tenant_of cfg r = tenant → files !! id = Some row → fr_tenant row = tenant →
  ∀ now s, aw_files s = files → getFileItemFromDB now NetOk r s = (s, Reply (id, row)).
Proof.
  intros Hid Hne Ht Hr Hrt now s Hs. rewrite getFileItem_eq, Hid, bool_decide_eq_false_2 by done.
  unfold file_item. rewrite Ht, Hs, Hr. by rewrite bool_decide_eq_true_2.
Qed.


(** A refused upload leaves nothing behind: as long as no response of the
    store or the database is lost, a refusal, whether by a check, a limit, a
    storage failure or a failure to insert the row, leaves the whole state as
    it was; the cleanup removes exactly what the upload had stored. *)
Theorem refused_upload_leaves_nothing env r u s s' e :
  CreateFile env r u s = (s', Refuse e) →
  ue_store env ≠ NetErr true → ue_insert env ≠ NetErr true → ue_cleanup env = NetOk → s' = s.
Proof.
  intros H H1 H2 H3. apply CreateFile_inv in H as [(e' & _ & ->)|(purpose & secs & filename & chunks & folder & Hc & Hf & Ho & _)];
    [done|]. inversion Ho as [e'|e' Hl| |files' Hp Hfiles]; subst; [by rewrite <- aworld_eta|done|].
  destruct Hfiles as [->|[? _]]; [|done]. destruct (folder_of_tenant r) as [f Hf']. rewrite Hf in Hf'. injection Hf' as ->.
  rewrite Hf, H3. unfold FDelete. cbn [upload_object fo_ID fo_Filename]. rewrite resolve_upload, lookup_insert_eq. cbn.
  rewrite delete_insert_id by done. by rewrite <- aworld_eta.
Qed.

(** The cleanup trusts an unknown outcome: when the insert of the file's
    row commits but its response is lost, the upload answers 500 and deletes
    the content although the row exists, so the file is listed and retrieved,
    a batch can be created on it, and every download of it fails. *)
Theorem lost_insert_dangles env r u s purpose secs filename chunks rd folder :
  check_upload u = Reply (purpose, secs, filename, chunks) →
  copy (ac_MaxSizeBytes cfg) (ac_MaxLineCount cfg) newCountingReader chunks = Ok rd →
  folder_of (tenant_of cfg r) = Ok folder → afs s !! upload_path env folder filename = None →
  aw_files s !! new_file_id env = None →
  ue_store env = NetOk → ue_insert env = NetErr true → ue_cleanup env = NetOk →
  let obj := upload_object env purpose filename secs (Z.of_nat (length (mjoin chunks))) in
  ∃ s', CreateFile env r u s = (s', Refuse internalServerError) ∧
    ∀ now r', tenant_of cfg r' = tenant_of cfg r → rq_PathValue r' = new_file_id env →
      RetrieveFile now NetOk r' s' = (s', Reply obj) ∧
      DownloadFile now NetOk NetOk r' s' = (s', Refuse internalServerError).
Proof.
  intros Hc Hcopy Hf Hp Hn Hs Hi Hcl obj. destruct (folder_of_tenant r) as [f Hf']. rewrite Hf in Hf'. injection Hf' as ->.
  set (s' := aworld (aw_db s) (afs s) (<[fo_ID obj := (FileToDBItem obj (tenant_of cfg r)).2]> (aw_files s)) (aw_ev s)).
  exists s'. split.
  - rewrite (aworld_eta s). unfold CreateFile. rewrite Hc, Hf. fold (new_file_id env). unfold bindH at 1, call at 1.
    rewrite on_afs_eq, (FStore_result _ _ _ (upload_path env ("t-" +:+ f) filename)) by apply resolve_upload.
    rewrite Hp, Hcopy, Hs. cbn [fs_step fst snd md_Size]. unfold bindH at 1, call at 1, try at 1.
    rewrite on_files_eq, FileDBStore_result by done. cbn [fst snd FileToDBItem fo_ID]. rewrite Hn, Hi. cbn [fst snd].
    unfold bindH, call, try. rewrite on_afs_eq, Hcl. unfold FDelete. rewrite resolve_upload, lookup_insert_eq. cbn [fs_step fst snd].
    by rewrite delete_insert_id.
  - intros now r' Ht Hid.
    assert (∀ now, getFileItemFromDB now NetOk r' s' = (s', Reply (FileToDBItem obj (tenant_of cfg r)))) as Hget.
    { intros now'. eapply (file_lookup r' (fo_ID obj)); [done|done|done|apply lookup_insert_eq|done|done]. }
    unfold RetrieveFile, DownloadFile, bindH. rewrite !Hget. split; [by rewrite DBItemToFile_ToDBItem|].
    cbn [fr_tenant FileToDBItem snd]. rewrite Hf, DBItemToFile_ToDBItem. unfold call, s'. rewrite on_afs_eq. unfold FRetrieve.
    cbn [obj upload_object fo_ID fo_Filename]. by rewrite resolve_upload, Hp.
Qed.

(** ** Deleting *)
Lemma file_delete_one id (m : gmap string FileRow) : filter (λ kr, kr.1 ∉ [id]) m = delete id m.
Proof.
  apply map_eq. intros k. apply option_eq. intros x. rewrite map_lookup_filter_Some, lookup_delete_Some. set_solver.
Qed.
Lemma DeleteFile_eq now nfs ndel r s row folder path :
  rq_PathValue r ≠ "" → aw_files s !! rq_PathValue r = Some row → fr_tenant row = tenant_of cfg r →
  folder_of (fr_tenant row) = Ok folder → resolvePath folder (FileStorageName (rq_PathValue r) (fr_filename row)) = Ok path →
  DeleteFile now NetOk nfs ndel r s =
  match afs s !! path, nfs with
  | Some _, NetErr c => (aworld (aw_db s) (if (c : bool) then delete path (afs s) else afs s) (aw_files s) (aw_ev s), Refuse internalServerError)
  | _, _ =>
      let fs' := delete path (afs s) in
      match ndel with
      | NetOk => (aworld (aw_db s) fs' (delete (rq_PathValue r) (aw_files s)) (aw_ev s), Reply (rq_PathValue r))
      | NetErr c => (aworld (aw_db s) fs' (if (c : bool) then delete (rq_PathValue r) (aw_files s) else aw_files s) (aw_ev s),
                     Refuse internalServerError)
      end
  end.
Proof.
  intros Hne Hr Ht Hf Hp. unfold DeleteFile, bindH at 1.
  rewrite (file_lookup r (rq_PathValue r) (tenant_of cfg r) row (aw_files s)) by done. cbn [DBItemToFile fst snd fo_ID fo_Filename].
  rewrite Hf. unfold bindH at 1, call at 1, try. rewrite (aworld_eta s). rewrite on_afs_eq. unfold FDelete. rewrite Hp.
  cbn [afs aworld aw_p pw w_fs aw_db w_db aw_files pw_files aw_ev]. unfold fs_step.
  assert (afs s !! path = None → delete path (afs s) = afs s) as Hnone by apply delete_id.
  destruct (afs s !! path) as [c|] eqn:Hc; [destruct nfs as [|[]]|]; cbn [fst snd].
  2, 3: by rewrite bool_decide_eq_false_2.
  2: rewrite bool_decide_eq_true_2 by done; cbn [negb].
  all: unfold bindH, call; rewrite on_files_eq; unfold FileDBDelete, file_exec; rewrite file_delete_one.
  all: rewrite ?Hnone by done; by destruct ndel as [|[]].
Qed.

(** Deleting a file can be repeated: whatever part of a first delete went
    through (the content, the row, both or neither, with or without its
    response), a second one leaves neither the content nor the row and touches
    nothing else, answering 200 if the row was still there and 404 if not. *)
Theorem delete_is_repeatable now1 now2 n1 nfs1 ndel1 r s row folder path :
  rq_PathValue r ≠ "" → aw_files s !! rq_PathValue r = Some row → fr_tenant row = tenant_of cfg r →
  folder_of (fr_tenant row) = Ok folder → resolvePath folder (FileStorageName (rq_PathValue r) (fr_filename row)) = Ok path →
  let s1 := (DeleteFile now1 n1 nfs1 ndel1 r s).1 in
  let s2 := aworld (aw_db s) (delete path (afs s)) (delete (rq_PathValue r) (aw_files s)) (aw_ev s) in
  DeleteFile now2 NetOk NetOk NetOk r s1 =
  (s2, if aw_files s1 !! rq_PathValue r then Reply (rq_PathValue r) else Refuse (fileNotFound (rq_PathValue r))).
Proof.
  intros Hne Hr Ht Hf Hp s1 s2. set (id := rq_PathValue r) in *.
  assert (∀ fs', fs' = afs s ∨ fs' = delete path (afs s) →
    DeleteFile now2 NetOk NetOk NetOk r (aworld (aw_db s) fs' (aw_files s) (aw_ev s)) = (s2, Reply id)) as Hretry.
  { intros fs' Hfs. erewrite DeleteFile_eq; [|done|done|done|done|done]. cbn [aw_files aworld aw_p pw_files afs pw w_fs aw_db w_db aw_ev].
    destruct Hfs as [->| ->]; unfold s2; [by destruct (afs s !! path)|]. rewrite delete_delete_eq. by destruct (_ !! path). }
  assert (s1 = s ∨ (∃ fs' files', s1 = aworld (aw_db s) fs' files' (aw_ev s) ∧ (fs' = afs s ∨ fs' = delete path (afs s)) ∧
     (files' = aw_files s ∨ (files' = delete id (aw_files s) ∧ fs' = delete path (afs s))))) as Hs1.
  { unfold s1. destruct n1.
    - rewrite (DeleteFile_eq now1 nfs1 ndel1 r s row folder path) by done. right.
      destruct (afs s !! path), nfs1 as [|[]], ndel1 as [|[]]; cbn; eauto 10.
    - left. unfold DeleteFile, bindH at 1. rewrite getFileItem_eq. by case_bool_decide. }
  destruct Hs1 as [->|(fs' & files' & -> & Hfs & [->|[-> ->]])].
  - rewrite (aworld_eta s) at 1. rewrite Hretry by auto. by rewrite Hr.
  - cbn [aw_files aworld aw_p pw_files]. rewrite Hr. by apply Hretry.
  - cbn [aw_files aworld aw_p pw_files]. rewrite lookup_delete_eq. unfold DeleteFile, bindH at 1. rewrite getFileItem_eq. fold id.
    rewrite bool_decide_eq_false_2 by done. unfold file_item. cbn [aw_files aworld aw_p pw_files]. by rewrite lookup_delete_eq.
Qed.

(** ** Listing *)

(** The reference: the tenant's files of the purpose ([""]: any) in ID order. *)
Definition tenant_files (desc : bool) (tenant purpose : string) (m : gmap string FileRow) : list (string * FileRow) :=
  select_rows desc (λ _ r, bool_decide (fr_tenant r = tenant) && (bool_decide (purpose = "") || bool_decide (fr_purpose r = purpose))) m.
Lemma files_page now tenant purpose after desc limit m :
  tenant ≠ "" →
  let '(page, more) := keyset_page desc limit (tenant_files desc tenant purpose m) after in
  (file_page now (files_query tenant purpose after desc) 0 limit m).1.1 = page ∧
  (file_page now (files_query tenant purpose after desc) 0 limit m).2 = more.
Proof.
  intros Ht. unfold file_page, file_conditions, keyset_page.
  cbn [fq_IDs fq_TenantID fq_Expired fq_AfterID fq_Purpose fq_Descending files_query].
  rewrite (bool_decide_eq_false_2 (tenant = "")), (bool_decide_eq_true_2 (@nil string = [])) by done. cbn [app].
  set (mine := λ (_ : string) r, bool_decide (fr_tenant r = tenant)).
  set (conds := app (if bool_decide (purpose = "") then [] else [λ _ r, bool_decide (fr_purpose r = purpose)])
       (if bool_decide (after = "") then [] else [λ id (_ : FileRow), after_id desc after id])).
  assert (select_rows desc (λ id r, forallb (λ c : string → FileRow → bool, c id r) (mine :: conds)) m =
    if bool_decide (after = "") then tenant_files desc tenant purpose m
    else filter (λ kr, after_id desc after kr.1 = true) (tenant_files desc tenant purpose m)) as ->.
  { unfold conds, tenant_files. destruct (bool_decide (after = "")); [|rewrite <- select_rows_filter].
    all: apply select_rows_ext; intros k r; destruct (bool_decide (purpose = "")); cbn; by rewrite ?andb_true_r, ?andb_assoc. }
  unfold get_at. cbn [fst snd]. case_bool_decide; cbn [drop]; rewrite take_take, Nat.min_l by lia; done.
Qed.

Definition file_list_page (now : Z) (r : Request) (after : string) : HM (list FileObject * option string * bool) :=
  resp <-- ListFiles now NetOk (at_cursor r after) ;;
  reply (lf_Data resp, if bool_decide (lf_LastID resp = "") then None else Some (lf_LastID resp), lf_HasMore resp).
Definition list_all_files (fuel : nat) (now : Z) (r : Request) : HM (list FileObject) := follow (file_list_page now r) fuel "".

Definition good_file_id (id : string) : Prop :=
  has_prefix FileIDPrefix id = true ∧ (String.length FileIDPrefix < String.length id)%nat.
Lemma file_id_no_digits id : has_prefix FileIDPrefix id = true → isDigits id = false.
Proof. destruct id as [|c id]; [done|]. cbn. by case_match; subst. Qed.

(** The parameters of a listing are acceptable. *)
Definition list_params (r : Request) (limit : Z) (desc : bool) : Prop :=
  files_limit (rq_Query r "limit") = Reply limit ∧ rq_Query r "order" ∈ [""; "asc"; "desc"] ∧
  desc = negb (bool_decide (rq_Query r "order" = "asc")) ∧
  (rq_Query r "purpose" = "" ∨ purpose_IsValid (rq_Query r "purpose") = true).

Lemma file_list_page_eq now r limit desc after s :
  list_params r limit desc → after = "" ∨ good_file_id after →
  let rows := tenant_files desc (tenant_of cfg r) (rq_Query r "purpose") (aw_files s) in
  Forall (λ x, good_file_id x.1) rows →
  let '(page, more) := keyset_page desc (Z.to_nat limit) rows after in
  ∃ bs, file_list_page now r after s = (s, Reply (bs, fst <$> last page, more)) ∧ Forall2 (λ x f, DBItemToFile x = f) page bs.
Proof.
  intros (Hl & Ho & -> & Hpu) Ha rows Hrows. set (desc := negb _) in *.
  pose proof (files_page now (tenant_of cfg r) (rq_Query r "purpose") after desc (Z.to_nat limit) (aw_files s) (tenant_nonempty _ _)) as Hp.
  fold rows in Hp. pose proof (keyset_page_elem desc (Z.to_nat limit) rows after) as Hin.
  destruct (keyset_page desc (Z.to_nat limit) rows after) as [page more]. destruct Hp as [H1 H2].
  exists (DBItemToFile <$> page). split; [|by apply Forall2_fmap_r, Forall_Forall2_diag, Forall_forall].
  assert (ParseAfter after FileIDPrefix = Ok (O, after)) as Hpa.
  { destruct Ha as [->|[Hpre Hlen]]; [done|]. apply ParseAfter_id; [by apply file_id_no_digits|done|done]. }
  unfold file_list_page, ListFiles. cbn [at_cursor rq_Query].
  rewrite (bool_decide_eq_true_2 ("after" = "after")), !(bool_decide_eq_false_2 (_ = "after")) by done.
  rewrite Hpa, Hl, (bool_decide_eq_true_2 (_ ∈ _)) by done. cbn [negb].
  assert (negb (bool_decide (rq_Query r "purpose" = "")) && negb (purpose_IsValid (rq_Query r "purpose")) = false) as ->.
  { destruct Hpu as [->| ->]; [done|by rewrite andb_false_r]. }
  fold desc. unfold bindH, call. rewrite (aworld_eta s), on_files_eq. cbn [aw_files aworld aw_p pw_files FileDBGet fst snd reply].
  change (tenant_of cfg (at_cursor r after)) with (tenant_of cfg r). rewrite H1, H2.
  cbn [files_response lf_Data lf_LastID lf_HasMore]. do 4 f_equal. rewrite fmap_last. destruct (last page) as [x|] eqn:Hx; cbn.
  - rewrite bool_decide_eq_false_2; [done|]. intros E. apply last_Some in Hx as [l ->].
    rewrite Forall_forall in Hrows. destruct (Hrows x) as [_ Hlen]; [apply Hin; set_solver|]. rewrite E in Hlen. cbn in Hlen. lia.
  - done.
Qed.

Lemma Forall2_fmap_fun {A B} (f : A → B) l k : Forall2 (λ x y, f x = y) l k → k = f <$> l.
Proof. induction 1 as [|x y l k <- _ ->]; done. Qed.

(** The file listing is complete in both directions: following [last_id]
    while [has_more] is set, a client receives exactly its tenant's files (of
    the requested purpose) once each, in ascending or (by default) descending
    ID order, whatever page size it chose. *)
Theorem list_follows_every_file now r limit desc s fuel :
  list_params r limit desc →
  let rows := tenant_files desc (tenant_of cfg r) (rq_Query r "purpose") (aw_files s) in
  (∀ k row, aw_files s !! k = Some row → fr_tenant row = tenant_of cfg r → good_file_id k) →
  (length rows < fuel)%nat →
  list_all_files fuel now r s = (s, Reply (DBItemToFile <$> rows)) ∧ NoDup rows.*1.
Proof.
  intros Hp rows Hg Hf. split; [|apply NoDup_select_rows].
  assert (Forall (λ x, good_file_id x.1) rows) as HF.
  { apply Forall_forall. intros [k row] Hin. unfold rows, tenant_files in Hin. apply elem_of_select_rows in Hin as [Hk Ht].
    boolify. cbn. eauto. }
  destruct (follow_walk desc (file_list_page now r) (λ x f, DBItemToFile x = f) good_file_id (Z.to_nat limit) rows s)
    with (fuel := fuel) (after := "") as (bs & H1 & H2); [done| |by left|].
  { intros after Ha. by apply file_list_page_eq. }
  assert (0 < Z.to_nat limit)%nat as Hl.
  { destruct Hp as (Hl & _). unfold files_limit in Hl. case_bool_decide; [simplify_eq; unfold defaultListFilesLimit; lia|]. destruct (Atoi _) as [v|]; [|done].
    destruct (_ || _) eqn:E; [done|]. simplify_eq. apply orb_false_iff in E as [? _]. boolify. lia. }
  unfold rows, tenant_files in H2. rewrite keyset_walk_complete in H2; [|done|done|].
  - unfold list_all_files. rewrite H1. do 2 f_equal. by apply Forall2_fmap_fun.
  - fold (tenant_files desc (tenant_of cfg r) (rq_Query r "purpose") (aw_files s)). fold rows. intros (x & Hx & Hin)%list_elem_of_fmap.
    rewrite Forall_forall in HF. destruct (HF _ Hin) as [_ Hlen]. rewrite <- Hx in Hlen. cbn in Hlen. lia.
Qed.
End FileHandlers.
