(* ===== verification/Input.v ===== *)
(** * Reading a batch's input

    [internal/processor/worker/fileio.go]: where a job keeps its local files,
    and how the processor opens the file a batch names: its row by ID, then the
    object it was stored under.  The theorem closes the gap between the upload
    ([FileHandlers]) and ingestion ([Preprocess]). *)

From Stdlib Require Import ZArith Lia Ascii String.
From stdpp Require Import base gmap strings list sorting.
From S2P Require Import Prelude Openai Store StoreOps Planner Preprocess Files ResultStore Finalizer Query Collector.
From S2P Require Import Events Rest FileItems BatchHandlers Keyset FileHandlers.
Local Open Scope string_scope.
Local Open Scope Z_scope.

Definition jobsDirName := "jobs".
Definition plansDirName := "plans".
Definition inputFileName := "input.jsonl".

Section Input.
Context (sha256hex : bytes → string).

(** ** Local paths

    The work directory is a clean path, so [filepath.Join] only concatenates. *)
Definition jobRootDir (workDir jobID tenantID : string) : result string :=
  match GetFolderNameByTenantID sha256hex tenantID with
  | Err _ => Err (ErrOther "failed to sanitize tenant id for job path")
  | Ok folderName => Ok (join (join (join workDir folderName) jobsDirName) jobID)
  end.
Definition jobInputFilePath (workDir jobID tenantID : string) : result string :=
  and_then (jobRootDir workDir jobID tenantID) (λ dir, Ok (join dir inputFileName)).
Definition jobPlansDir (workDir jobID tenantID : string) : result string :=
  and_then (jobRootDir workDir jobID tenantID) (λ dir, Ok (join dir plansDirName)).

(** ** [openInputFileStream] *)
Definition input_query (inputFileID : string) : FileQuery :=
  {| fq_IDs := [inputFileID]; fq_TenantID := ""; fq_Expired := false; fq_AfterID := ""; fq_Descending := false;
     fq_Purpose := "" |}.
Definition on_file_rows {A} (m : M (gmap string FileRow) A) : M PWorld A := λ s,
  let '(files, r) := m (pw_files s) in ({| pw := pw s; pw_files := files |}, r).
Definition openInputFileStream (now : Z) (n nfs : net) (inputFileID : string) : M PWorld (bytes * BatchFileMetadata) :=
  page <- on_file_rows (FileDBGet now n (input_query inputFileID) 0 1) ;;
  match page.1.1 with
  | [] => throw (ErrOther "input file not found in db")
  | fileItem :: _ =>
      let fileObj := DBItemToFile fileItem in
      match GetFolderNameByTenantID sha256hex (fr_tenant fileItem.2) with
      | Err _ => throw (ErrOther "failed to get folder name by tenant id")
      | Ok folderName =>
          on_world (on_fs (FRetrieve nfs (FileStorageName fileItem.1 (fo_Filename fileObj)) folderName))
      end
  end.

(** ** Lemmas *)
Lemma file_page_by_key now id m :
  file_page now (input_query id) 0 1 m =
    match m !! id with Some r => ([(id, r)], 1%nat, false) | None => ([], O, false) end.
Proof.
  unfold file_page. change (file_conditions now (input_query id)) with [λ (k : string) (_ : FileRow), bool_decide (k ∈ [id])].
  cbn iota. rewrite (select_one _ _ _ id) by (intros k r Hk; cbn in Hk; boolify; set_solver).
  destruct (m !! id); [|done]. cbn [forallb]. by rewrite bool_decide_eq_true_2 by set_solver.
Qed.
(** Opening an input reads the object of its row and changes nothing. *)
Lemma openInputFileStream_eq now id w row folder path :
  pw_files w !! id = Some row → GetFolderNameByTenantID sha256hex (fr_tenant row) = Ok folder →
  resolvePath folder (FileStorageName id (fr_filename row)) = Ok path →
  openInputFileStream now NetOk NetOk id w =
    (w, match w_fs (pw w) !! path with
        | Some data => Ok (data, {| md_Size := Z.of_nat (length data); md_LinesNumber := 0 |})
        | None => Err ErrFileNotFound
        end).
Proof.
  intros Hr Hf Hp. unfold openInputFileStream, bindM, on_file_rows, FileDBGet. rewrite file_page_by_key, Hr. cbn [fst snd].
  rewrite Hf. unfold on_world, on_fs, FRetrieve. cbn [DBItemToFile fo_Filename snd pw]. rewrite Hp.
  destruct w as [[db fs] files]. cbn [pw pw_files w_fs w_db]. by destruct (fs !! path).
Qed.

(** ** Jobs do not share directories *)
Lemma last_component_inj (a b l l' : list ascii) :
  "/"%char ∉ l → "/"%char ∉ l' → app a ("/"%char :: l) = app b ("/"%char :: l') → l = l'.
Proof.
  revert b l l'. induction a as [|x a IH]; intros b l l' Hl Hl' E; destruct b as [|y b]; cbn in E.
  - by injection E.
  - injection E as <- ->. exfalso. apply Hl. set_solver.
  - injection E as -> <-. exfalso. apply Hl'. set_solver.
  - injection E as -> E. by eapply IH.
Qed.
(** Two jobs with the same directory are the same job, whatever their tenants:
    the cleanup after one job cannot remove the files of another. Job IDs hold no
    slash (they are UUIDs with a prefix). *)
Theorem job_dirs_are_disjoint workDir j j' t t' dir :
  "/"%char ∉ chars j → "/"%char ∉ chars j' →
  jobRootDir workDir j t = Ok dir → jobRootDir workDir j' t' = Ok dir → j = j'.
Proof.
  unfold jobRootDir. intros Hj Hj' H H'. destruct (GetFolderNameByTenantID sha256hex t) as [f|]; [|done].
  destruct (GetFolderNameByTenantID sha256hex t') as [f'|]; [|done]. injection H as <-. injection H' as E.
  apply (f_equal list_ascii_of_string) in E. unfold join at 1 4 in E. rewrite !chars_app in E. cbn [list_ascii_of_string app] in E.
  apply last_component_inj in E; [|done..]. by apply (f_equal string_of_list_ascii) in E; rewrite !string_of_list_ascii_of_string in E.
Qed.

(** ** From upload to ingestion *)

(** What a client uploads is what a processor reads: after an upload was
    answered, and as long as its row and its object are kept, opening the file
    by its ID yields exactly the uploaded bytes and their number, whatever else
    the tables and the store hold by then. *)
Theorem uploaded_file_is_the_input cfg env r u s s' file now (w : PWorld) :
  CreateFile sha256hex cfg env r u s = (s', Reply file) →
  pw_files w !! fo_ID file = aw_files s' !! fo_ID file → afs s' ⊆ w_fs (pw w) →
  ∃ filename size chunks, up_File u = FormPart filename size chunks ∧
    openInputFileStream now NetOk NetOk (fo_ID file) w =
      (w, Ok (mjoin chunks, {| md_Size := Z.of_nat (length (mjoin chunks)); md_LinesNumber := 0 |})).
Proof.
  intros H Hrow Hfs. apply CreateFile_inv in H as [(e & [=] & _)|(purpose & secs & filename & chunks & folder & Hc & Hf & Ho & _)].
  apply check_upload_ok in Hc as (_ & _ & _ & size & Hfile). inversion Ho; subst.
  exists filename, size, chunks. split; [done|]. destruct (folder_of_tenant sha256hex cfg r) as [f Hf']. rewrite Hf in Hf'. injection Hf' as ->.
  cbn [aw_files aworld aw_p pw_files] in Hrow. rewrite lookup_insert_eq in Hrow.
  erewrite openInputFileStream_eq; [|exact Hrow|exact Hf|apply resolve_upload].
  rewrite (lookup_weaken _ _ _ (mjoin chunks) (lookup_insert_eq _ _ _) Hfs). done.
Qed.
End Input.
