(* ===== verification/ApiRuns.v ===== *)
(** * Concrete runs of the API server

    A day at the endpoints: a file is uploaded, a batch is created on it,
    listed, claimed by a processor and cancelled.  Each run instantiates a
    theorem of [Cancellation], [ApiBatches] or [FileHandlers]. *)

From Stdlib Require Import ZArith Lia Ascii String.
From stdpp Require Import base gmap strings list sorting pretty.
From S2P Require Import Prelude Openai Store StoreOps Ownership Planner Preprocess Files ResultStore Finalizer Query.
From S2P Require Import Events Rest FileItems BatchHandlers Cancellation Keyset ApiBatches FileHandlers.
Local Open Scope string_scope.
Local Open Scope Z_scope.

Module ApiRuns.
Definition yaml : YamlConfig :=
  {| yc_InputHeaders := ∅; yc_BatchEventTTLSeconds := 0; yc_PassThroughHeaders := ["X-Team"]; yc_ExtraEndpoints := [];
     yc_DefaultExpirationSeconds := 0; yc_MaxSizeBytes := 0; yc_MaxLineCount := 0 |}.
Definition cfg : APIConfig :=
  match NewAPIConfig yaml with
  | Ok c => c
  | Err _ => {| ac_TenantHeader := ""; ac_BatchEventTTLSeconds := 0; ac_PassThroughHeaders := [];
                ac_Allowlist := emptyAllowlist; ac_DefaultExpirationSeconds := 0; ac_MaxSizeBytes := 0; ac_MaxLineCount := 0 |}
  end.
Definition sha (b : bytes) : string := "ab".
Definition request (path : string) : Request :=
  {| rq_Header := λ h, if bool_decide (h = "X-MaaS-Username") then ["spoofed"; "alice"] else ["blue"];
     rq_PathValue := path; rq_Query := λ k, if bool_decide (k = "limit") then "1" else "" |}.
Definition world0 : AWorld := aworld empty_db ∅ ∅ no_events.

(** ** Files *)
Definition line : bytes := [123; 125; 10].
Definition upload : Upload :=
  {| up_ContentLength := 500; up_BodySize := 500; up_File := FormPart "in/requests.jsonl" 3 [line]; up_Purpose := "batch";
     up_Anchor := ""; up_Seconds := "" |}.
Definition upload_env (insert : net) : UploadEnv :=
  {| ue_createdAt := 1000; ue_uuid := "u1"; ue_store := NetOk; ue_insert := insert; ue_cleanup := NetOk |}.
Definition upload_run (insert : net) : AWorld * Response FileObject :=
  CreateFile sha cfg (upload_env insert) (request "") upload world0.
Definition uploaded : AWorld := (upload_run NetOk).1.
Definition file : FileObject :=
  {| fo_ID := "file_u1"; fo_Bytes := 3; fo_CreatedAt := 1000; fo_ExpiresAt := Some 7777000; fo_Filename := "requests.jsonl";
     fo_Purpose := "batch" |}.

Lemma refused_upload_leaves_nothing_run : (upload_run (NetErr false)).1 = world0.
Proof.
  apply (refused_upload_leaves_nothing sha cfg (upload_env (NetErr false)) (request "") upload world0 _ internalServerError);
    [vm_compute; reflexivity|discriminate|discriminate|reflexivity].
Defined.
Lemma lost_insert_dangles_run :
  ∃ s', upload_run (NetErr true) = (s', Refuse internalServerError) ∧
    DownloadFile sha cfg 0 NetOk NetOk (request "file_u1") s' = (s', Refuse internalServerError).
Proof.
  destruct (lost_insert_dangles sha cfg (upload_env (NetErr true)) (request "") upload world0 "batch" 7776000
              "in/requests.jsonl" [line] {| BytesRead := 3; LineCount := 1; hasTrailingContent := false |} "t-ab")
    as (s' & H & Hd); try (vm_compute; reflexivity).
  exists s'. split; [exact H|]. exact (proj2 (Hd 0 (request "file_u1") eq_refl eq_refl)).
Defined.
(** The content went, the row stayed; the repeated delete finishes. *)
Lemma delete_is_repeatable_run :
  DeleteFile sha cfg 0 NetOk NetOk NetOk (request "file_u1")
    (DeleteFile sha cfg 0 NetOk NetOk (NetErr false) (request "file_u1") uploaded).1 = (world0, Reply "file_u1").
Proof.
  refine (eq_trans (delete_is_repeatable sha cfg 0 0 NetOk NetOk (NetErr false) (request "file_u1") uploaded
            (FileToDBItem file "alice").2 "t-ab" "t-ab/file_u1.jsonl" _ _ _ _ _) _);
    [discriminate|vm_compute; reflexivity..].
Defined.
Lemma list_follows_every_file_run :
  list_all_files cfg 2 0 (request "") uploaded = (uploaded, Reply [file]).
Proof.
  refine (eq_trans (proj1 (list_follows_every_file cfg 0 (request "") 1 true uploaded 2 _ _ _)) _).
  - split_and!; [vm_compute; reflexivity| |reflexivity|left; reflexivity]. cbn. set_solver.
  - intros k row Hk _. change (aw_files uploaded) with (<["file_u1" := (FileToDBItem file "alice").2]> (∅ : gmap string FileRow)) in Hk.
    apply lookup_insert_Some in Hk as [[<- _]|[_ Hk]]; [|by rewrite lookup_empty in Hk]. split; [reflexivity|]. cbn. lia.
  - vm_compute. lia.
  - vm_compute. reflexivity.
Defined.

(** ** Batches *)
Definition body : CreateBatchRequest :=
  {| InputFileID := "file_u1"; Endpoint := "/v1/chat/completions"; CompletionWindow := "24h"; Metadata := ∅;
     cbr_OutputExpiresAfter := None |}.
Definition create_env : CreateEnv :=
  {| cr_createdAt := 2000; cr_now := 2000000000; cr_file := NetOk; cr_store := NetOk; cr_uuid := "v1"; cr_trace := ∅ |}.
Definition spec : BatchSpec := b_Spec (new_batch create_env body).
Definition marshal (_ : BatchSpec) : string := "{}".
Definition unmarshal (_ : string) : option BatchSpec := Some spec.
Definition created : AWorld := (CreateBatch marshal cfg create_env (request "") (Ok body) uploaded).1.
Definition the_batch : Batch := new_batch create_env body.

Lemma create_replies : CreateBatch marshal cfg create_env (request "") (Ok body) uploaded = (created, Reply the_batch).
Proof. vm_compute. reflexivity. Qed.
Definition batch_row : Row :=
  {| r_tenant := "alice"; r_expiry := 0; r_tags := {["pth:X-Team" := "blue"]}; r_spec := "{}";
     r_status := Some (set_Status BatchStatusValidating zeroInfo); r_processor := None;
     r_priority := Some 88400000000; r_epoch := 0; r_attempts := 0; r_resumable := false; r_lease := None |}.
Lemma created_items : items (aw_db created) = {["batch_v1" := batch_row]}.
Proof. vm_compute. reflexivity. Qed.

Lemma created_batch_is_queued_run :
  ∃ row, items (aw_db created) !! "batch_v1" = Some row ∧ claimable 30 row = true ∧ r_priority row = Some 88400000000.
Proof.
  destruct (created_batch_is_queued marshal unmarshal cfg create_env (request "") (Ok body) uploaded created (Reply the_batch))
    as (req & row & d & Hb & _ & _ & Hi & _ & _ & _ & _ & Hc & Hd & Hp);
    [exact create_replies|reflexivity|intros req [= <-]; split; [reflexivity|discriminate]|].
  injection Hb as <-. exists row. split; [rewrite Hi; apply lookup_insert_eq|]. split; [apply Hc|].
  rewrite Hp. assert (d = 86400000000000) as -> by (vm_compute in Hd; congruence). reflexivity.
Defined.
(** A hundred years on, the batch still does not count as expired. *)
Definition worker_acts : list Stmt := [SDequeue 3000000000 ∅ 30 "w1" 5; SProgress "batch_v1" 1 {| Total := 1; Completed := 0; Failed := 0 |}].
Lemma api_batches_never_expire_run :
  "batch_v1" ∉ ((db_page 3153600000000000000 Collector.expiredQuery 0 100 (run_all worker_acts (aw_db created))).1.1).*1.
Proof.
  apply (api_batches_never_expire marshal cfg create_env (request "") (Ok body) uploaded created the_batch worker_acts
           3153600000000000000 0 100).
  - exact create_replies.
  - repeat constructor.
  - repeat constructor.
Defined.
Lemma one_row k row : items (aw_db created) !! k = Some row → k = "batch_v1" ∧ row = batch_row.
Proof. rewrite created_items. intros [-> <-]%lookup_singleton_Some. done. Qed.
Lemma list_follows_every_batch_run :
  ∃ bs, list_all unmarshal cfg 2 0 (request "") created = (created, Reply bs) ∧ b_ID <$> bs = ["batch_v1"].
Proof.
  destruct (list_follows_every_batch unmarshal cfg 0 (request "") 1 created 2) as (bs & H & _ & Hid & _).
  - vm_compute. reflexivity.
  - intros k row Hk _. apply one_row in Hk as [-> ->]. split; [split; [reflexivity|cbn; lia]|]. eexists. reflexivity.
  - vm_compute. lia.
  - exists bs. split; [exact H|]. rewrite Hid. vm_compute. reflexivity.
Defined.
(** Another tenant's row changes nothing for alice. *)
Definition bobs_row : Row := {| r_tenant := "bob"; r_expiry := 0; r_tags := ∅; r_spec := "{}";
  r_status := Some (set_Status BatchStatusValidating zeroInfo); r_processor := None; r_priority := Some 1; r_epoch := 0;
  r_attempts := 0; r_resumable := false; r_lease := None |}.
Definition with_bob : AWorld :=
  aworld {| items := <["batch_b" := bobs_row]> (items (aw_db created)); entries := ∅ |} (afs created) (aw_files created) no_events.
Lemma tenants_are_isolated_run :
  (ListBatches unmarshal cfg 0 NetOk (request "batch_b") with_bob).2 = (ListBatches unmarshal cfg 0 NetOk (request "batch_b") created).2.
Proof.
  apply (tenants_are_isolated marshal unmarshal cfg 0 NetOk (request "batch_b") with_bob created).
  intros k row Ht. change (items (aw_db with_bob)) with (<["batch_b" := bobs_row]> (items (aw_db created))).
  rewrite lookup_insert_Some. split; [intros [[_ <-]|[_ H]]; [discriminate Ht|exact H]|].
  intros H. pose proof (one_row _ _ H) as [-> _]. right. split; [discriminate|exact H].
Defined.

(** ** Cancelling *)

(** The batch is claimed and progresses while it is being cancelled: the first
    conditional update conflicts, the second goes through. *)
Definition cancel_env : CancelEnv :=
  {| ce_now := λ _, 4000000000; ce_clock := λ _, 4000; ce_locked := ∅; ce_event := (1, NetOk); ce_net := λ _, NetOk;
     ce_others := λ i, match i with
                       | 0%nat => [SDequeue 3000000000 ∅ 30 "w1" 5]
                       | 3%nat => [SProgress "batch_v1" 1 {| Total := 9; Completed := 1; Failed := 0 |}]
                       | _ => []
                       end |}.
Definition cancel_run : AWorld * Response Batch := CancelBatch marshal unmarshal cfg cancel_env (request "batch_v1") created.
Lemma cancel_never_overwrites_run :
  ∃ tr, traced "batch_v1" (ce_others cancel_env) (aw_db created) (aw_db cancel_run.1) tr.
Proof.
  destruct (cancel_never_overwrites marshal unmarshal cfg cancel_env (request "batch_v1") created cancel_run.1 cancel_run.2)
    as (tr & H & _); [vm_compute; reflexivity|]. exists tr. exact H.
Defined.
Lemma cancel_reply_is_durable_run :
  refusal cancel_run.2 = None ∧
  ∃ t1 t2, traced "batch_v1" (ce_others cancel_env) (aw_db created) (aw_db cancel_run.1) (app t1 t2) ∧
    (was_cancelled "batch_v1" (run_all t1.*2 (aw_db created)) ∨
     (is_cancelling "batch_v1" (run_all t1.*2 (aw_db created)) ∧
      et_rows (aw_ev cancel_run.1) !! 1 = Some (cancel_row cfg cancel_env "batch_v1"))).
Proof.
  split; [vm_compute; reflexivity|].
  destruct (cancel_reply_is_durable marshal unmarshal cfg cancel_env (request "batch_v1") created cancel_run.1 cancel_run.2)
    as (t1 & t2 & H & _ & Hr); [vm_compute; reflexivity|]. exists t1, t2. split; [exact H|].
  destruct cancel_run.2 as [x|e] eqn:E; [exact (Hr x eq_refl)|]. exfalso. vm_compute in E. discriminate E.
Defined.
(** The event of that cancel was lost; the client asks again. *)
Definition cancelling_world : AWorld :=
  aworld {| items := {["batch_v1" := set_r_status (Some (cancelling_doc 4000 zeroInfo)) batch_row]}; entries := ∅ |} ∅ ∅ no_events.
Definition retry_env : CancelEnv :=
  {| ce_now := λ _, 5000000000; ce_clock := λ _, 5000; ce_locked := ∅; ce_event := (2, NetOk); ce_net := λ _, NetOk;
     ce_others := λ _, [] |}.
Lemma cancel_retry_completes_run :
  ∃ s' b, CancelBatch marshal unmarshal cfg retry_env (request "batch_v1") cancelling_world = (s', Reply b) ∧
    et_rows (aw_ev s') = {[2 := cancel_row cfg retry_env "batch_v1"]}.
Proof.
  destruct (cancel_retry_completes marshal unmarshal cfg retry_env (request "batch_v1") cancelling_world
              (set_r_status (Some (cancelling_doc 4000 zeroInfo)) batch_row)
              {| b_ID := "batch_v1"; b_Spec := spec; b_Info := cancelling_doc 4000 zeroInfo |}) as (s' & H & _ & He);
    try (vm_compute; reflexivity).
  - discriminate.
  - cbn. set_solver.
  - eexists s', _. split; [exact H|]. rewrite He. reflexivity.
Defined.
End ApiRuns.
