(* ===== verification/Config.v ===== *)
(** * Configuration of the processor and of the garbage collector

    [internal/processor/config/config.go]: the defaults, [Validate] and what it
    calls, the worker cap of [EffectiveNumWorkers], the resolution of gateway
    credentials.  [internal/gc/config/config.go]: the checks of [Load].
    [internal/util/retry]: [Config.Validate].  [processor/worker/worker.go]:
    the guards of [NewProcessor] and [initConcurrencyControls].

    Durations are int64 nanoseconds.  A float64 read from YAML may also be an
    infinity or NaN, so the comparisons of the code are written out for them.
    The file system ([os.Stat], [os.ReadFile], the mounted secrets) and the
    Kubernetes quantity parser are arguments.  Settings that only parameterise
    I/O (database, observability, buckets beyond their check) are left out. *)

From Stdlib Require Import ZArith Lia Ascii String.
From stdpp Require Import base gmap strings list.
From S2P Require Import Prelude Openai Store Preprocess Semaphore Flow Throttle Rest.
Local Open Scope string_scope.
Local Open Scope Z_scope.

Definition Second : Z := 1000000000.
Definition Minute : Z := 60 * Second.

(** ** float64 values of a YAML file *)
Inductive yfloat := NaN | Infinite (negative : bool) | Finite (f : Float.float64).
(** [x <= n] and [x >= n] for a small integer constant: every comparison with
    NaN is false. *)
Definition yf_le (x : yfloat) (n : Z) : bool :=
  match x with
  | NaN => false
  | Infinite negative => negative
  | Finite f => if 0 <=? Float.expo f then Float.mant f * 2 ^ Float.expo f <=? n
                else Float.mant f <=? n * 2 ^ (- Float.expo f)
  end.
Definition yf_ge (x : yfloat) (n : Z) : bool :=
  match x with
  | NaN => false
  | Infinite negative => negb negative
  | Finite f => if 0 <=? Float.expo f then n <=? Float.mant f * 2 ^ Float.expo f
                else n * 2 ^ (- Float.expo f) <=? Float.mant f
  end.
Definition yf (m e : Z) : yfloat := Finite {| Float.mant := m; Float.expo := e |}.
(** 0.1 is not a binary fraction: the nearest double. *)
Definition tenth : yfloat := yf 3602879701896397 (-55).

(** ** [retry.Config] *)
Record RetryConfig := { rc_MaxRetries : Z; rc_InitialBackoff : Z; rc_MaxBackoff : Z }.
Definition retry_Validate (c : RetryConfig) : result unit :=
  if rc_MaxRetries c <? 0 then Err (ErrOther "max_retries must be >= 0")
  else if 0 <? rc_MaxRetries c then
    first_failure
      [ (rc_InitialBackoff c <=? 0, "initial_backoff must be > 0 when max_retries > 0");
        (rc_MaxBackoff c <=? 0, "max_backoff must be > 0 when max_retries > 0");
        (rc_MaxBackoff c <? rc_InitialBackoff c, "max_backoff must be >= initial_backoff") ]
  else Ok tt.

(** ** [ProcessorConfig] *)
Record AIMDYaml := { ay_Enabled : bool; ay_Min : Z; ay_BackoffFactor : yfloat; ay_AdditiveIncrease : Z }.
Record ConcurrencyConfig := { cc_Global : Z; cc_PerEndpoint : Z; cc_Recovery : Z; cc_AIMD : AIMDYaml }.
Record AsyncModelConfig := {
  am_InferencePoolName : string; am_InferenceObjective : string; am_RequestQueueName : string;
  am_ResultQueueName : string }.
Record AsyncDispatchConfig := {
  ad_Transport : string; ad_ResultPollTimeout : Z; ad_PollInterval : Z; ad_MaxConnections : Z;
  ad_Models : gmap string AsyncModelConfig }.
Record ResumableConfig := {
  rs_LeaseDuration : Z; rs_FinalizeConcurrency : Z; rs_FinalizeTimeout : Z; rs_RecoveryWindow : Z }.
Record BucketConfig := { bk_Start : yfloat; bk_Factor : yfloat; bk_Count : Z }.
Record ModelGatewayConfig := {
  gw_URL : string; gw_APIKeyName : string; gw_APIKeyFile : string; gw_InferenceObjective : string;
  gw_RequestTimeout : option Z; gw_MaxRetries : option Z; gw_InitialBackoff : option Z; gw_MaxBackoff : option Z;
  gw_TLSInsecureSkipVerify : bool; gw_TLSCACertFile : string; gw_TLSClientCertFile : string;
  gw_TLSClientKeyFile : string }.

(** The mode and the route key method are strings of the file. *)
Definition DispatchModeSync := "sync".
Definition DispatchModeAsync := "async".
Definition RouteKeyBare := "".
Definition RouteKeyTenant := "tenant".
Definition AsyncTransportRedisSortedSet := "redis-sortedset".
Definition AsyncTransportSQL := "sql".
Definition DefaultSQLMaxConns : Z := 8.

Record ProcessorConfig := {
  pc_ExtraEndpoints : list string; pc_TaskWaitTime : Z; pc_NumWorkers : Z; pc_WorkDirSizeLimit : string;
  pc_InputFileDiskBudgetPercent : Z; pc_MaxInputFileSizeBytes : Z; pc_Concurrency : ConcurrencyConfig;
  pc_PollInterval : Z; pc_QueueTimeBucket : BucketConfig; pc_ProcessTimeBucket : BucketConfig;
  pc_E2ELatencyBucket : BucketConfig; pc_Addr : string; pc_ShutdownTimeout : Z; pc_WorkDir : string;
  pc_GlobalInferenceGateway : option ModelGatewayConfig; pc_ModelGateways : gmap string ModelGatewayConfig;
  pc_RouteKeyMethod : string; pc_DefaultOutputExpirationSeconds : Z; pc_ProgressUpdateInterval : Z;
  pc_SendFairnessHeader : bool; pc_FileRetry : RetryConfig; pc_DispatchMode : string;
  pc_AsyncDispatch : AsyncDispatchConfig; pc_Resumable : ResumableConfig }.
Definition set_mode (m : string) (c : ProcessorConfig) : ProcessorConfig :=
  {| pc_ExtraEndpoints := pc_ExtraEndpoints c; pc_TaskWaitTime := pc_TaskWaitTime c; pc_NumWorkers := pc_NumWorkers c;
     pc_WorkDirSizeLimit := pc_WorkDirSizeLimit c; pc_InputFileDiskBudgetPercent := pc_InputFileDiskBudgetPercent c;
     pc_MaxInputFileSizeBytes := pc_MaxInputFileSizeBytes c; pc_Concurrency := pc_Concurrency c;
     pc_PollInterval := pc_PollInterval c; pc_QueueTimeBucket := pc_QueueTimeBucket c;
     pc_ProcessTimeBucket := pc_ProcessTimeBucket c; pc_E2ELatencyBucket := pc_E2ELatencyBucket c; pc_Addr := pc_Addr c;
     pc_ShutdownTimeout := pc_ShutdownTimeout c; pc_WorkDir := pc_WorkDir c;
     pc_GlobalInferenceGateway := pc_GlobalInferenceGateway c; pc_ModelGateways := pc_ModelGateways c;
     pc_RouteKeyMethod := pc_RouteKeyMethod c; pc_DefaultOutputExpirationSeconds := pc_DefaultOutputExpirationSeconds c;
     pc_ProgressUpdateInterval := pc_ProgressUpdateInterval c; pc_SendFairnessHeader := pc_SendFairnessHeader c;
     pc_FileRetry := pc_FileRetry c; pc_DispatchMode := m; pc_AsyncDispatch := pc_AsyncDispatch c;
     pc_Resumable := pc_Resumable c |}.

Definition NewConfig : ProcessorConfig :=
  {| pc_ExtraEndpoints := []; pc_PollInterval := 5 * Second; pc_TaskWaitTime := 1 * Second;
     pc_ProcessTimeBucket := {| bk_Start := tenth; bk_Factor := yf 2 0; bk_Count := 15 |};
     pc_QueueTimeBucket := {| bk_Start := tenth; bk_Factor := yf 2 0; bk_Count := 10 |};
     pc_E2ELatencyBucket := {| bk_Start := yf 1 0; bk_Factor := yf 3 0; bk_Count := 12 |};
     pc_Concurrency := {| cc_Global := 100; cc_PerEndpoint := 10; cc_Recovery := 5;
       cc_AIMD := {| ay_Enabled := true; ay_Min := 5; ay_BackoffFactor := yf 1 (-1); ay_AdditiveIncrease := 1 |} |};
     pc_NumWorkers := 5; pc_WorkDirSizeLimit := "10Gi"; pc_InputFileDiskBudgetPercent := 10;
     pc_MaxInputFileSizeBytes := Z.shiftl 200 20; pc_Addr := ":9090"; pc_ShutdownTimeout := 30 * Second;
     pc_WorkDir := "/var/lib/batch-gateway/processor";
     pc_FileRetry := {| rc_MaxRetries := 3; rc_InitialBackoff := 1 * Second; rc_MaxBackoff := 10 * Second |};
     pc_GlobalInferenceGateway := None; pc_ModelGateways := ∅; pc_RouteKeyMethod := RouteKeyBare;
     pc_DefaultOutputExpirationSeconds := 90 * 24 * 60 * 60; pc_ProgressUpdateInterval := 15 * Second;
     pc_SendFairnessHeader := false; pc_DispatchMode := DispatchModeSync;
     pc_AsyncDispatch := {| ad_Transport := AsyncTransportRedisSortedSet; ad_MaxConnections := DefaultSQLMaxConns;
       ad_ResultPollTimeout := 5 * Second; ad_PollInterval := Second; ad_Models := ∅ |};
     pc_Resumable := {| rs_LeaseDuration := 5 * Minute; rs_FinalizeConcurrency := 16; rs_FinalizeTimeout := 30 * Minute;
       rs_RecoveryWindow := 5 * Minute |} |}.

Definition IsAsync (c : ProcessorConfig) : bool := bool_decide (pc_DispatchMode c = DispatchModeAsync).
Definition InferenceObjectiveFor (c : ProcessorConfig) (modelID : string) : string :=
  if IsAsync c then
    match ad_Models (pc_AsyncDispatch c) !! modelID with Some m => am_InferenceObjective m | None => "" end
  else match pc_GlobalInferenceGateway c with
  | Some gw => gw_InferenceObjective gw
  | None => match pc_ModelGateways c !! modelID with Some gw => gw_InferenceObjective gw | None => "" end
  end.

Section Validation.
(** [os.Stat] succeeds; the text of a readable file; a key of the mounted
    secrets (a missing one reads as empty); [resource.ParseQuantity] followed
    by [Value]. *)
Context (stat : string → bool) (ReadFile : string → result string) (ReadSecretFile : string → result string).
Context (ParseQuantity : string → option Z).

Definition EffectiveNumWorkers (c : ProcessorConfig) : result Z :=
  let pct := pc_InputFileDiskBudgetPercent c in
  let maxInput := pc_MaxInputFileSizeBytes c in
  and_then (first_failure
    [ (pc_NumWorkers c <=? 0, "num_workers must be > 0");
      ((pct <=? 0) || (100 <? pct), "input_file_disk_budget_percent must be in [1, 100]");
      (maxInput <=? 0, "input_file_max_size_bytes must be > 0");
      (bool_decide (pc_WorkDirSizeLimit c = ""), "work_dir_size_limit cannot be empty") ]) (λ _,
  match ParseQuantity (pc_WorkDirSizeLimit c) with
  | None => Err (ErrOther "parse work_dir_size_limit")
  | Some workDirBytes =>
      if workDirBytes <=? 0 then Err (ErrOther "work_dir_size_limit must be > 0")
      else
        let inputBudgetBytes := wrap64 (wrap64 (Z.quot workDirBytes 100 * pct) +
                                        Z.quot (wrap64 (Z.rem workDirBytes 100 * pct)) 100) in
        let maxWorkersByDisk := Z.quot inputBudgetBytes maxInput in
        if maxWorkersByDisk <? 1 then Err (ErrOther "input file disk budget must fit one maximum-size input file")
        else if pc_NumWorkers c <=? maxWorkersByDisk then Ok (pc_NumWorkers c)
        else Ok maxWorkersByDisk
  end).

Definition concurrency_validate (cc : ConcurrencyConfig) : result unit :=
  let a := cc_AIMD cc in
  first_failure (
    [ (cc_Global cc <=? 0, "concurrency.global must be > 0");
      (cc_PerEndpoint cc <=? 0, "concurrency.per_endpoint must be > 0");
      (cc_Global cc <? cc_PerEndpoint cc, "concurrency.per_endpoint must be <= concurrency.global");
      (cc_Recovery cc <=? 0, "concurrency.recovery must be > 0") ] ++
    if ay_Enabled a then
      [ (ay_Min a <=? 0, "concurrency.aimd.min must be > 0");
        (yf_le (ay_BackoffFactor a) 0 || yf_ge (ay_BackoffFactor a) 1, "concurrency.aimd.backoff_factor must be in (0, 1)");
        (ay_AdditiveIncrease a <=? 0, "concurrency.aimd.additive_increase must be > 0");
        (cc_PerEndpoint cc <? ay_Min a, "concurrency.aimd.min must be <= concurrency.per_endpoint") ]
    else []).

(** A pointer field that is unset, or whose value is negative. *)
Definition unset_or_negative (v : option Z) : bool := match v with None => true | Some z => z <? 0 end.
Definition set_and_missing (file : string) : bool := negb (bool_decide (file = "")) && negb (stat file).
Definition validateGatewayConfig (gw : ModelGatewayConfig) : result unit :=
  first_failure
    [ (bool_decide (gw_URL gw = ""), "url cannot be empty");
      (unset_or_negative (gw_RequestTimeout gw), "request_timeout must be set and >= 0");
      (unset_or_negative (gw_MaxRetries gw), "max_retries must be set and >= 0");
      (unset_or_negative (gw_InitialBackoff gw), "initial_backoff must be set and >= 0");
      (unset_or_negative (gw_MaxBackoff gw), "max_backoff must be set and >= 0");
      (default 0 (gw_MaxBackoff gw) <? default 0 (gw_InitialBackoff gw), "max_backoff must be >= initial_backoff");
      (negb (bool_decide (gw_APIKeyName gw = "")) && negb (bool_decide (gw_APIKeyFile gw = "")),
       "api_key_name and api_key_file are mutually exclusive");
      (set_and_missing (gw_APIKeyFile gw), "api_key_file");
      (negb (Bool.eqb (bool_decide (gw_TLSClientCertFile gw = "")) (bool_decide (gw_TLSClientKeyFile gw = ""))),
       "tls_client_cert_file and tls_client_key_file must both be set or both be empty");
      (set_and_missing (gw_TLSCACertFile gw), "tls_ca_cert_file");
      (set_and_missing (gw_TLSClientCertFile gw), "tls_client_cert_file");
      (set_and_missing (gw_TLSClientKeyFile gw), "tls_client_key_file") ].

(** The first error of a range over a map, in the order the map is visited. *)
Fixpoint validate_each {A} (f : A → result unit) (l : list (string * A)) : result unit :=
  match l with [] => Ok tt | (_, x) :: l' => and_then (f x) (λ _, validate_each f l') end.
Definition validateSyncDispatchConfig (c : ProcessorConfig) : result unit :=
  and_then (match pc_GlobalInferenceGateway c with Some gw => validateGatewayConfig gw | None => Ok tt end)
    (λ _, validate_each validateGatewayConfig (map_to_list (pc_ModelGateways c))).

Definition NormalizeAsyncTransport (transport : string) : result string :=
  if bool_decide (transport = "") then Ok AsyncTransportRedisSortedSet
  else if bool_decide (transport ∈ [AsyncTransportRedisSortedSet; AsyncTransportSQL]) then Ok transport
  else Err (ErrOther "unsupported async transport").
Definition validate_async_model (m : AsyncModelConfig) : result unit :=
  first_failure
    [ (bool_decide (am_InferencePoolName m = ""), "inference_pool_name must be set");
      (negb (Bool.eqb (bool_decide (am_RequestQueueName m = "")) (bool_decide (am_ResultQueueName m = ""))),
       "request_queue_name and result_queue_name must both be set or both be empty") ].
Definition validateAsyncDispatchConfig (c : ProcessorConfig) : result unit :=
  let a := pc_AsyncDispatch c in
  and_then (NormalizeAsyncTransport (ad_Transport a)) (λ transport,
  and_then (first_failure
    [ (bool_decide (transport = AsyncTransportSQL) && (ad_MaxConnections a <=? 0), "max_connections must be > 0");
      (ad_ResultPollTimeout a <=? 0, "result_poll_timeout must be > 0");
      (ad_PollInterval a <=? 0, "poll_interval must be > 0");
      (bool_decide (is_Some (pc_GlobalInferenceGateway c)), "global_inference_gateway is not supported with async dispatch");
      (bool_decide (ad_Models a = ∅), "async_dispatch.models must be configured") ]) (λ _,
  validate_each validate_async_model (map_to_list (ad_Models a)))).

(** An empty mode is replaced in place by the default. *)
Definition validateGateways : M ProcessorConfig unit := λ c,
  if bool_decide (pc_DispatchMode c ∈ [DispatchModeSync; ""]) then
    let c := set_mode DispatchModeSync c in
    (c, and_then (first_failure
          [ (bool_decide (pc_GlobalInferenceGateway c = None) && bool_decide (pc_ModelGateways c = ∅),
             "either global_inference_gateway or model_gateways must be configured");
            (bool_decide (is_Some (pc_GlobalInferenceGateway c)) && negb (bool_decide (pc_ModelGateways c = ∅)),
             "global_inference_gateway and model_gateways are mutually exclusive") ])
          (λ _, validateSyncDispatchConfig c))
  else if bool_decide (pc_DispatchMode c = DispatchModeAsync) then (c, validateAsyncDispatchConfig c)
  else (c, Err (ErrOther "dispatch_mode must be sync or async")).

Definition bad_bucket (b : BucketConfig) : bool :=
  yf_le (bk_Start b) 0 || yf_le (bk_Factor b) 1 || (bk_Count b <=? 0).
Definition result_unit {A} (r : result A) : result unit := and_then r (λ _, Ok tt).
Definition Validate : M ProcessorConfig unit := λ c,
  let rs := pc_Resumable c in
  let checks :=
    and_then (first_failure
      [ (pc_PollInterval c <=? 0, "poll_interval must be > 0");
        (pc_TaskWaitTime c <=? 0, "task_wait_time must be > 0");
        (pc_PollInterval c <=? pc_TaskWaitTime c, "task_wait_time must be shorter than poll_interval");
        (pc_NumWorkers c <=? 0, "num_workers must be > 0") ]) (λ _,
    and_then (result_unit (EffectiveNumWorkers c)) (λ _,
    and_then (concurrency_validate (pc_Concurrency c)) (λ _,
    and_then (first_failure
      [ (pc_ShutdownTimeout c <=? 0, "shutdown_timeout must be > 0");
        (bool_decide (pc_Addr c = ""), "addr cannot be empty");
        (bool_decide (pc_WorkDir c = ""), "work_dir cannot be empty");
        (bad_bucket (pc_QueueTimeBucket c), "queue_time_bucket");
        (bad_bucket (pc_ProcessTimeBucket c), "process_time_bucket");
        (bad_bucket (pc_E2ELatencyBucket c), "e2e_latency_bucket") ]) (λ _,
    and_then (retry_Validate (pc_FileRetry c)) (λ _,
    and_then (result_unit (NewEndpointAllowlist (pc_ExtraEndpoints c))) (λ _,
    first_failure
      [ ((rs_LeaseDuration rs <? Second) || negb (Z.rem (rs_LeaseDuration rs) Second =? 0),
         "resumable.lease_duration must be a whole number of seconds >= 1s");
        (rs_FinalizeConcurrency rs <=? 0, "resumable.finalize_concurrency must be > 0");
        (rs_FinalizeTimeout rs <=? 0, "resumable.finalize_timeout must be > 0");
        (rs_RecoveryWindow rs <=? 0, "resumable.recovery_window must be > 0");
        (negb (bool_decide (pc_RouteKeyMethod c ∈ [RouteKeyBare; RouteKeyTenant])), "route_key_method") ])))))) in
  match checks with Err e => (c, Err e) | Ok _ => validateGateways c end.

(** *** Credentials *)
Definition white (ch : ascii) : bool := isSpace ch || bool_decide (ch = "010"%char).
Fixpoint drop_white (cs : list ascii) : list ascii :=
  match cs with ch :: cs' => if white ch then drop_white cs' else cs | [] => [] end.
(** [strings.TrimSpace] on ASCII text. *)
Definition TrimSpace (s : string) : string :=
  string_of_list_ascii (rev (drop_white (rev (drop_white (list_ascii_of_string s))))).

Record GatewayClientConfig := {
  gc_URL : string; gc_APIKey : string; gc_Timeout : Z; gc_MaxRetries : Z; gc_InitialBackoff : Z; gc_MaxBackoff : Z;
  gc_TLSInsecureSkipVerify : bool; gc_TLSCACertFile : string; gc_TLSClientCertFile : string; gc_TLSClientKeyFile : string }.
#[export] Instance GatewayClientConfig_eq_dec : EqDecision GatewayClientConfig.
Proof. solve_decision. Defined.
Record AsyncModelPoolConfig := { mp_PoolName : string; mp_RequestQueueName : string; mp_ResultQueueName : string }.
Record AsyncClientConfig := {
  ac_Transport : string; ac_MaxConnections : Z; ac_Models : gmap string AsyncModelPoolConfig;
  ac_ResultPollTimeout : Z; ac_PollInterval : Z }.
Record ResolvedGateways := {
  rg_Global : option GatewayClientConfig; rg_PerModel : gmap string GatewayClientConfig;
  rg_Async : option AsyncClientConfig }.

Definition resolveGatewayAPIKey (gw : ModelGatewayConfig) : result string :=
  if negb (bool_decide (gw_APIKeyFile gw = "")) then
    and_then (ReadFile (gw_APIKeyFile gw)) (λ data, Ok (TrimSpace data))
  else if negb (bool_decide (gw_APIKeyName gw = "")) then ReadSecretFile (gw_APIKeyName gw)
  else Ok "".
Definition toGatewayClientConfig (gw : ModelGatewayConfig) (apiKey : string) : GatewayClientConfig :=
  {| gc_URL := gw_URL gw; gc_APIKey := apiKey; gc_Timeout := default 0 (gw_RequestTimeout gw);
     gc_MaxRetries := default 0 (gw_MaxRetries gw); gc_InitialBackoff := default 0 (gw_InitialBackoff gw);
     gc_MaxBackoff := default 0 (gw_MaxBackoff gw); gc_TLSInsecureSkipVerify := gw_TLSInsecureSkipVerify gw;
     gc_TLSCACertFile := gw_TLSCACertFile gw; gc_TLSClientCertFile := gw_TLSClientCertFile gw;
     gc_TLSClientKeyFile := gw_TLSClientKeyFile gw |}.
Definition resolve_gateway (gw : ModelGatewayConfig) : result GatewayClientConfig :=
  and_then (resolveGatewayAPIKey gw) (λ apiKey, Ok (toGatewayClientConfig gw apiKey)).
(** The global gateway falls back to the mounted inference key. *)
Definition SecretKeyInferenceAPI := "inference-api-key".
Definition resolve_global (gw : ModelGatewayConfig) : result GatewayClientConfig :=
  and_then (resolveGatewayAPIKey gw) (λ apiKey,
    let apiKey := if bool_decide (apiKey = "") then
                    match ReadSecretFile SecretKeyInferenceAPI with Ok key => key | Err _ => apiKey end
                  else apiKey in
    Ok (toGatewayClientConfig gw apiKey)).
Fixpoint resolve_each (l : list (string * ModelGatewayConfig)) (resolved : gmap string GatewayClientConfig)
    : result (gmap string GatewayClientConfig) :=
  match l with
  | [] => Ok resolved
  | (model, gw) :: l' => and_then (resolve_gateway gw) (λ gc, resolve_each l' (<[model := gc]> resolved))
  end.
Definition ResolveModelGateways (c : ProcessorConfig) : result ResolvedGateways :=
  if IsAsync c then
    let a := pc_AsyncDispatch c in
    Ok {| rg_Global := None; rg_PerModel := ∅;
          rg_Async := Some {| ac_Transport := ad_Transport a; ac_MaxConnections := ad_MaxConnections a;
            ac_Models := (λ m, {| mp_PoolName := am_InferencePoolName m; mp_RequestQueueName := am_RequestQueueName m;
                                  mp_ResultQueueName := am_ResultQueueName m |}) <$> ad_Models a;
            ac_ResultPollTimeout := ad_ResultPollTimeout a; ac_PollInterval := ad_PollInterval a |} |}
  else
    and_then (match pc_GlobalInferenceGateway c with
              | Some gw => and_then (resolve_global gw) (λ gc, Ok (Some gc))
              | None => Ok None
              end) (λ global,
    and_then (resolve_each (map_to_list (pc_ModelGateways c)) ∅) (λ perModel,
      Ok {| rg_Global := global; rg_PerModel := perModel; rg_Async := None |})).

(** *** What the processor builds from its configuration

    [NewProcessor]'s guards on the configuration, then
    [initConcurrencyControls]: the worker semaphore and, for synchronous
    dispatch, the global one and the limits of every inference client.  The
    controller is modelled for finite backoff factors: [f] is the value of
    [ay_BackoffFactor]. *)
Definition aimd_config (cc : ConcurrencyConfig) (f : Float.float64) : AIMD.AIMDConfig :=
  {| AIMD.MinLimit := ay_Min (cc_AIMD cc); AIMD.MaxLimit := cc_PerEndpoint cc; AIMD.BackoffFactor := f;
     AIMD.AdditiveIncrease := ay_AdditiveIncrease (cc_AIMD cc) |}.
Definition NewProcessor_guards (c : ProcessorConfig) : result EndpointAllowlist :=
  and_then (first_failure
    [ (pc_NumWorkers c <=? 0, "worker semaphore"); (cc_Global (pc_Concurrency c) <=? 0, "global semaphore") ])
    (λ _, NewEndpointAllowlist (pc_ExtraEndpoints c)).
Record Controls := {
  ct_tokens : Channel.semaphore; ct_globalSem : option Channel.semaphore; ct_endpoints : gmap string EndpointAIMD }.
Definition aimd_of (cc : ConcurrencyConfig) (f : Float.float64) : option AIMD.AIMDConfig :=
  if ay_Enabled (cc_AIMD cc) then Some (aimd_config cc f) else None.
Fixpoint endpoint_limits (cc : ConcurrencyConfig) (f : Float.float64) (clients : list string) (eps : gmap string EndpointAIMD)
    : result (gmap string EndpointAIMD) :=
  match clients with
  | [] => Ok eps
  | client :: rest => and_then (newEndpoint (cc_PerEndpoint cc) (aimd_of cc f))
                        (λ ep, endpoint_limits cc f rest (<[client := ep]> eps))
  end.
(** [clients]: the clients of the synchronous resolver, [None] for
    asynchronous dispatch. *)
Definition initConcurrencyControls (c : ProcessorConfig) (f : Float.float64) (clients : option (list string)) : result Controls :=
  and_then (EffectiveNumWorkers c) (λ effectiveWorkers,
  and_then (Channel.New effectiveWorkers) (λ tokens,
  match clients with
  | None => Ok {| ct_tokens := tokens; ct_globalSem := None; ct_endpoints := ∅ |}
  | Some cs =>
      and_then (Channel.New (cc_Global (pc_Concurrency c))) (λ globalSem,
      and_then (endpoint_limits (pc_Concurrency c) f cs ∅) (λ eps,
        Ok {| ct_tokens := tokens; ct_globalSem := Some globalSem; ct_endpoints := eps |}))
  end)).
End Validation.

(** ** The garbage collector's configuration *)
Module GcConfig.
Definition has_char (ch : ascii) (l : list ascii) : bool := existsb (λ x, bool_decide (x = ch)) l.
(** Split at the last occurrence. *)
Fixpoint split_last (ch : ascii) (l : list ascii) : option (list ascii * list ascii) :=
  match l with
  | [] => None
  | x :: l' => match split_last ch l' with
               | Some (a, b) => Some (x :: a, b)
               | None => if bool_decide (x = ch) then Some ([], l') else None
               end
  end.
(** [net.SplitHostPort]: the port follows the last colon; a bracketed host
    must end right before it; no other colons or brackets. *)
Definition SplitHostPort (addr : string) : option (list ascii * list ascii) :=
  match split_last ":"%char (list_ascii_of_string addr) with
  | None => None
  | Some (before, port) =>
      if has_char "["%char port || has_char "]"%char port then None
      else match before with
      | ch :: inner =>
          if bool_decide (ch = "["%char) then
            match split_last "]"%char inner with
            | Some (host, []) => if has_char "["%char host || has_char "]"%char host then None else Some (host, port)
            | _ => None
            end
          else if has_char ":"%char before || has_char "["%char before || has_char "]"%char before then None
          else Some (before, port)
      | [] => Some ([], port)
      end
  end.
Definition validateMetricsAddr (addr : string) : result unit :=
  match SplitHostPort addr with
  | None => Err (ErrOther "must be :PORT format")
  | Some (host, portStr) =>
      if negb (bool_decide (host = [])) then Err (ErrOther "host part is not supported")
      else match Atoi (string_of_list_ascii portStr) with
      | Some port => if (port <? 1) || (65535 <? port) then Err (ErrOther "port must be 1-65535") else Ok tt
      | None => Err (ErrOther "port must be 1-65535")
      end
  end.

Record Config := {
  DryRun : bool; MetricsAddr : string; CollectorInterval : Z; MaxConcurrency : Z; ReconcilerEnabled : bool;
  ReconcilerInterval : Z; DBType : string; FileType : string; FileRetry : RetryConfig }.
(** What a file that sets nothing leaves in place. *)
Definition defaults : Config :=
  {| DryRun := false; MetricsAddr := ":9091"; CollectorInterval := 60 * Minute; MaxConcurrency := 10;
     ReconcilerEnabled := true; ReconcilerInterval := 60 * Minute; DBType := ""; FileType := "";
     FileRetry := {| rc_MaxRetries := 0; rc_InitialBackoff := 0; rc_MaxBackoff := 0 |} |}.
(** [decode]: the YAML decoder applied over the defaults. *)
Definition Load (decode : Config → result Config) : result Config :=
  and_then (decode defaults) (λ cfg,
  and_then (first_failure
    [ (MaxConcurrency cfg <=? 0, "collector.max_concurrency must be positive");
      (CollectorInterval cfg <=? 0, "collector.interval must be positive");
      (ReconcilerEnabled cfg && (ReconcilerInterval cfg <=? 0), "reconciler.interval must be positive when enabled") ]) (λ _,
  and_then (validateMetricsAddr (MetricsAddr cfg)) (λ _,
  and_then (first_failure
    [ (negb (bool_decide (DBType cfg = "postgresql")), "db_client.type must be postgresql");
      (negb (bool_decide (FileType cfg ∈ ["fs"; "s3"])), "file_client.type must be fs or s3") ]) (λ _,
  and_then (retry_Validate (FileRetry cfg)) (λ _, Ok cfg))))).
End GcConfig.

(** ** Theorems *)
Ltac passed H := apply first_failure_ok in H; rewrite ?Forall_cons, ?Forall_nil in H; cbn [fst] in H.

(** The budget is computed without the product that could overflow. *)
Lemma budget_exact w pct : 0 < w < 2 ^ 63 → 1 ≤ pct ≤ 100 →
  wrap64 (wrap64 (Z.quot w 100 * pct) + Z.quot (wrap64 (Z.rem w 100 * pct)) 100) = w * pct / 100.
Proof.
  intros Hw Hp. rewrite Z.quot_div_nonneg, Z.rem_mod_nonneg by lia.
  pose proof (Z.div_mod w 100 ltac:(lia)) as Hdm. pose proof (Z.mod_pos_bound w 100 ltac:(lia)).
  set (q := w / 100) in *. set (r := w mod 100) in *.
  assert (0 ≤ q) by (apply Z.div_pos; lia). assert (0 ≤ q * pct ≤ q * 100) by nia.
  assert (0 ≤ r * pct ≤ 99 * 100) by nia.
  rewrite (wrap64_small (q * pct)) by lia. rewrite (wrap64_small (r * pct)) by lia.
  rewrite Z.quot_div_nonneg by lia.
  assert (Hsum : w * pct / 100 = q * pct + r * pct / 100).
  { replace (w * pct) with (q * pct * 100 + r * pct) by lia. by rewrite Z.div_add_l by lia. }
  rewrite Hsum. apply wrap64_small. split; [pose proof (Z.div_pos (r * pct) 100); lia|].
  rewrite <- Hsum. apply Z.div_lt_upper_bound; [lia|]. nia.
Qed.

Section Workers.
Context (ParseQuantity : string → option Z).

(** The settings [EffectiveNumWorkers] requires. *)
Definition workers_in_range (c : ProcessorConfig) : Prop :=
  0 < pc_NumWorkers c ∧ 1 ≤ pc_InputFileDiskBudgetPercent c ≤ 100 ∧ 0 < pc_MaxInputFileSizeBytes c ∧
  pc_WorkDirSizeLimit c ≠ "".

(** [C32] [EffectiveNumWorkers] is exact: it answers [n] if and only if the
    settings are in range and [n] is the largest number of workers, at least
    one and at most the configured number, whose maximum-size input files fit
    together in the configured percentage of the work directory.  No
    intermediate value overflows an int64, whatever quantity is configured. *)
Theorem effective_workers_exact c n :
  (∀ w, ParseQuantity (pc_WorkDirSizeLimit c) = Some w → w < 2 ^ 63) →
  EffectiveNumWorkers ParseQuantity c = Ok n ↔
  workers_in_range c ∧ 1 ≤ n ≤ pc_NumWorkers c ∧
  ∃ w, ParseQuantity (pc_WorkDirSizeLimit c) = Some w ∧ 0 < w ∧
    n * pc_MaxInputFileSizeBytes c ≤ w * pc_InputFileDiskBudgetPercent c / 100 ∧
    (n = pc_NumWorkers c ∨ w * pc_InputFileDiskBudgetPercent c / 100 < (n + 1) * pc_MaxInputFileSizeBytes c).
Proof.
  intros Hq. unfold EffectiveNumWorkers, workers_in_range. cbv zeta.
  set (pct := pc_InputFileDiskBudgetPercent c). set (mx := pc_MaxInputFileSizeBytes c).
  rewrite and_then_ok. split.
  - intros (u & Hg & H). destruct u. passed Hg. destruct Hg as (G1 & G2 & G3 & G4 & _).
    apply orb_false_iff in G2 as [G2 G2']. boolify.
    destruct (ParseQuantity _) as [w|] eqn:Ew; [|done]. specialize (Hq w eq_refl).
    destruct (w <=? 0) eqn:Hw; [done|]. boolify. rewrite budget_exact in H by lia.
    set (b := w * pct / 100) in *. assert (0 ≤ b) by (apply Z.div_pos; nia).
    rewrite Z.quot_div_nonneg in H by lia.
    pose proof (Z.div_mod b mx ltac:(lia)). pose proof (Z.mod_pos_bound b mx ltac:(lia)).
    destruct (_ <? 1) eqn:Hlt; [done|]. destruct (_ <=? _) eqn:Hle in H; boolify; simplify_eq.
    + split_and!; try done; try lia. exists w. split_and!; try done; [nia|by left].
    + split_and!; try done; try lia. exists w. split_and!; try done; [nia|right; nia].
  - intros ((G1 & G2 & G3 & G4) & Hn & w & Ew & Hw & Hfit & Hmax). exists tt. split.
    { apply first_failure_ok. rewrite !Forall_cons. cbn [fst].
      rewrite (proj2 (Z.leb_gt _ _) G1), (proj2 (Z.leb_gt mx 0) G3), (proj2 (Z.leb_gt pct 0)), (proj2 (Z.ltb_ge 100 pct)),
        bool_decide_eq_false_2 by (done || lia). done. }
    rewrite Ew. specialize (Hq w Ew). rewrite (proj2 (Z.leb_gt w 0)) by lia. rewrite budget_exact by lia.
    set (b := w * pct / 100) in *. assert (0 ≤ b) by (apply Z.div_pos; nia).
    rewrite Z.quot_div_nonneg by lia.
    pose proof (Z.div_mod b mx ltac:(lia)). pose proof (Z.mod_pos_bound b mx ltac:(lia)).
    rewrite (proj2 (Z.ltb_ge _ 1)) by nia.
    destruct (_ <=? _) eqn:Hle; boolify; f_equal; destruct Hmax; nia.
Qed.
End Workers.

(** *** A validated configuration *)
Lemma bad_factor f : yf_le (Finite f) 0 || yf_ge (Finite f) 1 = false → Float.fraction f.
Proof.
  cbn. unfold Float.fraction. intros [H1 H2]%orb_false_iff.
  destruct (0 <=? Float.expo f) eqn:E; boolify.
  - pose proof (Z.pow_pos_nonneg 2 (Float.expo f) ltac:(lia) ltac:(lia)). lia.
  - rewrite Z.mul_0_l in H1. split_and!; lia.
Qed.
Lemma concurrency_validate_ok cc : concurrency_validate cc = Ok tt →
  0 < cc_PerEndpoint cc ≤ cc_Global cc ∧ 0 < cc_Recovery cc ∧
  (ay_Enabled (cc_AIMD cc) = true →
     0 < ay_Min (cc_AIMD cc) ≤ cc_PerEndpoint cc ∧ 0 < ay_AdditiveIncrease (cc_AIMD cc) ∧
     ∀ f, ay_BackoffFactor (cc_AIMD cc) = Finite f → Float.fraction f).
Proof.
  unfold concurrency_validate. intros H%first_failure_ok. apply Forall_app in H as [H1 H2].
  rewrite !Forall_cons in H1. cbn [fst] in H1. destruct H1 as (? & ? & ? & ? & _). boolify.
  split_and!; try lia. intros Hen. rewrite Hen, !Forall_cons in H2. cbn [fst] in H2.
  destruct H2 as (? & Hf & ? & ? & _). boolify. split_and!; try lia. intros f E. rewrite E in Hf. by apply bad_factor.
Qed.

Lemma endpoint_limits_ok cc f clients : 0 < cc_PerEndpoint cc →
  limits_valid (cc_PerEndpoint cc) (aimd_of cc f) →
  ∀ eps, ∃ eps', endpoint_limits cc f clients eps = Ok eps' ∧
    (∀ cl ep, eps' !! cl = Some ep → eps !! cl = Some ep ∨ ep_ok (cc_PerEndpoint cc) (aimd_of cc f) ep) ∧
    (∀ cl, cl ∈ clients ∨ is_Some (eps !! cl) → is_Some (eps' !! cl)).
Proof.
  intros Hp Hv. assert (∃ ep, newEndpoint (cc_PerEndpoint cc) (aimd_of cc f) = Ok ep) as [ep0 Hep].
  { unfold newEndpoint, Adaptive.NewAdaptive. rewrite (proj2 (Z.leb_gt _ _) Hp).
    destruct (aimd_of cc f) as [ac|]; [destruct (AIMD.NewAIMDController _ _)|]; eauto. }
  destruct (newEndpoint_ok _ _ Hv _ Hep) as [Hok _].
  induction clients as [|cl clients IH]; intros eps; cbn [endpoint_limits].
  - exists eps. split_and!; [done|by left|]. intros cl [H|H]; [set_solver|done].
  - rewrite Hep. cbn [and_then]. destruct (IH (<[cl := ep0]> eps)) as (eps' & -> & H1 & H2). exists eps'. split_and!; [done|..].
    + intros cl' ep Hl. destruct (H1 cl' ep Hl) as [H|H]; [|by right].
      destruct (decide (cl = cl')) as [<-|Hne]; [rewrite lookup_insert_eq in H; simplify_eq; by right|].
      rewrite lookup_insert_ne in H by done. by left.
    + intros cl' Hcl. apply H2. destruct (decide (cl = cl')) as [<-|Hne]; [right; rewrite lookup_insert_eq; eauto|].
      rewrite lookup_insert_ne by done. set_solver.
Qed.

(** [Validate]'s checks before the gateways. *)
Lemma Validate_ok stat PQ c c' : Validate stat PQ c = (c', Ok tt) →
  c' = c ∨ c' = set_mode DispatchModeSync c.
Proof.
  unfold Validate. cbv zeta. destruct (and_then _ _); [|done]. unfold validateGateways.
  repeat case_bool_decide; intros [= ??]; subst; auto.
Qed.
Lemma Validate_settings stat PQ c c' : Validate stat PQ c = (c', Ok tt) →
  is_ok (EffectiveNumWorkers PQ c) = true ∧ concurrency_validate (pc_Concurrency c) = Ok tt ∧
  0 < pc_NumWorkers c ∧ is_ok (NewEndpointAllowlist (pc_ExtraEndpoints c)) = true ∧
  Second ≤ rs_LeaseDuration (pc_Resumable c) ∧ Z.rem (rs_LeaseDuration (pc_Resumable c)) Second = 0 ∧
  validateGateways stat c = (c', Ok tt).
Proof.
  unfold Validate. cbv zeta. intros H.
  match type of H with match ?t with _ => _ end = _ => destruct t as [u|] eqn:Hc; [|done] end.
  apply and_then_ok in Hc as ([] & H1 & Hc). apply and_then_ok in Hc as ([] & H2 & Hc).
  apply and_then_ok in Hc as ([] & H3 & Hc). apply and_then_ok in Hc as ([] & _ & Hc).
  apply and_then_ok in Hc as ([] & _ & Hc). apply and_then_ok in Hc as ([] & H4 & Hc).
  destruct u. passed Hc. destruct Hc as (Hl & _). apply orb_false_iff in Hl as [Hl Hr]. passed H1.
  destruct H1 as (_ & _ & _ & Hn & _). boolify. split_and!; try done; try lia.
  - by destruct (EffectiveNumWorkers PQ c).
  - by destruct (NewEndpointAllowlist _).
Qed.

Lemma Validate_same {A} stat PQ c c' (g : ProcessorConfig → A) :
  Validate stat PQ c = (c', Ok tt) → (∀ m, g (set_mode m c) = g c) → g c' = g c.
Proof. intros HV Hg. destruct (Validate_ok _ _ _ _ HV) as [-> | ->]; [done|apply Hg]. Qed.
Lemma validated_limits stat PQ c c' f :
  Validate stat PQ c = (c', Ok tt) → ay_BackoffFactor (cc_AIMD (pc_Concurrency c)) = Finite f →
  cc_PerEndpoint (pc_Concurrency c) < 2 ^ 53 → ay_AdditiveIncrease (cc_AIMD (pc_Concurrency c)) < 2 ^ 62 →
  limits_valid (cc_PerEndpoint (pc_Concurrency c)) (aimd_of (pc_Concurrency c) f).
Proof.
  intros HV Hf Hper Hinc. destruct (Validate_settings _ _ _ _ HV) as (_ & Hcc & _).
  destruct (concurrency_validate_ok _ Hcc) as (Hp & _ & Ha). split; [lia|]. unfold aimd_of.
  destruct (ay_Enabled _) eqn:Een; [|done]. destruct (Ha eq_refl) as (? & ? & Hfr).
  split; [|done]. split_and!; cbn; try lia. by apply Hfr.
Qed.

(** A processor whose configuration passed [Validate] starts, and starts
    within its limits: the guards of [NewProcessor] pass;
    [initConcurrencyControls] builds a worker semaphore of one to
    [num_workers] slots and, for every client of the resolver, endpoint limits
    that satisfy what the dispatch theorems assume of them ([limits_valid],
    [ep_ok]); and the ownership lease is stored without loss, so the expiry
    the database computes is the configured duration after [now]. *)
Theorem validated_config_starts stat PQ c c' f clients now :
  Validate stat PQ c = (c', Ok tt) →
  (∀ w, PQ (pc_WorkDirSizeLimit c) = Some w → w < 2 ^ 63) →
  ay_BackoffFactor (cc_AIMD (pc_Concurrency c)) = Finite f →
  cc_PerEndpoint (pc_Concurrency c) < 2 ^ 53 → ay_AdditiveIncrease (cc_AIMD (pc_Concurrency c)) < 2 ^ 62 →
  let per := cc_PerEndpoint (pc_Concurrency c') in
  let aimd := aimd_of (pc_Concurrency c') f in
  is_ok (NewProcessor_guards c') = true ∧ limits_valid per aimd ∧
  (∃ ctl, initConcurrencyControls PQ c' f (Some clients) = Ok ctl ∧
     1 ≤ Channel.capacity (ct_tokens ctl) ≤ pc_NumWorkers c' ∧
     (∀ cl, cl ∈ clients → ∃ ep, ct_endpoints ctl !! cl = Some ep ∧ ep_ok per aimd ep)) ∧
  lease_until now (duration_seconds (rs_LeaseDuration (pc_Resumable c'))) =
    now + rs_LeaseDuration (pc_Resumable c') / 1000 ∧
  now < lease_until now (duration_seconds (rs_LeaseDuration (pc_Resumable c'))).
Proof.
  intros HV HPQ Hf Hper Hinc per aimd.
  destruct (Validate_settings _ _ _ _ HV) as (He & Hcc & Hn & Hal & Hl & Hr & _).
  pose proof (λ A g, @Validate_same A _ _ _ _ g HV) as Hsame.
  subst per aimd. unfold NewProcessor_guards, initConcurrencyControls.
  rewrite (Hsame _ pc_Concurrency), (Hsame _ pc_NumWorkers), (Hsame _ pc_ExtraEndpoints), (Hsame _ pc_Resumable),
    (Hsame _ (EffectiveNumWorkers PQ)) by done.
  set (cc := pc_Concurrency c) in *. destruct (concurrency_validate_ok cc Hcc) as (Hp & _ & Ha).
  pose proof (validated_limits _ _ _ _ _ HV Hf Hper Hinc) as Hv. fold cc in Hv.
  destruct (EffectiveNumWorkers PQ c) as [n|] eqn:En; [|done].
  pose proof (proj1 (effective_workers_exact PQ c n HPQ) En) as (_ & Hnn & _).
  destruct (endpoint_limits_ok cc f clients ltac:(lia) Hv ∅) as (eps & Heps & H1 & H2).
  split; [|split; [exact Hv|split; [|split]]].
  - cbn [first_failure]. rewrite (proj2 (Z.leb_gt _ _) Hn), (proj2 (Z.leb_gt (cc_Global cc) 0)) by lia. done.
  - cbn [and_then]. unfold Channel.New. rewrite (proj2 (Z.leb_gt n 0)), (proj2 (Z.leb_gt (cc_Global cc) 0)) by lia.
    cbn [and_then]. rewrite Heps. cbn [and_then]. eexists. split; [done|]. split; [cbn; lia|].
    intros cl Hcl. destruct (H2 cl (or_introl Hcl)) as [ep Hep]. exists ep. split; [done|].
    destruct (H1 cl ep Hep) as [H|H]; [by rewrite lookup_empty in H|done].
  - unfold lease_until, duration_seconds, Second in *. pose proof (Z.quot_rem' (rs_LeaseDuration (pc_Resumable c)) 1000000000).
    set (q := Z.quot _ _) in *. assert (rs_LeaseDuration (pc_Resumable c) = q * 1000000 * 1000) as -> by lia.
    by rewrite Z.div_mul by lia.
  - unfold lease_until, duration_seconds, Second in *. pose proof (Z.quot_rem' (rs_LeaseDuration (pc_Resumable c)) 1000000000). lia.
Qed.

(** The comparisons of [validate] are false for NaN: the check of the backoff
    factor, meant to require a value in (0, 1), accepts it. *)
Definition with_factor (x : yfloat) (cc : ConcurrencyConfig) : ConcurrencyConfig :=
  {| cc_Global := cc_Global cc; cc_PerEndpoint := cc_PerEndpoint cc; cc_Recovery := cc_Recovery cc;
     cc_AIMD := {| ay_Enabled := ay_Enabled (cc_AIMD cc); ay_Min := ay_Min (cc_AIMD cc); ay_BackoffFactor := x;
                   ay_AdditiveIncrease := ay_AdditiveIncrease (cc_AIMD cc) |} |}.
Lemma nan_backoff_accepted cc : concurrency_validate cc = Ok tt → concurrency_validate (with_factor NaN cc) = Ok tt.
Proof.
  unfold concurrency_validate. cbn [with_factor cc_AIMD ay_Enabled cc_Global cc_PerEndpoint cc_Recovery ay_Min ay_AdditiveIncrease ay_BackoffFactor].
  rewrite !first_failure_ok, !Forall_app. intros [H1 H2]. split; [done|]. destruct (ay_Enabled _); [|done].
  rewrite !Forall_cons in *. cbn [fst] in *. naive_solver.
Qed.

(** *** The metrics address *)
Lemma has_char_in ch l : GcConfig.has_char ch l = true ↔ ch ∈ l.
Proof.
  unfold GcConfig.has_char. rewrite existsb_exists. setoid_rewrite bool_decide_eq_true.
  rewrite list_elem_of_In. naive_solver.
Qed.
Lemma has_char_out ch l : GcConfig.has_char ch l = false ↔ ch ∉ l.
Proof. rewrite <- has_char_in. by destruct (GcConfig.has_char ch l). Qed.
Lemma split_last_none ch l : ch ∉ l → GcConfig.split_last ch l = None.
Proof.
  induction l as [|x l IH]; cbn; [done|]. intros H. rewrite IH by set_solver.
  by rewrite bool_decide_eq_false_2 by set_solver.
Qed.
Lemma split_last_app ch a b : ch ∉ b → GcConfig.split_last ch (a ++ ch :: b)%list = Some (a, b).
Proof.
  intros Hb. induction a as [|x a IH]; cbn; [|by rewrite IH].
  by rewrite (split_last_none _ _ Hb), bool_decide_eq_true_2.
Qed.
Lemma split_last_inv ch l a b : GcConfig.split_last ch l = Some (a, b) → l = (a ++ ch :: b)%list.
Proof.
  revert a. induction l as [|x l IH]; cbn; [done|]. intros a.
  destruct (GcConfig.split_last ch l) as [[a' b']|]; [intros [= <- <-]; cbn; by f_equal; apply IH|].
  case_bool_decide; [|done]. intros [= <- <-]. by subst.
Qed.
(** An integer literal holds digits and signs only. *)
Lemma Atoi_chars s v ch : Atoi s = Some v → ch ∈ chars s → isDigit ch = true ∨ ch = "-"%char ∨ ch = "+"%char.
Proof.
  unfold Atoi. intros H Hin. destruct (match chars s with [] => _ | _ :: _ => _ end) as [neg l] eqn:Ep.
  assert (ch ∈ l ∨ ch = "-"%char ∨ ch = "+"%char) as [Hl|Hs]; [|left|by right].
  { destruct (chars s) as [|c0 cs]; [set_solver|]. repeat case_bool_decide; simplify_eq; set_solver. }
  destruct l as [|x l]; [done|]. destruct (forallb isDigit (x :: l)) eqn:E; [|done].
  eapply forallb_forall in E; [done|]. by apply list_elem_of_In.
Qed.

(** The garbage collector accepts a metrics address exactly when it is a
    colon, or empty brackets and a colon, followed by an integer from 1 to
    65535.  (The comment promises that only the first form passes.) *)
Theorem metrics_addr_exact addr :
  GcConfig.validateMetricsAddr addr = Ok tt ↔
  ∃ port v, (addr = ":" +:+ port ∨ addr = "[]:" +:+ port) ∧ Atoi port = Some v ∧ 1 ≤ v ≤ 65535.
Proof.
  unfold GcConfig.validateMetricsAddr, GcConfig.SplitHostPort. split.
  - destruct (GcConfig.split_last _ _) as [[before port]|] eqn:Es; [|done]. apply split_last_inv in Es.
    assert (Hport : ∀ h, (if negb (bool_decide (h = [])) then Err (ErrOther "host part is not supported")
      else match Atoi (string_of_list_ascii port) with
           | Some p => if (p <? 1) || (65535 <? p) then Err (ErrOther "port must be 1-65535") else Ok tt
           | None => Err (ErrOther "port must be 1-65535")
           end) = Ok tt → h = ([] : list ascii) ∧ ∃ v, Atoi (string_of_list_ascii port) = Some v ∧ 1 ≤ v ≤ 65535).
    { intros h. case_bool_decide; [|done]. cbn [negb]. destruct (Atoi _) as [v|]; [|done].
      destruct (_ || _) eqn:E; [done|]. apply orb_false_iff in E as [??]. boolify. intros _. split; [done|]. exists v. split; [done|lia]. }
    apply (f_equal string_of_list_ascii) in Es. rewrite string_of_list_ascii_of_string in Es. subst addr.
    destruct (GcConfig.has_char "[" port || _); [done|]. destruct before as [|ch inner].
    + intros [_ (v & ? & ?)]%Hport. exists (string_of_list_ascii port), v. auto.
    + case_bool_decide as Hch.
      * subst ch. destruct (GcConfig.split_last "]" inner) as [[host [|]]|] eqn:Ei; try done. apply split_last_inv in Ei. subst inner.
        destruct (GcConfig.has_char _ host || _); [done|]. intros [-> (v & ? & ?)]%Hport. exists (string_of_list_ascii port), v. auto.
      * destruct (_ || GcConfig.has_char "]" _); [done|]. by intros [? _]%Hport.
  - intros (port & v & Haddr & Hv & Hr).
    assert (Hno : ∀ x, isDigit x = false → x ≠ "-"%char → x ≠ "+"%char → x ∉ chars port).
    { intros x Hd Hm Hp Hx. destruct (Atoi_chars _ _ _ Hv Hx) as [E|[E|E]]; congruence. }
    pose proof (proj2 (has_char_out "[" (chars port)) (Hno "["%char eq_refl ltac:(done) ltac:(done))) as Hb1.
    pose proof (proj2 (has_char_out "]" (chars port)) (Hno "]"%char eq_refl ltac:(done) ltac:(done))) as Hb2.
    pose proof (Hno ":"%char eq_refl ltac:(done) ltac:(done)) as Hcol.
    assert (Hsplit : ∃ before, GcConfig.split_last ":" (list_ascii_of_string addr) = Some (before, chars port) ∧
              (before = [] ∨ before = ["["; "]"]%char)).
    { destruct Haddr as [-> | ->]; [exists []|exists ["["; "]"]%char]; (split; [|auto]);
        [apply (split_last_app ":"%char [])|apply (split_last_app ":"%char ["["; "]"]%char)]; done. }
    destruct Hsplit as (before & -> & Hbe). rewrite Hb1, Hb2. cbn [orb].
    assert (Hport : string_of_list_ascii (list_ascii_of_string port) = port) by apply string_of_list_ascii_of_string.
    unfold chars in *. destruct Hbe as [-> | ->]; cbn; rewrite ?(bool_decide_eq_true_2 _ eq_refl); cbn; rewrite Hport, Hv, (proj2 (Z.ltb_ge v 1)), (proj2 (Z.ltb_ge 65535 v)) by lia; done.
Qed.
