(* ===== verification/Server.v ===== *)
(** * The HTTP server of the API

    [internal/apiserver/server/server.go], [common/rest.go],
    [common/config.go], the middleware ([middleware/]), the probes ([health/],
    [readiness/]) and [internal/tls/tls.go]: how a request reaches its handler
    and what surrounds the answer, how the configuration is loaded, and when
    the server reports to be ready.

    A handler is a function from the request and the state to the new state,
    the calls it makes on the response writer, and whether it panicked.
    [http.ServeMux] is modelled for the patterns the server registers; paths
    are clean, so the mux does not redirect.  Header names are in canonical
    form. *)

From Stdlib Require Import ZArith Lia Ascii String.
From stdpp Require Import base gmap strings list.
From S2P Require Import Prelude Openai Store StoreOps Planner Preprocess Semaphore Flow Throttle Rest Config.
Local Open Scope string_scope.
Local Open Scope Z_scope.

(** [strings.Split] with a separator of one character. *)
Fixpoint split_at (sep : ascii) (acc s : string) : list string :=
  match s with
  | EmptyString => [acc]
  | String c rest => if bool_decide (c = sep) then acc :: split_at sep "" rest else split_at sep (acc ++ String c "") rest
  end.

(** ** The response writer *)
Inductive Body := JSONError (e : APIError) (param : option string) | Text (s : string).
Inductive Op := SetHeader (k v : string) | WriteHeader (code : Z) | WriteBody (b : Body).
(** The header map, the status line with the headers as they were when it was
    sent, and the body. *)
Record Writer := { w_header : gmap string string; w_sent : option (Z * gmap string string); w_body : list Body }.
Definition fresh_writer : Writer := {| w_header := ∅; w_sent := None; w_body := [] |}.
(** The first final status counts; informational ones do not end the header. *)
Definition informational (code : Z) : bool := (100 <=? code) && (code <? 200) && negb (code =? 101).
Definition send_status (code : Z) (w : Writer) : Writer :=
  match w_sent w with
  | Some _ => w
  | None => {| w_header := w_header w; w_sent := Some (code, w_header w); w_body := w_body w |}
  end.
Definition do_op (w : Writer) (o : Op) : Writer :=
  match o with
  | SetHeader k v => {| w_header := <[k := v]> (w_header w); w_sent := w_sent w; w_body := w_body w |}
  | WriteHeader code => if informational code then w else send_status code w
  | WriteBody b => let w' := send_status 200 w in
                   {| w_header := w_header w'; w_sent := w_sent w'; w_body := app (w_body w') [b] |}
  end.
(** What the client gets: a handler that wrote nothing answers 200. *)
Definition answer (ops : list Op) : Writer := send_status 200 (foldl do_op fresh_writer ops).

(** ** Requests, handlers and middleware *)

(** The context values are set by the request middleware. *)
Record HReq := {
  h_Method : string; h_Path : string; h_Header : string → list string; h_RequestID : option string;
  h_TenantID : option string }.
Definition with_ids (requestID tenantID : string) (r : HReq) : HReq :=
  {| h_Method := h_Method r; h_Path := h_Path r; h_Header := h_Header r; h_RequestID := Some requestID;
     h_TenantID := Some tenantID |}.
Definition DefaultRequestID := "unknown".
Definition GetRequestIDFromContext (r : HReq) : string := default DefaultRequestID (h_RequestID r).
Definition GetTenantIDFromContext (r : HReq) : string := default DefaultTenantID (h_TenantID r).

(** The calls on the writer, whether the handler panicked, and the statuses
    recorded for metrics and spans. *)
Record Run := {
  run_ops : list Op; run_panic : bool; run_metrics : list (string * string * Z); run_spans : list (string * Z) }.
Definition plain (ops : list Op) : Run := {| run_ops := ops; run_panic := false; run_metrics := []; run_spans := [] |}.

Section Serving.
Context {S : Type}.
Definition Handler : Type := HReq → S → S * Run.
Record Route := { rt_Method : string; rt_Pattern : string; rt_HandlerFunc : Handler; rt_SpanName : string }.
Definition RouteMiddleware : Type := Route → Handler → Handler.

Definition WriteJSONResponse (status : Z) (b : Body) : list Op :=
  [SetHeader "Content-Type" "application/json"; WriteHeader status; WriteBody b].
Definition WriteAPIError (e : APIError) (param : option string) : list Op :=
  WriteJSONResponse (HTTPStatus e) (JSONError e param).

(** *** [recovery_middleware.go] *)
Definition panicError : APIError :=
  NewAPIError StatusInternalServerError "" "The server had an error while processing your request".
Definition Recovery : RouteMiddleware := λ _ next r s,
  let '(s', x) := next r s in
  (s', if run_panic x
       then {| run_ops := app (run_ops x) (WriteAPIError panicError (Some (GetRequestIDFromContext r)));
               run_panic := false; run_metrics := run_metrics x; run_spans := run_spans x |}
       else x).

(** *** [request_middleware.go] *)

(** [responseWriter] notes the status of every [WriteHeader]. *)
Definition statusCode (ops : list Op) : Z :=
  foldl (λ c o, match o with WriteHeader code => code | _ => c end) 200 ops.
Definition request_id (uuid : string) (r : HReq) : string :=
  match h_Header r "X-Request-Id" with
  | v :: _ => if bool_decide (v = "") then uuid else v
  | [] => uuid
  end.
Definition request_tenant (tenantHeader : string) (r : HReq) : string :=
  match last (h_Header r tenantHeader) with
  | Some v => if bool_decide (v = "") then DefaultTenantID else v
  | None => DefaultTenantID
  end.
Definition NewRequestMiddleware (tenantHeader uuid : string) : RouteMiddleware := λ route next r s,
  let requestID := request_id uuid r in
  let '(s', x) := next (with_ids requestID (request_tenant tenantHeader r) r) s in
  let status := statusCode (run_ops x) in
  (s', {| run_ops := SetHeader "X-Request-Id" requestID :: run_ops x; run_panic := run_panic x;
          run_metrics := app (run_metrics x) [(h_Method r, rt_Pattern route, status)];
          run_spans := if bool_decide (rt_SpanName route = "") then run_spans x
                       else app (run_spans x) [(rt_SpanName route, status)] |}).

(** *** [security_headers_middleware.go] *)
Definition securityHeaders : list (string * string) :=
  [("X-Content-Type-Options", "nosniff"); ("X-Frame-Options", "DENY"); ("X-XSS-Protection", "1; mode=block")].
Definition SecurityHeaders : RouteMiddleware := λ _ next r s,
  let sets := (λ kv, SetHeader kv.1 kv.2) <$> securityHeaders in
  if bool_decide (h_Method r = "OPTIONS") then (s, plain (app sets [WriteHeader 204]))
  else let '(s', x) := next r s in
       (s', {| run_ops := app sets (run_ops x); run_panic := run_panic x; run_metrics := run_metrics x;
               run_spans := run_spans x |}).

(** ** Registration and the mux *)

(** The first middleware is the outermost. *)
Definition wrap (middlewares : list RouteMiddleware) (route : Route) : Handler :=
  foldr (λ m h, m route h) (rt_HandlerFunc route) middlewares.
Record Mux := { mx_routes : list Route; mx_notfound : option Handler }.
Definition RegisterHandler (routes : list Route) (middlewares : list RouteMiddleware) (mux : Mux) : Mux :=
  {| mx_routes := app (mx_routes mux)
       ((λ rt, {| rt_Method := rt_Method rt; rt_Pattern := rt_Pattern rt; rt_HandlerFunc := wrap middlewares rt;
                  rt_SpanName := rt_SpanName rt |}) <$> routes);
     mx_notfound := mx_notfound mux |}.
Definition notFoundHandler : Handler := λ r s,
  (s, plain (WriteAPIError (NewAPIError StatusNotFound ""
                              ("Unknown request URL: " ++ h_Method r ++ " " ++ h_Path r)) None)).
Definition notFoundRoute : Route :=
  {| rt_Method := ""; rt_Pattern := "/"; rt_HandlerFunc := notFoundHandler; rt_SpanName := "" |}.
Definition RegisterNotFoundHandler (middlewares : list RouteMiddleware) (mux : Mux) : Mux :=
  {| mx_routes := mx_routes mux; mx_notfound := Some (wrap middlewares notFoundRoute) |}.

(** Segments of a path; a pattern segment in braces matches any non-empty
    one, and GET patterns serve HEAD. *)
Definition segments (path : string) : list string := split_at "/"%char "" path.
Definition is_wildcard (seg : string) : bool := has_prefix "{" seg.
Fixpoint match_segments (pattern path : list string) : bool :=
  match pattern, path with
  | [], [] => true
  | p :: ps, x :: xs => (if is_wildcard p then negb (bool_decide (x = "")) else bool_decide (p = x)) && match_segments ps xs
  | _, _ => false
  end.
Definition method_matches (pattern method : string) : bool :=
  bool_decide (pattern = method) || (bool_decide (pattern = "GET") && bool_decide (method = "HEAD")).
Definition route_matches (r : HReq) (rt : Route) : bool :=
  method_matches (rt_Method rt) (h_Method r) && match_segments (segments (rt_Pattern rt)) (segments (h_Path r)).
(** A mux without a catch-all answers 404 itself. *)
Definition muxNotFound : Handler := λ r s, (s, plain [WriteHeader 404; WriteBody (Text "404 page not found")]).
Definition ServeHTTP (mux : Mux) : Handler := λ r s,
  match find (route_matches r) (mx_routes mux) with
  | Some rt => rt_HandlerFunc rt r s
  | None => default muxNotFound (mx_notfound mux) r s
  end.

(** [New]: the API mux and the mux of the probes. *)
Definition apiMiddlewares (tenantHeader uuid : string) : list RouteMiddleware :=
  [Recovery; NewRequestMiddleware tenantHeader uuid; SecurityHeaders].
Definition empty_mux : Mux := {| mx_routes := []; mx_notfound := None |}.
Definition apiMux (tenantHeader uuid : string) (fileRoutes batchRoutes : list Route) : Mux :=
  let ms := apiMiddlewares tenantHeader uuid in
  RegisterNotFoundHandler ms (RegisterHandler batchRoutes ms (RegisterHandler fileRoutes ms empty_mux)).
End Serving.
Arguments Handler : clear implicits.
Arguments Route : clear implicits.
Arguments Mux : clear implicits.

(** *** The routes of the handlers ([GetRoutes]) *)
Section Routes.
Context {S : Type}.
Context (CreateBatch ListBatches RetrieveBatch CancelBatch : Handler S)
        (CreateFile ListFiles RetrieveFile DownloadFile DeleteFile : Handler S).
Definition mk_route (method pattern : string) (h : Handler S) (span : string) : Route S :=
  {| rt_Method := method; rt_Pattern := pattern; rt_HandlerFunc := h; rt_SpanName := span |}.
Definition batch_GetRoutes : list (Route S) :=
  [mk_route "POST" "/v1/batches" CreateBatch "api-create-batch"; mk_route "GET" "/v1/batches" ListBatches "api-list-batch";
   mk_route "GET" "/v1/batches/{batch_id}" RetrieveBatch "api-get-batch";
   mk_route "POST" "/v1/batches/{batch_id}/cancel" CancelBatch "api-cancel-batch"].
Definition file_GetRoutes : list (Route S) :=
  [mk_route "POST" "/v1/files" CreateFile "api-create-file"; mk_route "GET" "/v1/files" ListFiles "api-list-file";
   mk_route "GET" "/v1/files/{file_id}" RetrieveFile "api-get-file";
   mk_route "GET" "/v1/files/{file_id}/content" DownloadFile "api-download-file";
   mk_route "DELETE" "/v1/files/{file_id}" DeleteFile "api-delete-file"].
End Routes.

(** *** The probes *)
Definition text_response (status : Z) (s : string) : list Op :=
  [SetHeader "Content-Type" "text/plain; charset=utf-8"; WriteHeader status; WriteBody (Text s)].
(** Their state is [serverReady]. *)
Definition HealthHandler : Handler bool := λ r ready, (ready, plain (text_response 200 "OK")).
Definition ReadyHandler : Handler bool := λ r ready,
  (ready, plain (if ready then text_response 200 "ok" else text_response 503 "not ready")).
Definition health_GetRoutes : list (Route bool) :=
  [mk_route "GET" "/health" HealthHandler ""; mk_route "HEAD" "/health" HealthHandler ""].
Definition readiness_GetRoutes : list (Route bool) :=
  [mk_route "GET" "/ready" ReadyHandler ""; mk_route "HEAD" "/ready" ReadyHandler ""].
Definition obsMux : Mux bool :=
  RegisterHandler readiness_GetRoutes [] (RegisterHandler health_GetRoutes [] empty_mux).

(** ** What a response carries *)
Definition sets_header (k : string) (o : Op) : bool := match o with SetHeader k' _ => bool_decide (k' = k) | _ => false end.
(** The header is in place now and in what was sent. *)
Definition carries (k v : string) (w : Writer) : Prop :=
  w_header w !! k = Some v ∧ ∀ c h, w_sent w = Some (c, h) → h !! k = Some v.
Lemma sent_after code w : is_Some (w_sent (send_status code w)).
Proof. unfold send_status. destruct (w_sent w) eqn:E; [by rewrite E|done]. Qed.
Lemma carries_send k v code w : carries k v w → carries k v (send_status code w).
Proof.
  intros [H1 H2]. unfold send_status. destruct (w_sent w) as [[c h]|] eqn:E; [split; [done|by rewrite E]|].
  split; [done|]. by intros c h [= _ <-].
Qed.
Lemma carries_op k v o w : sets_header k o = false → carries k v w → carries k v (do_op w o).
Proof.
  destruct o as [k' v'|code|b]; cbn; intros Hk Hw.
  - case_bool_decide; [done|]. split; cbn; [rewrite lookup_insert_ne by done; apply Hw|apply Hw].
  - destruct (informational code); [done|by apply carries_send].
  - apply (carries_send k v 200) in Hw. by split; cbn; apply Hw.
Qed.
Lemma carries_ops k v ops w :
  Forall (λ o, sets_header k o = false) ops → carries k v w → carries k v (foldl do_op w ops).
Proof. intros H. revert w. induction H as [|o ops Ho _ IH]; intros w Hw; cbn; [done|]. apply IH. by apply carries_op. Qed.
(** A header set while nothing was sent, and not set again, is in the answer. *)
Lemma answer_carries k v pre post :
  Forall (λ o, match o with SetHeader _ _ => true | _ => false end = true) pre →
  Forall (λ o, sets_header k o = false) post →
  ∃ code h, w_sent (answer (app pre (SetHeader k v :: post))) = Some (code, h) ∧ h !! k = Some v.
Proof.
  intros Hpre Hpost. unfold answer. rewrite foldl_app. cbn [foldl].
  assert (w_sent (foldl do_op fresh_writer pre) = None) as Hn.
  { assert (w_sent fresh_writer = None) as H0 by done. revert H0. generalize fresh_writer.
    induction Hpre as [|o pre Ho _ IH]; intros w Hw; cbn; [done|]. apply IH. by destruct o. }
  set (w := foldl do_op fresh_writer pre) in *.
  assert (carries k v (do_op w (SetHeader k v))) as Hc.
  { split; cbn; [apply lookup_insert_eq|]. intros c h. by rewrite Hn. }
  pose proof (carries_send k v 200 _ (carries_ops k v post _ Hpost Hc)) as [_ Hs].
  destruct (sent_after 200 (foldl do_op (do_op w (SetHeader k v)) post)) as [[c h] E]. exists c, h. eauto.
Qed.

Section Plumbing.
Context {S : Type} (tenantHeader uuid : string).
Notation mux := (apiMux (S := S) tenantHeader uuid).
Definition reserved : list string := "X-Request-Id" :: securityHeaders.*1.
(** Handlers leave these headers and the records to the middleware. *)
Definition polite (h : Handler S) : Prop :=
  ∀ r s, Forall (λ o, ∀ k, k ∈ reserved → sets_header k o = false) (run_ops (h r s).2) ∧
         run_metrics (h r s).2 = [] ∧ run_spans (h r s).2 = [].

(** The whole chain around a route. *)
Lemma serve_api fileRoutes batchRoutes r s :
  ∃ rt, (rt = notFoundRoute ∨ rt ∈ app fileRoutes batchRoutes) ∧
    ServeHTTP (mux fileRoutes batchRoutes) r s = wrap (apiMiddlewares tenantHeader uuid) rt r s.
Proof.
  unfold ServeHTTP, apiMux, RegisterNotFoundHandler, RegisterHandler. cbn [mx_routes mx_notfound default empty_mux].
  set (ms := apiMiddlewares tenantHeader uuid). rewrite app_nil_l, <- fmap_app.
  destruct (find _ _) as [rt|] eqn:Hf; [|exists notFoundRoute; auto].
  apply find_some in Hf as [Hin _]. apply list_elem_of_In, list_elem_of_fmap in Hin as (rt0 & -> & Hin). exists rt0. auto.
Qed.
(** The headers the middleware sets, and what the handler itself does. *)
Definition tags (r : HReq) : list Op :=
  SetHeader "X-Request-Id" (request_id uuid r) :: ((λ kv, SetHeader kv.1 kv.2) <$> securityHeaders).
Definition handler_run (route : Route S) (r : HReq) (s : S) : Run :=
  if bool_decide (h_Method r = "OPTIONS") then plain [WriteHeader 204]
  else (rt_HandlerFunc route (with_ids (request_id uuid r) (request_tenant tenantHeader r) r) s).2.
Lemma wrap_ops route r s :
  let x := (wrap (apiMiddlewares tenantHeader uuid) route r s).2 in
  run_panic x = false ∧
  run_ops x = app (tags r) (app (run_ops (handler_run route r s))
                (if run_panic (handler_run route r s)
                 then WriteAPIError panicError (Some (GetRequestIDFromContext r)) else [])).
Proof.
  unfold wrap, apiMiddlewares, handler_run. cbn [foldr]. unfold Recovery, NewRequestMiddleware, SecurityHeaders.
  cbn [h_Method with_ids]. case_bool_decide; [done|].
  destruct (rt_HandlerFunc route _ s) as [s' x]. cbn [fst snd run_panic run_ops].
  destruct (run_panic x); cbn [snd run_panic run_ops]; (split; [done|]); [done|]. by rewrite app_nil_r.
Qed.

(** Every response of the API carries the request's ID and the security
    headers, whatever the handler does: it answers, it panics, the route does
    not exist or the request is a preflight.  The ID is the client's or the
    generated one, and no panic reaches the HTTP server. *)
Theorem responses_are_tagged fileRoutes batchRoutes r s :
  Forall (λ rt, polite (rt_HandlerFunc rt)) (app fileRoutes batchRoutes) →
  let x := (ServeHTTP (mux fileRoutes batchRoutes) r s).2 in
  run_panic x = false ∧
  ∀ k v, (k, v) ∈ ("X-Request-Id", request_id uuid r) :: securityHeaders →
    ∃ code h, w_sent (answer (run_ops x)) = Some (code, h) ∧ h !! k = Some v.
Proof.
  intros Hp x. destruct (serve_api fileRoutes batchRoutes r s) as (rt & Hrt & E). unfold x. rewrite E. clear x E.
  destruct (wrap_ops rt r s) as [Hpanic ->]. split; [done|]. intros k v Hkv. set (tail := if run_panic _ then _ else _).
  assert (Hrest : ∀ k, k ∈ reserved → Forall (λ o, sets_header k o = false) (app (run_ops (handler_run rt r s)) tail)).
  { intros k0 Hk0. apply Forall_app. split.
    - unfold handler_run. case_bool_decide; [by repeat constructor|].
      assert (polite (rt_HandlerFunc rt)) as Hpol.
      { destruct Hrt as [->|Hin]; [|by eapply Forall_forall in Hp]. intros r0 s0. cbn. split; [|done].
        repeat constructor; cbn; intros k1 Hk1; apply bool_decide_eq_false; intros <-; revert Hk1; cbn; set_solver. }
      eapply Forall_impl; [apply Hpol|]. cbn. eauto.
    - unfold tail. destruct (run_panic (handler_run rt r s)); [|apply Forall_nil_2]. repeat constructor; cbn. apply bool_decide_eq_false. intros <-. revert Hk0. cbn. set_solver. }
  apply elem_of_cons in Hkv as [[= -> ->]|Hkv].
  - apply (answer_carries _ _ []); [done|]. apply Forall_app. split; [by repeat constructor|apply Hrest; cbn; set_solver].
  - assert (Forall (λ o, sets_header k o = false) (app (run_ops (handler_run rt r s)) tail)) as Hk.
    { apply Hrest. apply elem_of_cons. right. apply list_elem_of_fmap. by exists (k, v). }
    unfold tags, securityHeaders in *. cbn [fmap list_fmap app fst snd].
    apply elem_of_cons in Hkv as [[= -> ->]|Hkv]; [|apply elem_of_cons in Hkv as [[= -> ->]|Hkv]; [|apply list_elem_of_singleton in Hkv as [= -> ->]]].
    + apply (answer_carries _ _ [_]); [by repeat constructor|]. by repeat constructor.
    + apply (answer_carries _ _ [_; _]); [by repeat constructor|]. by repeat constructor.
    + apply (answer_carries _ _ [_; _; _]); [by repeat constructor|]. done.
Qed.

(** ** What is recorded *)
Definition writes_status (o : Op) : bool := match o with WriteHeader _ => true | _ => false end.
(** At most one status, sent before the body, as [WriteJSONResponse] and the
    other helpers do. *)
Definition one_status (ops : list Op) : Prop :=
  Forall (λ o, writes_status o = false) ops ∨
  ∃ pre code post, ops = app pre (WriteHeader code :: post) ∧
    Forall (λ o, match o with SetHeader _ _ => true | _ => false end = true) pre ∧ informational code = false ∧
    Forall (λ o, writes_status o = false) post.
Lemma status_from c ops : Forall (λ o, writes_status o = false) ops →
  foldl (λ c o, match o with WriteHeader code => code | _ => c end) c ops = c.
Proof. intros H. revert c. induction H as [|o ops Ho _ IH]; intros c; cbn; [done|]. by destruct o. Qed.
Lemma sent_kept ops w c h : w_sent w = Some (c, h) → w_sent (foldl do_op w ops) = Some (c, h).
Proof.
  revert w. induction ops as [|o ops IH]; intros w Hw; cbn [foldl]; [done|]. apply IH.
  destruct o as [k v|code|b]; cbn; unfold send_status; rewrite ?Hw; [done| |done]. by destruct (informational code); rewrite ?Hw.
Qed.
Lemma sets_unsent pre w :
  Forall (λ o, match o with SetHeader _ _ => true | _ => false end = true) pre → w_sent w = None →
  w_sent (foldl do_op w pre) = None.
Proof. intros H. revert w. induction H as [|o pre Ho _ IH]; intros w Hw; cbn; [done|]. apply IH. by destruct o. Qed.
Lemma unsent_200 ops w :
  Forall (λ o, writes_status o = false) ops → w_sent w = None →
  fst <$> w_sent (send_status 200 (foldl do_op w ops)) = Some 200.
Proof.
  intros H. revert w. induction H as [|o ops Ho _ IH]; intros w Hw; cbn [foldl]; [unfold send_status; by rewrite Hw|].
  destruct o as [k v|code|b]; [by apply IH|done|].
  assert (w_sent (do_op w (WriteBody b)) = Some (200, w_header w)) as E by (cbn; unfold send_status; by rewrite Hw).
  pose proof (sent_kept ops _ _ _ E) as E'. unfold send_status. by rewrite E', E'.
Qed.
(** The status the middleware notes is the one that is sent. *)
Lemma one_status_recorded pre ops :
  Forall (λ o, match o with SetHeader _ _ => true | _ => false end = true) pre → one_status ops →
  fst <$> w_sent (answer (app pre ops)) = Some (statusCode ops).
Proof.
  intros Hpre [Hn|(pre' & code & post & -> & Hp & Hc & Hq)]; unfold answer, statusCode.
  - rewrite foldl_app, (status_from 200 ops Hn). apply unsent_200; [done|]. by apply sets_unsent.
  - rewrite !foldl_app. cbn [foldl]. rewrite (status_from code post Hq).
    assert (w_sent (foldl do_op (foldl do_op fresh_writer pre) pre') = None) as Hw by by apply sets_unsent, sets_unsent.
    set (w := foldl do_op (foldl do_op fresh_writer pre) pre') in *.
    assert (w_sent (do_op w (WriteHeader code)) = Some (code, w_header w)) as E by (cbn; rewrite Hc; unfold send_status; by rewrite Hw).
    pose proof (sent_kept post _ _ _ E) as E'. unfold send_status. by rewrite E', E'.
Qed.

(** One metric per request, with the status the wrapper noted. *)
Lemma wrap_metrics route r s :
  polite (rt_HandlerFunc route) →
  run_metrics (wrap (apiMiddlewares tenantHeader uuid) route r s).2 =
    [(h_Method r, rt_Pattern route, statusCode (run_ops (handler_run route r s)))].
Proof.
  intros Hp. unfold wrap, apiMiddlewares, handler_run. cbn [foldr]. unfold Recovery, NewRequestMiddleware, SecurityHeaders.
  cbn [h_Method with_ids]. case_bool_decide; [done|].
  destruct (Hp (with_ids (request_id uuid r) (request_tenant tenantHeader r) r) s) as (_ & Hm & _).
  destruct (rt_HandlerFunc route _ s) as [s' x]. cbn [fst snd run_panic run_ops run_metrics] in *. rewrite Hm.
  by destruct (run_panic x).
Qed.
Lemma tags_set r : Forall (λ o, match o with SetHeader _ _ => true | _ => false end = true) (tags r).
Proof. by repeat constructor. Qed.
(** The metric of a request whose handler returns has the status of the
    response. *)
Theorem recorded_status_is_sent route r s :
  polite (rt_HandlerFunc route) →
  run_panic (handler_run route r s) = false → one_status (run_ops (handler_run route r s)) →
  let x := (wrap (apiMiddlewares tenantHeader uuid) route r s).2 in
  ∃ code, fst <$> w_sent (answer (run_ops x)) = Some code ∧ run_metrics x = [(h_Method r, rt_Pattern route, code)].
Proof.
  intros Hp Hn H1 x. exists (statusCode (run_ops (handler_run route r s))). split; [|by apply wrap_metrics].
  unfold x. rewrite (proj2 (wrap_ops route r s)), Hn, app_nil_r. apply one_status_recorded; [apply tags_set|done].
Qed.
Lemma sets_body pre w :
  Forall (λ o, match o with SetHeader _ _ => true | _ => false end = true) pre → w_body (foldl do_op w pre) = w_body w.
Proof. intros H. revert w. induction H as [|o pre Ho _ IH]; intros w; cbn; [done|]. rewrite IH. by destruct o. Qed.
(** [C38] A handler that panics before it has answered: the client gets a 500,
    but the recovery is outside the request middleware, so the request is
    counted as a 200 and the error names the request "unknown" although the
    response carries its ID. *)
Theorem panic_is_recorded_as_success route r s :
  h_RequestID r = None → polite (rt_HandlerFunc route) → run_panic (handler_run route r s) = true →
  Forall (λ o, match o with SetHeader _ _ => true | _ => false end = true) (run_ops (handler_run route r s)) →
  let x := (wrap (apiMiddlewares tenantHeader uuid) route r s).2 in
  fst <$> w_sent (answer (run_ops x)) = Some 500 ∧
  w_body (answer (run_ops x)) = [JSONError panicError (Some "unknown")] ∧
  run_metrics x = [(h_Method r, rt_Pattern route, 200)].
Proof.
  intros Hid Hp Hpanic Hs x. unfold x. rewrite wrap_metrics, (proj2 (wrap_ops route r s)), Hpanic, app_assoc by done.
  unfold GetRequestIDFromContext. rewrite Hid. cbn [default].
  assert (Hpre : Forall (λ o, match o with SetHeader _ _ => true | _ => false end = true) (app (tags r) (run_ops (handler_run route r s)))).
  { apply Forall_app. split; [apply tags_set|done]. }
  split_and!.
  - apply (one_status_recorded _ (WriteAPIError panicError (Some "unknown"))); [done|].
    right. exists [SetHeader "Content-Type" "application/json"], 500, [WriteBody (JSONError panicError (Some "unknown"))].
    split_and!; try done; by repeat constructor.
  - unfold answer. rewrite foldl_app. pose proof (sets_unsent _ fresh_writer Hpre eq_refl) as Hw.
    pose proof (sets_body _ fresh_writer Hpre) as Hb. set (w := foldl do_op fresh_writer _) in *. clearbody w.
    unfold WriteAPIError, WriteJSONResponse. cbn [foldl do_op informational HTTPStatus panicError NewAPIError].
    unfold send_status. cbn. by rewrite Hw, Hb.
  - unfold statusCode. rewrite status_from; [done|]. eapply Forall_impl; [apply Hs|]. intros o. by destruct o.
Qed.
End Plumbing.

(** ** Routing *)

(** Two patterns that no path matches both. *)
Fixpoint apart (p q : list string) : bool :=
  match p, q with
  | [], [] => false
  | x :: p', y :: q' => (negb (is_wildcard x) && negb (is_wildcard y) && negb (bool_decide (x = y))) || apart p' q'
  | _, _ => true
  end.
Lemma apart_spec p q l : apart p q = true → match_segments p l = true → match_segments q l = false.
Proof.
  revert q l. induction p as [|x p IH]; intros [|y q] [|z l]; cbn; try done.
  rewrite orb_true_iff, !andb_true_iff, !negb_true_iff. intros [[[Hx Hy] Hne]|Ha] [Hz Hl].
  - rewrite Hx in Hz. rewrite Hy. boolify. subst. by rewrite bool_decide_eq_false_2.
  - rewrite (IH q l) by done. apply andb_false_r.
Qed.
Definition methods_apart (a b : string) : bool := negb (bool_decide (a = b)) && negb (bool_decide (a = "HEAD")) && negb (bool_decide (b = "HEAD")).
Lemma methods_apart_spec a b m : methods_apart a b = true → method_matches a m = true → method_matches b m = false.
Proof.
  unfold methods_apart, method_matches. intros H. boolify. rewrite orb_true_iff, andb_true_iff. intros Hm.
  apply not_true_iff_false. rewrite orb_true_iff, andb_true_iff, !bool_decide_eq_true in *. naive_solver congruence.
Qed.
Definition keys {S} (routes : list (Route S)) : list (string * string) := (λ rt, (rt_Method rt, rt_Pattern rt)) <$> routes.
Definition all_apart (ks : list (string * string)) : bool :=
  forallb (λ k1, forallb (λ k2, bool_decide (k1 = k2) || methods_apart k1.1 k2.1 ||
                                apart (segments k1.2) (segments k2.2)) ks) ks.
(** No request matches two routes of the API, so the order of registration
    does not matter. *)
Theorem routes_disjoint {S} (h1 h2 h3 h4 h5 h6 h7 h8 h9 : Handler S) r rt1 rt2 :
  let routes := app (file_GetRoutes h5 h6 h7 h8 h9) (batch_GetRoutes h1 h2 h3 h4) in
  rt1 ∈ routes → rt2 ∈ routes → route_matches r rt1 = true → route_matches r rt2 = true →
  (rt_Method rt1, rt_Pattern rt1) = (rt_Method rt2, rt_Pattern rt2).
Proof.
  intros routes H1 H2 [M1 S1]%andb_true_iff [M2 S2]%andb_true_iff.
  assert (all_apart (keys routes) = true) as Ha by (vm_compute; reflexivity).
  assert (∀ rt, rt ∈ routes → In (rt_Method rt, rt_Pattern rt) (keys routes)) as Hk.
  { intros rt Hrt. apply list_elem_of_In, list_elem_of_fmap. eauto. }
  unfold all_apart in Ha. rewrite forallb_forall in Ha. pose proof (Ha _ (Hk _ H1)) as Ha1. rewrite forallb_forall in Ha1.
  pose proof (Ha1 _ (Hk _ H2)) as H. cbn in H. rewrite !orb_true_iff in H. destruct H as [[H|H]|H].
  - by apply bool_decide_eq_true in H.
  - by rewrite (methods_apart_spec _ _ _ H M1) in M2.
  - change (apart (segments (rt_Pattern rt1)) (segments (rt_Pattern rt2)) = true) in H. by rewrite (apart_spec _ _ _ H S1) in S2.
Qed.
