(* ===== verification/Startup.v ===== *)
(** * Configuration and life of the API server

    [apiserver/common/config.go] ([Load]: flags, file, defaults, validation),
    [internal/tls/tls.go] and [server.go] ([Start]), with runs of the theorems
    of [Server.v].  The flag package, the YAML decoder, the file system, the
    cipher suites of crypto/tls and the outcome of every server call are
    inputs. *)

From Stdlib Require Import ZArith Lia Ascii String.
From stdpp Require Import base gmap strings list.
From S2P Require Import Prelude Openai Store StoreOps Planner Preprocess Semaphore Flow Throttle Rest Config Server.
Local Open Scope string_scope.
Local Open Scope Z_scope.

(** ** [ServerConfig] *)
Record ServerConfig := {
  sc_Host : string; sc_Port : string; sc_ObservabilityPort : string; sc_SSLCertFile : string; sc_SSLKeyFile : string;
  sc_InputHeaders : gmap string string; sc_TLSMinVersion : string; sc_TLSCipherSuites : string; sc_TLSNextProtos : string;
  sc_ReadHeaderTimeoutSeconds : Z; sc_ReadTimeoutSeconds : Z; sc_WriteTimeoutSeconds : Z; sc_IdleTimeoutSeconds : Z;
  sc_APIShutdownTimeoutSeconds : Z; sc_ObservabilityShutdownTimeoutSeconds : Z;
  sc_BatchEventTTLSeconds : Z; sc_PassThroughHeaders : list string; sc_ExtraEndpoints : list string;
  sc_DefaultExpirationSeconds : Z; sc_MaxSizeBytes : Z; sc_MaxLineCount : Z;
  sc_FileRetry : RetryConfig; sc_DBType : string; sc_EnablePprof : bool; sc_PostgresqlTracing : bool }.
Definition NewConfig : ServerConfig :=
  {| sc_Host := ""; sc_Port := ""; sc_ObservabilityPort := ""; sc_SSLCertFile := ""; sc_SSLKeyFile := "";
     sc_InputHeaders := ∅; sc_TLSMinVersion := ""; sc_TLSCipherSuites := ""; sc_TLSNextProtos := "";
     sc_ReadHeaderTimeoutSeconds := 0; sc_ReadTimeoutSeconds := 0; sc_WriteTimeoutSeconds := 0; sc_IdleTimeoutSeconds := 0;
     sc_APIShutdownTimeoutSeconds := 0; sc_ObservabilityShutdownTimeoutSeconds := 0;
     sc_BatchEventTTLSeconds := 0; sc_PassThroughHeaders := []; sc_ExtraEndpoints := [];
     sc_DefaultExpirationSeconds := 0; sc_MaxSizeBytes := 0; sc_MaxLineCount := 0;
     sc_FileRetry := {| rc_MaxRetries := 0; rc_InitialBackoff := 0; rc_MaxBackoff := 0 |}; sc_DBType := "";
     sc_EnablePprof := false; sc_PostgresqlTracing := false |}.
Definition set_tls (minVersion suites protos : string) (c : ServerConfig) : ServerConfig :=
  {| sc_Host := sc_Host c; sc_Port := sc_Port c; sc_ObservabilityPort := sc_ObservabilityPort c;
     sc_SSLCertFile := sc_SSLCertFile c; sc_SSLKeyFile := sc_SSLKeyFile c; sc_InputHeaders := sc_InputHeaders c;
     sc_TLSMinVersion := minVersion; sc_TLSCipherSuites := suites; sc_TLSNextProtos := protos;
     sc_ReadHeaderTimeoutSeconds := sc_ReadHeaderTimeoutSeconds c; sc_ReadTimeoutSeconds := sc_ReadTimeoutSeconds c;
     sc_WriteTimeoutSeconds := sc_WriteTimeoutSeconds c; sc_IdleTimeoutSeconds := sc_IdleTimeoutSeconds c;
     sc_APIShutdownTimeoutSeconds := sc_APIShutdownTimeoutSeconds c;
     sc_ObservabilityShutdownTimeoutSeconds := sc_ObservabilityShutdownTimeoutSeconds c;
     sc_BatchEventTTLSeconds := sc_BatchEventTTLSeconds c; sc_PassThroughHeaders := sc_PassThroughHeaders c;
     sc_ExtraEndpoints := sc_ExtraEndpoints c; sc_DefaultExpirationSeconds := sc_DefaultExpirationSeconds c;
     sc_MaxSizeBytes := sc_MaxSizeBytes c; sc_MaxLineCount := sc_MaxLineCount c; sc_FileRetry := sc_FileRetry c;
     sc_DBType := sc_DBType c; sc_EnablePprof := sc_EnablePprof c; sc_PostgresqlTracing := sc_PostgresqlTracing c |}.
Definition or_string (v d : string) : string := if bool_decide (v = "") then d else v.
Definition DBTypePostgreSQL := "postgresql".
Definition DefaultReadHeaderTimeoutSeconds : Z := 10.
Definition DefaultReadTimeoutSeconds : Z := 900.
Definition DefaultWriteTimeoutSeconds : Z := 120.
Definition DefaultIdleTimeoutSeconds : Z := 90.
Definition DefaultAPIShutdownTimeoutSeconds : Z := 60.
Definition DefaultObservabilityShutdownTimeoutSeconds : Z := 60.
Definition applyDefaults (c : ServerConfig) : ServerConfig :=
  {| sc_Host := sc_Host c; sc_Port := sc_Port c; sc_ObservabilityPort := or_string (sc_ObservabilityPort c) "8081";
     sc_SSLCertFile := sc_SSLCertFile c; sc_SSLKeyFile := sc_SSLKeyFile c; sc_InputHeaders := sc_InputHeaders c;
     sc_TLSMinVersion := sc_TLSMinVersion c; sc_TLSCipherSuites := sc_TLSCipherSuites c;
     sc_TLSNextProtos := sc_TLSNextProtos c;
     sc_ReadHeaderTimeoutSeconds := or_default (sc_ReadHeaderTimeoutSeconds c) DefaultReadHeaderTimeoutSeconds;
     sc_ReadTimeoutSeconds := or_default (sc_ReadTimeoutSeconds c) DefaultReadTimeoutSeconds;
     sc_WriteTimeoutSeconds := or_default (sc_WriteTimeoutSeconds c) DefaultWriteTimeoutSeconds;
     sc_IdleTimeoutSeconds := or_default (sc_IdleTimeoutSeconds c) DefaultIdleTimeoutSeconds;
     sc_APIShutdownTimeoutSeconds := or_default (sc_APIShutdownTimeoutSeconds c) DefaultAPIShutdownTimeoutSeconds;
     sc_ObservabilityShutdownTimeoutSeconds :=
       or_default (sc_ObservabilityShutdownTimeoutSeconds c) DefaultObservabilityShutdownTimeoutSeconds;
     sc_BatchEventTTLSeconds := or_default (sc_BatchEventTTLSeconds c) DefaultBatchEventTTLSeconds;
     sc_PassThroughHeaders := sc_PassThroughHeaders c; sc_ExtraEndpoints := sc_ExtraEndpoints c;
     sc_DefaultExpirationSeconds := or_default (sc_DefaultExpirationSeconds c) DefaultFileExpirationSeconds;
     sc_MaxSizeBytes := or_default (sc_MaxSizeBytes c) DefaultMaxFileSizeBytes;
     sc_MaxLineCount := or_default (sc_MaxLineCount c) DefaultMaxFileLineCount; sc_FileRetry := sc_FileRetry c;
     sc_DBType := or_string (sc_DBType c) DBTypePostgreSQL; sc_EnablePprof := sc_EnablePprof c;
     sc_PostgresqlTracing := sc_PostgresqlTracing c |}.
Definition is_set (s : string) : bool := negb (bool_decide (s = "")).
Definition SSLEnabled (c : ServerConfig) : bool := is_set (sc_SSLCertFile c) && is_set (sc_SSLKeyFile c).
(** [stat]: the file exists. *)
Definition server_Validate (stat : string → bool) (c : ServerConfig) : result unit :=
  and_then (first_failure
    [ (negb (is_set (sc_Port c)), "port cannot be empty");
      ((is_set (sc_SSLCertFile c) && negb (is_set (sc_SSLKeyFile c))) ||
       (negb (is_set (sc_SSLCertFile c)) && is_set (sc_SSLKeyFile c)),
       "both ssl-cert-file and ssl-private-key-file must be provided together");
      (is_set (sc_SSLCertFile c) && negb (stat (sc_SSLCertFile c)), "ssl cert file not found");
      (is_set (sc_SSLCertFile c) && negb (stat (sc_SSLKeyFile c)), "ssl key file not found") ]) (λ _,
  and_then (retry_Validate (sc_FileRetry c)) (λ _,
  and_then (NewEndpointAllowlist (sc_ExtraEndpoints c)) (λ _, Ok tt))).

(** The flags of the command line. *)
Record Flags := { fl_config : string; fl_minVersion : string; fl_suites : string; fl_protos : string }.
Definition loadFromFile (ReadFile : string → result string) (Unmarshal : string → ServerConfig → result ServerConfig)
    (path : string) (c : ServerConfig) : result ServerConfig :=
  if bool_decide (path = "") then Err (ErrOther "config file path cannot be empty")
  else and_then (ReadFile path) (λ data, Unmarshal data c).
Definition server_Load (flags : result Flags) (ReadFile : string → result string)
    (Unmarshal : string → ServerConfig → result ServerConfig) (stat : string → bool) : result ServerConfig :=
  and_then flags (λ f,
  and_then (loadFromFile ReadFile Unmarshal (fl_config f) (set_tls (fl_minVersion f) (fl_suites f) (fl_protos f) NewConfig)) (λ c,
  let c' := applyDefaults c in and_then (server_Validate stat c') (λ _, Ok c'))).
(** The values that reach the handlers. *)
Definition handler_config (c : ServerConfig) : YamlConfig :=
  {| yc_InputHeaders := sc_InputHeaders c; yc_BatchEventTTLSeconds := sc_BatchEventTTLSeconds c;
     yc_PassThroughHeaders := sc_PassThroughHeaders c; yc_ExtraEndpoints := sc_ExtraEndpoints c;
     yc_DefaultExpirationSeconds := sc_DefaultExpirationSeconds c; yc_MaxSizeBytes := sc_MaxSizeBytes c;
     yc_MaxLineCount := sc_MaxLineCount c |}.
(** [time.Duration(s) * time.Second] on 64 bits. *)
Definition seconds (s : Z) : Z := wrap64 (s * 1000000000).
Definition GetAPIShutdownTimeoutSeconds (c : ServerConfig) : Z :=
  or_default (sc_APIShutdownTimeoutSeconds c) DefaultAPIShutdownTimeoutSeconds.
Definition GetObservabilityShutdownTimeoutSeconds (c : ServerConfig) : Z :=
  or_default (sc_ObservabilityShutdownTimeoutSeconds c) DefaultObservabilityShutdownTimeoutSeconds.
(** The timeouts [Start] gives to the HTTP server and to the shutdowns. *)
Definition http_timeouts (c : ServerConfig) : list Z :=
  seconds <$> [sc_ReadHeaderTimeoutSeconds c; sc_ReadTimeoutSeconds c; sc_WriteTimeoutSeconds c; sc_IdleTimeoutSeconds c;
               GetAPIShutdownTimeoutSeconds c; GetObservabilityShutdownTimeoutSeconds c].

Lemma or_default_pos v d : 0 < d → 0 < or_default v d.
Proof. intros. unfold or_default. destruct (Z.leb_spec v 0); lia. Qed.
Lemma or_default_id v d : 0 < v → or_default v d = v.
Proof. intros. unfold or_default. destruct (Z.leb_spec v 0); lia. Qed.

(** A configuration that loads gives positive timeouts and limits, a port, key
    and certificate together or not at all, and a handler configuration that
    the batch handler's constructor accepts and that has exactly the loaded
    limits. *)
Theorem loaded_config_serves flags ReadFile Unmarshal stat c :
  server_Load flags ReadFile Unmarshal stat = Ok c →
  sc_Port c ≠ "" ∧ (SSLEnabled c = true ∨ (sc_SSLCertFile c = "" ∧ sc_SSLKeyFile c = "")) ∧
  Forall (λ v, 0 < v) [sc_ReadHeaderTimeoutSeconds c; sc_ReadTimeoutSeconds c; sc_WriteTimeoutSeconds c;
    sc_IdleTimeoutSeconds c; sc_APIShutdownTimeoutSeconds c; sc_ObservabilityShutdownTimeoutSeconds c] ∧
  ∃ cfg, NewAPIConfig (handler_config c) = Ok cfg ∧ ac_BatchEventTTLSeconds cfg = sc_BatchEventTTLSeconds c ∧
    ac_DefaultExpirationSeconds cfg = sc_DefaultExpirationSeconds c ∧ ac_MaxSizeBytes cfg = sc_MaxSizeBytes c ∧
    ac_MaxLineCount cfg = sc_MaxLineCount c.
Proof.
  unfold server_Load. rewrite and_then_ok. intros (f & _ & H). rewrite and_then_ok in H. destruct H as (c0 & _ & H).
  rewrite and_then_ok in H. destruct H as (u1 & Hv & [= <-]). unfold server_Validate in Hv.
  rewrite and_then_ok in Hv. destruct Hv as (u2 & Hf' & Hv). rewrite and_then_ok in Hv. destruct Hv as (u3 & _ & Hv).
  rewrite and_then_ok in Hv. destruct Hv as (al & Hal & _). destruct u2.
  apply first_failure_ok in Hf'. rewrite !Forall_cons in Hf'. cbn [fst] in Hf'. destruct Hf' as (Hport & Hssl & _ & _ & _).
  split_and!.
  - unfold is_set in Hport. boolify. done.
  - unfold SSLEnabled, is_set in *. revert Hssl. repeat case_bool_decide; cbn; intros; try discriminate; auto.
  - repeat constructor; apply or_default_pos; reflexivity.
  - unfold NewAPIConfig. cbn [handler_config yc_ExtraEndpoints]. rewrite Hal. eexists. split; [done|].
    cbn [ac_BatchEventTTLSeconds ac_DefaultExpirationSeconds ac_MaxSizeBytes ac_MaxLineCount handler_config yc_BatchEventTTLSeconds
      yc_DefaultExpirationSeconds yc_MaxSizeBytes yc_MaxLineCount].
    split_and!; apply or_default_id, or_default_pos; reflexivity.
Qed.

(** Timeouts up to 292 years are positive durations; the next second wraps
    around to a negative one, which the server takes for no timeout. *)
Theorem timeouts_are_positive flags ReadFile Unmarshal stat c :
  server_Load flags ReadFile Unmarshal stat = Ok c →
  Forall (λ v, v ≤ 9223372036) [sc_ReadHeaderTimeoutSeconds c; sc_ReadTimeoutSeconds c; sc_WriteTimeoutSeconds c;
    sc_IdleTimeoutSeconds c; sc_APIShutdownTimeoutSeconds c; sc_ObservabilityShutdownTimeoutSeconds c] →
  Forall (λ d, 0 < d) (http_timeouts c).
Proof.
  intros Hc Hb. apply loaded_config_serves in Hc as (_ & _ & Hp & _). unfold http_timeouts, GetAPIShutdownTimeoutSeconds,
    GetObservabilityShutdownTimeoutSeconds. rewrite !Forall_cons in Hb, Hp. rewrite !or_default_id by lia.
  assert (∀ v, 0 < v ≤ 9223372036 → 0 < seconds v) as Hs.
  { intros v Hv. unfold seconds. rewrite wrap64_small by lia. lia. }
  cbn [fmap list_fmap]. rewrite !Forall_cons. split_and!; try apply Hs; try lia. apply Forall_nil_2.
Qed.
Example seconds_wrap : seconds 9223372037 < 0.
Proof. vm_compute. done. Qed.

(** ** [tls.Resolve] *)
Section TLS.
(** The suites of crypto/tls by name. *)
Context (CipherSuites : list (string * Z)).
Definition VersionTLS12 : Z := 771.
Definition VersionTLS13 : Z := 772.
Definition parseMinVersion (version : string) : result Z :=
  let version := TrimSpace version in
  if bool_decide (version = "") then Ok VersionTLS12
  else if bool_decide (version = "VersionTLS12") then Ok VersionTLS12
  else if bool_decide (version = "VersionTLS13") then Ok VersionTLS13
  else Err (ErrOther "unrecognized TLS version").
Definition allCiphers : gmap string Z := foldl (λ m cs, <[cs.1 := cs.2]> m) ∅ CipherSuites.
Definition cipher_step (st : list Z * list string) (name : string) : list Z * list string :=
  let name := TrimSpace name in
  if bool_decide (name = "") then st
  else match allCiphers !! name with
       | Some id => (app st.1 [id], st.2)
       | None => (st.1, app st.2 [name])
       end.
Definition parseCipherSuites (commaSeparated : string) : result (list Z) :=
  let s := TrimSpace commaSeparated in
  if bool_decide (s = "") then Ok []
  else let '(ids, unknown) := foldl cipher_step ([], []) (split_at ","%char "" s) in
       match unknown, ids with
       | _ :: _, _ => Err (ErrOther "unknown TLS cipher suite(s)")
       | [], [] => Err (ErrOther "cipher suites flag was set but no valid suites were specified")
       | [], _ => Ok ids
       end.
Definition defaultProtos : list string := ["h2"; "http/1.1"].
Definition parseNextProtos (commaSeparated : string) : list string :=
  let s := TrimSpace commaSeparated in
  if bool_decide (s = "") then defaultProtos
  else match filter (λ p, p ≠ "") (TrimSpace <$> split_at ","%char "" s) with
       | [] => defaultProtos
       | protos => protos
       end.
(** What the option functions set in the TLS configuration. *)
Record TLSOptions := { to_MinVersion : Z; to_CipherSuites : list Z; to_NextProtos : list string }.
Definition Resolve (tlsMinVersion tlsCipherSuites tlsNextProtos : string) : result TLSOptions :=
  and_then (parseMinVersion tlsMinVersion) (λ minVersion,
  and_then (parseCipherSuites tlsCipherSuites) (λ ciphers,
  if (VersionTLS13 <=? minVersion) && negb (bool_decide (ciphers = []))
  then Err (ErrOther "cipher suites cannot be configured with TLS 1.3")
  else Ok {| to_MinVersion := minVersion; to_CipherSuites := ciphers; to_NextProtos := parseNextProtos tlsNextProtos |})).

Lemma allCiphers_known name id : allCiphers !! name = Some id → (name, id) ∈ CipherSuites.
Proof.
  unfold allCiphers. assert (∀ m : gmap string Z, foldl (λ m cs, <[cs.1 := cs.2]> m) m CipherSuites !! name = Some id →
    (name, id) ∈ CipherSuites ∨ m !! name = Some id) as H.
  { induction CipherSuites as [|[n i] l IH]; intros m; cbn; [auto|]. intros [Hin|Hm]%IH; [left; by right|].
    apply lookup_insert_Some in Hm as [[<- <-]|[_ Hm]]; [left; left|by right]. }
  intros [?|Hn]%H; [done|]. by rewrite lookup_empty in Hn.
Qed.
Lemma cipher_steps_known names st :
  Forall (λ id, ∃ name, (name, id) ∈ CipherSuites) st.1 → Forall (λ id, ∃ name, (name, id) ∈ CipherSuites) (foldl cipher_step st names).1.
Proof.
  revert st. induction names as [|n names IH]; intros st Hst; cbn [foldl]; [done|]. apply IH. unfold cipher_step.
  case_bool_decide; [done|]. destruct (allCiphers !! TrimSpace n) as [id|] eqn:E; [|done]. cbn. apply Forall_app. split; [done|].
  constructor; [|done]. exists (TrimSpace n). by apply allCiphers_known.
Qed.
(** Whatever the flags say, a TLS configuration that resolves requires TLS
    1.2 or 1.3, names only secure suites and those only below TLS 1.3, and
    offers a protocol. *)
Theorem tls_is_hardened minVersion suites protos o :
  Resolve minVersion suites protos = Ok o →
  (to_MinVersion o = VersionTLS12 ∨ (to_MinVersion o = VersionTLS13 ∧ to_CipherSuites o = [])) ∧
  Forall (λ id, ∃ name, (name, id) ∈ CipherSuites) (to_CipherSuites o) ∧ to_NextProtos o ≠ [].
Proof.
  unfold Resolve. rewrite and_then_ok. intros (v & Hv & H). rewrite and_then_ok in H. destruct H as (cs & Hcs & H).
  destruct (_ && _) eqn:Hg; [done|]. injection H as <-. cbn. split_and!.
  - unfold parseMinVersion in Hv. repeat case_bool_decide; simplify_eq; auto.
  - clear Hg Hv. unfold parseCipherSuites in Hcs. case_bool_decide; [by simplify_eq|].
    pose proof (cipher_steps_known (split_at ","%char "" (TrimSpace suites)) ([], []) (Forall_nil_2 _)) as Hk.
    destruct (foldl cipher_step _ _) as [ids unknown]. destruct unknown; [|done]. destruct ids; [done|]. by simplify_eq.
  - clear Hg Hv. unfold parseNextProtos. case_bool_decide; [done|]. by destruct (filter _ _).
Qed.
End TLS.

(** ** [Start] *)

(** Readiness, the API listener and its serving goroutine, the observability
    server and the clients. *)
Record Life := { lf_ready : bool; lf_listener : bool; lf_serving : bool; lf_obs : bool; lf_clients : bool }.
(** [http.Server.Serve] ends with [ErrServerClosed], an error or a panic. *)
Inductive Served := ServerClosed | ServeFailed (e : err).
(** The first select: the 100 ms timer, the end of serving, the context. *)
Inductive Startup := Timer | ServeEnded (x : Served) | Cancelled.
(** The second one: the context, with what the goroutine sends within five
    seconds and how the clients close, or the end of serving. *)
Inductive Running := ContextDone (late : option Served) (closed : result unit) | ServingEnded (x : Served).
Definition served_error (x : Served) : result unit := match x with ServerClosed => Ok tt | ServeFailed e => Err e end.
(** [ErrServerClosed] is an error to the caller of the first select. *)
Definition ErrServerClosed : err := ErrOther "http: Server closed".
Definition life (ready listener serving obs clients : bool) : Life :=
  {| lf_ready := ready; lf_listener := listener; lf_serving := serving; lf_obs := obs; lf_clients := clients |}.
(** Certificates and TLS options of the configuration. *)
Definition tls_setup (keypair : result unit) (resolved : result TLSOptions) (c : ServerConfig) : result unit :=
  if SSLEnabled c then and_then keypair (λ _, and_then resolved (λ _, Ok tt))
  else if is_set (sc_SSLCertFile c) || is_set (sc_SSLKeyFile c)
  then Err (ErrOther "both tls-cert-file and tls-private-key-file must be provided to enable TLS")
  else Ok tt.
(** The states the server passes through and the result.  The deferred
    [ln.Close] closes the listener on every return. *)
Definition Start (listened keypair : result unit) (resolved : result TLSOptions) (c : ServerConfig) (first : Startup)
    (then_ : Running) : list Life * result unit :=
  match listened with
  | Err e => ([life false false false true true], Err e)
  | Ok _ =>
      match tls_setup keypair resolved c with
      | Err e => ([life false true false true true; life false false false true true], Err e)
      | Ok _ =>
          let up := [life false true false true true; life false true true true true] in
          match first with
          | ServeEnded x => (app up [life false true false true true; life false false false true true],
                             Err (match x with ServerClosed => ErrServerClosed | ServeFailed e => e end))
          | Cancelled => (app up [life false false true true true], Err ErrIO)
          | Timer =>
              let ready := app up [life true true true true true] in
              match then_ with
              | ServingEnded x => (app ready [life true true false true true; life false true false true true;
                                              life false false false true true], served_error x)
              | ContextDone late closed =>
                  let down := app ready [life false true true true true; life false false true true true;
                                         life false false true false true] in
                  match late with
                  | None => (down, Err (ErrOther "server goroutine did not exit after shutdown"))
                  | Some (ServeFailed e) => (app down [life false false false false true], Err e)
                  | Some ServerClosed =>
                      (app down [life false false false false true;
                                 life false false false false (match closed with Ok _ => false | Err _ => true end)], Ok tt)
                  end
              end
          end
      end
  end.

Ltac check_states :=
  split_and!; [repeat (apply Forall_cons; split; [cbn; naive_solver|]); apply Forall_nil_2
              |intros; try discriminate; repeat (apply Forall_cons; split; [cbn; naive_solver|]); apply Forall_nil_2
              |done|intros; simplify_eq; try done].
(** With a configuration that loaded, the probe answers [200] only while the
    listener is open, and on a requested shutdown only while requests are
    served; readiness is withdrawn on every way out, and the clients are closed
    only after serving has ended. *)
Theorem readiness_is_honest flags ReadFile Unmarshal stat listened keypair resolved c first then_ :
  server_Load flags ReadFile Unmarshal stat = Ok c →
  let '(states, res) := Start listened keypair resolved c first then_ in
  Forall (λ l, (lf_ready l = true → lf_listener l = true ∧ lf_clients l = true) ∧
               (lf_clients l = false → lf_serving l = false)) states ∧
  (∀ late closed, then_ = ContextDone late closed → Forall (λ l, lf_ready l = true → lf_serving l = true) states) ∧
  lf_ready <$> last states = Some false ∧
  (SSLEnabled c = false → listened = Ok tt → first = Timer → then_ = ContextDone (Some ServerClosed) (Ok tt) →
   res = Ok tt ∧ last states = Some (life false false false false false)).
Proof.
  intros Hc. apply loaded_config_serves in Hc as (_ & Hssl & _).
  assert (SSLEnabled c = false → tls_setup keypair resolved c = Ok tt) as Htls.
  { intros Hs. destruct Hssl as [Hssl|[H1 H2]]; [congruence|]. unfold tls_setup. rewrite Hs, H1, H2. done. }
  unfold Start. destruct listened as [[]|e]; [|check_states].
  destruct (tls_setup keypair resolved c) as [[]|e] eqn:Hset; [|check_states; naive_solver].
  destruct first as [|x|]; [|check_states..]. destruct then_ as [[[|e]|] closed|x]; check_states.
Qed.

(** ** Runs *)
Module ServerRuns.
Definition panics : Handler unit := λ _ s, (s, {| run_ops := []; run_panic := true; run_metrics := []; run_spans := [] |}).
Definition says (s : string) : Handler unit := λ _ st, (st, plain (text_response 200 s)).
Definition files : list (Route unit) := file_GetRoutes (says "create") (says "list") (says "get") (says "content") (says "delete").
Definition batches : list (Route unit) := batch_GetRoutes (says "create") (says "list") panics (says "cancel").
Definition request (method path : string) : HReq :=
  {| h_Method := method; h_Path := path; h_Header := λ _, []; h_RequestID := None; h_TenantID := None |}.
Definition get_batch : Route unit := mk_route "GET" "/v1/batches/{batch_id}" panics "api-get-batch".
Definition served (method path : string) : Run :=
  (ServeHTTP (apiMux "X-MaaS-Username" "id-1" files batches) (request method path) tt).2.
(** Routing, the catch-all, the preflight and a panic. *)
Example routing :
  fst <$> w_sent (answer (run_ops (served "GET" "/v1/files/file_1/content"))) = Some 200 ∧
  fst <$> w_sent (answer (run_ops (served "PUT" "/v1/files"))) = Some 404 ∧
  fst <$> w_sent (answer (run_ops (served "OPTIONS" "/v1/files"))) = Some 204 ∧
  fst <$> w_sent (answer (run_ops (served "GET" "/v1/batches/b1"))) = Some 500 ∧
  run_metrics (served "GET" "/v1/batches/b1") = [("GET", "/v1/batches/{batch_id}", 200)].
Proof. vm_compute. done. Qed.
Lemma panics_polite : polite panics.
Proof. intros r s. cbn. auto. Qed.
Lemma panic_is_recorded_as_success_run :
  let x := (wrap (apiMiddlewares "X-MaaS-Username" "id-1") get_batch (request "GET" "/v1/batches/b1") tt).2 in
  fst <$> w_sent (answer (run_ops x)) = Some 500 ∧
  w_body (answer (run_ops x)) = [JSONError panicError (Some "unknown")] ∧
  run_metrics x = [("GET", "/v1/batches/{batch_id}", 200)].
Proof.
  apply (panic_is_recorded_as_success "X-MaaS-Username" "id-1" get_batch (request "GET" "/v1/batches/b1") tt).
  - reflexivity.
  - apply panics_polite.
  - reflexivity.
  - vm_compute. constructor.
Defined.
End ServerRuns.
