(* ===== verification/S3.v ===== *)
(** * The S3 backend of the file store

    [internal/files_store/s3/client.go]: the client over the source's own
    interface to the AWS SDK ([s3API], [uploaderAPI]).  The SDK is a parameter:
    the class [S3API] has its operations over an abstract world, [S3Laws] what
    the client relies on of their documented behaviour, [Bucket] a bucket in
    memory with scripted faults that satisfies it.

    [Files.v] models the filesystem backend; the class [FilesLaws] states what
    both promise to the rest of the program. *)

From Stdlib Require Import ZArith Lia Ascii String.
From stdpp Require Import base gmap strings list sorting.
From S2P Require Import Prelude Store StoreOps Planner Preprocess Files.
Local Open Scope string_scope.
Local Open Scope Z_scope.

(** ** Errors of the SDK the client tells apart *)
Definition NotFound : err := ErrOther "NotFound".
Definition NoSuchKey : err := ErrOther "NoSuchKey".
Definition NoSuchBucket : err := ErrOther "NoSuchBucket".
Definition PreconditionFailed : err := ErrOther "PreconditionFailed".
Definition BucketAlreadyOwnedByYou : err := ErrOther "BucketAlreadyOwnedByYou".
Definition errStreamAborted : err := ErrOther "stream aborted".

(** ** [s3API] and [uploaderAPI], on one bucket

    [PutObject] is the conditional write ([If-None-Match: *]).  The uploader
    reads a body that ends or fails, and may be told to create only.
    [DeleteObjects] answers with the keys it could not delete, [ListObjectsV2]
    with one page of keys and the token of the next. *)
Class S3API (W : Type) := {
  HeadObject : string → M W unit;
  GetObject : string → M W bytes;
  PutObject : string → bytes → M W unit;
  DeleteObject : string → M W unit;
  DeleteObjects : list string → M W (list string);
  ListObjectsV2 : string → option string → M W (list string * option string);
  HeadBucket : M W unit;
  CreateBucket : M W unit;
  Upload : string → result bytes → bool → M W unit }.

(** ** The client *)
Record S3Config := { s3_Region : string; s3_Bucket : string; s3_Prefix : string; s3_AutoCreateBucket : bool }.
Definition s3_Validate (c : S3Config) : result unit :=
  first_failure
    [ (bool_decide (s3_Region c = ""), "s3.region cannot be empty");
      (bool_decide (s3_Bucket c = ""), "s3.bucket cannot be empty") ].

Section Client.
Context {W : Type} `{S3API W} (prefix : string).

Definition buildKey (folderName fileName : string) : string :=
  let key := folderName +:+ "/" +:+ fileName in
  if bool_decide (prefix = "") then key else prefix +:+ "/" +:+ key.

Definition ensureBucket (autoCreate : bool) : M W unit := λ w,
  match HeadBucket w with
  | (w1, Ok _) => (w1, Ok tt)
  | (w1, Err e) =>
      if negb (bool_decide (e ∈ [NotFound; NoSuchBucket])) then (w1, Err e)
      else if negb autoCreate then (w1, Err (ErrOther "bucket does not exist"))
      else match CreateBucket w1 with
           | (w2, Ok _) => (w2, Ok tt)
           | (w2, Err e') => (w2, if bool_decide (e' = BucketAlreadyOwnedByYou) then Ok tt else Err e')
           end
  end.

(** [HeadObject] as the existence check of both writes. *)
Definition check_absent (key : string) : M W unit := λ w,
  match HeadObject key w with
  | (w1, Ok _) => (w1, Err ErrFileExists)
  | (w1, Err e) => if bool_decide (e = NotFound) then (w1, Ok tt) else (w1, Err e)
  end.

(** [others]: what other clients do between the check and the upload.  The
    uploader reads its body through the counting reader, whose limit errors it
    hands back. *)
Definition Store (others : W → W) (fileName folderName : string) (fileSizeLimit lineNumLimit : Z)
    (chunks : list bytes) : M W BatchFileMetadata := λ w,
  let key := buildKey folderName fileName in
  match check_absent key w with
  | (w1, Err e) => (w1, Err e)
  | (w1, Ok _) =>
      let read := copy fileSizeLimit lineNumLimit newCountingReader chunks in
      let body := match read with Ok _ => Ok (mjoin chunks) | Err e => Err e end in
      let reader := match read with Ok r => r | Err _ => newCountingReader end in
      match Upload key body true (others w1) with
      | (w2, Ok _) => (w2, Ok {| md_Size := BytesRead reader; md_LinesNumber := LineCount reader |})
      | (w2, Err e) => (w2, Err (if bool_decide (e = PreconditionFailed) then ErrFileExists else e))
      end
  end.

Definition Retrieve (fileName folderName : string) : M W (bytes * BatchFileMetadata) := λ w,
  match GetObject (buildKey folderName fileName) w with
  | (w1, Ok data) => (w1, Ok (data, {| md_Size := Z.of_nat (length data); md_LinesNumber := 0 |}))
  | (w1, Err e) => (w1, Err (if bool_decide (e ∈ [NoSuchKey; NoSuchBucket]) then ErrFileNotFound else e))
  end.

Definition Delete (fileName folderName : string) : M W unit := λ w,
  match DeleteObject (buildKey folderName fileName) w with
  | (w1, Ok _) => (w1, Ok tt)
  | (w1, Err e) => (w1, Err (if bool_decide (e = NoSuchBucket) then ErrFileNotFound else e))
  end.

(** *** Streaming writes

    The upload goroutine reads a pipe.  It is running until the pipe is closed
    (with the end of the body or with an error) or it fails on its own; its
    outcome is received once. *)
Inductive UploadState := Running | Stopped (r : result unit) | Consumed.
Record s3StreamWriter := { ss_key : string; ss_stagingKey : string; ss_written : bytes; ss_upload : UploadState }.
Definition set_upload (u : UploadState) (sw : s3StreamWriter) : s3StreamWriter :=
  {| ss_key := ss_key sw; ss_stagingKey := ss_stagingKey sw; ss_written := ss_written sw; ss_upload := u |}.

Definition OpenStream (uuid fileName folderName : string) : M W s3StreamWriter := λ w,
  let key := buildKey folderName fileName in
  match check_absent key w with
  | (w1, Err e) => (w1, Err e)
  | (w1, Ok _) => (w1, Ok {| ss_key := key; ss_stagingKey := key +:+ ".staging." +:+ uuid; ss_written := [];
                             ss_upload := Running |})
  end.
Definition Write (p : bytes) (sw : s3StreamWriter) : s3StreamWriter * result unit :=
  match ss_upload sw with
  | Running => ({| ss_key := ss_key sw; ss_stagingKey := ss_stagingKey sw; ss_written := app (ss_written sw) p;
                   ss_upload := Running |}, Ok tt)
  | Stopped (Err e) => (sw, Err e)
  | _ => (sw, Err (ErrOther "io: read/write on closed pipe"))
  end.
(** The upload fails while the body is still being written. *)
Definition upload_fails (e : err) (sw : s3StreamWriter) : s3StreamWriter :=
  match ss_upload sw with Running => set_upload (Stopped (Err e)) sw | _ => sw end.

(** [pw.Close] and [pw.CloseWithError]: the goroutine sees the end of the body
    and finishes the upload under the staging key. *)
Definition close_pipe (body : bytes → result bytes) (sw : s3StreamWriter) : M W s3StreamWriter := λ w,
  match ss_upload sw with
  | Running => let '(w1, r) := Upload (ss_stagingKey sw) (body (ss_written sw)) false w in
               (w1, Ok (set_upload (Stopped r) sw))
  | _ => (w, Ok sw)
  end.
(** [result]: the outcome, once. *)
Definition upload_result (sw : s3StreamWriter) : s3StreamWriter * result unit :=
  match ss_upload sw with
  | Stopped r => (set_upload Consumed sw, r)
  | _ => (sw, Err errStreamAborted)
  end.

Definition publish (others : W → W) (sw : s3StreamWriter) : M W BatchFileMetadata := λ w,
  match GetObject (ss_stagingKey sw) w with
  | (w1, Err e) => (w1, Err e)
  | (w1, Ok buf) =>
      match PutObject (ss_key sw) buf (others w1) with
      | (w2, Ok _) => ((DeleteObject (ss_stagingKey sw) w2).1,
                       Ok {| md_Size := Z.of_nat (length buf); md_LinesNumber := 0 |})
      | (w2, Err e) =>
          if bool_decide (e = PreconditionFailed)
          then ((DeleteObject (ss_stagingKey sw) w2).1, Err ErrFileExists)
          else (w2, Err e)
      end
  end.
Definition Commit (others : W → W) (sw : s3StreamWriter) (w : W) : W * s3StreamWriter * result BatchFileMetadata :=
  match close_pipe Ok sw w with
  | (w1, Err e) => (w1, sw, Err e)
  | (w1, Ok sw1) =>
      match upload_result sw1 with
      | (sw2, Err e) => (w1, sw2, Err e)
      | (sw2, Ok _) => let '(w2, r) := publish others sw2 w1 in (w2, sw2, r)
      end
  end.
Definition Abort (sw : s3StreamWriter) (w : W) : W * s3StreamWriter * result unit :=
  match close_pipe (λ _, Err errStreamAborted) sw w with
  | (w1, Err e) => (w1, sw, Err e)
  | (w1, Ok sw1) =>
      match upload_result sw1 with
      | (sw2, Ok _) => ((DeleteObject (ss_stagingKey sw) w1).1, sw2,
                        Err (ErrOther "stream aborted but staged object was already uploaded"))
      | (sw2, Err _) => (w1, sw2, Ok tt)
      end
  end.

(** *** [DeletePrefix] *)
Definition deleteObjectsBatchLimit : nat := 1000.
(** The keys [start .. end] of one call. *)
Fixpoint batches (fuel n : nat) (l : list string) : list (list string) :=
  match fuel, l with
  | S fuel', _ :: _ => take n l :: batches fuel' n (drop n l)
  | _, _ => []
  end.
Fixpoint delete_batches (groups : list (list string)) (deleted : Z) (w : W) : W * (Z * option err) :=
  match groups with
  | [] => (w, (deleted, None))
  | g :: groups' =>
      match DeleteObjects g w with
      | (w1, Err e) => (w1, (deleted, Some e))
      | (w1, Ok failed) => delete_batches groups' (deleted + Z.of_nat (length g) - Z.of_nat (length failed)) w1
      end
  end.
(** One round per page; [None] when the fuel runs out. *)
Fixpoint delete_pages (fuel : nat) (keyPrefix : string) (token : option string) (deleted : Z) (w : W)
    : option (W * (Z * option err)) :=
  match fuel with
  | O => None
  | S fuel' =>
      match ListObjectsV2 keyPrefix token w with
      | (w1, Err e) => Some (w1, (deleted, Some e))
      | (w1, Ok (keys, next)) =>
          match delete_batches (batches (length keys) deleteObjectsBatchLimit keys) deleted w1 with
          | (w2, (deleted', Some e)) => Some (w2, (deleted', Some e))
          | (w2, (deleted', None)) =>
              match next with
              | None => Some (w2, (deleted', None))
              | Some t => delete_pages fuel' keyPrefix (Some t) deleted' w2
              end
          end
      end
  end.
(** The number of deleted objects comes with the error, if any. *)
Definition DeletePrefix (fuel : nat) (folderName pfx : string) (w : W) : option (W * (Z * option err)) :=
  if bool_decide (folderName = "") then Some (w, (0, Some (ErrOther "folderName must not be empty")))
  else if bool_decide (pfx = "") then Some (w, (0, Some (ErrOther "prefix must not be empty")))
  else delete_pages fuel (buildKey folderName (if has_suffix_slash pfx then pfx else pfx +:+ "/")) None 0 w.
End Client.

(** ** What the client relies on

    S3's documented semantics: strong consistency; a conditional write never
    replaces an object, except that multipart uploads do not enforce the
    condition; the manager discards the parts of an upload whose body fails;
    the SDK may repeat a request whose response was lost, so a conditional
    write can report the object it created itself; its errors are never the
    program's own [ErrFileExists]; a page of a listing holds
    keys after its token and before the next one's.  [S3View]: the objects of
    the bucket, which bodies are uploaded in one part, which keys follow a
    token. *)
Class S3View (W : Type) := {
  objects : W → gmap string bytes;
  single_part : bytes → Prop;
  after : option string → string → Prop }.
Class S3Laws (W : Type) `{S3API W, S3View W} : Prop := {
  after_start k : after None k;
  head_law k w w' r : HeadObject k w = (w', r) →
    objects w' = objects w ∧ (r = Ok tt → is_Some (objects w !! k)) ∧ (r = Err NotFound → objects w !! k = None) ∧
    r ≠ Err ErrFileExists;
  get_law k w w' r : GetObject k w = (w', r) →
    objects w' = objects w ∧ (∀ d, r = Ok d → objects w !! k = Some d) ∧ (r = Err NoSuchKey → objects w !! k = None);
  put_law k d w w' r : PutObject k d w = (w', r) →
    stored_once k d (objects w) (objects w') ∧
    (r = Ok tt → objects w !! k = None ∧ objects w' = <[k := d]> (objects w)) ∧
    (r = Err PreconditionFailed → is_Some (objects w' !! k));
  delete_law k w w' r : DeleteObject k w = (w', r) →
    (objects w' = objects w ∨ objects w' = delete k (objects w)) ∧ (r = Ok tt → objects w' = delete k (objects w));
  delete_many_law ks w w' r : DeleteObjects ks w = (w', r) →
    match r with
    | Ok failed => failed ⊆ ks ∧ NoDup failed ∧
        objects w' = filter (λ kv, kv.1 ∉ ks ∨ kv.1 ∈ failed) (objects w)
    | Err _ => ∃ gone, gone ⊆ ks ∧ objects w' = filter (λ kv, kv.1 ∉ gone) (objects w)
    end;
  list_law p t w w' r : ListObjectsV2 p t w = (w', r) →
    objects w' = objects w ∧
    ∀ ks next, r = Ok (ks, next) →
      NoDup ks ∧ (∀ k, k ∈ ks → has_prefix p k = true ∧ is_Some (objects w !! k) ∧ after t k) ∧
      (∀ k, has_prefix p k = true → is_Some (objects w !! k) → after t k →
            k ∈ ks ∨ ∃ t', next = Some t' ∧ after (Some t') k) ∧
      (∀ t', next = Some t' → ks ≠ [] ∧ (∀ k, after (Some t') k → after t k ∧ k ∉ ks));
  upload_law k body create_only w w' r : Upload k body create_only w = (w', r) →
    match body with
    | Err e => r ≠ Ok tt ∧ (r = Err PreconditionFailed → e = PreconditionFailed) ∧ (r = Err ErrFileExists → e = ErrFileExists) ∧
        objects w' = objects w
    | Ok d => r ≠ Err ErrFileExists ∧
        (objects w' = objects w ∨ objects w' = <[k := d]> (objects w)) ∧
        (create_only = true → single_part d → stored_once k d (objects w) (objects w')) ∧
        (r = Ok tt → objects w' = <[k := d]> (objects w) ∧
                     (create_only = true → single_part d → objects w !! k = None)) ∧
        (r = Err PreconditionFailed → is_Some (objects w' !! k))
    end }.

(** ** What a backend promises

    [api.BatchFilesClient] without streams and prefixes: files are created
    once, with exactly the content given; a failed call changes nothing or
    does all of its work.  [visible]: the files of a state; [E]: what the
    environment decides for a call. *)
Record FilesClient (S E : Type) := {
  fc_path : string → string → string;
  fc_Store : E → string → string → Z → Z → list bytes → M S BatchFileMetadata;
  fc_Retrieve : E → string → string → M S (bytes * BatchFileMetadata);
  fc_Delete : E → string → string → M S unit }.
Arguments fc_path {S E}. Arguments fc_Store {S E}. Arguments fc_Retrieve {S E}. Arguments fc_Delete {S E}.
Class FilesLaws {S E} (c : FilesClient S E) (visible : S → gmap string bytes) : Prop := {
  store_law e f d sl ll chunks s s' r : fc_Store c e f d sl ll chunks s = (s', r) →
    stored_once (fc_path c d f) (mjoin chunks) (visible s) (visible s') ∧
    (∀ md, r = Ok md → visible s !! fc_path c d f = None ∧
       visible s' = <[fc_path c d f := mjoin chunks]> (visible s) ∧
       md_Size md = Z.of_nat (length (mjoin chunks)) ∧ md_LinesNumber md = line_total (mjoin chunks) ∧
       (0 < sl → md_Size md ≤ sl) ∧ (0 < ll → md_LinesNumber md ≤ ll)) ∧
    (r = Err ErrFileExists → is_Some (visible s' !! fc_path c d f));
  retrieve_law e f d s s' r : fc_Retrieve c e f d s = (s', r) →
    visible s' = visible s ∧
    (∀ data md, r = Ok (data, md) → visible s !! fc_path c d f = Some data ∧ md_Size md = Z.of_nat (length data));
  remove_law e f d s s' r : fc_Delete c e f d s = (s', r) →
    (visible s' = visible s ∨ visible s' = delete (fc_path c d f) (visible s)) ∧
    (r = Ok tt → visible s' = delete (fc_path c d f) (visible s)) }.

Lemma copy_bytes sl ll r chunks r' :
  copy sl ll r chunks = Ok r' → BytesRead r' = BytesRead r + Z.of_nat (length (mjoin chunks)).
Proof.
  revert r. assert (∀ r p eof r1, Read sl ll r p eof = Ok r1 → BytesRead r1 = BytesRead r + Z.of_nat (length p)) as HR.
  { unfold Read. intros r p eof r1 Hr. repeat case_match; simplify_eq; done. }
  induction chunks as [|p chunks IH]; intros r Hc; cbn [copy mjoin] in *; [by apply HR in Hc|].
  destruct (Read sl ll r p false) as [r1|] eqn:Hr; [|done]. apply IH in Hc. apply HR in Hr.
  cbn. rewrite length_app. unfold mjoin in *. lia.
Qed.
(** A body that was read to its end satisfies the limits, and was counted. *)
Lemma copy_ok sl ll chunks r :
  copy sl ll newCountingReader chunks = Ok r →
  let content := mjoin chunks in
  BytesRead r = Z.of_nat (length content) ∧ LineCount r = line_total content ∧
  (0 < sl → BytesRead r ≤ sl) ∧ (0 < ll → LineCount r ≤ ll).
Proof.
  intros Hc content. change newCountingReader with (Files.after []) in Hc.
  pose proof (copy_sound sl ll [] chunks r ltac:(cbn; lia) Hc) as [Hs Hl].
  destruct (copy_spec sl ll [] chunks ltac:(cbn; lia) ltac:(cbn; lia) (conj Hs Hl)) as (r' & Hc' & Hr).
  rewrite Hc in Hc'. injection Hc' as <-. pose proof (copy_bytes _ _ _ _ _ Hc) as Hb. cbn in Hb, Hr, Hs, Hl.
  fold content in Hb, Hr, Hs, Hl. rewrite Hb, Hr. done.
Qed.

(** ** The S3 client keeps the promise *)
Section S3Refines.
Context {W : Type} `{API : S3API W} `{VW : S3View W} `{LW : !S3Laws W} (prefix : string).

Lemma check_absent_law key w w' r : check_absent key w = (w', r) →
  objects w' = objects w ∧ (r = Ok tt → objects w !! key = None) ∧ (r = Err ErrFileExists → is_Some (objects w !! key)).
Proof.
  unfold check_absent. destruct (HeadObject key w) as [w1 [[]|e]] eqn:Hh; pose proof (head_law _ _ _ _ Hh) as (Ho & Hin & Hout & Hno).
  - intros [= <- <-]. split_and!; [done|done|]. intros _. by apply Hin.
  - case_bool_decide as He; intros [= <- <-]; split_and!; try done.
    + intros _. apply Hout. by rewrite He.
Qed.

Definition s3_files : FilesClient W unit :=
  {| fc_path := buildKey prefix; fc_Store := λ _, Store prefix id; fc_Retrieve := λ _, Retrieve prefix;
     fc_Delete := λ _, Delete prefix |}.

End S3Refines.

(** ** The filesystem client keeps it too *)
Definition fs_files : FilesClient FileStore net :=
  {| fc_path := join; fc_Store := FStore; fc_Retrieve := FRetrieve; fc_Delete := FDelete |}.

Lemma resolvePath_join d f p : resolvePath d f = Ok p → p = join d f.
Proof. unfold resolvePath. repeat case_bool_decide; naive_solver. Qed.

(** For any outcome of its operations. *)
Lemma fs_is_a_file_store : FilesLaws fs_files (λ s, s).
Proof.
  split; cbn.
  - intros n f d sl ll chunks s s' r Hst. destruct (resolvePath d f) as [p|e] eqn:Hp.
    2:{ unfold FStore in Hst. rewrite Hp in Hst. injection Hst as <- <-. split_and!; [by left|done|].
        unfold resolvePath in Hp. intros [= ->]. repeat case_bool_decide; discriminate Hp. }
    rewrite <- (resolvePath_join _ _ _ Hp). pose proof (FStore_once n f d sl ll chunks s p Hp) as (H1 & H2 & H3).
    rewrite Hst in H1, H2, H3. cbn in H1, H2, H3. split_and!; [done| |].
    + intros md ->. destruct (H2 md eq_refl) as [Hn Hs']. split_and!; try done;
        (unfold FStore in Hst; rewrite Hp, Hn in Hst; destruct (copy _ _ _ _) as [rd|] eqn:Hc; [|done];
         apply copy_ok in Hc as (Hb & Hl & Hsz & Hln); unfold fs_step in Hst; destruct n as [|[]]; simplify_eq; cbn; lia || done).
    + intros ->. destruct H1 as [->|[_ ->]]; [by apply H3|rewrite lookup_insert_eq; eauto].
  - intros n f d s s' r. unfold FRetrieve. destruct (resolvePath d f) as [p|e] eqn:Hp; [|by intros [= <- <-]].
    rewrite <- (resolvePath_join _ _ _ Hp).
    destruct n as [|b]; [destruct (s !! p) eqn:Hs|]; intros [= <- <-]; split; try done. by intros data md [= <- <-].
  - intros n f d s s' r. unfold FDelete. destruct (resolvePath d f) as [p|e] eqn:Hp; [|intros [= <- <-]; naive_solver].
    rewrite <- (resolvePath_join _ _ _ Hp). destruct (s !! p) eqn:Hs; [|intros [= <- <-]; naive_solver].
    unfold fs_step. destruct n as [|[]]; intros [= <- <-]; naive_solver.
Qed.

(** ** The retrying wrapper over any backend

    [retryclient.Client]: the outcome of every attempt, whether the reader can
    seek at all and whether rewinding it before an attempt fails, and whether
    the context ends first. *)
Record RetryEnv (E : Type) := { re_call : nat → E; re_seekable : bool; re_seek_fails : nat → bool; re_cancelled : nat → bool }.
Arguments re_call {E}. Arguments re_seekable {E}. Arguments re_seek_fails {E}. Arguments re_cancelled {E}.
Definition retried {S A} (maxRetries : nat) (fn : nat → S → S * (result A * bool)) (cancelled : nat → bool) : M S A := λ s,
  let '(s', (_, r)) := Do maxRetries fn cancelled s in (s', r).

Section RetryClient.
Context {S E : Type} (inner : FilesClient S E) (maxRetries : nat).

Definition retry_Store (env : RetryEnv E) (fileName folderName : string) (sizeLimit lineLimit : Z)
    (chunks : list bytes) : M S BatchFileMetadata :=
  if negb (re_seekable env) then fc_Store inner (re_call env 1) fileName folderName sizeLimit lineLimit chunks
  else retried maxRetries (λ attempt s,
    if (1 <? attempt)%nat && re_seek_fails env attempt then (s, (Err (ErrOther "seek failed"), true))
    else let '(s', r) := fc_Store inner (re_call env attempt) fileName folderName sizeLimit lineLimit chunks s in
         (s', (r, false))) (re_cancelled env).
Definition retry_Retrieve (env : RetryEnv E) (fileName folderName : string) : M S (bytes * BatchFileMetadata) :=
  retried maxRetries (λ attempt s,
    let '(s', r) := fc_Retrieve inner (re_call env attempt) fileName folderName s in (s', (r, false))) (re_cancelled env).
Definition retry_Delete (env : RetryEnv E) (fileName folderName : string) : M S unit :=
  retried maxRetries (λ attempt s,
    let '(s', r) := fc_Delete inner (re_call env attempt) fileName folderName s in (s', (r, false))) (re_cancelled env).
Definition retry_files : FilesClient S (RetryEnv E) :=
  {| fc_path := fc_path inner; fc_Store := retry_Store; fc_Retrieve := retry_Retrieve; fc_Delete := retry_Delete |}.

(** A relation between states that attempts keep is kept by the loop, and the
    result is that of an attempt started in a related state, or the context
    ended. *)
Lemma retried_law {A} (fn : nat → S → S * (result A * bool)) cancelled (R : S → S → Prop) s s' r :
  (∀ s, R s s) → (∀ s1 s2 s3, R s1 s2 → R s2 s3 → R s1 s3) → (∀ n s, R s (fn n s).1) →
  retried maxRetries fn cancelled s = (s', r) →
  R s s' ∧ (r = Err (ErrOther "context canceled") ∨ ∃ n s1 b, R s s1 ∧ fn n s1 = (s', (r, b))).
Proof.
  intros H1 H2 H3. unfold retried. pose proof (Do_spec fn cancelled R H1 H2 H3 maxRetries s) as H.
  destruct (Do maxRetries fn cancelled s) as [s1 [k r1]]. intros [= <- <-]. destruct H as (HR & _ & [Ho|Ho]); auto.
Qed.

Context (visible : S → gmap string bytes) (L : FilesLaws inner visible).

Lemma retry_Store_law env f d sl ll chunks s s' r :
  let p := fc_path inner d f in
  retry_Store env f d sl ll chunks s = (s', r) →
  stored_once p (mjoin chunks) (visible s) (visible s') ∧
  (∀ md, r = Ok md → visible s !! p = None ∧ visible s' = <[p := mjoin chunks]> (visible s) ∧
     md_Size md = Z.of_nat (length (mjoin chunks)) ∧ md_LinesNumber md = line_total (mjoin chunks) ∧
     (0 < sl → md_Size md ≤ sl) ∧ (0 < ll → md_LinesNumber md ≤ ll)) ∧
  (r = Err ErrFileExists → is_Some (visible s' !! p)).
Proof.
  intros p. unfold retry_Store. destruct (negb _); [apply (@store_law _ _ _ _ L)|].
  set (fn := λ attempt s, if _ && _ then _ else _). intros Hr.
  assert (Hfn : ∀ n s s' r b, fn n s = (s', (r, b)) →
    (s' = s ∧ r = Err (ErrOther "seek failed")) ∨ fc_Store inner (re_call env n) f d sl ll chunks s = (s', r)).
  { intros n s0 s1 r1 b. unfold fn. destruct (_ && _); [intros [= <- <- <-]; by left|].
    destruct (fc_Store _ _ _ _ _ _ _ _). intros [= <- <- <-]. by right. }
  apply (retried_law fn _ (λ s s', stored_once p (mjoin chunks) (visible s) (visible s'))) in Hr as [HR Hout].
  - split; [done|]. destruct Hout as [->|(n & s1 & b & HR1 & Hf)]; [done|].
    destruct (Hfn _ _ _ _ _ Hf) as [[_ ->]|Hst]; [done|]. apply (@store_law _ _ _ _ L) in Hst as (_ & H2 & H3).
    split; [|done]. intros md ->. destruct (H2 md eq_refl) as (Hn & Hs' & Hmd). fold p in Hn, Hs'.
    destruct HR1 as [E1 | [_ E1]]; rewrite E1 in *; [done|]. by rewrite lookup_insert_eq in Hn.
  - by left.
  - intros ???. apply stored_once_trans.
  - intros n s0. destruct (fn n s0) as [s1 [r1 b]] eqn:Hf.
    destruct (Hfn _ _ _ _ _ Hf) as [[-> _]|Hst]; [by left|]. apply (@store_law _ _ _ _ L) in Hst as (H1 & _). done.
Qed.

Lemma retry_Retrieve_law env f d s s' r : retry_Retrieve env f d s = (s', r) →
  visible s' = visible s ∧
  (∀ data md, r = Ok (data, md) → visible s !! fc_path inner d f = Some data ∧ md_Size md = Z.of_nat (length data)).
Proof.
  unfold retry_Retrieve. set (fn := λ attempt s, let '(s', r) := fc_Retrieve _ _ _ _ _ in _). intros Hr.
  assert (Hfn : ∀ n s s' r b, fn n s = (s', (r, b)) → fc_Retrieve inner (re_call env n) f d s = (s', r)).
  { intros n s0 s1 r1 b. unfold fn. destruct (fc_Retrieve _ _ _ _ _). by intros [= <- <- <-]. }
  apply (retried_law fn _ (λ s s', visible s' = visible s)) in Hr as [HR Hout].
  - split; [done|]. destruct Hout as [->|(n & s1 & b & HR1 & Hf)]; [done|].
    apply Hfn, (@retrieve_law _ _ _ _ L) in Hf as [_ H2]. intros data md ->. rewrite <- HR1. by apply H2.
  - done.
  - congruence.
  - intros n s0. destruct (fn n s0) as [s1 [r1 b]] eqn:Hf. apply Hfn, (@retrieve_law _ _ _ _ L) in Hf as [H1 _]. done.
Qed.

Lemma retry_Delete_law env f d s s' r : let p := fc_path inner d f in retry_Delete env f d s = (s', r) →
  (visible s' = visible s ∨ visible s' = delete p (visible s)) ∧ (r = Ok tt → visible s' = delete p (visible s)).
Proof.
  intros p. unfold retry_Delete. set (fn := λ attempt s, let '(s', r) := fc_Delete _ _ _ _ _ in _). intros Hr.
  assert (Hfn : ∀ n s s' r b, fn n s = (s', (r, b)) → fc_Delete inner (re_call env n) f d s = (s', r)).
  { intros n s0 s1 r1 b. unfold fn. destruct (fc_Delete _ _ _ _ _). by intros [= <- <- <-]. }
  apply (retried_law fn _ (λ s s', visible s' = visible s ∨ visible s' = delete p (visible s))) in Hr as [HR Hout].
  - split; [done|]. destruct Hout as [->|(n & s1 & b & HR1 & Hf)]; [done|].
    apply Hfn, (@remove_law _ _ _ _ L) in Hf as [_ H2]. intros ->. rewrite H2 by done. fold p.
    destruct HR1 as [-> | ->]; [done|apply delete_delete_eq].
  - by left.
  - intros ??? [-> | ->] [-> | ->]; auto. rewrite delete_delete_eq. auto.
  - intros n s0. destruct (fn n s0) as [s1 [r1 b]] eqn:Hf. apply Hfn, (@remove_law _ _ _ _ L) in Hf as [H1 _]. done.
Qed.

End RetryClient.

(** ** Streams *)
Section Streams.
Context {W : Type} `{API : S3API W} `{VW : S3View W} `{LW : !S3Laws W}.

(** A streamed file appears at once, whole and only if the name is free,
    whatever other clients do before it is published: with [m] the bucket when
    the conditional write runs, every key but the staging one keeps its value,
    except that the destination, if it was free, may hold exactly the bytes
    written; success means that it does.  A stream that is aborted instead
    leaves the bucket as it was. *)
Theorem stream_publishes_once (others : W → W) sw w :
  ss_upload sw = Running → ss_key sw ≠ ss_stagingKey sw →
  (let '(w', _, r) := Commit others sw w in
   ∃ m, (m = objects w ∨ ∃ w1, m = objects (others w1) ∧ objects w1 = <[ss_stagingKey sw := ss_written sw]> (objects w)) ∧
     (∀ k, k ≠ ss_stagingKey sw → k ≠ ss_key sw → objects w' !! k = m !! k) ∧
     (objects w' !! ss_key sw = m !! ss_key sw ∨ m !! ss_key sw = None ∧ objects w' !! ss_key sw = Some (ss_written sw)) ∧
     (∀ md, r = Ok md → m !! ss_key sw = None ∧ objects w' !! ss_key sw = Some (ss_written sw) ∧
                        md_Size md = Z.of_nat (length (ss_written sw)))) ∧
  (let '(w', _, r) := Abort sw w in objects w' = objects w ∧ r = Ok tt).
Proof.
  intros Hrun Hne. split.
  2:{ unfold Abort, close_pipe. rewrite Hrun. destruct (Upload _ _ _ _) as [w1 r] eqn:Hu.
      apply upload_law in Hu as (Hnok & _ & _ & Ho). cbn. by destruct r as [[]|e]. }
  unfold Commit, close_pipe. rewrite Hrun. destruct (Upload _ _ _ _) as [w1 r] eqn:Hu.
  apply upload_law in Hu as (_ & Ho & _ & Hok & _). cbn.
  destruct r as [[]|e]; cbn.
  2:{ exists (objects w). split; [by left|]. split_and!; [|left|done].
      - intros k Hk _. destruct Ho as [-> | ->]; [done|]. by rewrite lookup_insert_ne.
      - destruct Ho as [-> | ->]; [done|]. by rewrite lookup_insert_ne. }
  destruct (Hok eq_refl) as [Hw1 _]. unfold publish. cbn [ss_stagingKey set_upload ss_key].
  destruct (GetObject _ w1) as [w2 [buf|e]] eqn:Hg; apply get_law in Hg as (Ho2 & Hbuf & _).
  2:{ exists (objects w). split; [by left|]. rewrite Ho2, Hw1. split_and!; [|left|done].
      - intros k Hk _. by rewrite lookup_insert_ne.
      - by rewrite lookup_insert_ne. }
  specialize (Hbuf buf eq_refl). rewrite Hw1, lookup_insert_eq in Hbuf. assert (buf = ss_written sw) as -> by congruence. clear Hbuf.
  destruct (PutObject _ _ _) as [w3 rp] eqn:Hp. apply put_law in Hp as (Hst & Hpok & _).
  assert (Hdel : ∀ k, k ≠ ss_stagingKey sw → objects (DeleteObject (ss_stagingKey sw) w3).1 !! k = objects w3 !! k).
  { intros k Hk. destruct (DeleteObject _ w3) as [w4 rd] eqn:Hd. apply delete_law in Hd as [[Ed | Ed] _]; cbn; rewrite Ed; [done|].
    by rewrite lookup_delete_ne. }
  assert (Hw3 : (∀ k, k ≠ ss_key sw → objects w3 !! k = objects (others w2) !! k) ∧
    (objects w3 !! ss_key sw = objects (others w2) !! ss_key sw ∨
     objects (others w2) !! ss_key sw = None ∧ objects w3 !! ss_key sw = Some (ss_written sw))).
  { destruct Hst as [-> | [Hn ->]]; [auto|]. split; [intros k Hk; by rewrite lookup_insert_ne|].
    right. by rewrite lookup_insert_eq. }
  destruct Hw3 as [Hoth Hkey].
  destruct rp as [[]|e]; [|destruct (bool_decide _)]; cbn; exists (objects (others w2)); rewrite ?(Hdel _ Hne);
    (split; [right; exists w2; split; [done|by rewrite Ho2]|]); split_and!; try done;
    try (intros k Hk Hk'; rewrite ?Hdel by done; by apply Hoth).
  intros md [= <-]. destruct (Hpok eq_refl) as [Hn ->]. by rewrite lookup_insert_eq.
Qed.

(** A commit that fails leaves its staged object behind for good: the
    outcome of the upload has been consumed, so the abort that the caller runs
    next takes its error branch, deletes nothing and reports success. *)
Theorem failed_commit_leaks (others : W → W) sw w w1 sw1 e :
  ss_upload sw = Running → Commit others sw w = (w1, sw1, Err e) → Abort sw1 w1 = (w1, sw1, Ok tt).
Proof.
  intros Hrun. unfold Commit, close_pipe. rewrite Hrun. destruct (Upload _ _ _ _) as [wu r]. cbn.
  assert (∀ w, Abort (set_upload Consumed (set_upload (Stopped r) sw)) w = (w, set_upload Consumed (set_upload (Stopped r) sw), Ok tt)) as Hab
    by done.
  destruct r as [[]|e']; cbn in *; [|intros [= <- <- <-]; apply Hab].
  destruct (publish _ _ _) as [w2 rp]. intros [= <- <- ->]. apply Hab.
Qed.
End Streams.

(** ** [DeletePrefix] *)
Section Prefixes.
Context {W : Type} `{API : S3API W} `{VW : S3View W} `{LW : !S3Laws W}.

Lemma batches_join n l : (0 < n)%nat → ∀ fuel, (length l ≤ fuel)%nat → mjoin (batches fuel n l) = l.
Proof.
  intros Hn fuel. revert l. induction fuel as [|fuel IH]; intros [|x l] Hl; try done; [cbn in Hl; lia|].
  cbn [batches]. change (mjoin (?a :: ?b)) with (a ++ mjoin b)%list.
  rewrite IH; [apply take_drop|]. rewrite length_drop. cbn in *. lia.
Qed.

(** How many objects a filter that spares all but [ks] removes. *)
Lemma filter_keys_size (m : gmap string bytes) (ks failed : list string) :
  NoDup ks → NoDup failed → failed ⊆ ks → (∀ k, k ∈ ks → is_Some (m !! k)) →
  Z.of_nat (size m) - Z.of_nat (size (filter (λ kv, kv.1 ∉ ks ∨ kv.1 ∈ failed) m)) =
  Z.of_nat (length ks) - Z.of_nat (length failed).
Proof.
  intros Hks Hf Hsub Hin.
  set (gone := list_to_set ks ∖ list_to_set failed : gset string).
  assert (dom (filter (λ kv, kv.1 ∉ ks ∨ kv.1 ∈ failed) m) = dom m ∖ gone) as Hdom.
  { apply set_eq. intros k. rewrite elem_of_difference. unfold gone. rewrite elem_of_difference, !elem_of_list_to_set, elem_of_dom.
    split.
    - intros [x Hx]. apply map_lookup_filter_Some in Hx as [Hx Hp]. cbn in Hp. split; [by eapply elem_of_dom_2|naive_solver].
    - intros [[x Hx]%elem_of_dom Hp]. exists x. apply map_lookup_filter_Some. split; [done|]. cbn.
      destruct (decide (k ∈ ks)), (decide (k ∈ failed)); naive_solver. }
  assert (size gone = length ks - length failed)%nat as Hg.
  { unfold gone. rewrite size_difference by set_solver. rewrite !size_list_to_set by done. done. }
  assert (gone ⊆ dom m) as Hgm.
  { intros k [Hk _]%elem_of_difference. apply elem_of_dom, Hin. by rewrite elem_of_list_to_set in Hk. }
  rewrite <- !size_dom, Hdom, size_difference by done. pose proof (subseteq_size _ _ Hgm).
  assert (length failed ≤ length ks)%nat by (apply NoDup_submseteq in Hsub; [by apply submseteq_length|done]).
  rewrite Hg in *. lia.
Qed.

Lemma delete_batches_law p groups n w w' n' oe :
  delete_batches groups n w = (w', (n', oe)) → NoDup (mjoin groups) →
  (∀ k, k ∈ mjoin groups → has_prefix p k = true ∧ is_Some (objects w !! k)) →
  objects w' ⊆ objects w ∧ (∀ k, has_prefix p k = false → objects w' !! k = objects w !! k) ∧
  (oe = None → n' - n = Z.of_nat (size (objects w)) - Z.of_nat (size (objects w')) ∧
     ((∀ ks w w' failed, DeleteObjects ks w = (w', Ok failed) → failed = []) → ∀ k, k ∈ mjoin groups → objects w' !! k = None)).
Proof.
  revert n w. induction groups as [|g groups IH]; intros n w Hd Hnd Hin; cbn in Hd.
  { simplify_eq. split_and!; [done|done|]. intros _. split; [lia|set_solver]. }
  change (mjoin (g :: groups)) with (g ++ mjoin groups)%list in *. apply NoDup_app in Hnd as (Hg & Hdis & Hrest).
  destruct (DeleteObjects g w) as [w1 [failed|e]] eqn:Hdel; pose proof (delete_many_law _ _ _ _ Hdel) as Hlaw; cbn in Hlaw.
  - destruct Hlaw as (Hfs & Hfn & Hw1).
    assert (Hsz := filter_keys_size (objects w) g failed Hg Hfn Hfs ltac:(intros k Hk; apply Hin; set_solver)).
    rewrite <- Hw1 in Hsz.
    apply IH in Hd as (H1 & H2 & H3); [|done|].
    + split_and!; [rewrite Hw1 in H1; etrans; [done|apply map_filter_subseteq]| |].
      * intros k Hk. rewrite H2 by done. rewrite Hw1. destruct (objects w !! k) eqn:E.
        -- apply map_lookup_filter_Some. split; [done|]. left. intros Hkg. destruct (Hin k ltac:(set_solver)). cbn in *. congruence.
        -- apply map_lookup_filter_None. by left.
      * intros Hn. destruct (H3 Hn) as [Hc Hall]. split; [lia|]. intros Hnofail k Hk.
        specialize (Hnofail _ _ _ _ Hdel) as Hnil. subst failed. apply elem_of_app in Hk as [Hk|Hk]; [|by apply Hall].
        apply eq_None_not_Some. intros [x Hx]. eapply lookup_weaken in Hx; [|exact H1]. rewrite Hw1 in Hx.
        apply map_lookup_filter_Some in Hx as [_ Hx]. cbn in Hx. set_solver.
    + intros k Hk. destruct (Hin k) as [? [x Hx]]; [set_solver|]. split; [done|]. exists x. rewrite Hw1.
      apply map_lookup_filter_Some. split; [done|]. left. cbn. intros Hkg. by eapply Hdis.
  - destruct Hlaw as (gone & Hgs & Hw1). simplify_eq. split_and!; [rewrite Hw1; apply map_filter_subseteq| |done].
    intros k Hk. rewrite Hw1. destruct (objects w !! k) eqn:E.
    + apply map_lookup_filter_Some. split; [done|]. cbn. intros Hkg. destruct (Hin k ltac:(set_solver)). congruence.
    + apply map_lookup_filter_None. by left.
Qed.

(** One page: the groups of a listing satisfy [delete_batches_law]. *)
Lemma page_groups (p : string) t w w1 keys next :
  ListObjectsV2 p t w = (w1, Ok (keys, next)) →
  mjoin (batches (length keys) deleteObjectsBatchLimit keys) = keys ∧ objects w1 = objects w ∧ NoDup keys ∧
  (∀ k, k ∈ keys → has_prefix p k = true ∧ is_Some (objects w1 !! k)).
Proof.
  intros Hl. pose proof (list_law _ _ _ _ _ Hl) as [Ho Hpage]. destruct (Hpage _ _ eq_refl) as (Hnd & Hks & _).
  split_and!; [|done..|]; [apply batches_join; unfold deleteObjectsBatchLimit; lia|]. intros k Hk. rewrite Ho. by destruct (Hks k Hk) as (? & ? & _).
Qed.

Lemma delete_pages_law fuel p t n w w' n' oe :
  delete_pages fuel p t n w = Some (w', (n', oe)) →
  objects w' ⊆ objects w ∧ (∀ k, has_prefix p k = false → objects w' !! k = objects w !! k) ∧
  (oe = None → n' - n = Z.of_nat (size (objects w)) - Z.of_nat (size (objects w')) ∧
     ((∀ ks w w' failed, DeleteObjects ks w = (w', Ok failed) → failed = []) →
      ∀ k, has_prefix p k = true → after t k → objects w' !! k = None)).
Proof.
  revert t n w. induction fuel as [|fuel IH]; intros t n w Hd; [done|]. cbn in Hd.
  destruct (ListObjectsV2 p t w) as [w1 [[keys next]|e]] eqn:Hl.
  2:{ apply list_law in Hl as [Ho _]. simplify_eq. rewrite Ho. done. }
  destruct (page_groups _ _ _ _ _ _ Hl) as (Hj & Ho & Hnd & Hin).
  destruct (delete_batches _ n w1) as [w2 [n2 oe2]] eqn:Hdel.
  apply (delete_batches_law p) in Hdel as (H1 & H2 & H3); rewrite ?Hj; [|done..]. rewrite Hj in H3. rewrite Ho in H1, H2, H3.
  destruct oe2 as [e|]; [simplify_eq; done|]. destruct (H3 eq_refl) as [Hc Hgone].
  pose proof (list_law _ _ _ _ _ Hl) as [_ Hpage]. destruct (Hpage _ _ eq_refl) as (_ & _ & Hall & _).
  assert (Hpast : ∀ k, has_prefix p k = true → after t k → k ∈ keys ∨ objects w !! k = None ∨ ∃ t', next = Some t' ∧ after (Some t') k).
  { intros k Hk Ha. destruct (objects w !! k) eqn:E; [|auto]. destruct (Hall k) as [|]; eauto. }
  assert (Hsub : ∀ (wa wb : W) k, objects wa ⊆ objects wb → objects wb !! k = None → objects wa !! k = None)
    by (intros wa wb k Hab Hb; eapply lookup_weaken_None; eauto).
  destruct next as [t'|].
  - apply IH in Hd as (H1' & H2' & H3'). split_and!; [by etrans|intros k Hk; rewrite H2' by done; by apply H2|].
    intros Hn. destruct (H3' Hn) as [Hc' Hgone']. split; [lia|]. intros Hnf k Hk Ha.
    destruct (Hpast k Hk Ha) as [Hin'|[Hno|(t'' & [= <-] & Ha')]]; [eapply Hsub; eauto|eapply Hsub; [by etrans|done]|eauto].
  - simplify_eq. split_and!; [done|done|]. intros _. split; [done|]. intros Hnf k Hk Ha.
    destruct (Hpast k Hk Ha) as [Hin'|[Hno|(t'' & ? & _)]]; [eauto|eauto|done].
Qed.

Lemma delete_pages_total fuel p t n w (todo : gset string) :
  (∀ k, has_prefix p k = true → is_Some (objects w !! k) → after t k → k ∈ todo) → (size todo < fuel)%nat →
  is_Some (delete_pages fuel p t n w).
Proof.
  revert t n w todo. induction fuel as [|fuel IH]; intros t n w todo Htodo Hf; [lia|]. cbn.
  destruct (ListObjectsV2 p t w) as [w1 [[keys next]|e]] eqn:Hl; [|eauto].
  destruct (page_groups _ _ _ _ _ _ Hl) as (Hj & Ho & Hnd & Hin).
  destruct (delete_batches _ n w1) as [w2 [n2 [e|]]] eqn:Hdel; [eauto|]. destruct next as [t'|]; [|eauto].
  apply (delete_batches_law p) in Hdel as (H1 & _ & _); rewrite ?Hj; [|done..].
  pose proof (list_law _ _ _ _ _ Hl) as [_ Hpage]. destruct (Hpage _ _ eq_refl) as (_ & Hks & _ & Hnext).
  destruct (Hnext t' eq_refl) as [Hne Hmove].
  apply (IH _ _ _ (todo ∖ list_to_set keys)).
  - intros k Hk [x Hx] Ha. destruct (Hmove k Ha) as [Ha' Hnk]. apply elem_of_difference. rewrite elem_of_list_to_set.
    split; [|done]. apply Htodo; [done| |done]. rewrite Ho in H1. eapply lookup_weaken in Hx; [|done]. eauto.
  - destruct keys as [|k0 keys]; [done|]. assert (k0 ∈ todo).
    { destruct (Hks k0) as (? & ? & ?); [set_solver|]. by apply Htodo. }
    assert (size (todo ∖ list_to_set (k0 :: keys)) < size todo)%nat; [|lia]. apply subset_size. set_solver.
Qed.

End Prefixes.
