(* ===== verification/Buckets.v ===== *)
(** * A bucket in memory

    An instance of the SDK interface of [S3.v]: objects by key, one scripted
    outcome per call (in order; every further call succeeds), listings in
    pages of a given size.  It satisfies [S3Laws], and the runs below
    instantiate the theorems about the S3 client, the retrying wrapper and the
    configuration. *)

From Stdlib Require Import ZArith Lia Ascii String.
From stdpp Require Import base gmap strings list sorting.
From S2P Require Import Prelude Openai Store StoreOps Planner Preprocess Files Semaphore Throttle Rest Config S3.
Local Open Scope string_scope.
Local Open Scope Z_scope.

Record Bucket := { bk_objects : gmap string bytes; bk_script : list net }.
Definition set_objects (m : gmap string bytes) (b : Bucket) : Bucket := {| bk_objects := m; bk_script := bk_script b |}.
(** The outcome of the next call. *)
Definition next_call (b : Bucket) : net * Bucket :=
  match bk_script b with
  | [] => (NetOk, b)
  | n :: ns => (n, {| bk_objects := bk_objects b; bk_script := ns |})
  end.
(** A read: its response arrives or not. *)
Definition reading {A} (f : gmap string bytes → result A) : M Bucket A := λ b,
  let '(n, b1) := next_call b in
  (b1, match n with NetOk => f (bk_objects b) | NetErr _ => Err ErrIO end).
(** A write: a lost response may hide its effect. *)
Definition writing {A} (f : gmap string bytes → gmap string bytes * result A) : M Bucket A := λ b,
  let '(n, b1) := next_call b in
  let '(m, r) := f (bk_objects b) in
  match n with
  | NetOk => (set_objects m b1, r)
  | NetErr true => (set_objects m b1, Err ErrIO)
  | NetErr false => (b1, Err ErrIO)
  end.
Definition create (k : string) (d : bytes) (m : gmap string bytes) : gmap string bytes * result unit :=
  match m !! k with Some _ => (m, Err PreconditionFailed) | None => (<[k := d]> m, Ok tt) end.
Definition partSize : Z := 5 * 1024 * 1024.
Definition follows (t : option string) (k : string) : Prop :=
  match t with None => True | Some t => String.le t k ∧ t ≠ k end.
#[export] Instance follows_dec t k : Decision (follows t k).
Proof. unfold follows. destruct t; apply _. Defined.
Definition keys_after (p : string) (t : option string) (m : gmap string bytes) : list string :=
  merge_sort String.le (filter (λ k, has_prefix p k = true ∧ follows t k)
    (map_to_list m).*1).
Definition page (n : nat) (l : list string) : list string * option string :=
  (take n l, if (length l <=? n)%nat then None else last (take n l)).

Section Instance.
Context (pageSize : nat) (pageSize_pos : (0 < pageSize)%nat).
Definition bucket_api : S3API Bucket := {|
  HeadObject k := reading (λ m, match m !! k with Some _ => Ok tt | None => Err NotFound end);
  GetObject k := reading (λ m, match m !! k with Some d => Ok d | None => Err NoSuchKey end);
  PutObject k d := writing (create k d);
  DeleteObject k := writing (λ m, (delete k m, Ok tt));
  DeleteObjects ks := writing (λ m, (filter (λ kv, kv.1 ∉ ks) m, Ok []));
  ListObjectsV2 p t := reading (λ m, Ok (page pageSize (keys_after p t m)));
  HeadBucket := reading (λ _, Ok tt);
  CreateBucket := reading (λ _, Err BucketAlreadyOwnedByYou);
  Upload k body create_only :=
    match body with
    | Err e => reading (λ _, Err e)
    | Ok d => writing (λ m, if (create_only : bool) && (Z.of_nat (length d) <? partSize) then create k d m else (<[k := d]> m, Ok tt))
    end |}.
Definition bucket_view : S3View Bucket := {|
  objects := bk_objects;
  single_part d := Z.of_nat (length d) < partSize;
  after := follows |}.

Lemma next_call_objects b n b1 : next_call b = (n, b1) → bk_objects b1 = bk_objects b.
Proof. unfold next_call. destruct (bk_script b); by intros [= <- <-]. Qed.
Lemma reading_law {A} (f : gmap string bytes → result A) b b' r : reading f b = (b', r) →
  bk_objects b' = bk_objects b ∧ (r = f (bk_objects b) ∨ r = Err ErrIO).
Proof.
  unfold reading. destruct (next_call b) as [n b1] eqn:En. apply next_call_objects in En.
  intros [= <- <-]. split; [done|]. destruct n; auto.
Qed.
Lemma writing_law {A} (f : gmap string bytes → gmap string bytes * result A) b b' r : writing f b = (b', r) →
  (bk_objects b' = (f (bk_objects b)).1 ∧ r = (f (bk_objects b)).2) ∨
  (r = Err ErrIO ∧ (bk_objects b' = bk_objects b ∨ bk_objects b' = (f (bk_objects b)).1)).
Proof.
  unfold writing. destruct (next_call b) as [n b1] eqn:En. apply next_call_objects in En.
  destruct (f (bk_objects b)) as [m r0]. destruct n as [|[]]; intros [= <- <-]; cbn; auto.
Qed.
Lemma create_law k d m : (create k d m).1 = m ∧ (create k d m).2 = Err PreconditionFailed ∧ is_Some (m !! k) ∨
  m !! k = None ∧ create k d m = (<[k := d]> m, Ok tt).
Proof. unfold create. destruct (m !! k) eqn:E; naive_solver. Qed.

Lemma elem_of_keys_after p t m k : k ∈ keys_after p t m ↔
  has_prefix p k = true ∧ is_Some (m !! k) ∧ follows t k.
Proof.
  unfold keys_after. rewrite merge_sort_Permutation, list_elem_of_filter, list_elem_of_fmap.
  split.
  - intros [[? ?] ([k' x] & -> & Hx%elem_of_map_to_list)]. cbn in *. naive_solver.
  - intros (? & [x Hx] & ?). split; [done|]. exists (k, x). by rewrite elem_of_map_to_list.
Qed.
Lemma NoDup_keys_after p t m : NoDup (keys_after p t m).
Proof. unfold keys_after. rewrite merge_sort_Permutation. apply NoDup_filter, NoDup_fst_map_to_list. Qed.

Lemma sorted_last (l : list string) x y : StronglySorted String.le l → last l = Some y → x ∈ l → String.le x y.
Proof.
  intros Hs Hl Hx. apply last_Some in Hl as [l' ->]. apply elem_of_app in Hx as [Hx | ->%list_elem_of_singleton]; [|reflexivity].
  induction l' as [|z l' IH]; [set_solver|]. cbn in Hs. inversion Hs as [|?? Hs' Hall]; subst.
  apply elem_of_cons in Hx as [-> | Hx]; [|by apply IH]. rewrite Forall_forall in Hall. apply Hall. set_solver.
Qed.

Lemma page_law p t m ks next : page pageSize (keys_after p t m) = (ks, next) →
  NoDup ks ∧ (∀ k, k ∈ ks → has_prefix p k = true ∧ is_Some (m !! k) ∧ follows t k) ∧
  (∀ k, has_prefix p k = true → is_Some (m !! k) → follows t k → k ∈ ks ∨ ∃ t', next = Some t' ∧ follows (Some t') k) ∧
  (∀ t', next = Some t' → ks ≠ [] ∧ (∀ k, follows (Some t') k → follows t k ∧ k ∉ ks)).
Proof.
  unfold page. set (l := keys_after p t m). intros [= <- Hnext].
  assert (Hs : StronglySorted String.le l) by (apply StronglySorted_merge_sort; apply _).
  pose proof (NoDup_keys_after p t m) as Hnd. fold l in Hnd.
  assert (Hl : ∀ k, k ∈ l ↔ has_prefix p k = true ∧ is_Some (m !! k) ∧ follows t k) by (intros k; apply elem_of_keys_after).
  rewrite <- (take_drop pageSize l) in Hs, Hnd. apply NoDup_app in Hnd as (Hnd & Hdis & _).
  assert (Hlast : ∀ t', next = Some t' → last (take pageSize l) = Some t') 
    by (intros t' E; rewrite <- Hnext in E; by destruct (length l <=? pageSize)%nat).
  split_and!; [done| | |].
  - intros k Hk. apply Hl. by eapply elem_of_take in Hk as (i & Hi%list_elem_of_lookup_2 & _).
  - intros k Hp Hk Hf. assert (k ∈ l) as Hin by by apply Hl. rewrite <- (take_drop pageSize l) in Hin.
    apply elem_of_app in Hin as [Hin | Hin]; [by left|right].
    destruct (decide (length l ≤ pageSize)%nat) as [Hle | Hlt]; [rewrite drop_ge in Hin by lia; set_solver|].
    rewrite (proj2 (Nat.leb_gt _ _)) in Hnext by lia. subst next.
    destruct (last (take pageSize l)) as [t'|] eqn:El; [|apply last_None in El; destruct l, pageSize; cbn in *; lia || done].
    exists t'. split; [done|]. assert (t' ∈ take pageSize l) as Ht' by by eapply last_Some_elem_of.
    split; [|intros ->; by eapply Hdis]. by eapply StronglySorted_app_1_elem_of.
  - intros t' Ht'. specialize (Hlast t' Ht'). split; [intros E; by rewrite E in Hlast|].
    assert (t' ∈ take pageSize l) as Hin by by eapply last_Some_elem_of.
    intros k [Hle Hne]. split.
    + destruct t as [t|]; [|done]. assert (t' ∈ l) as Hin'.
      { rewrite <- (take_drop pageSize l). apply elem_of_app. by left. }
      apply Hl in Hin' as (_ & _ & Htt & Hnt). split; [by etrans|]. intros ->. by apply Hnt, (anti_symm String.le).
    + intros Hk. apply Hne, (anti_symm String.le); [done|]. eapply sorted_last; [|done|done].
      by eapply StronglySorted_app_1_l.
Qed.

Lemma bucket_laws : @S3Laws Bucket bucket_api bucket_view.
Proof.
  split; cbn.
  - done.
  - intros k w w' r [Ho Hr]%reading_law. split; [done|]. destruct (bk_objects w !! k); destruct Hr as [-> | ->]; split_and!; naive_solver.
  - intros k w w' r [Ho Hr]%reading_law. split; [done|]. destruct (bk_objects w !! k); destruct Hr as [-> | ->]; naive_solver.
  - intros k d w w' r [[Ho ->] | [-> Ho]]%writing_law; destruct (create_law k d (bk_objects w)) as [(E1 & E2 & Hs) | [Hn Hc]];
      rewrite ?Hc, ?E1, ?E2 in *; cbn in *; unfold stored_once; split_and!; try naive_solver.
    all: intros _; rewrite Ho; done.
  - intros k w w' r [[Ho ->] | [-> Ho]]%writing_law; cbn in *; naive_solver.
  - intros ks w w' r [[Ho ->] | [-> Ho]]%writing_law; cbn in *.
    + split_and!; [set_solver|apply NoDup_nil_2|]. rewrite Ho. apply map_filter_ext. set_solver.
    + destruct Ho as [Ho | Ho]; [exists []|exists ks]; (split; [set_solver|]); rewrite Ho; [|done].
      symmetry. apply map_filter_id. set_solver.
  - intros p t w w' r [Ho Hr]%reading_law. split; [done|]. intros ks next ->. destruct Hr as [[= Hp] | Hr]; [|done].
    apply (page_law p t (bk_objects w)). unfold page. by subst.
  - intros k body create_only w w' r Hu. destruct body as [d|e].
    + apply writing_law in Hu. destruct (_ && _) eqn:Ec.
      * destruct (create_law k d (bk_objects w)) as [(E1 & E2 & Hs) | [Hn Hc]]; rewrite ?Hc, ?E1, ?E2 in Hu; cbn in Hu;
          unfold stored_once; destruct Hu as [[Ho ->] | [-> [Ho | Ho]]]; rewrite Ho; split_and!; naive_solver.
      * assert (create_only = true → ¬ (Z.of_nat (length d) < partSize)) as Hbig.
        { intros ->. cbn in Ec. apply Z.ltb_ge in Ec. lia. }
        destruct Hu as [[Ho ->] | [-> [Ho | Ho]]]; cbn in Ho; rewrite Ho; split_and!; naive_solver.
    + apply reading_law in Hu as [Ho [-> | ->]]; split_and!; try done; by intros [= ->].
Qed.
End Instance.

(** ** Runs *)
Module S3Runs.
#[local] Instance api : S3API Bucket := bucket_api 2.
#[local] Instance view : S3View Bucket := bucket_view.
#[local] Instance laws : S3Laws Bucket := bucket_laws 2 ltac:(lia).
Definition bucket (m : gmap string bytes) (script : list net) : Bucket := {| bk_objects := m; bk_script := script |}.


(** The first attempt commits but its response is lost; the second one
    reports the conflict. *)
Definition lossy : RetryEnv net :=
  {| re_call := λ n, if (n =? 1)%nat then NetErr true else NetOk; re_seekable := true; re_seek_fails := λ _, false; re_cancelled := λ _, false |}.

Definition stream : s3StreamWriter :=
  {| ss_key := "t-1/out"; ss_stagingKey := "t-1/out.staging.u"; ss_written := [1; 2]; ss_upload := Running |}.
(** Another writer publishes first. *)
Definition intruder (w : Bucket) : Bucket := set_objects (<["t-1/out" := [9]]> (bk_objects w)) w.
Lemma stream_publishes_once_run :
  (Commit id stream (bucket ∅ [])).1.1 = bucket {["t-1/out" := [1; 2]]} [] ∧
  (Commit intruder stream (bucket ∅ [])).2 = Err ErrFileExists ∧
  objects (Abort stream (bucket ∅ [])).1.1 = ∅.
Proof.
  split; [vm_compute; reflexivity|]. split; [vm_compute; reflexivity|].
  apply (stream_publishes_once (LW := laws) id stream (bucket ∅ []) eq_refl ltac:(discriminate)).
Defined.

(** The conditional write fails with a transport error. *)
Lemma failed_commit_leaks_run :
  let '(w1, sw1, r) := Commit id stream (bucket ∅ [NetOk; NetOk; NetErr false]) in
  r = Err ErrIO ∧ objects w1 = {["t-1/out.staging.u" := [1; 2]]} ∧ Abort sw1 w1 = (w1, sw1, Ok tt).
Proof.
  pose (c := Commit id stream (bucket ∅ [NetOk; NetOk; NetErr false])).
  change (let '(w1, sw1, r) := c in
    r = Err ErrIO ∧ objects w1 = {["t-1/out.staging.u" := [1; 2]]} ∧ Abort sw1 w1 = (w1, sw1, Ok tt)).
  assert (Hc : c = (c.1.1, c.1.2, Err ErrIO)) by (vm_compute; reflexivity).
  rewrite Hc. split; [reflexivity|]. split; [vm_compute; reflexivity|].
  apply (failed_commit_leaks id stream (bucket ∅ [NetOk; NetOk; NetErr false]) c.1.1 c.1.2 ErrIO eq_refl Hc).
Defined.

(** Five objects in pages of two, and one outside the prefix. *)
Definition results : Bucket :=
  bucket {["t-1/results/b/1" := [1]; "t-1/results/b/2" := [2]; "t-1/results/b/3" := [3]; "t-1/results/b/4" := [4];
           "t-1/results/b/5" := [5]; "t-1/results/bc/1" := [6]]} [].
End S3Runs.

(** ** Configurations *)
Module ConfigRuns.
Definition gateway : ModelGatewayConfig :=
  {| gw_URL := "http://gw"; gw_APIKeyName := ""; gw_APIKeyFile := ""; gw_InferenceObjective := "";
     gw_RequestTimeout := Some Minute; gw_MaxRetries := Some 3; gw_InitialBackoff := Some Second; gw_MaxBackoff := Some Minute;
     gw_TLSInsecureSkipVerify := false; gw_TLSCACertFile := ""; gw_TLSClientCertFile := ""; gw_TLSClientKeyFile := "" |}.
Definition with_gateway (c : ProcessorConfig) : ProcessorConfig :=
  {| pc_ExtraEndpoints := pc_ExtraEndpoints c; pc_TaskWaitTime := pc_TaskWaitTime c; pc_NumWorkers := pc_NumWorkers c;
     pc_WorkDirSizeLimit := pc_WorkDirSizeLimit c; pc_InputFileDiskBudgetPercent := pc_InputFileDiskBudgetPercent c;
     pc_MaxInputFileSizeBytes := pc_MaxInputFileSizeBytes c; pc_Concurrency := pc_Concurrency c;
     pc_PollInterval := pc_PollInterval c; pc_QueueTimeBucket := pc_QueueTimeBucket c;
     pc_ProcessTimeBucket := pc_ProcessTimeBucket c; pc_E2ELatencyBucket := pc_E2ELatencyBucket c; pc_Addr := pc_Addr c;
     pc_ShutdownTimeout := pc_ShutdownTimeout c; pc_WorkDir := pc_WorkDir c;
     pc_GlobalInferenceGateway := Some gateway; pc_ModelGateways := pc_ModelGateways c;
     pc_RouteKeyMethod := pc_RouteKeyMethod c; pc_DefaultOutputExpirationSeconds := pc_DefaultOutputExpirationSeconds c;
     pc_ProgressUpdateInterval := pc_ProgressUpdateInterval c; pc_SendFairnessHeader := pc_SendFairnessHeader c;
     pc_FileRetry := pc_FileRetry c; pc_DispatchMode := pc_DispatchMode c; pc_AsyncDispatch := pc_AsyncDispatch c;
     pc_Resumable := pc_Resumable c |}.
(** 10Gi. *)
Definition quantity (s : string) : option Z := if bool_decide (s = "10Gi") then Some (10 * 2 ^ 30) else None.
Definition cfg : ProcessorConfig := with_gateway NewConfig.

Lemma quantity_10Gi w : quantity "10Gi" = Some w → w = 10 * 2 ^ 30.
Proof. unfold quantity. rewrite bool_decide_eq_true_2 by done. congruence. Qed.
Lemma quantity_small w : quantity "10Gi" = Some w → w < 2 ^ 63.
Proof. intros ->%quantity_10Gi. lia. Qed.

Lemma effective_workers_exact_run :
  EffectiveNumWorkers quantity NewConfig = Ok 5 ∧ 5 * pc_MaxInputFileSizeBytes NewConfig ≤ 10 * 2 ^ 30 * 10 / 100.
Proof.
  assert (He : EffectiveNumWorkers quantity NewConfig = Ok 5) by (vm_compute; reflexivity).
  split; [exact He|].
  destruct (proj1 (effective_workers_exact quantity NewConfig 5 quantity_small) He) as (_ & _ & w & Hw & _ & Hfit & _).
  apply quantity_10Gi in Hw as ->. exact Hfit.
Defined.

Lemma validated_config_starts_run :
  (Validate (λ _, true) quantity cfg).2 = Ok tt ∧
  limits_valid 10 (aimd_of (pc_Concurrency cfg) {| Float.mant := 1; Float.expo := -1 |}).
Proof.
  split; [vm_compute; reflexivity|].
  apply (validated_config_starts (λ _, true) quantity cfg cfg {| Float.mant := 1; Float.expo := -1 |} ["c"] 0);
    [vm_compute; reflexivity|exact quantity_small|reflexivity..].
Defined.
End ConfigRuns.
