(* ===== verification/Tracing.v ===== *)
(** * The tracing wrapper of the file store

    [internal/files_store/tracing/tracing.go]: a client that opens a span around
    every call to another client.  It keeps the promise of the client it wraps
    ([S3.FilesLaws]), so it can stand between the retrying wrapper and a
    backend, and it closes its spans: at once for calls that are over, when the
    reader is closed or the stream committed or aborted for those that hand one
    out.  OpenTelemetry's tracer is a list of spans. *)

From Stdlib Require Import ZArith Lia Ascii String.
From stdpp Require Import base gmap strings list pretty.
From S2P Require Import Prelude Planner Files S3.
Local Open Scope string_scope.
Local Open Scope Z_scope.

(** ** Spans *)
Record Span := { sp_name : string; sp_attrs : list (string * string); sp_error : option string; sp_ends : nat }.
Record Traced (S : Type) := { tr_inner : S; tr_spans : list Span }.
Arguments tr_inner {S}. Arguments tr_spans {S}.
Arguments Build_Traced {S}.

Section Spans.
Context {S : Type}.
Definition on_span (f : Span → Span) (id : nat) (t : Traced S) : Traced S :=
  {| tr_inner := tr_inner t; tr_spans := alter f id (tr_spans t) |}.
Definition StartSpan (name : string) (t : Traced S) : nat * Traced S :=
  (length (tr_spans t),
   {| tr_inner := tr_inner t;
      tr_spans := app (tr_spans t) [{| sp_name := name; sp_attrs := []; sp_error := None; sp_ends := 0 |}] |}).
Definition SetAttributes (attrs : list (string * string)) : nat → Traced S → Traced S :=
  on_span (λ sp, {| sp_name := sp_name sp; sp_attrs := app (sp_attrs sp) attrs; sp_error := sp_error sp; sp_ends := sp_ends sp |}).
(** [RecordError] with [SetStatus(codes.Error, ...)]. *)
Definition SetError (msg : string) : nat → Traced S → Traced S :=
  on_span (λ sp, {| sp_name := sp_name sp; sp_attrs := sp_attrs sp; sp_error := Some msg; sp_ends := sp_ends sp |}).
Definition End_ : nat → Traced S → Traced S :=
  on_span (λ sp, {| sp_name := sp_name sp; sp_attrs := sp_attrs sp; sp_error := sp_error sp; sp_ends := Datatypes.S (sp_ends sp) |}).
Definition inner_call {A} (m : M S A) (t : Traced S) : Traced S * result A :=
  let '(s, r) := m (tr_inner t) in ({| tr_inner := s; tr_spans := tr_spans t |}, r).
End Spans.

(** ** The wrapper *)
Section Wrap.
Context {S E : Type} (inner : FilesClient S E) (backend : string).

Definition file_attrs (fileName folderName : string) : list (string * string) :=
  [("storage.backend", backend); ("storage.file_name", fileName); ("storage.folder", folderName)].
Definition size_attr (md : BatchFileMetadata) : list (string * string) := [("storage.file_size", pretty (md_Size md))].

(** A call whose span ends with it; [ok] are the attributes of a success. *)
Definition spanned {A} (name : string) (attrs : list (string * string)) (failed : string) (ok : A → list (string * string))
    (m : M S A) : M (Traced S) A := λ t,
  let '(span, t) := StartSpan name t in
  let t := SetAttributes attrs span t in
  match inner_call m t with
  | (t, Err e) => (End_ span (SetError failed span t), Err e)
  | (t, Ok a) => (End_ span (SetAttributes (ok a) span t), Ok a)
  end.
Definition traced_Store (e : E) (fileName folderName : string) (fileSizeLimit lineNumLimit : Z) (reader : list bytes)
    : M (Traced S) BatchFileMetadata :=
  spanned "storage.Store" (file_attrs fileName folderName) "store failed" size_attr
    (fc_Store inner e fileName folderName fileSizeLimit lineNumLimit reader).
Definition traced_Delete (e : E) (fileName folderName : string) : M (Traced S) unit :=
  spanned "storage.Delete" (file_attrs fileName folderName) "delete failed" (λ _, []) (fc_Delete inner e fileName folderName).
Definition traced_DeletePrefix (deletePrefix : string → string → M S nat) (folderName prefix : string) : M (Traced S) nat :=
  spanned "storage.DeletePrefix" [("storage.backend", backend); ("storage.folder", folderName); ("storage.prefix", prefix)]
    "delete prefix failed" (λ n, [("storage.deleted_files", pretty n)]) (deletePrefix folderName prefix).

(** A call that hands out a reader or a writer: on success its span stays open
    and is returned with it. *)
Definition handed_out {A} (name : string) (attrs : list (string * string)) (failed : string) (ok : A → list (string * string))
    (m : M S A) : M (Traced S) (A * nat) := λ t,
  let '(span, t) := StartSpan name t in
  let t := SetAttributes attrs span t in
  match inner_call m t with
  | (t, Err e) => (End_ span (SetError failed span t), Err e)
  | (t, Ok a) => (SetAttributes (ok a) span t, Ok (a, span))
  end.
Definition traced_Retrieve (e : E) (fileName folderName : string) : M (Traced S) (bytes * BatchFileMetadata * nat) :=
  handed_out "storage.Retrieve" (file_attrs fileName folderName) "retrieve failed" (λ r, size_attr r.2)
    (fc_Retrieve inner e fileName folderName).
Definition traced_OpenStream {W} (openStream : string → string → M S W) (fileName folderName : string) : M (Traced S) (W * nat) :=
  handed_out "storage.OpenStream" (file_attrs fileName folderName) "open stream failed" (λ _, []) (openStream fileName folderName).

(** The ends of what was handed out: [Close] of a reader, [Commit] and [Abort]
    of a writer. *)
Definition finish_span {A} (failed : string) (ok : A → list (string * string)) (span : nat) (m : M S A) : M (Traced S) A := λ t,
  match inner_call m t with
  | (t, Err e) => (End_ span (SetError failed span t), Err e)
  | (t, Ok a) => (End_ span (SetAttributes (ok a) span t), Ok a)
  end.
Definition tracedReadCloser_Close (span : nat) (close : M S unit) : M (Traced S) unit :=
  finish_span "close failed" (λ _, []) span close.
Definition tracedStreamWriter_Commit (span : nat) (commit : M S BatchFileMetadata) : M (Traced S) BatchFileMetadata :=
  finish_span "commit failed" size_attr span commit.
Definition tracedStreamWriter_Abort (span : nat) (abort : M S unit) : M (Traced S) unit :=
  finish_span "abort failed" (λ _, []) span abort.

(** The wrapper as a client; the caller closes what it retrieved. *)
Definition Wrap : FilesClient (Traced S) E :=
  {| fc_path := fc_path inner; fc_Store := traced_Store;
     fc_Retrieve := λ e f d, p <- traced_Retrieve e f d ;; tracedReadCloser_Close p.2 (ret tt) ;;; ret p.1;
     fc_Delete := traced_Delete |}.

(** ** Theorems *)
Lemma alter_last {X} (f : X → X) l x : alter f (length l) (app l [x]) = app l [f x].
Proof. rewrite alter_app_r_alt by lia. by rewrite Nat.sub_diag. Qed.

(** A spanned call is the inner call with one span more, ended once, that says
    whether it failed. *)
Lemma spanned_spec {A} name attrs failed (ok : A → _) m t t' r :
  spanned name attrs failed ok m t = (t', r) →
  m (tr_inner t) = (tr_inner t', r) ∧
  ∃ sp, tr_spans t' = app (tr_spans t) [sp] ∧ sp_name sp = name ∧ sp_ends sp = 1%nat ∧ (sp_error sp = None ↔ is_ok r = true).
Proof.
  unfold spanned, StartSpan, inner_call. cbn [SetAttributes on_span tr_inner tr_spans]. rewrite alter_last.
  destruct (m (tr_inner t)) as [s [a|e]]; intros [= <- <-]; cbn; rewrite !alter_last; (split; [done|]); eexists; by split_and!.
Qed.
Lemma handed_out_spec {A} name attrs failed (ok : A → _) m t t' r :
  handed_out name attrs failed ok m t = (t', r) →
  match r with
  | Ok (a, span) => m (tr_inner t) = (tr_inner t', Ok a) ∧ span = length (tr_spans t) ∧
      ∃ sp, tr_spans t' = app (tr_spans t) [sp] ∧ sp_name sp = name ∧ sp_ends sp = O ∧ sp_error sp = None
  | Err e => m (tr_inner t) = (tr_inner t', Err e) ∧
      ∃ sp, tr_spans t' = app (tr_spans t) [sp] ∧ sp_name sp = name ∧ sp_ends sp = 1%nat ∧ sp_error sp = Some failed
  end.
Proof.
  unfold handed_out, StartSpan, inner_call. cbn [SetAttributes on_span tr_inner tr_spans]. rewrite alter_last.
  destruct (m (tr_inner t)) as [s [a|e]]; intros [= <- <-]; cbn; rewrite !alter_last; split_and!; try done; eexists; by split_and!.
Qed.
Lemma finish_span_spec {A} failed (ok : A → _) spans sp m t t' r :
  tr_spans t = app spans [sp] → finish_span failed ok (length spans) m t = (t', r) →
  m (tr_inner t) = (tr_inner t', r) ∧
  ∃ sp', tr_spans t' = app spans [sp'] ∧ sp_name sp' = sp_name sp ∧ sp_ends sp' = Datatypes.S (sp_ends sp).
Proof.
  intros Ht. unfold finish_span, inner_call. destruct (m (tr_inner t)) as [s [a|e]]; intros [= <- <-]; cbn; rewrite Ht, !alter_last;
    (split; [done|]); eexists; by split_and!.
Qed.

(** The wrapper keeps the promise of whatever client it wraps. *)
Theorem tracing_keeps_the_promise visible :
  FilesLaws inner visible → FilesLaws Wrap (λ t, visible (tr_inner t)).
Proof.
  intros L. split; cbn [Wrap fc_path fc_Store fc_Retrieve fc_Delete].
  - intros e f d sl ll chunks t t' r [H _]%spanned_spec. by eapply store_law.
  - intros e f d t t' r. unfold bindM. destruct (traced_Retrieve e f d t) as [t1 [[a span]|er]] eqn:Hr; apply handed_out_spec in Hr.
    + destruct Hr as (Hr & -> & sp & Hsp & _). unfold tracedReadCloser_Close. cbn [snd fst].
      destruct (finish_span _ _ _ _ t1) as [t2 r2] eqn:Hf. apply (finish_span_spec _ _ _ _ _ _ _ _ Hsp) in Hf as [Hf _].
      injection Hf as Hs <-. intros [= <- <-]. rewrite <- Hs. by eapply retrieve_law.
    + destruct Hr as [Hr _]. intros [= <- <-]. by eapply retrieve_law.
  - intros e f d t t' r [H _]%spanned_spec. by eapply remove_law.
Qed.

(** A retrieval leaves exactly one span, ended exactly once: when it fails, or
    when the reader it handed out is closed; until then the span is open. *)
Theorem retrieve_span_ends_once e f d (close : M S unit) t t1 r t2 rc :
  traced_Retrieve e f d t = (t1, r) →
  match r with
  | Ok (_, span) =>
      tracedReadCloser_Close span close t1 = (t2, rc) →
      ∃ open ended, tr_spans t1 = app (tr_spans t) [open] ∧ sp_ends open = O ∧
                    tr_spans t2 = app (tr_spans t) [ended] ∧ sp_ends ended = 1%nat
  | Err _ => ∃ ended, tr_spans t1 = app (tr_spans t) [ended] ∧ sp_ends ended = 1%nat
  end.
Proof.
  intros H%handed_out_spec. destruct r as [[a span]|er].
  - destruct H as (_ & -> & sp & Hsp & _ & H0 & _). intros Hc. eapply finish_span_spec in Hc as (_ & sp' & ? & _ & H1); [|done].
    exists sp, sp'. by rewrite H1, H0.
  - destruct H as (_ & sp & ? & _ & ? & _). eauto.
Qed.
End Wrap.
