(* ===== verification/Gateways.v ===== *)
(** * Inference clients: resolvers and the client set

    [pkg/clients/inference/inference_client_resolver.go]: which client serves
    which model, and which models share one.
    [async_inference_client_resolver.go]: queue names of asynchronous dispatch,
    per replica, and the routes on which a replica's results can be recovered.
    [internal/util/clientset/clientset.go]: the construction of all clients and
    the release of what was built when it fails.

    Client identity (a pointer) is a number drawn in order of construction.  Go
    visits a map in any order: the constructors take the entries as a list, and
    the theorems hold for every order.  Constructors of connections are
    arguments; the resources they hold are names in a set. *)

From Stdlib Require Import ZArith Lia Ascii String.
From stdpp Require Import base gmap strings list pretty.
From S2P Require Import Prelude Openai Store Preprocess Semaphore Flow Throttle Rest Config.
Local Open Scope string_scope.
Local Open Scope Z_scope.

(** ** [GatewayResolver] *)
Abbreviation InferenceClient := nat.
Record GatewayResolver := {
  gr_globalClient : option InferenceClient; gr_modelClients : gmap string InferenceClient;
  gr_clientURLs : gmap InferenceClient string }.

Section Resolver.
(** [NewInferenceClient] fails when the TLS material cannot be loaded. *)
Context (NewInferenceClient : GatewayClientConfig → result unit).

Definition NewGlobalResolver (config : GatewayClientConfig) : result GatewayResolver :=
  and_then (NewInferenceClient config) (λ _,
    Ok {| gr_globalClient := Some O; gr_modelClients := ∅; gr_clientURLs := {[O := gc_URL config]} |}).

(** [pool[gw]]. *)
Fixpoint pooled (gw : GatewayClientConfig) (pool : list (GatewayClientConfig * InferenceClient)) : option InferenceClient :=
  match pool with
  | [] => None
  | (g, c) :: pool' => if decide (g = gw) then Some c else pooled gw pool'
  end.
Fixpoint per_model (entries : list (string * GatewayClientConfig)) (pool : list (GatewayClientConfig * InferenceClient))
    (modelClients : gmap string InferenceClient) (urls : gmap InferenceClient string) : result GatewayResolver :=
  match entries with
  | [] => Ok {| gr_globalClient := None; gr_modelClients := modelClients; gr_clientURLs := urls |}
  | (model, gw) :: entries' =>
      match pooled gw pool with
      | Some client => per_model entries' pool (<[model := client]> modelClients) urls
      | None =>
          and_then (NewInferenceClient gw) (λ _,
            let client := length pool in
            per_model entries' ((gw, client) :: pool) (<[model := client]> modelClients) (<[client := gc_URL gw]> urls))
      end
  end.
Definition NewPerModelResolver (entries : list (string * GatewayClientConfig)) : result GatewayResolver :=
  per_model entries [] ∅ ∅.
End Resolver.

Definition ClientFor (r : GatewayResolver) (modelID : string) : option InferenceClient :=
  match gr_globalClient r with Some c => Some c | None => gr_modelClients r !! modelID end.
(** The clients in the order the map is visited, duplicates skipped. *)
Fixpoint dedup (seen : list InferenceClient) (l : list InferenceClient) : list InferenceClient :=
  match l with
  | [] => []
  | c :: l' => if decide (c ∈ seen) then dedup seen l' else c :: dedup (c :: seen) l'
  end.
Definition Clients (r : GatewayResolver) : list InferenceClient :=
  match gr_globalClient r with Some c => [c] | None => dedup [] (map_to_list (gr_modelClients r)).*2 end.
Definition ClientLabel (r : GatewayResolver) (c : InferenceClient) : string :=
  default "unknown" (gr_clientURLs r !! c).

(** *** Pooling *)
Lemma pooled_in gw pool c : pooled gw pool = Some c → (gw, c) ∈ pool.
Proof.
  induction pool as [|[g c'] pool IH]; cbn; [done|]. destruct (decide (g = gw)) as [-> | Hne]; [intros [= ->]; by left|].
  intros H%IH. by right.
Qed.
Lemma pooled_none gw pool c : pooled gw pool = None → (gw, c) ∉ pool.
Proof.
  induction pool as [|[g c'] pool IH]; cbn; [set_solver|]. destruct (decide (g = gw)) as [-> | Hne]; [done|].
  intros H%IH [E | Hin]%elem_of_cons; [congruence|done].
Qed.

(** One client per configuration, numbered in order; every model's client is
    that of its configuration. *)
Record pool_wf (done : list (string * GatewayClientConfig)) (pool : list (GatewayClientConfig * InferenceClient))
    (mc : gmap string InferenceClient) (urls : gmap InferenceClient string) : Prop := {
  pw_cfg c1 c2 g : (g, c1) ∈ pool → (g, c2) ∈ pool → c1 = c2;
  pw_client c g1 g2 : (g1, c) ∈ pool → (g2, c) ∈ pool → g1 = g2;
  pw_fresh g c : (g, c) ∈ pool → (c < length pool)%nat;
  pw_models m c : mc !! m = Some c → ∃ g, (m, g) ∈ done ∧ (g, c) ∈ pool;
  pw_served m g : (m, g) ∈ done → ∃ c, mc !! m = Some c ∧ (g, c) ∈ pool;
  pw_urls g c : (g, c) ∈ pool → urls !! c = Some (gc_URL g) }.

Lemma per_model_wf build entries done pool mc urls r :
  pool_wf done pool mc urls → NoDup (done ++ entries)%list.*1 → per_model build entries pool mc urls = Ok r →
  gr_globalClient r = None ∧ ∃ pool', pool_wf (done ++ entries)%list pool' (gr_modelClients r) (gr_clientURLs r).
Proof.
  revert done pool mc urls. induction entries as [|[m g] entries IH]; intros done pool mc urls Hwf Hnd; cbn [per_model].
  { intros [= <-]. cbn. split; [reflexivity|]. exists pool. by rewrite app_nil_r. }
  assert (Hsplit : (done ++ (m, g) :: entries = (done ++ [(m, g)]) ++ entries)%list) by by rewrite <- app_assoc.
  assert (Hm : ∀ g', (m, g') ∉ done).
  { intros g' Hin. rewrite fmap_app, NoDup_app in Hnd. destruct Hnd as (_ & Hd & _). apply (Hd m); [|cbn; by left].
    apply list_elem_of_fmap. by exists (m, g'). }
  rewrite Hsplit in Hnd |- *. destruct (pooled g pool) as [c|] eqn:Hp.
  - apply IH; [|done]. apply pooled_in in Hp. destruct Hwf as [H1 H2 H3 H4 H5 H6]. split; try done.
    + intros m' c'. destruct (decide (m = m')) as [<- | Hne]; [rewrite lookup_insert_eq; intros [= <-]; exists g; set_solver|].
      rewrite lookup_insert_ne by done. intros (g' & ? & ?)%H4. exists g'. set_solver.
    + intros m' g' [Hin | [= -> ->]%list_elem_of_singleton]%elem_of_app; [|exists c; by rewrite lookup_insert_eq].
      destruct (H5 _ _ Hin) as (c' & ? & ?). exists c'. rewrite lookup_insert_ne; [done|]. intros ->. by eapply Hm.
  - destruct (build g); cbn [and_then]; [|done]. apply IH; [|done]. destruct Hwf as [H1 H2 H3 H4 H5 H6].
    pose proof (λ c, pooled_none g pool c Hp) as Hno. split.
    + intros c1 c2 g' [E1 | Hin1]%elem_of_cons [E2 | Hin2]%elem_of_cons; simplify_eq; try done;
        [by apply Hno in Hin2|by apply Hno in Hin1|by eapply H1].
    + intros c' g1 g2 [E1 | Hin1]%elem_of_cons [E2 | Hin2]%elem_of_cons; simplify_eq; try done;
        [apply H3 in Hin2; lia|apply H3 in Hin1; lia|by eapply H2].
    + intros g' c' [[= -> ->] | Hin]%elem_of_cons; cbn; [lia|]. apply H3 in Hin. lia.
    + intros m' c'. destruct (decide (m = m')) as [<- | Hne]; [rewrite lookup_insert_eq; intros [= <-]; exists g; set_solver|].
      rewrite lookup_insert_ne by done. intros (g' & ? & ?)%H4. exists g'. set_solver.
    + intros m' g' [Hin | [= -> ->]%list_elem_of_singleton]%elem_of_app;
        [|exists (length pool); rewrite lookup_insert_eq; split; [done|by left]].
      destruct (H5 _ _ Hin) as (c' & ? & ?). exists c'. rewrite lookup_insert_ne; [split; [done|by right]|]. intros ->. by eapply Hm.
    + intros g' c' [[= -> ->] | Hin]%elem_of_cons; [by rewrite lookup_insert_eq|].
      rewrite lookup_insert_ne; [by apply H6|]. intros <-. apply H3 in Hin. lia.
Qed.

Lemma elem_of_dedup seen l c : c ∈ dedup seen l ↔ c ∈ l ∧ c ∉ seen.
Proof. revert seen. induction l as [|x l IH]; intros seen; cbn; [set_solver|]. case_decide; rewrite ?elem_of_cons, IH, ?elem_of_cons; destruct (decide (c = x)); naive_solver. Qed.
Lemma NoDup_dedup seen l : NoDup (dedup seen l).
Proof.
  revert seen. induction l as [|x l IH]; intros seen; cbn; [apply NoDup_nil_2|]. case_decide; [done|].
  apply NoDup_cons. split; [rewrite elem_of_dedup; set_solver|done].
Qed.

(** A per-model resolver, whatever order its configuration map is visited
    in, serves exactly the configured models; two models share a client if and
    only if their resolved configurations are equal in every field; the label
    of a model's client is its gateway's URL; [Clients] lists every client
    once.  (So the limits, kept per client, are shared by equal
    configurations, not by equal URLs.) *)
Theorem resolver_shares_clients build configs entries r :
  entries ≡ₚ map_to_list configs → NewPerModelResolver build entries = Ok r →
  (∀ m, is_Some (ClientFor r m) ↔ is_Some (configs !! m)) ∧
  (∀ m1 m2 g1 g2, configs !! m1 = Some g1 → configs !! m2 = Some g2 → (ClientFor r m1 = ClientFor r m2 ↔ g1 = g2)) ∧
  (∀ m g c, configs !! m = Some g → ClientFor r m = Some c → ClientLabel r c = gc_URL g) ∧
  NoDup (Clients r) ∧ (∀ c, c ∈ Clients r ↔ ∃ m, ClientFor r m = Some c).
Proof.
  intros Hperm Hr. apply (per_model_wf build entries []) in Hr as (Hglob & pool & Hwf).
  2:{ split; set_solver. }
  2:{ cbn. rewrite Hperm. apply NoDup_fst_map_to_list. }
  assert (Hin : ∀ m g, (m, g) ∈ entries ↔ configs !! m = Some g) by (intros m g; rewrite Hperm; apply elem_of_map_to_list).
  destruct Hwf as [H1 H2 H3 H4 H5 H6]. cbn in H4, H5. unfold ClientFor, Clients. rewrite Hglob.
  split_and!.
  - intros m. split; [intros [c (g & Hg%Hin & _)%H4]; eauto|]. intros [g (c & Hc & _)%Hin%H5]. eauto.
  - intros m1 m2 g1 g2 (c1 & E1 & P1)%Hin%H5 (c2 & E2 & P2)%Hin%H5. rewrite E1, E2. split.
    + intros [= ->]. by eapply H2.
    + intros ->. f_equal. by eapply H1.
  - intros m g c (c' & E & P)%Hin%H5 Hc. rewrite E in Hc. injection Hc as ->. unfold ClientLabel. by rewrite (H6 _ _ P).
  - apply NoDup_dedup.
  - intros c. rewrite elem_of_dedup, list_elem_of_fmap. split.
    + intros [([m c'] & -> & Hm%elem_of_map_to_list) _]. by exists m.
    + intros [m Hm]. split; [|set_solver]. exists (m, c). by rewrite elem_of_map_to_list.
Qed.

(** *** From the configuration to the limits of a request *)
Lemma resolve_each_dom stat_read secret l acc res :
  resolve_each stat_read secret l acc = Ok res → dom res = dom acc ∪ list_to_set l.*1.
Proof.
  revert acc. induction l as [|[m gw] l IH]; intros acc; cbn [resolve_each].
  - intros [= <-]. set_solver.
  - intros (g & _ & H)%and_then_ok. apply IH in H. rewrite H, dom_insert_L. set_solver.
Qed.

Lemma resolved_dom ReadFile ReadSecretFile c rg :
  IsAsync c = false → pc_GlobalInferenceGateway c = None → ResolveModelGateways ReadFile ReadSecretFile c = Ok rg →
  dom (rg_PerModel rg) = dom (pc_ModelGateways c).
Proof.
  intros Has Hgl Hrg. unfold ResolveModelGateways in Hrg. rewrite Has, Hgl in Hrg. cbn [and_then] in Hrg.
  apply and_then_ok in Hrg as (pm & Hpm & [= <-]). apply resolve_each_dom in Hpm. cbn. rewrite Hpm, dom_empty_L, union_empty_l_L.
  apply set_eq. intros m. rewrite elem_of_list_to_set, list_elem_of_fmap, elem_of_dom. split.
  - intros ([m' g] & -> & H%elem_of_map_to_list). cbn. eauto.
  - intros [g Hg]. exists (m, g). by rewrite elem_of_map_to_list.
Qed.

(** With a validated configuration of per-model gateways, the processor
    resolves every configured model, and no other, to a client, and every such
    client has endpoint limits within the configured bounds: a request that
    finds a client is never dispatched outside the limits. *)
Theorem configured_models_dispatch stat ReadFile ReadSecretFile PQ build c c' f rg entries r ctl :
  Validate stat PQ c = (c', Ok tt) →
  ay_BackoffFactor (cc_AIMD (pc_Concurrency c)) = Finite f →
  cc_PerEndpoint (pc_Concurrency c) < 2 ^ 53 → ay_AdditiveIncrease (cc_AIMD (pc_Concurrency c)) < 2 ^ 62 →
  IsAsync c' = false → pc_GlobalInferenceGateway c' = None →
  ResolveModelGateways ReadFile ReadSecretFile c' = Ok rg → entries ≡ₚ map_to_list (rg_PerModel rg) →
  NewPerModelResolver build entries = Ok r →
  initConcurrencyControls PQ c' f (Some (pretty <$> Clients r)) = Ok ctl →
  ∀ model,
    (is_Some (pc_ModelGateways c' !! model) ↔ is_Some (ClientFor r model)) ∧
    (∀ client, ClientFor r model = Some client →
       ∃ ep, ct_endpoints ctl !! pretty client = Some ep ∧
             ep_ok (cc_PerEndpoint (pc_Concurrency c')) (aimd_of (pc_Concurrency c') f) ep).
Proof.
  intros HV Hf Hper Hinc Has Hgl Hrg Hperm Hr Hctl model.
  pose proof (resolved_dom _ _ _ _ Has Hgl Hrg) as Hdom.
  apply (per_model_wf build entries []) in Hr as (Hglob & pool & [_ _ _ H4 H5 _]).
  2:{ split; set_solver. }
  2:{ cbn. rewrite Hperm. apply NoDup_fst_map_to_list. }
  assert (Hin : ∀ m g, (m, g) ∈ entries ↔ rg_PerModel rg !! m = Some g) by (intros; rewrite Hperm; apply elem_of_map_to_list).
  assert (Hcf : ∀ m, ClientFor r m = gr_modelClients r !! m) by (intros m; unfold ClientFor; by rewrite Hglob).
  split.
  - rewrite Hcf, <- (elem_of_dom (pc_ModelGateways c')), <- Hdom, elem_of_dom. cbn in H4, H5. split.
    + intros [g (cl & Hc & _)%Hin%H5]. eauto.
    + intros [cl (g & Hg%Hin & _)%H4]. eauto.
  - intros client Hcl. unfold initConcurrencyControls in Hctl.
    apply and_then_ok in Hctl as (n & _ & Hctl). apply and_then_ok in Hctl as (tk & _ & Hctl).
    apply and_then_ok in Hctl as (gs & _ & Hctl). apply and_then_ok in Hctl as (eps & Heps & [= <-]).
    rewrite (Validate_same _ _ _ _ pc_Concurrency HV) in * by done.
    pose proof (validated_limits _ _ _ _ _ HV Hf Hper Hinc) as Hv. destruct (Hv) as [Hpos _].
    destruct (endpoint_limits_ok _ f (pretty <$> Clients r) Hpos Hv ∅) as (eps' & Heps' & Hok & Hall).
    rewrite Heps in Heps'. injection Heps' as <-.
    destruct (Hall (pretty client)) as [ep Hep].
    { left. apply list_elem_of_fmap. exists client. split; [done|]. unfold Clients. rewrite Hglob.
      apply elem_of_dedup. split; [|set_solver]. apply list_elem_of_fmap. exists (model, client). rewrite elem_of_map_to_list.
      split; [done|]. by rewrite <- Hcf. }
    exists ep. split; [done|]. destruct (Hok _ _ Hep) as [E | E]; [by rewrite lookup_empty in E|done].
Qed.

(** ** Resources

    Handles that stay open until they are closed, by name. *)
Abbreviation Handles := (gset string).
Definition acquire_handle (name : string) (outcome : result unit) : M Handles unit := λ s,
  match outcome with Ok _ => ({[name]} ∪ s, Ok tt) | Err e => (s, Err e) end.
Definition close_all (names : list string) (s : Handles) : Handles := s ∖ list_to_set names.

(** ** [AsyncGatewayResolver] *)
Definition asyncQueuePrefix := "llm-d-async:".
Definition request_queue (m : AsyncModelPoolConfig) : string :=
  if bool_decide (mp_RequestQueueName m = "") then asyncQueuePrefix +:+ "requests:" +:+ mp_PoolName m else mp_RequestQueueName m.
Definition route_base (m : AsyncModelPoolConfig) : string :=
  if bool_decide (mp_ResultQueueName m = "") then asyncQueuePrefix +:+ "results:" +:+ mp_PoolName m else mp_ResultQueueName m.
Definition route (base consumerID : string) : string := base +:+ ":" +:+ consumerID.

(** A model's producer: the queue it submits to and the one it reads. *)
Record asyncPool := { ap_requests : string; ap_results : string }.
Record AsyncGatewayResolver := {
  ar_pools : gmap string asyncPool; ar_routeBases : gmap string string; ar_transport : string; ar_rdb : bool;
  ar_closers : list string }.

(** Outcomes of the connections: the Redis URL parses, the SQL store opens, the
    producer of a model is built. *)
Record AsyncEnv := {
  ae_RedisURL : result unit; ae_SQLURL : string; ae_OpenSQL : result unit; ae_Producer : string → result unit }.

(** The first model that repeats a pool. *)
Fixpoint pools_unique (entries : list (string * AsyncModelPoolConfig)) (seen : list string) : bool :=
  match entries with
  | [] => true
  | (_, m) :: entries' => negb (bool_decide (mp_PoolName m ∈ seen)) && pools_unique entries' (mp_PoolName m :: seen)
  end.
Definition producer_handle (model : string) : string := "producer/" +:+ model.
(** [closers] is in the order of creation; on failure everything is closed. *)
Fixpoint build_pools (env : AsyncEnv) (consumerID : string) (rdb : list string) (entries : list (string * AsyncModelPoolConfig))
    (pools : gmap string asyncPool) (bases : gmap string string) (closers : list string)
    : M Handles (gmap string asyncPool * gmap string string * list string) := λ s,
  match entries with
  | [] => (s, Ok (pools, bases, closers))
  | (model, m) :: entries' =>
      match acquire_handle (producer_handle model) (ae_Producer env model) s with
      | (s1, Err e) => (close_all (closers ++ rdb)%list s1, Err e)
      | (s1, Ok _) =>
          build_pools env consumerID rdb entries'
            (<[model := {| ap_requests := request_queue m; ap_results := route (route_base m) consumerID |}]> pools)
            (<[model := route_base m]> bases) (closers ++ [producer_handle model])%list s1
      end
  end.

Definition NewAsyncResolver (env : AsyncEnv) (consumerID : string) (config : AsyncClientConfig)
    (entries : list (string * AsyncModelPoolConfig)) : M Handles AsyncGatewayResolver := λ s,
  if bool_decide (consumerID = "") then (s, Err (ErrOther "consumerID must not be empty"))
  else match NormalizeAsyncTransport (ac_Transport config) with
  | Err e => (s, Err e)
  | Ok transport =>
      let redis := bool_decide (transport = AsyncTransportRedisSortedSet) in
      let rdb := if redis then ["redis"] else [] in
      let opened := if redis then acquire_handle "redis" (ae_RedisURL env)
                    else if bool_decide (ae_SQLURL env = "") then throw (ErrOther "async SQL transport requires a PostgreSQL URL")
                    else ret tt in
      match opened s with
      | (s1, Err e) => (s1, Err e)
      | (s1, Ok _) =>
          if negb (pools_unique entries []) then (close_all rdb s1, Err (ErrOther "each pool must have a single consumer"))
          else if ac_ResultPollTimeout config <=? 0 then (close_all rdb s1, Err (ErrOther "resultPollTimeout must be > 0"))
          else
            let sql := negb redis && negb (bool_decide (entries = [])) in
            match (if sql then acquire_handle "sqlqueue" (ae_OpenSQL env) else ret tt) s1 with
            | (s2, Err e) => (s2, Err e)
            | (s2, Ok _) =>
                match build_pools env consumerID rdb entries ∅ ∅ (if sql then ["sqlqueue"] else []) s2 with
                | (s3, Err e) => (s3, Err e)
                | (s3, Ok (pools, bases, closers)) =>
                    (s3, Ok {| ar_pools := pools; ar_routeBases := bases; ar_transport := transport; ar_rdb := redis;
                               ar_closers := (closers ++ rdb)%list |})
                end
            end
      end
  end.
Definition SupportsResultRecovery (r : AsyncGatewayResolver) : bool :=
  bool_decide (ar_transport r = AsyncTransportRedisSortedSet).
Definition SharedClientFor (r : AsyncGatewayResolver) (modelID : string) : option asyncPool := ar_pools r !! modelID.
(** The route a recovery client reads. *)
Definition RecoveryClientFor (r : AsyncGatewayResolver) (modelID consumerID : string) : result string :=
  match ar_routeBases r !! modelID with
  | None => Err (ErrOther "recovery route is not configured")
  | Some base =>
      if bool_decide (ar_transport r = AsyncTransportRedisSortedSet) then
        if ar_rdb r then Ok (route base consumerID) else Err (ErrOther "redis recovery route is not configured")
      else if bool_decide (ar_transport r = AsyncTransportSQL) then Err (ErrOther "SQL transport does not support recovery")
      else Err (ErrOther "unsupported async transport")
  end.
Definition async_Close (r : AsyncGatewayResolver) (s : Handles) : Handles := close_all (ar_closers r) s.

(** *** Routes *)
Lemma append_chars a b : list_ascii_of_string (a +:+ b) = (list_ascii_of_string a ++ list_ascii_of_string b)%list.
Proof. induction a as [|x a IH]; [done|]. cbn [list_ascii_of_string app]. rewrite <- IH. reflexivity. Qed.
Lemma route_inj b1 b2 c1 c2 : ":"%char ∉ list_ascii_of_string c1 → ":"%char ∉ list_ascii_of_string c2 →
  route b1 c1 = route b2 c2 → b1 = b2 ∧ c1 = c2.
Proof.
  intros H1 H2 E. apply (f_equal list_ascii_of_string) in E. unfold route in E. rewrite !append_chars in E. cbn in E.
  apply (f_equal (GcConfig.split_last ":"%char)) in E. rewrite !split_last_app in E by done. injection E as E1 E2.
  split; [apply (f_equal string_of_list_ascii) in E1|apply (f_equal string_of_list_ascii) in E2];
    by rewrite !string_of_list_ascii_of_string in *.
Qed.

Lemma build_pools_ok env consumerID rdb entries pools bases closers s s' pools' bases' closers' :
  build_pools env consumerID rdb entries pools bases closers s = (s', Ok (pools', bases', closers')) →
  NoDup entries.*1 →
  (∀ model, model ∉ entries.*1 → pools' !! model = pools !! model ∧ bases' !! model = bases !! model) ∧
  (∀ model m, (model, m) ∈ entries → bases' !! model = Some (route_base m) ∧
     pools' !! model = Some {| ap_requests := request_queue m; ap_results := route (route_base m) consumerID |}).
Proof.
  revert pools bases closers s. induction entries as [|[md m] entries IH]; intros pools bases closers s; cbn [build_pools].
  { intros [= <- <- <- <-] _. split; [done|set_solver]. }
  destruct (acquire_handle _ _ s) as [s1 [u|e]]; [|done]. intros Hb [Hnin Hnd]%NoDup_cons. apply IH in Hb as [H1 H2]; [|done].
  split.
  - intros model Hm. cbn in Hm. apply not_elem_of_cons in Hm as [Hne Hm]. destruct (H1 model Hm) as [E1 E2].
    by rewrite E1, E2, !lookup_insert_ne.
  - intros model m' [[= -> ->] | Hin]%elem_of_cons; [|by apply H2]. destruct (H1 md Hnin) as [E1 E2].
    by rewrite E1, E2, !lookup_insert_eq.
Qed.
(** The next call of a chain that succeeded. *)
Ltac next_call H s :=
  match type of H with (let (_, _) := ?e in _) = _ => destruct e as [s [[]|]] eqn:?; [|done] end.
Lemma NewAsyncResolver_ok env consumerID config entries s s' r :
  NewAsyncResolver env consumerID config entries s = (s', Ok r) → entries ≡ₚ map_to_list (ac_Models config) →
  (∀ model m, ac_Models config !! model = Some m → ar_routeBases r !! model = Some (route_base m) ∧
     SharedClientFor r model = Some {| ap_requests := request_queue m; ap_results := route (route_base m) consumerID |}) ∧
  (∀ model, ac_Models config !! model = None → SharedClientFor r model = None ∧ ar_routeBases r !! model = None) ∧
  NormalizeAsyncTransport (ac_Transport config) = Ok (ar_transport r) ∧
  ar_rdb r = bool_decide (ar_transport r = AsyncTransportRedisSortedSet).
Proof.
  unfold NewAsyncResolver. intros Hr Hperm. case_bool_decide; [done|]. destruct (NormalizeAsyncTransport _) as [t|] eqn:Et; [|done].
  cbv zeta in Hr. next_call Hr s1. destruct (negb _); [done|]. destruct (_ <=? 0); [done|]. next_call Hr s2.
  destruct (build_pools _ _ _ _ _ _ _ s2) as [s3 [[[pools bases] closers]|]] eqn:Hb; [|done].
  injection Hr as <- <-. cbn. unfold SharedClientFor. cbn.
  assert (Hnd : NoDup entries.*1) by (rewrite Hperm; apply NoDup_fst_map_to_list).
  apply build_pools_ok in Hb as [H1 H2]; [|done]. split_and!; [| |done|done].
  - intros model m Hm. destruct (H2 model m) as [??]; [by rewrite Hperm, elem_of_map_to_list|done].
  - intros model Hm. destruct (H1 model) as [-> ->]; [|by rewrite !lookup_empty]. intros ([md m] & -> & Hin)%list_elem_of_fmap.
    rewrite Hperm, elem_of_map_to_list in Hin. cbn in Hm. congruence.
Qed.

(** Result routes of asynchronous dispatch, for two replicas built from
    one configuration (consumer names hold no colon, as host names do not):
    every configured model has a client, submitting to the shared request queue
    and reading the replica's own result route; no route is read by two
    replicas; and with the Redis transport the recovery client that one replica
    builds for the other reads exactly the route the other one reads. *)
Theorem result_routes env1 env2 c1 c2 config l1 l2 s1 s2 s1' s2' r1 r2 :
  NewAsyncResolver env1 c1 config l1 s1 = (s1', Ok r1) → NewAsyncResolver env2 c2 config l2 s2 = (s2', Ok r2) →
  l1 ≡ₚ map_to_list (ac_Models config) → l2 ≡ₚ map_to_list (ac_Models config) →
  ":"%char ∉ list_ascii_of_string c1 → ":"%char ∉ list_ascii_of_string c2 →
  (∀ model, is_Some (SharedClientFor r1 model) ↔ is_Some (ac_Models config !! model)) ∧
  (∀ model p1 p2, SharedClientFor r1 model = Some p1 → SharedClientFor r2 model = Some p2 → ap_requests p1 = ap_requests p2) ∧
  (∀ m1 m2 p1 p2, SharedClientFor r1 m1 = Some p1 → SharedClientFor r2 m2 = Some p2 →
     ap_results p1 = ap_results p2 → c1 = c2) ∧
  (SupportsResultRecovery r2 = true → ∀ model p1, SharedClientFor r1 model = Some p1 →
     RecoveryClientFor r2 model c1 = Ok (ap_results p1)).
Proof.
  intros H1 H2 P1 P2 N1 N2. apply NewAsyncResolver_ok in H1 as (A1 & B1 & T1 & R1); [|done].
  apply NewAsyncResolver_ok in H2 as (A2 & B2 & T2 & R2); [|done].
  assert (Hp : ∀ model p1, SharedClientFor r1 model = Some p1 → ∃ m, ac_Models config !! model = Some m ∧
    p1 = {| ap_requests := request_queue m; ap_results := route (route_base m) c1 |}).
  { intros model p1 Hs. destruct (ac_Models config !! model) as [m|] eqn:E; [|destruct (B1 _ E); congruence].
    destruct (A1 _ _ E) as [_ E']. exists m. split; [done|congruence]. }
  assert (Hq : ∀ model p2, SharedClientFor r2 model = Some p2 → ∃ m, ac_Models config !! model = Some m ∧
    p2 = {| ap_requests := request_queue m; ap_results := route (route_base m) c2 |}).
  { intros model p2 Hs. destruct (ac_Models config !! model) as [m|] eqn:E; [|destruct (B2 _ E); congruence].
    destruct (A2 _ _ E) as [_ E']. exists m. split; [done|congruence]. }
  split_and!.
  - intros model. split; [intros [p (m & Hm & _)%Hp]; eauto|]. intros [m Hm]. destruct (A1 _ _ Hm) as [_ E]. eauto.
  - intros model p1 p2 (m & Hm & ->)%Hp (m' & Hm' & ->)%Hq. cbn. congruence.
  - intros m1 m2 p1 p2 (m & Hm & ->)%Hp (m' & Hm' & ->)%Hq. cbn. intros E. by apply route_inj in E as [_ ->].
  - intros Hsup model p1 (m & Hm & ->)%Hp. unfold RecoveryClientFor. destruct (A2 _ _ Hm) as [-> _].
    unfold SupportsResultRecovery in Hsup. by rewrite R2, Hsup.
Qed.

(** ** [NewClientset] *)
Inductive Component := ComponentApiserver | ComponentProcessor | ComponentGC | OtherComponent.
(** Outcomes of the constructors. *)
Record ClientsetEnv := {
  ce_File : result unit; ce_BatchDB : result unit; ce_FileDB : result unit; ce_Hostname : result string;
  ce_Queue : result unit; ce_Resumable : result unit; ce_Event : result unit; ce_EventGC : result unit;
  ce_Async : AsyncEnv; ce_RedisSecret : result unit; ce_Build : GatewayClientConfig → result unit }.
Inductive InferenceOption :=
| NoInference
| AsyncInference (consumerID : string) (config : AsyncClientConfig) (entries : list (string * AsyncModelPoolConfig))
| GlobalInference (config : GatewayClientConfig)
| PerModelInference (entries : list (string * GatewayClientConfig)).
(** The types of the file and database clients, when asked for. *)
Record ClientsetConfig := { cs_fileType : option string; cs_dbType : option string; cs_inference : InferenceOption }.
(** The handles a client set closes, in the order [Close] visits them. *)
Record Clientset := {
  cl_handles : list string; cl_Inference : option GatewayResolver; cl_AsyncInference : option AsyncGatewayResolver }.
Definition empty_clientset : Clientset := {| cl_handles := []; cl_Inference := None; cl_AsyncInference := None |}.
Definition add_handle (name : string) (cs : Clientset) : Clientset :=
  {| cl_handles := (cl_handles cs ++ [name])%list; cl_Inference := cl_Inference cs; cl_AsyncInference := cl_AsyncInference cs |}.
Definition clientset_Close (cs : Clientset) (s : Handles) : Handles :=
  let s := close_all (cl_handles cs) s in
  match cl_AsyncInference cs with Some r => async_Close r s | None => s end.

(** The two database clients; when the second fails the first is returned to
    nobody. *)
Definition NewPostgreSQLDBClients (env : ClientsetEnv) : M Handles unit :=
  acquire_handle "batchDB" (ce_BatchDB env) ;;; acquire_handle "fileDB" (ce_FileDB env).

(** A step of the construction: it extends the client set, or fails, upon which
    the deferred function closes what the client set holds by then. *)
Definition Build := Clientset → M Handles Clientset.
Definition then_build (b1 b2 : Build) : Build := λ cs, bindM (b1 cs) b2.
Definition failing (e : err) : Build := λ cs s, (clientset_Close cs s, Err e).
Definition opening (name : string) (outcome : result unit) : Build := λ cs s,
  match acquire_handle name outcome s with
  | (s1, Err e) => failing e cs s1
  | (s1, Ok _) => (s1, Ok (add_handle name cs))
  end.
Definition done_building : Build := λ cs, ret cs.

Definition build_file (env : ClientsetEnv) (cfg : ClientsetConfig) : Build :=
  match cs_fileType cfg with
  | None => done_building
  | Some t => if bool_decide (t ∈ ["fs"; "s3"]) then opening "file" (ce_File env)
              else failing (ErrOther "unsupported file_client.type")
  end.
Definition build_events (env : ClientsetEnv) (component : Component) : Build :=
  match component with
  | ComponentProcessor | ComponentApiserver => opening "event" (ce_Event env)
  | ComponentGC => match ce_EventGC env with Ok _ => done_building | Err e => failing e end
  | OtherComponent => failing (ErrOther "unsupported component for postgres events")
  end.
Definition build_db (env : ClientsetEnv) (component : Component) (cfg : ClientsetConfig) : Build :=
  match cs_dbType cfg with
  | None => done_building
  | Some t =>
      if bool_decide (t ≠ "postgresql") then failing (ErrOther "unsupported database.type")
      else
        then_build (λ cs s, match NewPostgreSQLDBClients env s with
                            | (s1, Err e) => failing e cs s1
                            | (s1, Ok _) => (s1, Ok (add_handle "fileDB" (add_handle "batchDB" cs)))
                            end)
       (then_build (match component, ce_Hostname env with
                    | ComponentProcessor, Err e => failing e
                    | _, _ => done_building
                    end)
       (then_build (opening "queue" (ce_Queue env))
       (then_build (match component with
                    | ComponentProcessor | ComponentGC => opening "resumable" (ce_Resumable env)
                    | _ => done_building
                    end)
                   (build_events env component))))
  end.
Definition build_inference (env : ClientsetEnv) (cfg : ClientsetConfig) : Build := λ cs s,
  match cs_inference cfg with
  | NoInference => (s, Ok cs)
  | AsyncInference consumerID config entries =>
      match NormalizeAsyncTransport (ac_Transport config) with
      | Err e => failing e cs s
      | Ok transport =>
          let ready := if bool_decide (transport = AsyncTransportRedisSortedSet) then ce_RedisSecret env
                       else if bool_decide (cs_dbType cfg = Some "postgresql") then Ok tt
                       else Err (ErrOther "async SQL transport requires a PostgreSQL database client") in
          match ready with
          | Err e => failing e cs s
          | Ok _ =>
              match NewAsyncResolver (ce_Async env) consumerID config entries s with
              | (s1, Err e) => failing e cs s1
              | (s1, Ok r) => (s1, Ok {| cl_handles := cl_handles cs; cl_Inference := None; cl_AsyncInference := Some r |})
              end
          end
      end
  | GlobalInference config =>
      match NewGlobalResolver (ce_Build env) config with
      | Err e => failing e cs s
      | Ok r => (s, Ok {| cl_handles := cl_handles cs; cl_Inference := Some r; cl_AsyncInference := None |})
      end
  | PerModelInference entries =>
      if bool_decide (entries = []) then (s, Ok cs)
      else match NewPerModelResolver (ce_Build env) entries with
      | Err e => failing e cs s
      | Ok r => (s, Ok {| cl_handles := cl_handles cs; cl_Inference := Some r; cl_AsyncInference := None |})
      end
  end.
Definition NewClientset (env : ClientsetEnv) (component : Component) (cfg : ClientsetConfig) : M Handles Clientset :=
  then_build (build_file env cfg) (then_build (build_db env component cfg) (build_inference env cfg)) empty_clientset.

(** *** Nothing is leaked *)
Abbreviation names l := (list_to_set l : gset string).
Lemma acquire_law name o s s' r : acquire_handle name o s = (s', r) →
  match r with Ok _ => s' = {[name]} ∪ s | Err _ => s' = s end.
Proof. unfold acquire_handle. destruct o; by intros [= <- <-]. Qed.
Lemma build_pools_handles env c rdb entries pools bases closers (base s s' : Handles) r :
  build_pools env c rdb entries pools bases closers s = (s', r) → s ⊆ base ∪ names closers ∪ names rdb →
  match r with Ok (_, _, closers') => s' ⊆ base ∪ names closers' ∪ names rdb | Err _ => s' ⊆ base end.
Proof.
  revert pools bases closers s. induction entries as [|[md m] entries IH]; intros pools bases closers s; cbn [build_pools].
  { by intros [= <- <-]. }
  destruct (acquire_handle _ _ s) as [s1 [u|e]] eqn:Ha; apply acquire_law in Ha; cbn in Ha; intros Hb Hs.
  - eapply IH; [exact Hb|]. rewrite list_to_set_app_L. set_solver.
  - injection Hb as <- <-. subst s1. unfold close_all. rewrite list_to_set_app_L. set_solver.
Qed.
Lemma NewAsyncResolver_handles env c config entries (s s' : Handles) r :
  NewAsyncResolver env c config entries s = (s', r) →
  match r with Ok r => s' ⊆ s ∪ names (ar_closers r) | Err _ => s' ⊆ s end.
Proof.
  unfold NewAsyncResolver. case_bool_decide; [by intros [= <- <-]|]. destruct (NormalizeAsyncTransport _) as [t|]; [|by intros [= <- <-]].
  cbv zeta. destruct (bool_decide (t = AsyncTransportRedisSortedSet)); cbn [negb andb].
  - destruct (acquire_handle "redis" _ s) as [s1 [u|e]] eqn:H1; apply acquire_law in H1; subst s1; [|by intros [= <- <-]].
    destruct (negb _); [intros [= <- <-]; unfold close_all; set_solver|].
    destruct (_ <=? 0); [intros [= <- <-]; unfold close_all; set_solver|]. cbn [ret].
    destruct (build_pools _ _ _ _ _ _ _ _) as [s3 r3] eqn:Hb. apply (build_pools_handles _ _ _ _ _ _ _ s) in Hb; [|set_solver].
    destruct r3 as [[[pools bases] closers]|e]; intros [= <- <-]; [|done]. cbn. rewrite list_to_set_app_L. set_solver.
  - case_bool_decide; [by intros [= <- <-]|]. cbn [ret]. destruct (negb (pools_unique _ _)); [intros [= <- <-]; unfold close_all; set_solver|].
    destruct (_ <=? 0); [intros [= <- <-]; unfold close_all; set_solver|].
    destruct (negb (bool_decide (entries = []))).
    + destruct (acquire_handle "sqlqueue" _ s) as [s2 [u|e]] eqn:H2; apply acquire_law in H2; subst s2; [|by intros [= <- <-]].
      destruct (build_pools _ _ _ _ _ _ _ _) as [s3 r3] eqn:Hb. apply (build_pools_handles _ _ _ _ _ _ _ s) in Hb; [|set_solver].
      destruct r3 as [[[pools bases] closers]|e]; intros [= <- <-]; [|done]. cbn. rewrite list_to_set_app_L. set_solver.
    + cbn [ret]. destruct (build_pools _ _ _ _ _ _ _ _) as [s3 r3] eqn:Hb. apply (build_pools_handles _ _ _ _ _ _ _ s) in Hb; [|set_solver].
      destruct r3 as [[[pools bases] closers]|e]; intros [= <- <-]; [|done]. cbn. rewrite list_to_set_app_L. set_solver.
Qed.

(** What is open belongs to the client set; a step keeps that, and leaves
    nothing open when it fails. *)
Definition held (cs : Clientset) (s : Handles) : Prop :=
  s ⊆ names (cl_handles cs) ∪ match cl_AsyncInference cs with Some r => names (ar_closers r) | None => ∅ end.
Definition safe_step (b : Build) : Prop := ∀ cs s s' r, held cs s → cl_AsyncInference cs = None → b cs s = (s', r) →
  match r with Ok cs' => held cs' s' ∧ cl_AsyncInference cs' = None | Err _ => s' = ∅ end.
Lemma close_held cs s : held cs s → clientset_Close cs s = ∅.
Proof. unfold held, clientset_Close, async_Close, close_all. destruct (cl_AsyncInference cs); set_solver. Qed.
Lemma safe_failing e : safe_step (failing e).
Proof. intros cs s s' r Hh _ [= <- <-]. by apply close_held. Qed.
Lemma safe_done : safe_step done_building.
Proof. by intros cs s s' r Hh Ha [= <- <-]. Qed.
Lemma safe_opening name o : safe_step (opening name o).
Proof.
  intros cs s s' r Hh Ha. unfold opening. destruct (acquire_handle _ _ s) as [s1 [u|e]] eqn:H1; apply acquire_law in H1; subst s1.
  - intros [= <- <-]. unfold held in *. cbn. rewrite Ha, list_to_set_app_L in *. split; [set_solver|done].
  - by apply safe_failing.
Qed.
Lemma safe_then b1 b2 : safe_step b1 → safe_step b2 → safe_step (then_build b1 b2).
Proof.
  intros H1 H2 cs s s' r Hh Ha. unfold then_build, bindM. destruct (b1 cs s) as [s1 [cs1|e]] eqn:E;
    specialize (H1 _ _ _ _ Hh Ha E); cbn in H1; [destruct H1; by apply H2|by intros [= <- <-]].
Qed.
Create HintDb building.
#[local] Hint Resolve safe_failing safe_done safe_opening safe_then : building.

Lemma safe_db env component cfg : is_ok (ce_BatchDB env) = false ∨ is_ok (ce_FileDB env) = true →
  safe_step (build_db env component cfg).
Proof.
  intros Hdb. unfold build_db, build_events. destruct (cs_dbType cfg); [|auto with building]. case_bool_decide; [auto with building|].
  apply safe_then; [|destruct component, (ce_Hostname env), (ce_EventGC env); auto 10 with building].
  intros cs s' s'' r Hh Ha. unfold NewPostgreSQLDBClients, bindM.
  destruct (acquire_handle "batchDB" _ _) as [s1 [u|e]] eqn:H1; [|apply acquire_law in H1; subst; by apply safe_failing].
  pose proof H1 as H1'. apply acquire_law in H1; subst s1. destruct (acquire_handle "fileDB" _ _) as [s2 [u'|e]] eqn:H2.
  - apply acquire_law in H2; subst s2. intros [= <- <-]. unfold held in *. cbn. rewrite Ha, !list_to_set_app_L in *. split; [set_solver|done].
  - exfalso. unfold acquire_handle in H1', H2. destruct (ce_BatchDB env), (ce_FileDB env); cbn in Hdb; naive_solver.
Qed.

(** Building the client set is all or nothing: if it fails, at whatever
    client, nothing that was opened on the way stays open, provided the file
    database client does not fail after the batch database client; if it
    succeeds, [Close] releases everything. *)
Theorem clientset_leaks_nothing env component cfg s' r :
  is_ok (ce_BatchDB env) = false ∨ is_ok (ce_FileDB env) = true →
  NewClientset env component cfg ∅ = (s', r) →
  match r with Ok cs => clientset_Close cs s' = ∅ | Err _ => s' = ∅ end.
Proof.
  intros Hdb. unfold NewClientset, then_build, bindM.
  assert (Hf : safe_step (build_file env cfg)).
  { unfold build_file. destruct (cs_fileType cfg); [case_bool_decide|]; auto with building. }
  assert (H0 : held empty_clientset ∅) by done.
  destruct (build_file env cfg empty_clientset ∅) as [s1 [cs1|e]] eqn:E1; specialize (Hf _ _ _ _ H0 eq_refl E1); cbn in Hf;
    [destruct Hf as [Hh1 Ha1]|by intros [= <- <-]].
  pose proof (safe_db env component cfg Hdb) as Hd.
  destruct (build_db env component cfg cs1 s1) as [s2 [cs2|e]] eqn:E2; specialize (Hd _ _ _ _ Hh1 Ha1 E2); cbn in Hd;
    [destruct Hd as [Hh2 Ha2]|by intros [= <- <-]].
  assert (Hkeep : ∀ g, held {| cl_handles := cl_handles cs2; cl_Inference := g; cl_AsyncInference := None |} s2)
    by (intros g; unfold held in *; by rewrite Ha2 in Hh2).
  unfold build_inference, failing. destruct (cs_inference cfg) as [|cid config l|g|l].
  - intros [= <- <-]. by apply close_held.
  - destruct (NormalizeAsyncTransport _); [|intros [= <- <-]; by apply close_held].
    cbv zeta. destruct (if bool_decide _ then _ else _); [|intros [= <- <-]; by apply close_held].
    destruct (NewAsyncResolver _ _ _ _ s2) as [s3 [ra|e]] eqn:E3; apply NewAsyncResolver_handles in E3; intros [= <- <-];
      apply close_held; unfold held in *; cbn; rewrite Ha2 in Hh2; rewrite ?Ha2; set_solver.
  - destruct (NewGlobalResolver _ _); intros [= <- <-]; by apply close_held.
  - case_bool_decide; [intros [= <- <-]; by apply close_held|].
    destruct (NewPerModelResolver _ _); intros [= <- <-]; by apply close_held.
Qed.

(** When the file database client cannot be created, the batch database
    client created just before it is dropped without being closed: the failed
    construction leaves its connection pool open. *)
Theorem file_db_failure_leaks env component cfg e :
  cs_dbType cfg = Some "postgresql" → is_ok (ce_File env) = true →
  cs_fileType cfg = Some "fs" ∨ cs_fileType cfg = Some "s3" →
  ce_BatchDB env = Ok tt → ce_FileDB env = Err e →
  NewClientset env component cfg ∅ = ({["batchDB"]}, Err e).
Proof.
  intros Hdb Hfile Hft Hb Hf. unfold NewClientset, then_build, bindM, build_file, build_db, opening, acquire_handle.
  rewrite Hdb. assert (∃ t, cs_fileType cfg = Some t ∧ t ∈ ["fs"; "s3"]) as (t & -> & Hin) by (destruct Hft as [-> | ->]; eexists; (split; [done|set_solver])).
  rewrite bool_decide_eq_true_2 by done. destruct (ce_File env) as [[]|]; [|done].
  rewrite bool_decide_eq_false_2 by naive_solver. unfold NewPostgreSQLDBClients, bindM, acquire_handle, failing. rewrite Hb, Hf.
  reflexivity.
Qed.
