(* ===== verification/Routes.v ===== *)
(** * Recovery routes shared by the jobs of a processor

    [processor/worker/broadcasters.go]: the registry of result broadcasters.
    Besides its own routes a processor reads the routes of previous submitters
    while a job recovers their in-flight requests; jobs that need the same
    route share one broadcaster, counted by references.

    Every method holds the registry's mutex, so it is one step; jobs take and
    release their routes concurrently, so a run is any sequence of steps.
    [holds] records what the running jobs hold: the keys of their [acquired]
    lists with the broadcaster they got, which their release function drops one
    by one.  Whether a route can be built is decided by the environment. *)

From Stdlib Require Import ZArith Lia.
From stdpp Require Import base gmap strings list.
From S2P Require Import Prelude.
Local Open Scope Z_scope.

(** [recoveryRouteKey]: model and consumer. *)
Abbreviation recoveryRouteKey := (string * string)%type.
(** A broadcaster is known by a number; its receive loop runs from the first
    [start] until it is cancelled. *)
Record recoveryBroadcaster := { rb_b : nat; rb_refs : Z; rb_started : bool }.
Record Registry := { rg_recovery : gmap recoveryRouteKey recoveryBroadcaster; rg_next : nat; rg_running : gset nat }.
Definition newBroadcasterRegistry : Registry := {| rg_recovery := ∅; rg_next := 0; rg_running := ∅ |}.

(** [available]: the base context is live and the recovery client was built. *)
Definition acquireRecovery (available : bool) (key : recoveryRouteKey) (r : Registry) : Registry * option nat :=
  match rg_recovery r !! key with
  | Some rb =>
      ({| rg_recovery := <[key := {| rb_b := rb_b rb; rb_refs := rb_refs rb + 1; rb_started := rb_started rb |}]> (rg_recovery r);
          rg_next := rg_next r; rg_running := rg_running r |}, Some (rb_b rb))
  | None =>
      if available then
        ({| rg_recovery := <[key := {| rb_b := rg_next r; rb_refs := 1; rb_started := false |}]> (rg_recovery r);
            rg_next := S (rg_next r); rg_running := rg_running r |}, Some (rg_next r))
      else (r, None)
  end.
(** [rb.start], under its [sync.Once]; a loop that was cancelled before it
    started ends at once. *)
Definition start (b : nat) (r : Registry) : Registry :=
  match find (λ kv : recoveryRouteKey * recoveryBroadcaster, bool_decide (rb_b kv.2 = b)) (map_to_list (rg_recovery r)) with
  | Some (key, rb) =>
      if rb_started rb then r
      else {| rg_recovery := <[key := {| rb_b := b; rb_refs := rb_refs rb; rb_started := true |}]> (rg_recovery r);
              rg_next := rg_next r; rg_running := {[b]} ∪ rg_running r |}
  | None => r
  end.
Definition releaseRecovery (key : recoveryRouteKey) (r : Registry) : Registry :=
  match rg_recovery r !! key with
  | None => r
  | Some rb =>
      if rb_refs rb <=? 0 then r
      else if 0 <? rb_refs rb - 1 then
        {| rg_recovery := <[key := {| rb_b := rb_b rb; rb_refs := rb_refs rb - 1; rb_started := rb_started rb |}]> (rg_recovery r);
           rg_next := rg_next r; rg_running := rg_running r |}
      else {| rg_recovery := delete key (rg_recovery r); rg_next := rg_next r; rg_running := rg_running r ∖ {[rb_b rb]} |}
  end.
(** The routes [forModels] acquires for a job, in order. *)
Definition forModels_keys (models submitters : list string) : list recoveryRouteKey :=
  mjoin ((λ consumer, if bool_decide (consumer = ""%string) then [] else (λ m, (m, consumer)) <$> models) <$> submitters).

Record Routes := { rt_registry : Registry; rt_holds : list (recoveryRouteKey * nat) }.
Inductive act := Acquire (available : bool) (key : recoveryRouteKey) | Start (i : nat) | Release (i : nat).
Definition step (a : act) (s : Routes) : option Routes :=
  match a with
  | Acquire available key =>
      let '(r, b) := acquireRecovery available key (rt_registry s) in
      Some {| rt_registry := r; rt_holds := match b with Some b => (key, b) :: rt_holds s | None => rt_holds s end |}
  | Start i => match rt_holds s !! i with
               | Some (_, b) => Some {| rt_registry := start b (rt_registry s); rt_holds := rt_holds s |}
               | None => None
               end
  | Release i => match rt_holds s !! i with
                 | Some (key, _) => Some {| rt_registry := releaseRecovery key (rt_registry s);
                                            rt_holds := delete i (rt_holds s) |}
                 | None => None
                 end
  end.
Fixpoint run (l : list act) (s : Routes) : option Routes :=
  match l with [] => Some s | a :: l' => match step a s with Some s' => run l' s' | None => None end end.
Definition initial : Routes := {| rt_registry := newBroadcasterRegistry; rt_holds := [] |}.

(** ** Invariant *)
Definition refs_of (key : recoveryRouteKey) (holds : list (recoveryRouteKey * nat)) : list (recoveryRouteKey * nat) :=
  filter (λ h, h.1 = key) holds.
#[local] Arguments refs_of : simpl never.
Record routes_wf (s : Routes) : Prop := {
  rw_refs key rb : rg_recovery (rt_registry s) !! key = Some rb →
    rb_refs rb = Z.of_nat (length (refs_of key (rt_holds s))) ∧ 0 < rb_refs rb ∧ (rb_b rb < rg_next (rt_registry s))%nat;
  rw_held key b : (key, b) ∈ rt_holds s → ∃ rb, rg_recovery (rt_registry s) !! key = Some rb ∧ rb_b rb = b;
  rw_unique k1 k2 r1 r2 : rg_recovery (rt_registry s) !! k1 = Some r1 → rg_recovery (rt_registry s) !! k2 = Some r2 →
    rb_b r1 = rb_b r2 → k1 = k2;
  rw_running b : b ∈ rg_running (rt_registry s) ↔
    ∃ key rb, rg_recovery (rt_registry s) !! key = Some rb ∧ rb_b rb = b ∧ rb_started rb = true }.

#[export] Instance refs_of_proper key : Proper (Permutation ==> Permutation) (refs_of key).
Proof. intros l1 l2 H. unfold refs_of. by rewrite H. Qed.
Lemma refs_of_cons key h holds :
  length (refs_of key (h :: holds)) = ((if decide (h.1 = key) then 1 else 0) + length (refs_of key holds))%nat.
Proof. unfold refs_of. rewrite filter_cons. by case_decide. Qed.
Lemma refs_of_delete key i k b holds : holds !! i = Some (k, b) →
  length (refs_of key holds) = ((if decide (k = key) then 1 else 0) + length (refs_of key (delete i holds)))%nat.
Proof.
  intros Hi. rewrite (delete_Permutation holds i (k, b) Hi) at 1. apply (refs_of_cons key (k, b)).
Qed.

Lemma acquire_wf available key s s' : routes_wf s → step (Acquire available key) s = Some s' → routes_wf s'.
Proof.
  intros [H1 H2 H3 H4]. cbn. unfold acquireRecovery. destruct (rg_recovery (rt_registry s) !! key) as [rb|] eqn:E.
  - intros [= <-]. split; cbn.
    + intros k rb'. destruct (decide (key = k)) as [<- | Hne].
      * rewrite lookup_insert_eq. intros [= <-]. cbn. destruct (H1 _ _ E) as (? & ? & ?). rewrite refs_of_cons. cbn. rewrite decide_True by done. lia.
      * rewrite lookup_insert_ne by done. intros Hk. rewrite refs_of_cons. cbn. rewrite decide_False by done. by apply H1.
    + intros k b [[= -> ->] | Hin]%elem_of_cons; [eexists; by rewrite lookup_insert_eq|].
      destruct (H2 _ _ Hin) as (rb' & Hk & <-). destruct (decide (key = k)) as [<- | Hne]; [|exists rb'; by rewrite lookup_insert_ne].
      eexists. rewrite lookup_insert_eq. split; [done|]. cbn. congruence.
    + intros k1 k2 r1 r2. rewrite !lookup_insert_Some. intros [[<- <-] | [? Hk1]] [[<- <-] | [? Hk2]]; cbn; eauto.
    + intros b. rewrite H4. split; intros (k & rb' & Hk & Hb & Hst).
      * destruct (decide (key = k)) as [<- | Hne]; [|exists k, rb'; by rewrite lookup_insert_ne].
        eexists key, _. rewrite lookup_insert_eq. split; [done|]. rewrite E in Hk. injection Hk as ->. done.
      * apply lookup_insert_Some in Hk as [[<- <-] | [? Hk]]; eauto.
  - destruct available; intros [= <-]; [|by split]. split; cbn.
    + intros k rb'. destruct (decide (key = k)) as [<- | Hne].
      * rewrite lookup_insert_eq. intros [= <-]. cbn. rewrite refs_of_cons. cbn. rewrite decide_True by done.
        assert (refs_of key (rt_holds s) = []) as ->; [|cbn; lia].
        destruct (refs_of key (rt_holds s)) as [|[k b] l] eqn:El; [done|]. exfalso.
        assert ((k, b) ∈ refs_of key (rt_holds s)) as [Hk Hin]%list_elem_of_filter by (rewrite El; by left). cbn in Hk. subst k.
        destruct (H2 _ _ Hin) as (? & ? & _). congruence.
      * rewrite lookup_insert_ne by done. intros Hk. rewrite refs_of_cons. cbn. rewrite decide_False by done.
        destruct (H1 _ _ Hk) as (? & ? & ?). split_and!; [done|done|lia].
    + intros k b [[= -> ->] | Hin]%elem_of_cons; [eexists; by rewrite lookup_insert_eq|].
      destruct (H2 _ _ Hin) as (rb' & Hk & <-). exists rb'. rewrite lookup_insert_ne; [done|]. intros <-. congruence.
    + intros k1 k2 r1 r2. rewrite !lookup_insert_Some. intros [[<- <-] | [? Hk1]] [[<- <-] | [? Hk2]]; cbn; intros Hb; try done; eauto;
        [destruct (H1 _ _ Hk2) as (_ & _ & ?)|destruct (H1 _ _ Hk1) as (_ & _ & ?)]; lia.
    + intros b. rewrite H4. split; intros (k & rb' & Hk & Hb & Hst).
      * exists k, rb'. rewrite lookup_insert_ne; [done|]. intros <-. congruence.
      * apply lookup_insert_Some in Hk as [[<- <-] | [? Hk]]; [done|eauto].
Qed.

Lemma start_wf i s s' : routes_wf s → step (Start i) s = Some s' → routes_wf s'.
Proof.
  intros [H1 H2 H3 H4]. cbn. destruct (rt_holds s !! i) as [[k0 b]|]; [|done]. intros [= <-]. unfold start.
  destruct (find _ _) as [[key rb]|] eqn:Ef; [|by split]. apply find_some in Ef as [Hin Hb%bool_decide_eq_true].
  apply list_elem_of_In, elem_of_map_to_list in Hin. cbn in Hb. subst b. destruct (rb_started rb) eqn:Est; [by split|]. split; cbn.
  - intros k rb'. destruct (decide (key = k)) as [<- | Hne]; [rewrite lookup_insert_eq; intros [= <-]; exact (H1 _ _ Hin)|].
    rewrite lookup_insert_ne by done. apply H1.
  - intros k b Hk. destruct (H2 _ _ Hk) as (rb' & Hl & <-). destruct (decide (key = k)) as [<- | Hne]; [|exists rb'; by rewrite lookup_insert_ne].
    eexists. rewrite lookup_insert_eq. split; [done|]. cbn. congruence.
  - intros k1 k2 r1 r2. rewrite !lookup_insert_Some. intros [[<- <-] | [? Hk1]] [[<- <-] | [? Hk2]]; cbn; eauto.
  - intros b. rewrite elem_of_union, elem_of_singleton, H4. split.
    + intros [-> | (k & rb' & Hk & Hb & Hst)]; [eexists key, _; rewrite lookup_insert_eq; done|].
      destruct (decide (key = k)) as [<- | Hne]; [congruence|]. exists k, rb'. by rewrite lookup_insert_ne.
    + intros (k & rb' & [[<- <-] | [? Hk]]%lookup_insert_Some & Hb & Hst); [by left|right; eauto].
Qed.

Lemma release_wf i s s' : routes_wf s → step (Release i) s = Some s' → routes_wf s'.
Proof.
  intros [H1 H2 H3 H4]. cbn. destruct (rt_holds s !! i) as [[key b]|] eqn:Ei; [|done]. intros [= <-]. unfold releaseRecovery.
  destruct (H2 key b) as (rb & E & Hb); [by eapply list_elem_of_lookup_2|]. rewrite E. destruct (H1 _ _ E) as (Href & Hpos & Hn).
  pose proof (λ k, refs_of_delete k i key b _ Ei) as Hcount.
  assert (Hin : ∀ h, h ∈ delete i (rt_holds s) → h ∈ rt_holds s).
  { intros h Hh. rewrite (delete_Permutation _ _ _ Ei). by right. }
  rewrite (proj2 (Z.leb_gt _ _)) by lia. destruct (Z.ltb_spec 0 (rb_refs rb - 1)) as [Hgt | Hle]; split; cbn.
  - intros k rb'. rewrite lookup_insert_Some. specialize (Hcount k). intros [[<- <-] | [Hne Hk]].
    + rewrite decide_True in Hcount by done. cbn. split_and!; lia.
    + rewrite decide_False in Hcount by done. destruct (H1 _ _ Hk) as (? & ? & ?). split_and!; lia.
  - intros k b' (rb' & Hk & <-)%Hin%H2. destruct (decide (key = k)) as [<- | Hne]; [|exists rb'; by rewrite lookup_insert_ne].
    eexists. rewrite lookup_insert_eq. split; [done|]. cbn. congruence.
  - intros k1 k2 r1 r2. rewrite !lookup_insert_Some. intros [[<- <-] | [? Hk1]] [[<- <-] | [? Hk2]]; cbn; eauto.
  - intros b'. rewrite H4. split; intros (k & rb' & Hk & Hb' & Hst).
    + destruct (decide (key = k)) as [<- | Hne]; [|exists k, rb'; by rewrite lookup_insert_ne].
      eexists key, _. rewrite lookup_insert_eq. split; [done|]. rewrite E in Hk. injection Hk as ->. done.
    + apply lookup_insert_Some in Hk as [[<- <-] | [? Hk]]; eauto.
  - intros k rb'. rewrite lookup_delete_Some. intros [Hne Hk]. specialize (Hcount k). rewrite decide_False in Hcount by done.
    destruct (H1 _ _ Hk) as (? & ? & ?). split_and!; lia.
  - intros k b' Hk. destruct (H2 _ _ (Hin _ Hk)) as (rb' & Hl & <-). exists rb'. rewrite lookup_delete_ne; [done|]. intros <-.
    specialize (Hcount key). rewrite decide_True in Hcount by done.
    assert (refs_of key (delete i (rt_holds s)) = []) as Hnil by (apply length_zero_iff_nil; lia).
    assert ((key, rb_b rb') ∈ refs_of key (delete i (rt_holds s))) as Hx by by apply list_elem_of_filter. rewrite Hnil in Hx. set_solver.
  - intros k1 k2 r1 r2. rewrite !lookup_delete_Some. intros [_ ?] [_ ?]. eauto.
  - intros b'. rewrite elem_of_difference, elem_of_singleton, H4. split.
    + intros [(k & rb' & Hk & <- & Hst) Hne]. exists k, rb'. rewrite lookup_delete_ne; [done|]. intros <-. congruence.
    + intros (k & rb' & [Hne Hk]%lookup_delete_Some & <- & Hst). split; [eauto|]. intros Hbb. apply Hne. by eapply H3.
Qed.

Lemma routes_run_wf l s s' : routes_wf s → run l s = Some s' → routes_wf s'.
Proof.
  revert s. induction l as [|a l IH]; intros s Hwf; cbn; [by intros [= <-]|].
  destruct (step a s) as [s1|] eqn:Hs; [|done]. apply IH.
  destruct a; [by eapply acquire_wf|by eapply start_wf|by eapply release_wf].
Qed.
Lemma initial_wf : routes_wf initial.
Proof. split; cbn; set_solver. Qed.

