(* ===== verification/GatewayRuns.v ===== *)
(** * Runs of the gateways

    Concrete configurations, resolvers and interleavings that instantiate the
    theorems of [Gateways.v] and [Routes.v]. *)

From Stdlib Require Import ZArith Lia Ascii String.
From stdpp Require Import base gmap strings list pretty.
From S2P Require Import Prelude Openai Store Preprocess Semaphore Flow Throttle Rest Config S3 Buckets Gateways Routes.
Local Open Scope string_scope.
Local Open Scope Z_scope.

Module GatewayRuns.
Definition always {A} (_ : A) : result unit := Ok tt.
Definition client_config (key : string) : GatewayClientConfig :=
  {| gc_URL := "http://gw"; gc_APIKey := key; gc_Timeout := Minute; gc_MaxRetries := 3; gc_InitialBackoff := Second;
     gc_MaxBackoff := Minute; gc_TLSInsecureSkipVerify := false; gc_TLSCACertFile := ""; gc_TLSClientCertFile := "";
     gc_TLSClientKeyFile := "" |}.
(** Two models with one key, a third with another key for the same URL. *)
Definition configs : gmap string GatewayClientConfig :=
  {["a" := client_config "k1"; "b" := client_config "k1"; "c" := client_config "k2"]}.
Definition resolver : GatewayResolver :=
  match NewPerModelResolver always (map_to_list configs) with
  | Ok r => r
  | Err _ => {| gr_globalClient := None; gr_modelClients := ∅; gr_clientURLs := ∅ |}
  end.
Lemma resolver_shares_clients_run :
  ClientFor resolver "a" = ClientFor resolver "b" ∧ ClientFor resolver "a" ≠ ClientFor resolver "c" ∧
  length (Clients resolver) = 2%nat.
Proof.
  destruct (resolver_shares_clients always configs (map_to_list configs) resolver (Permutation_refl _)
    ltac:(vm_compute; reflexivity)) as (_ & Hshare & _).
  split; [|split; [|vm_compute; reflexivity]].
  - apply (Hshare "a" "b" (client_config "k1") (client_config "k1")); reflexivity.
  - intros E. apply (Hshare "a" "c" (client_config "k1") (client_config "k2")) in E; [discriminate E|reflexivity..].
Defined.

(** The default configuration with a gateway for one model. *)
Definition cfg : ProcessorConfig :=
  {| pc_ExtraEndpoints := []; pc_TaskWaitTime := Second; pc_NumWorkers := 5; pc_WorkDirSizeLimit := "10Gi";
     pc_InputFileDiskBudgetPercent := 10; pc_MaxInputFileSizeBytes := 209715200; pc_Concurrency := pc_Concurrency NewConfig;
     pc_PollInterval := 5 * Second; pc_QueueTimeBucket := pc_QueueTimeBucket NewConfig;
     pc_ProcessTimeBucket := pc_ProcessTimeBucket NewConfig; pc_E2ELatencyBucket := pc_E2ELatencyBucket NewConfig;
     pc_Addr := ":9090"; pc_ShutdownTimeout := 30 * Second; pc_WorkDir := "/work"; pc_GlobalInferenceGateway := None;
     pc_ModelGateways := {["m" := ConfigRuns.gateway]}; pc_RouteKeyMethod := ""; pc_DefaultOutputExpirationSeconds := 0;
     pc_ProgressUpdateInterval := Second; pc_SendFairnessHeader := false; pc_FileRetry := pc_FileRetry NewConfig;
     pc_DispatchMode := "sync"; pc_AsyncDispatch := pc_AsyncDispatch NewConfig; pc_Resumable := pc_Resumable NewConfig |}.
Definition no_secret (_ : string) : result string := Ok "".
Definition half : Float.float64 := {| Float.mant := 1; Float.expo := -1 |}.
Definition rg : ResolvedGateways :=
  {| rg_Global := None; rg_PerModel := {["m" := client_config ""]}; rg_Async := None |}.
Definition one_client : GatewayResolver :=
  {| gr_globalClient := None; gr_modelClients := {["m" := O]}; gr_clientURLs := {[O := "http://gw"]} |}.
Definition controls : Controls :=
  match initConcurrencyControls ConfigRuns.quantity cfg half (Some ["0"]) with
  | Ok ctl => ctl
  | Err _ => {| ct_tokens := {| Channel.capacity := 0; Channel.tokens := 0; Channel.doubleReleased := false |};
                ct_globalSem := None; ct_endpoints := ∅ |}
  end.
Lemma configured_models_dispatch_run :
  ClientFor one_client "m" = Some O ∧ is_Some (ct_endpoints controls !! "0").
Proof.
  split; [reflexivity|].
  destruct (configured_models_dispatch (λ _, true) no_secret no_secret ConfigRuns.quantity always cfg cfg half rg
    (map_to_list (rg_PerModel rg)) one_client controls
    ltac:(vm_compute; reflexivity) eq_refl eq_refl eq_refl ltac:(vm_compute; reflexivity) eq_refl
    ltac:(vm_compute; reflexivity) (Permutation_refl _) ltac:(vm_compute; reflexivity) ltac:(vm_compute; reflexivity) "m")
    as [_ Hep].
  destruct (Hep O eq_refl) as (ep & E & _). exists ep. exact E.
Defined.

(** *** Asynchronous routes *)
Definition async_env : AsyncEnv :=
  {| ae_RedisURL := Ok tt; ae_SQLURL := ""; ae_OpenSQL := Ok tt; ae_Producer := always |}.
Definition pool (name queue : string) : AsyncModelPoolConfig :=
  {| mp_PoolName := name; mp_RequestQueueName := if bool_decide (queue = "") then "" else queue +:+ "-requests";
     mp_ResultQueueName := queue |}.
Definition async_config (queue : string) : AsyncClientConfig :=
  {| ac_Transport := ""; ac_MaxConnections := 8; ac_Models := {["m1" := pool "p1" queue; "m2" := pool "p2" queue]};
     ac_ResultPollTimeout := Second; ac_PollInterval := Second |}.
Definition replica (consumer queue : string) : Handles * result AsyncGatewayResolver :=
  NewAsyncResolver async_env consumer (async_config queue) (map_to_list (ac_Models (async_config queue))) ∅.
Definition resolver_of (consumer queue : string) : AsyncGatewayResolver :=
  match (replica consumer queue).2 with
  | Ok r => r
  | Err _ => {| ar_pools := ∅; ar_routeBases := ∅; ar_transport := ""; ar_rdb := false; ar_closers := [] |}
  end.
Definition reads (consumer queue model : string) : option string := ap_results <$> SharedClientFor (resolver_of consumer queue) model.
Lemma result_routes_run :
  reads "pod-0" "" "m1" = Some "llm-d-async:results:p1:pod-0" ∧
  RecoveryClientFor (resolver_of "pod-1" "") "m1" "pod-0" = Ok "llm-d-async:results:p1:pod-0".
Proof.
  split; [vm_compute; reflexivity|].
  assert (H0 : replica "pod-0" "" = ((replica "pod-0" "").1, Ok (resolver_of "pod-0" ""))) by (vm_compute; reflexivity).
  assert (H1 : replica "pod-1" "" = ((replica "pod-1" "").1, Ok (resolver_of "pod-1" ""))) by (vm_compute; reflexivity).
  assert (Hs : SupportsResultRecovery (resolver_of "pod-1" "") = true) by (vm_compute; reflexivity).
  assert (Hp : SharedClientFor (resolver_of "pod-0" "") "m1" =
    Some {| ap_requests := "llm-d-async:requests:p1"; ap_results := "llm-d-async:results:p1:pod-0" |}) by (vm_compute; reflexivity).
  assert (N0 : ":"%char ∉ list_ascii_of_string "pod-0") by (apply has_char_out; reflexivity).
  assert (N1 : ":"%char ∉ list_ascii_of_string "pod-1") by (apply has_char_out; reflexivity).
  unfold replica in H0, H1.
  destruct (result_routes _ _ _ _ _ _ _ _ _ _ _ _ _ H0 H1 (Permutation_refl _) (Permutation_refl _) N0 N1) as (_ & _ & _ & Hrec).
  exact (Hrec Hs "m1" _ Hp).
Defined.

(** The check that every pool has a single consumer looks at pool names: two
    models of different pools may read the same explicit result queue. *)
Example shared_queue_accepted :
  reads "pod-0" "q" "m1" = Some "q:pod-0" ∧ reads "pod-0" "q" "m2" = Some "q:pod-0".
Proof. vm_compute. split; reflexivity. Qed.

(** *** The client set *)
Definition client_env (fileDB : result unit) (event : result unit) : ClientsetEnv :=
  {| ce_File := Ok tt; ce_BatchDB := Ok tt; ce_FileDB := fileDB; ce_Hostname := Ok "pod-0"; ce_Queue := Ok tt;
     ce_Resumable := Ok tt; ce_Event := event; ce_EventGC := Ok tt; ce_Async := async_env; ce_RedisSecret := Ok tt;
     ce_Build := always |}.
Definition client_cfg : ClientsetConfig :=
  {| cs_fileType := Some "s3"; cs_dbType := Some "postgresql";
     cs_inference := AsyncInference "pod-0" (async_config "") (map_to_list (ac_Models (async_config ""))) |}.
Lemma clientset_leaks_nothing_run :
  (NewClientset (client_env (Ok tt) (Err ErrIO)) ComponentProcessor client_cfg ∅).1 = ∅ ∧
  match NewClientset (client_env (Ok tt) (Ok tt)) ComponentProcessor client_cfg ∅ with
  | (s, Ok cs) => size s = 9%nat ∧ clientset_Close cs s = ∅
  | _ => False
  end.
Proof.
  split.
  - exact (clientset_leaks_nothing (client_env (Ok tt) (Err ErrIO)) ComponentProcessor client_cfg _ (Err ErrIO)
      (or_intror eq_refl) ltac:(vm_compute; reflexivity)).
  - vm_compute. split; reflexivity.
Defined.
Lemma file_db_failure_leaks_run :
  NewClientset (client_env (Err ErrIO) (Ok tt)) ComponentProcessor client_cfg ∅ = ({["batchDB"]}, Err ErrIO).
Proof.
  apply (file_db_failure_leaks (client_env (Err ErrIO) (Ok tt)) ComponentProcessor client_cfg ErrIO); auto.
Defined.

(** *** Recovery routes: two jobs share a route *)
Definition key : recoveryRouteKey := ("m1", "pod-0").
Definition shared : list act := [Acquire true key; Start 0; Acquire true key; Release 1].
Definition shared_state : Routes := match run shared initial with Some s => s | None => initial end.
End GatewayRuns.
