(* ===== verification/HttpClient.v ===== *)
(** * The HTTP inference client

    [pkg/clients/http/http_client.go], [http_client_errors.go] and
    [pkg/clients/inference/inference_client_impl.go]: construction of the
    client with its defaults and TLS settings, the retry condition and the
    delays, the classification of errors, [Generate].

    The retries themselves are run by the resty library.  Its documented
    behaviour, [retried_by], is a hypothesis: it makes attempts one by one,
    goes on as long as the condition asks for it, and stops at the configured
    count or when the context ends.  Random backoff intervals, HTTP dates,
    file reads and certificate parsing are arguments. *)

From Stdlib Require Import ZArith Lia Ascii String.
From stdpp Require Import base gmap strings list.
From S2P Require Import Prelude Openai Store Planner Preprocess ResultStore JobRunner Pipeline Semaphore Flow Throttle Rest Config.
Local Open Scope string_scope.
Local Open Scope Z_scope.

(** ** Error categories *)
Definition ErrCategoryRateLimit := "RATE_LIMIT".
Definition ErrCategoryInvalidReq := "INVALID_REQ".
Definition ErrCategoryAuth := "AUTH_ERROR".
Definition ErrCategoryUnknown := "UNKNOWN".
Definition MapStatusCodeToCategory (statusCode : Z) : string :=
  if statusCode =? 400 then ErrCategoryInvalidReq
  else if (statusCode =? 401) || (statusCode =? 403) then ErrCategoryAuth
  else if statusCode =? 429 then ErrCategoryRateLimit
  else if 500 <=? statusCode then ErrCategoryServer
  else ErrCategoryUnknown.
Definition IsRetryable (category : string) : bool :=
  bool_decide (category = ErrCategoryRateLimit) || bool_decide (category = ErrCategoryServer).
Definition OpenAIErrorType (category : string) : string :=
  if bool_decide (category = ErrCategoryInvalidReq) then "invalid_request_error"
  else if bool_decide (category = ErrCategoryAuth) then "authentication_error"
  else if bool_decide (category = ErrCategoryRateLimit) then "rate_limit_error"
  else if bool_decide (category = ErrCategoryServer) then "server_error"
  else if bool_decide (category = ErrCategoryParse) then "invalid_response"
  else "unknown_error".

(** ** Construction *)
Record HTTPConfig := {
  hc_BaseURL : string; hc_Timeout : Z; hc_MaxIdleConns : Z; hc_IdleConnTimeout : Z; hc_APIKey : string;
  hc_TLSInsecureSkipVerify : bool; hc_TLSCACertFile : string; hc_TLSClientCertFile : string; hc_TLSClientKeyFile : string;
  hc_TLSMinVersion : Z; hc_TLSMaxVersion : Z; hc_MaxRetries : Z; hc_InitialBackoff : Z; hc_MaxBackoff : Z }.
Definition toHTTPClientConfig (gw : GatewayClientConfig) : HTTPConfig :=
  {| hc_BaseURL := gc_URL gw; hc_Timeout := gc_Timeout gw; hc_MaxIdleConns := 0; hc_IdleConnTimeout := 0;
     hc_APIKey := gc_APIKey gw; hc_TLSInsecureSkipVerify := gc_TLSInsecureSkipVerify gw;
     hc_TLSCACertFile := gc_TLSCACertFile gw; hc_TLSClientCertFile := gc_TLSClientCertFile gw;
     hc_TLSClientKeyFile := gc_TLSClientKeyFile gw; hc_TLSMinVersion := 0; hc_TLSMaxVersion := 0;
     hc_MaxRetries := gc_MaxRetries gw; hc_InitialBackoff := gc_InitialBackoff gw; hc_MaxBackoff := gc_MaxBackoff gw |}.
Definition if_zero (v d : Z) : Z := if v =? 0 then d else v.
Definition with_defaults (c : HTTPConfig) : HTTPConfig :=
  let retries := 0 <? hc_MaxRetries c in
  {| hc_BaseURL := hc_BaseURL c; hc_Timeout := if_zero (hc_Timeout c) (5 * Minute);
     hc_MaxIdleConns := if_zero (hc_MaxIdleConns c) 100; hc_IdleConnTimeout := if_zero (hc_IdleConnTimeout c) (90 * Second);
     hc_APIKey := hc_APIKey c; hc_TLSInsecureSkipVerify := hc_TLSInsecureSkipVerify c;
     hc_TLSCACertFile := hc_TLSCACertFile c; hc_TLSClientCertFile := hc_TLSClientCertFile c;
     hc_TLSClientKeyFile := hc_TLSClientKeyFile c; hc_TLSMinVersion := hc_TLSMinVersion c;
     hc_TLSMaxVersion := hc_TLSMaxVersion c; hc_MaxRetries := hc_MaxRetries c;
     hc_InitialBackoff := if retries then if_zero (hc_InitialBackoff c) Second else hc_InitialBackoff c;
     hc_MaxBackoff := if retries then if_zero (hc_MaxBackoff c) (60 * Second) else hc_MaxBackoff c |}.

(** A custom TLS configuration: the CA pool and the certificate are named by
    the files they were loaded from. *)
Record TLSConfig := {
  tls_InsecureSkipVerify : bool; tls_RootCAs : option string; tls_Certificate : option (string * string);
  tls_MinVersion : Z; tls_MaxVersion : Z }.
Section TLS.
(** The file can be read; its text holds a certificate; the pair loads. *)
Context (ReadFile : string → result string) (AppendCertsFromPEM : string → bool) (LoadX509KeyPair : string → string → result unit).

(** [None]: the system defaults. *)
Definition BuildTLSConfig (c : HTTPConfig) : result (option TLSConfig) :=
  let ca := hc_TLSCACertFile c in let cert := hc_TLSClientCertFile c in let key := hc_TLSClientKeyFile c in
  if negb (hc_TLSInsecureSkipVerify c) && bool_decide (ca = "") && bool_decide (cert = "") && bool_decide (key = "") &&
     (hc_TLSMinVersion c =? 0) && (hc_TLSMaxVersion c =? 0) then Ok None
  else
    and_then (if bool_decide (ca = "") then Ok None
              else and_then (ReadFile ca) (λ caCert,
                     if AppendCertsFromPEM caCert then Ok (Some ca) else Err (ErrOther "failed to parse CA certificate"))) (λ roots,
    and_then (if negb (bool_decide (cert = "")) && negb (bool_decide (key = ""))
              then and_then (LoadX509KeyPair cert key) (λ _, Ok (Some (cert, key)))
              else if negb (bool_decide (cert = "")) || negb (bool_decide (key = ""))
              then Err (ErrOther "both TLSClientCertFile and TLSClientKeyFile must be specified for mTLS")
              else Ok None) (λ certificate,
    Ok (Some {| tls_InsecureSkipVerify := hc_TLSInsecureSkipVerify c; tls_RootCAs := roots; tls_Certificate := certificate;
                tls_MinVersion := hc_TLSMinVersion c; tls_MaxVersion := hc_TLSMaxVersion c |}))).

(** What the client is built with; [ht_Retries] is 0 when retries are off. *)
Record HTTPClient := {
  ht_BaseURL : string; ht_Timeout : Z; ht_AuthToken : option string; ht_TLS : option TLSConfig; ht_Retries : nat;
  ht_RetryWait : Z; ht_RetryMaxWait : Z }.
Definition NewHTTPClient (config : HTTPConfig) : result HTTPClient :=
  let c := with_defaults config in
  and_then (BuildTLSConfig c) (λ tls,
    Ok {| ht_BaseURL := hc_BaseURL c; ht_Timeout := hc_Timeout c;
          ht_AuthToken := if bool_decide (hc_APIKey c = "") then None else Some (hc_APIKey c); ht_TLS := tls;
          ht_Retries := if 0 <? hc_MaxRetries c then Z.to_nat (hc_MaxRetries c) else O;
          ht_RetryWait := hc_InitialBackoff c; ht_RetryMaxWait := hc_MaxBackoff c |}).
End TLS.

(** ** Attempts *)
Inductive Attempt :=
| NetworkError
| Responded (status : Z) (droppedReason retryAfter : string) (body : bytes).
Definition retryCondition (a : Attempt) : bool :=
  match a with
  | NetworkError => true
  | Responded status dropped _ _ =>
      if (status =? 429) || (status =? 503) then negb (bool_decide (dropped = DroppedReasonTTLExpired))
      else 500 <=? status
  end.
(** The retry hook: it runs when a retry is due and marks capacity pressure. *)
Definition capacity_response (a : Attempt) : bool :=
  match a with NetworkError => false | Responded status _ _ _ => (status =? 429) || (500 <=? status) end.
Definition had_capacity_retry (retries : nat) (attempts : list Attempt) : bool :=
  (0 <? retries)%nat && existsb (λ a, retryCondition a && capacity_response a) attempts.

(** resty: the attempts of one request, with [ended] when the context ended. *)
Definition retried_by (retries : nat) (ended : bool) (attempts : list Attempt) : Prop :=
  ∃ before final, attempts = (before ++ [final])%list ∧ (length before ≤ retries)%nat ∧
    Forall (λ a, retryCondition a = true) before ∧
    (retries = O ∨ retryCondition final = false ∨ length before = retries ∨ ended = true).

(** *** Delays *)
Section Delays.
(** The [n]-th interval of an exponential backoff; the time until an HTTP date. *)
Context (NextBackOff : Z → Z → Z → Z) (parseHTTPDate : string → option Z).
Definition rateLimitBackoffMultiplier : Z := 3.
Definition computeBackoff (attempt base max : Z) : Z := NextBackOff base max (if attempt <? 1 then 1 else attempt).
Definition parseRetryAfter (value : string) : option Z :=
  match Atoi value with
  | Some seconds => if 0 <=? seconds then Some (wrap64 (seconds * Second))
                    else match parseHTTPDate value with Some d => Some (Z.max d 0) | None => None end
  | None => match parseHTTPDate value with Some d => Some (Z.max d 0) | None => None end
  end.
(** [newRetryAfterFunc]; resty clamps the answer to the configured bounds. *)
Definition retryAfter (initialBackoff maxBackoff attempt : Z) (a : Attempt) : Z :=
  match a with
  | NetworkError => computeBackoff 1 initialBackoff maxBackoff
  | Responded status _ ra _ =>
      if status =? 429 then
        match (if bool_decide (ra = "") then None else parseRetryAfter ra) with
        | Some d => if d =? 0 then 1 else d
        | None => computeBackoff attempt (wrap64 (rateLimitBackoffMultiplier * initialBackoff)) maxBackoff
        end
      else if (status =? 502) || (status =? 503) || (status =? 504)
      then computeBackoff attempt initialBackoff (Z.quot maxBackoff 2)
      else computeBackoff attempt initialBackoff maxBackoff
  end.
End Delays.

(** ** [Generate] *)
Inductive CtxState := Live | Canceled | DeadlineExceeded.
(** The body and status of the last attempt, and the reason it was dropped. *)
Definition Post (attempts : list Attempt) : result (bytes * Z) * string :=
  match last attempts with
  | Some (Responded status dropped _ body) => (Ok (body, status), dropped)
  | _ => (Err ErrIO, "")
  end.
Definition HandleErrorResponse (statusCode : Z) : ClientError :=
  {| ce_Category := MapStatusCodeToCategory statusCode; ce_StatusCode := statusCode; ce_DroppedReason := "" |}.
Definition client_failure (category : string) : ClientError :=
  {| ce_Category := category; ce_StatusCode := 0; ce_DroppedReason := "" |}.
Definition handleRequestError (ctx : CtxState) : ClientError :=
  client_failure (match ctx with Canceled => ErrCategoryUnknown | DeadlineExceeded | Live => ErrCategoryServer end).
(** [is_object]: whether a body is a JSON object. *)
Definition Generate (is_object : bytes → bool) (retries : nat) (endpoint : string) (ctx : CtxState) (attempts : list Attempt)
    : option Generated * option ClientError :=
  if bool_decide (endpoint = "") then (None, Some (client_failure ErrCategoryInvalidReq))
  else match Post attempts with
  | (Err _, _) => (None, Some (handleRequestError ctx))
  | (Ok (body, status), dropped) =>
      if status =? 200 then
        (Some {| gn_Empty := bool_decide (body = []); gn_Parsed := is_object body;
                 gn_HadCapacityRetry := had_capacity_retry retries attempts |}, None)
      else let e := HandleErrorResponse status in
           (None, Some {| ce_Category := ce_Category e; ce_StatusCode := ce_StatusCode e; ce_DroppedReason := dropped |})
  end.

(** ** Theorems *)

(** Which responses are retried agrees with how errors are classified: a
    response is retried exactly when its category is retryable, except that a
    429 or 503 whose dropped reason says that the deadline passed is final. *)
Theorem retry_matches_category status dropped ra body :
  retryCondition (Responded status dropped ra body) =
  IsRetryable (MapStatusCodeToCategory status) &&
  negb (((status =? 429) || (status =? 503)) && bool_decide (dropped = DroppedReasonTTLExpired)).
Proof.
  assert (Hc : IsRetryable (MapStatusCodeToCategory status) = (status =? 429) || (500 <=? status)).
  { unfold MapStatusCodeToCategory. destruct (Z.eqb_spec status 400) as [-> | _]; [done|].
    destruct (Z.eqb_spec status 401) as [-> | _]; [done|]. destruct (Z.eqb_spec status 403) as [-> | _]; [done|]. cbn [orb].
    destruct (status =? 429); [done|]. by destruct (500 <=? status). }
  rewrite Hc. cbn. destruct (Z.eqb_spec status 429) as [-> | ]; cbn; [done|].
  destruct (Z.eqb_spec status 503) as [-> | ]; cbn; [done|]. by rewrite andb_true_r.
Qed.

(** What one request tells the controller of its endpoint: [Some true] is
    overload, [Some false] success, [None] nothing. *)
Definition signal (is_object : bytes → bool) (attempts : list Attempt) : option bool :=
  match last attempts with
  | Some (Responded status dropped _ body) =>
      if status =? 200 then
        if bool_decide (body = []) || is_object body then Some (existsb capacity_response attempts) else None
      else if (status <=? 0) || bool_decide (dropped = DroppedReasonTTLExpired) then None
      else Some ((status =? 429) || (500 <=? status))
  | _ => None
  end.

Lemma had_capacity_before retries ended before status dropped ra body :
  retried_by retries ended (before ++ [Responded status dropped ra body])%list → status = 200 →
  had_capacity_retry retries (before ++ [Responded status dropped ra body])%list =
  existsb capacity_response (before ++ [Responded status dropped ra body])%list.
Proof.
  intros (b & f & E & Hlen & Hall & _) ->. apply app_inj_tail in E as [<- <-]. unfold had_capacity_retry. rewrite !existsb_app.
  cbn. rewrite !orb_false_r. destruct retries as [|n]; [destruct before; [done|cbn in Hlen; lia]|]. cbn [Nat.ltb Nat.leb andb].
  clear Hlen. induction before as [|a before IH]; cbn; [done|]. apply Forall_cons in Hall as [-> Hall]. cbn. by rewrite IH.
Qed.


(** A request that was throttled on the way and finally refused is counted as
    a success of the endpoint. *)
Example capacity_retry_lost_on_error is_object ra1 ra2 b1 b2 :
  signal is_object [Responded 429 "" ra1 b1; Responded 400 "" ra2 b2] = Some false.
Proof. reflexivity. Qed.

(** *** [Retry-After] *)
(** A [Retry-After] header in seconds is honoured exactly as long as the
    delay fits an int64 of nanoseconds; the next values wrap around, so a
    server that asks for centuries is retried within the second. *)
Theorem retry_after_exact parseHTTPDate value seconds :
  Atoi value = Some seconds → 0 ≤ seconds →
  (seconds ≤ 9223372036 → parseRetryAfter parseHTTPDate value = Some (seconds * Second)) ∧
  (seconds = 18446744074 → ∃ d, parseRetryAfter parseHTTPDate value = Some d ∧ 0 < d < Second).
Proof.
  intros Ha Hs. unfold parseRetryAfter. rewrite Ha, (proj2 (Z.leb_le 0 _)) by lia. split; [intros|intros ->].
  - rewrite wrap64_small; [done|]. unfold Second. lia.
  - eexists. split; [reflexivity|]. vm_compute. split; reflexivity.
Qed.

(** *** Timeouts *)
(** A gateway whose [request_timeout] is set to zero, which the
    configuration documents as "no timeout", gets a client that times out
    after five minutes. *)
Theorem zero_timeout_is_five_minutes ReadFile PEM X509 gw apiKey client :
  gw_RequestTimeout gw = Some 0 →
  NewHTTPClient ReadFile PEM X509 (toHTTPClientConfig (toGatewayClientConfig gw apiKey)) = Ok client →
  ht_Timeout client = 5 * Minute.
Proof.
  intros Ht (tls & _ & [= <-])%and_then_ok. cbn. by rewrite Ht.
Qed.

(** ** Runs *)
Module HttpRuns.
Definition msg : RequestItem :=
  {| rq_RequestID := "r1"; rq_CustomID := "c1"; rq_ModelID := "m"; rq_Endpoint := "/v1/completions"; rq_Body := [];
     rq_Headers := ∅; rq_ParseError := None |}.
Definition controller : AIMD.AIMDController :=
  {| AIMD.cfg := {| AIMD.MinLimit := 1; AIMD.MaxLimit := 10; AIMD.BackoffFactor := {| Float.mant := 1; Float.expo := -1 |};
                    AIMD.AdditiveIncrease := 1 |}; AIMD.limit := 10; AIMD.successCount := 0 |}.
Definition ep : EndpointAIMD :=
  {| ep_Sem := {| Adaptive.limit := 10; Adaptive.count := 1; Adaptive.doubleReleased := false |}; ep_AIMD := Some controller |}.
(** Throttled once, then answered. *)
Definition attempts : list Attempt := [Responded 429 "" "" []; Responded 200 "" "" []].
Lemma retry_after_exact_run :
  parseRetryAfter (λ _, None) "120" = Some (120 * Second) ∧
  ∃ d, parseRetryAfter (λ _, None) "18446744074" = Some d ∧ 0 < d < Second.
Proof.
  split.
  - apply (retry_after_exact (λ _, None) "120" 120); [reflexivity|lia|lia].
  - apply (retry_after_exact (λ _, None) "18446744074" 18446744074); [reflexivity|lia|reflexivity].
Defined.
Definition untimed : ModelGatewayConfig :=
  {| gw_URL := "http://gw"; gw_APIKeyName := ""; gw_APIKeyFile := ""; gw_InferenceObjective := "";
     gw_RequestTimeout := Some 0; gw_MaxRetries := Some 0; gw_InitialBackoff := Some 0; gw_MaxBackoff := Some 0;
     gw_TLSInsecureSkipVerify := false; gw_TLSCACertFile := ""; gw_TLSClientCertFile := ""; gw_TLSClientKeyFile := "" |}.
Definition untimed_client : HTTPClient :=
  {| ht_BaseURL := "http://gw"; ht_Timeout := 300000000000; ht_AuthToken := None; ht_TLS := None; ht_Retries := 0;
     ht_RetryWait := 0; ht_RetryMaxWait := 0 |}.
Lemma zero_timeout_is_five_minutes_run : ht_Timeout untimed_client = 5 * Minute.
Proof.
  apply (zero_timeout_is_five_minutes (λ _, Err ErrIO) (λ _, false) (λ _ _, Err ErrIO) untimed "" untimed_client); reflexivity.
Defined.
End HttpRuns.
