(* ===== verification/Source.v ===== *)
(** * The request source over a whole input

    The outer loops of [Produce] and [PreStoreRecovering] of
    [worker/source_planfile.go]: for every model of the model map, in whatever
    order the map is iterated, the plan file is read and each of its entries is
    turned into a request ([Pipeline.readEntry]).

    What the source yields for an ingested batch: one request per accepted
    line, under the request ID of the line's manifest entry. *)

From Stdlib Require Import ZArith Lia Ascii String.
From stdpp Require Import base gmap strings list sorting pretty.
From S2P Require Import Prelude Openai Store StoreOps Planner Preprocess Files ResultStore Entries Finalizer JobRunner Pipeline.
Local Open Scope string_scope.
Local Open Scope Z_scope.

(** [order] lists the pairs of [SafeToModel]; a plan file that cannot be read
    ends the stream. *)
Fixpoint plan_items (plans : disk) (plansDir : string) (read : planEntry → string → result RequestItem)
    (order : list (string * string)) : list (result RequestItem) :=
  match order with
  | [] => []
  | (safeModelID, modelID) :: rest =>
      match readPlanEntries plans (plan_path plansDir safeModelID) with
      | Err e => [Err e]
      | Ok es => app ((λ e, read e modelID) <$> es) (plan_items plans plansDir read rest)
      end
  end.

(** ** Lists *)
Lemma bind_app_perm {A B} (f g : A → list B) (l : list A) :
  (l ≫= λ x, app (f x) (g x)) ≡ₚ app (l ≫= f) (l ≫= g).
Proof.
  induction l as [|x l IH]; [done|]. cbn. setoid_rewrite IH. rewrite <- !app_assoc. apply Permutation_app_head.
  rewrite !app_assoc. apply Permutation_app_tail, Permutation_app_comm.
Qed.
Lemma bind_perm_ext {A B} (f g : A → list B) (l : list A) : (∀ x, f x ≡ₚ g x) → l ≫= f ≡ₚ l ≫= g.
Proof. intros H. induction l as [|x l IH]; [done|]. cbn. by apply Permutation_app. Qed.
Lemma lookup_sorted {A} (R : A → A → Prop) (P : nat → A → Prop) (l : list A) :
  (∀ i1 i2 x1 x2, (i1 < i2)%nat → P i1 x1 → P i2 x2 → R x1 x2) → (∀ i x, l !! i = Some x → P i x) → StronglySorted R l.
Proof.
  revert P. induction l as [|x l IH]; intros P HR Hl; constructor.
  - apply (IH (λ i, P (S i))); [intros i1 i2 ? ? Hlt; apply HR; lia|intros i y Hy; by apply Hl].
  - apply Forall_forall. intros y [i Hi]%list_elem_of_lookup. apply (HR 0%nat (S i)); [lia|by apply Hl..].
Qed.
Lemma bind_nil {A B} (f : A → list B) (l : list A) : (∀ x, x ∈ l → f x = []) → l ≫= f = [].
Proof.
  induction l as [|x l IH]; intros H; [done|]. cbn. rewrite (H x) by left. apply IH. intros y Hy. apply H. by right.
Qed.
Lemma bind_single {A B} (f : A → list B) (l : list A) a :
  NoDup l → a ∈ l → (∀ x, x ≠ a → f x = []) → l ≫= f = f a.
Proof.
  induction 1 as [|x l Hx Hnd IH]; intros Hin Hf; [by apply elem_of_nil in Hin|]. cbn. apply elem_of_cons in Hin as [->|Hin].
  - setoid_rewrite (bind_nil f l); [apply app_nil_r|]. intros y Hy. apply Hf. by intros ->.
  - rewrite (Hf x) by (by intros ->). by apply IH.
Qed.

(** ** What the source yields *)
Section Source.
Context (unmarshal : bytes → option planRequestLine) (uuidSHA1 : string → string).
Context (errorLine : string → string → string → bytes) (sha256hex : bytes → string).
Context (allowlist : EndpointAllowlist) (batchEndpoint jobID tenantID : string) (lookup : Lookup) (plansDir : string).
Abbreviation extract := (extractAndValidateLine unmarshal allowlist batchEndpoint).
Abbreviation registered := (registered tenantID lookup).
Abbreviation manifest_entry := (manifest_entry uuidSHA1 errorLine sha256hex jobID tenantID lookup).
Abbreviation planned := (planned unmarshal allowlist batchEndpoint tenantID lookup).
Abbreviation planned_line := (planned_line unmarshal allowlist batchEndpoint tenantID lookup).
Abbreviation pp_inv := (pp_inv unmarshal uuidSHA1 errorLine sha256hex allowlist batchEndpoint jobID tenantID lookup).
Abbreviation stableID := (stableBatchRequestID uuidSHA1 jobID).

(** The accepted lines with their models. *)
Definition located_line (off : Z) (l : bytes) : list (string * planEntry) :=
  match extract l with
  | Ok meta => if registered (rm_ModelID meta)
               then [(rm_ModelID meta, {| Offset := off; Length := Z.of_nat (length l); PrefixHash := rm_PrefixHash meta |})]
               else []
  | Err _ => []
  end.
Fixpoint located (off : Z) (ls : list bytes) : list (string * planEntry) :=
  match ls with
  | [] => []
  | l :: ls' => app (located_line off l) (located (off + Z.of_nat (length l)) ls')
  end.

(** The plans of all models together are the accepted lines. *)
Lemma located_line_planned ms off l : NoDup ms → (∀ x, x ∈ located_line off l → x.1 ∈ ms) →
  (ms ≫= λ m, pair m <$> planned_line m off l) = located_line off l.
Proof.
  intros Hnd Hin. unfold located_line, Preprocess.planned_line in *. destruct (extract l) as [meta|]; [|by apply bind_nil].
  destruct (registered (rm_ModelID meta)) eqn:Hr.
  - rewrite (bind_single _ ms (rm_ModelID meta)).
    + by rewrite bool_decide_eq_true_2, Hr.
    + done.
    + apply (Hin _ (list_elem_of_here _ _)).
    + intros m Hm. by rewrite bool_decide_eq_false_2.
  - apply bind_nil. intros m _. case_bool_decide as Hm; [|done]. rewrite <- Hm, Hr. done.
Qed.
Lemma located_planned ms off ls : NoDup ms → (∀ x, x ∈ located off ls → x.1 ∈ ms) →
  (ms ≫= λ m, pair m <$> planned m off ls) ≡ₚ located off ls.
Proof.
  intros Hnd. revert off. induction ls as [|l ls IH]; intros off Hin; cbn [located Preprocess.planned] in *.
  { by rewrite bind_nil. }
  assert ((ms ≫= λ m, pair m <$> app (planned_line m off l) (planned m (off + Z.of_nat (length l)) ls))
    = (ms ≫= λ m, app (pair m <$> planned_line m off l) (pair m <$> planned m (off + Z.of_nat (length l)) ls))) as ->.
  { apply list_bind_ext; [intros m; by rewrite fmap_app|done]. }
  rewrite bind_app_perm, located_line_planned; [apply Permutation_app_head, IH|done|]; intros x Hx; apply Hin, elem_of_app; auto.
Qed.

Lemma located_in x off ls : x ∈ located off ls → x.2 ∈ planned x.1 off ls.
Proof.
  revert off. induction ls as [|l ls IH]; intros off; cbn [located Preprocess.planned]; [by intros ?%elem_of_nil|]. rewrite !elem_of_app.
  intros [Hx|Hx]; [left|right; by apply IH]. revert Hx. unfold located_line, Preprocess.planned_line.
  destruct (extract l) as [meta|]; [|by intros ?%elem_of_nil]. destruct (registered (rm_ModelID meta)) eqn:Hr; [|by intros ?%elem_of_nil].
  intros ->%list_elem_of_singleton. cbn. rewrite bool_decide_eq_true_2, Hr by done. left.
Qed.

(** ** Reading them *)
Context (unmarshalRequest : bytes → option Request) (method : RouteKeyMethod) (passThrough : gmap string string).
Context (untilSLO : planEntry → option Z) (objective : string → string) (sendFairness : bool) (fresh : planEntry → string).

(** The clock and the random UUID of a call are functions of the entry. *)
Definition read (file : bytes) (e : planEntry) (modelID : string) : result RequestItem :=
  readEntry uuidSHA1 unmarshalRequest file jobID tenantID method passThrough (untilSLO e) objective sendFairness (fresh e)
    e modelID.

(** The second decoding of a line succeeds whenever the first did, and agrees
    on the custom ID. *)
Definition decodes_alike (l : bytes) : Prop :=
  ∀ pr, unmarshal (trim_newline l) = Some pr →
    ∃ req, unmarshalRequest (trim_newline l) = Some req ∧ req_CustomID req = pr_CustomID pr.

Lemma extract_decoded l meta : extract l = Ok meta →
  rm_CustomID meta ≠ "" ∧ ∃ pr, unmarshal (trim_newline l) = Some pr ∧ pr_CustomID pr = rm_CustomID meta.
Proof.
  unfold extractAndValidateLine. destruct (unmarshal (trim_newline l)) as [pr|] eqn:Hu; [|done]. case_bool_decide as Hc; [done|].
  intros H. repeat destruct_match_in H; simplify_eq; (split; [done|by exists pr]).
Qed.

Lemma ReadAt_line (pre : list bytes) l ls :
  ReadAt (mjoin (app pre (l :: ls))) (Z.of_nat (length (mjoin pre))) (Z.of_nat (length l)) = Some l.
Proof.
  unfold ReadAt. rewrite join_app. change (mjoin (l :: ls)) with (app l (mjoin ls)). rewrite !length_app.
  rewrite (proj2 (Z.leb_le 0 _)) by lia. rewrite (proj2 (Z.leb_le _ _)) by lia. cbn [andb].
  by rewrite !Nat2Z.id, drop_app_length, take_app_length.
Qed.

Lemma read_located pre ls metas : jobID ≠ "" → Forall2 (λ l meta, extract l = Ok meta) ls metas → Forall decodes_alike ls →
  ∃ rs, (λ x, read (mjoin (app pre ls)) x.2 x.1) <$> located (Z.of_nat (length (mjoin pre))) ls = Ok <$> rs ∧
    rq_RequestID <$> rs = (λ meta, stableID (rm_CustomID meta)) <$> filter (λ meta, registered (rm_ModelID meta) = true) metas ∧
    Forall (λ r, rq_CustomID r ≠ "" ∧ rq_ParseError r = None) rs.
Proof.
  intros Hjob HF. revert pre. induction HF as [|l meta ls metas Hx HF IH]; intros pre Hdec; [by exists []|].
  apply Forall_cons in Hdec as [Hd Hdec]. destruct (IH (app pre [l]) Hdec) as (rs & Hrs & Hids & Hall).
  assert (Z.of_nat (length (mjoin (app pre [l]))) = Z.of_nat (length (mjoin pre)) + Z.of_nat (length l)) as Hoff.
  { rewrite join_app, length_app. change (mjoin [l]) with (app l []). rewrite app_nil_r. lia. }
  rewrite Hoff, <- (app_assoc pre [l] ls) in Hrs. cbn [app] in Hrs.
  cbn [located]. rewrite fmap_app, Hrs, filter_cons. unfold located_line. rewrite Hx.
  destruct (registered (rm_ModelID meta)) eqn:Hreg; [rewrite decide_True by done|rewrite decide_False by done; by exists rs].
  destruct (extract_decoded l meta Hx) as (Hc & pr & Hu & Hpc). destruct (Hd pr Hu) as (req & Hreq & Hrc).
  assert (∃ r, read (mjoin (app pre (l :: ls))) {| Offset := Z.of_nat (length (mjoin pre)); Length := Z.of_nat (length l);
      PrefixHash := rm_PrefixHash meta |} (rm_ModelID meta) = Ok r ∧ rq_RequestID r = stableID (rm_CustomID meta) ∧
      rq_CustomID r = rm_CustomID meta ∧ rq_ParseError r = None) as (r & Hr & Hid & Hcid & Hpe).
  { unfold read, readEntry. cbn [Offset Length]. rewrite ReadAt_line, Hreq. eexists. split; [done|].
    cbn. rewrite bool_decide_eq_false_2 by done. by rewrite Hrc, Hpc. }
  exists (r :: rs). cbn [fmap list_fmap app fst snd]. rewrite Hr, Hid, Hids. split_and!; [done|done|].
  apply Forall_cons. rewrite Hcid. done.
Qed.

(** ** All plan files *)
Lemma plan_items_bind plans read' order (es : string → list planEntry) :
  (∀ s m, (s, m) ∈ order → readPlanEntries plans (plan_path plansDir s) = Ok (es m)) →
  plan_items plans plansDir read' order = (λ x, read' x.2 x.1) <$> (order.*2 ≫= λ m, pair m <$> es m).
Proof.
  induction order as [|[s m] order IH]; intros H; [done|]. cbn [plan_items fmap list_fmap]. rewrite (H s m) by left.
  cbn [snd mbind list_bind]. rewrite fmap_app, <- list_fmap_compose. f_equal. apply IH. intros s' m' Hin. apply H. by right.
Qed.

Lemma invert_models st s m : plan_wf st → invert (modelToSafe st) !! s = Some m → modelToSafe st !! m = Some s.
Proof.
  intros _ H. unfold invert in H. apply elem_of_list_to_map_2, list_elem_of_fmap in H as ([m' s'] & [= -> ->] & Hin).
  by apply elem_of_map_to_list in Hin.
Qed.

Lemma manifest_metas ls st : pp_inv ls st →
  ∃ metas, Forall2 (λ l meta, extract l = Ok meta) ls metas ∧ pp_manifest st = imap manifest_entry metas.
Proof.
  intros Hi. pose proof (inv_lines _ _ _ _ _ _ _ _ _ _ _ Hi) as Hl. pose proof (inv_length _ _ _ _ _ _ _ _ _ _ _ Hi) as Hn.
  assert (∃ metas, Forall2 (λ l meta, extract l = Ok meta) ls metas) as [metas HF].
  { assert (∀ l, l ∈ ls → ∃ meta, extract l = Ok meta) as Hx.
    { intros l [i Hli]%list_elem_of_lookup. destruct (Hl i l Hli) as (meta & ? & _). by exists meta. }
    clear -Hx. induction ls as [|l ls IH]; [by exists []|]. destruct (Hx l) as [meta Hm]; [left|].
    destruct IH as [metas HF]; [intros x Hin; apply Hx; by right|]. exists (meta :: metas). by constructor. }
  exists metas. split; [done|]. apply list_eq. intros i. rewrite list_lookup_imap. destruct (metas !! i) as [meta|] eqn:Hmi.
  - destruct (Forall2_lookup_r _ _ _ _ _ HF Hmi) as (l & Hli & Hx). destruct (Hl i l Hli) as (meta' & Hx' & ->). cbn. congruence.
  - apply lookup_ge_None in Hmi. apply lookup_ge_None. rewrite Hn, (Forall2_length _ _ _ HF). done.
Qed.

Lemma accepted_ids metas k :
  me_RequestID <$> filter (λ m, me_Rejected m = false) (imap (λ i, manifest_entry (k + i)) metas)
  = (λ meta, stableID (rm_CustomID meta)) <$> filter (λ meta, registered (rm_ModelID meta) = true) metas.
Proof.
  revert k. induction metas as [|meta metas IH]; intros k; [done|]. cbn [imap]. rewrite !filter_cons, manifest_entry_rejected.
  assert (imap ((λ i, manifest_entry (k + i)) ∘ S) metas = imap (λ i, manifest_entry (S k + i)) metas) as ->
    by (apply imap_ext; intros i x _; cbn; f_equal; lia).
  destruct (registered (rm_ModelID meta)) eqn:Hr.
  - rewrite !decide_True by done. cbn [fmap list_fmap]. setoid_rewrite IH. f_equal. unfold Preprocess.manifest_entry. by rewrite Hr.
  - rewrite !decide_False by done. apply IH.
Qed.

(** The manifest of an ingested batch is that of its lines. *)
Lemma ingested_manifest env inputFileID reader d d' manifest :
  preProcessJob unmarshal uuidSHA1 errorLine sha256hex allowlist batchEndpoint jobID tenantID lookup plansDir env inputFileID d
    = (d', Ok manifest) →
  env_open env = Ok reader → lines_small (input_lines (rd_data reader)) →
  ∃ metas, Forall2 (λ l meta, extract l = Ok meta) (input_lines (rd_data reader)) metas ∧
    manifest = imap manifest_entry metas ∧ NoDup (me_CustomID <$> manifest).
Proof.
  intros (reader' & st & plans & Hopen & _ & Hf & _ & -> & _)%preprocess_ok_inv Hopen' Hs.
  assert (reader' = reader) as -> by congruence.
  pose proof (fold_lines_inv _ _ _ _ _ _ _ _ _ env [] _ PP_init st (PP_init_inv _ _ _ _ _ _ _ _ _) Hs Hf) as Hi. cbn [app] in Hi.
  destruct (manifest_metas _ st Hi) as (metas & HF & Hm). exists metas. split_and!; [done|done|].
  apply (inv_nodup _ _ _ _ _ _ _ _ _ _ _ Hi).
Qed.

(** Its entries, one by one and in order. *)
Lemma manifest_lookup metas i m : imap manifest_entry metas !! i = Some m →
  ∃ meta, metas !! i = Some meta ∧ m = manifest_entry i meta ∧ me_Ordinal m = Z.of_nat i ∧ me_CustomID m = rm_CustomID meta ∧
    me_RequestID m = stableID (rm_CustomID meta).
Proof.
  rewrite list_lookup_imap. destruct (metas !! i) as [meta|]; [|done]. intros [= <-]. exists meta.
  unfold Preprocess.manifest_entry. by destruct (registered _).
Qed.
Lemma manifest_is_ok metas : NoDup (me_CustomID <$> imap manifest_entry metas) →
  (∀ c1 c2, c1 ∈ me_CustomID <$> imap manifest_entry metas → c2 ∈ me_CustomID <$> imap manifest_entry metas →
     uuidSHA1 (jobID +:+ String Ascii.zero c1) = uuidSHA1 (jobID +:+ String Ascii.zero c2) → c1 = c2) →
  manifest_ok (imap manifest_entry metas).
Proof.
  intros Hnd Huuid. split.
  - apply (lookup_sorted _ (λ i m, me_Ordinal m = Z.of_nat i)).
    + intros i1 i2 m1 m2 Hlt -> ->. lia.
    + intros i m Hm. by destruct (manifest_lookup _ _ _ Hm) as (? & _ & _ & -> & _).
  - assert (me_RequestID <$> imap manifest_entry metas = stableID <$> (me_CustomID <$> imap manifest_entry metas)) as ->.
    { rewrite <- list_fmap_compose. apply list_fmap_ext. intros i m Hm.
      destruct (manifest_lookup _ _ _ Hm) as (meta & _ & _ & _ & Hc & Hr). cbn. by rewrite Hc. }
    apply NoDup_fmap_2_strong; [|done]. intros c1 c2 H1 H2 Heq. apply Huuid; [done|done|].
    unfold stableBatchRequestID, newBatchRequestID in Heq. by apply (inj (String.append "batch_req_")) in Heq.
Qed.
Lemma manifest_rejected metas m : m ∈ imap manifest_entry metas → rejected_wf sha256hex m ∧
  (me_Rejected m = true → me_ResultKey m = resumableResultKey jobID (me_RequestID m)).
Proof.
  intros [i Hi]%list_elem_of_lookup. destruct (manifest_lookup _ _ _ Hi) as (meta & _ & -> & _). unfold rejected_wf, Preprocess.manifest_entry.
  by destruct (registered _).
Qed.

(** The source of an ingested batch yields each accepted line exactly once,
    whatever order the models come in, under the request ID of the line's
    manifest entry, and fails on none. *)
Theorem source_yields_every_line env inputFileID reader d d' manifest mm order :
  preProcessJob unmarshal uuidSHA1 errorLine sha256hex allowlist batchEndpoint jobID tenantID lookup plansDir env inputFileID d
    = (d', Ok manifest) →
  env_open env = Ok reader → jobID ≠ "" →
  let ls := input_lines (rd_data reader) in
  lines_small ls → Z.of_nat (length (mjoin ls)) < 2 ^ 63 → Forall decodes_alike ls →
  jd_map d' = Some mm → order ≡ₚ map_to_list (mm_SafeToModel mm) →
  ∃ rs, plan_items (jd_plans d') plansDir (read (default [] (jd_input d'))) order = Ok <$> rs ∧
    rq_RequestID <$> rs ≡ₚ me_RequestID <$> filter (λ m, me_Rejected m = false) manifest ∧
    Forall (λ r, rq_CustomID r ≠ "" ∧ rq_ParseError r = None) rs.
Proof.
  intros (reader' & st & plans & Hopen & _ & Hf & Hfin & -> & ->)%preprocess_ok_inv Hopen' Hjob ls Hs Ht Hdec [= <-] Hord.
  assert (reader' = reader) as -> by congruence.
  pose proof (fold_lines_inv _ _ _ _ _ _ _ _ _ env [] ls PP_init st (PP_init_inv _ _ _ _ _ _ _ _ _) Hs Hf) as Hi. cbn [app] in Hi.
  pose proof (inv_plan _ _ _ _ _ _ _ _ _ _ _ Hi) as Hwf. pose proof (inv_entries _ _ _ _ _ _ _ _ _ _ _ Hi) as He.
  destruct (manifest_metas ls st Hi) as (metas & HF & ->). destruct (read_located [] ls metas Hjob HF Hdec) as (rs0 & Hrs & Hids & Hall).
  cbn [jd_plans jd_input default mm_SafeToModel] in *. rewrite (inv_written _ _ _ _ _ _ _ _ _ _ _ Hi).
  rewrite (plan_items_bind _ _ _ (λ m, sort_plan (planned m 0 ls))); cycle 1.
  { intros s m Hin. rewrite Hord in Hin. apply elem_of_map_to_list, invert_models in Hin; [|done].
    rewrite <- (He m). eapply finalize_reads_back; [done|done|done|..]; rewrite (He m).
    - by apply (inv_interned _ _ _ _ _ _ _ _ _ _ _ Hi); eexists.
    - by apply planned_ok. }
  assert ((order.*2 ≫= λ m, pair m <$> sort_plan (planned m 0 ls)) ≡ₚ located 0 ls) as Hperm.
  { etrans; [apply (bind_perm_ext _ (λ m, pair m <$> planned m 0 ls))|apply located_planned].
    - intros m. apply fmap_Permutation, merge_sort_Permutation.
    - apply NoDup_fmap_2_strong; [|rewrite Hord; apply NoDup_map_to_list].
      intros [s1 m1] [s2 m2] H1 H2 Heq. cbn in Heq. subst m2. rewrite Hord in H1, H2.
      apply elem_of_map_to_list, invert_models in H1, H2; [|done..]. congruence.
    - intros [m e] Hin%located_in. cbn [fst snd] in *. pose proof (He m) as Hme. unfold model_entries in Hme.
      destruct (modelToSafe (pp_plan st) !! m) as [s|] eqn:Hm; [|cbn in Hin; rewrite <- Hme in Hin; by apply elem_of_nil in Hin].
      apply list_elem_of_fmap. exists (s, m). split; [done|]. rewrite Hord. apply elem_of_map_to_list.
      by apply invert_lookup. }
  pose proof (fmap_Permutation (λ x, read (mjoin ls) x.2 x.1) _ _ Hperm) as Hp. cbn in Hrs. setoid_rewrite Hrs in Hp.
  apply Permutation_map_inv in Hp as (rs & Hrs' & Hprs). exists rs. split; [exact Hrs'|]. split.
  - rewrite <- Hprs, Hids, <- (accepted_ids metas 0). done.
  - by rewrite <- Hprs.
Qed.
End Source.
