(* ===== verification/AsyncRun.v ===== *)
(** * Asynchronous execution: jobs, routers and the result queue

    [pkg/clients/inference/async_shared_client.go], and the actors that run at
    the same time in asynchronous mode: per job the source, the fence
    ([pipeline/dispatcher_pre.go]), the dispatcher ([dispatcher_async.go]) and
    the checkpointer, wired by [pipeline/executor.go]; per route a broadcaster
    ([result_router.go]).  [step] executes one atomic action of any of them; a
    list of actions is an interleaving of any number of jobs, processors and
    their zombies.

    The queue library ([llm-d-async]) is a parameter: [Transport] has the
    operations the client calls over an abstract queue, [TransportLaws] what it
    documents of them.  The statements of the other clients of the database,
    changes of the file store and whatever happens inside the queue (workers
    publish results, leases run out) are actions as well. *)

From Stdlib Require Import ZArith Lia Ascii String.
From stdpp Require Import base gmap strings list sorting pretty.
From S2P Require Import Prelude Openai Store StoreOps Ownership Planner Preprocess.
From S2P Require Import Files ResultStore Entries Finalizer JobRunner Pipeline Flow.
Local Open Scope string_scope.
Local Open Scope Z_scope.

(** ** The queue library *)
Record RequestMessage := {
  qm_ID : string; qm_Created : Z; qm_Deadline : Z; qm_Payload : bytes; qm_Headers : gmap string string;
  qm_Endpoint : string; qm_Model : string }.
Record ResultMessage := {
  rm_ID : string; rm_Payload : bytes; rm_StatusCode : Z; rm_ErrorCode : string; rm_ErrorMessage : string }.
#[export] Instance ResultMessage_eq_dec : EqDecision ResultMessage.
Proof. solve_decision. Defined.

(** A claimed result: the handle the library acknowledges it by. *)
Record Claim := { cl_handle : nat; cl_message : ResultMessage }.
Definition ErrDurableResultsUnavailable : err := ErrOther "durable result delivery unavailable".

Class Transport (Q : Type) := {
  SubmitRequest : RequestMessage → Q → Q * result unit;
  lib_GetResult : string → Q → Q * result ResultMessage;
  lib_ReceiveResult : string → Q → Q * result Claim;
  AckResult : Claim → Q → Q * result unit;
  CancelRequests : list string → Q → Q * result unit;
  (** the results that can still be delivered, by handle *)
  recoverable : Q → gmap nat ResultMessage }.
(** A claimed result stays recoverable until it is acknowledged; submitting
    and cancelling requests lose no result; the error by which the client
    reports a missing capability is the client's own. *)
Class TransportLaws (Q : Type) `{Transport Q} : Prop := {
  submit_law m q : recoverable q ⊆ recoverable (SubmitRequest m q).1;
  receive_law route q : recoverable (lib_ReceiveResult route q).1 = recoverable q ∧
    (∀ c, (lib_ReceiveResult route q).2 = Ok c → recoverable q !! cl_handle c = Some (cl_message c)) ∧
    (lib_ReceiveResult route q).2 ≠ Err ErrDurableResultsUnavailable;
  ack_law c q k m : recoverable q !! k = Some m →
    recoverable (AckResult c q).1 !! k = Some m ∨ (k = cl_handle c ∧ m = cl_message c);
  cancel_law ids q : recoverable q ⊆ recoverable (CancelRequests ids q).1 }.

(** ** [asyncSharedClient] *)
Definition defaultDeadline : Z := 5 * 60.
Section Client.
Context {Q : Type} `{Transport Q} (is_object : bytes → bool) (model_of : bytes → string) (durable : bool).

Definition Submit (now : Z) (deadline : option Z) (req : RequestItem) (q : Q) : Q * option string :=
  let '(q', r) := SubmitRequest {| qm_ID := rq_RequestID req; qm_Created := now;
      qm_Deadline := default (now + defaultDeadline) deadline; qm_Payload := rq_Body req; qm_Headers := rq_Headers req;
      qm_Endpoint := rq_Endpoint req; qm_Model := model_of (rq_Body req) |} q in
  (q', match r with Ok _ => None | Err _ => Some ErrCategoryServer end).

Definition generateResponseFrom (m : ResultMessage) : GenerateResponse :=
  {| gr_RequestID := rm_ID m;
     gr_NonHTTPFailure := (rm_StatusCode m =? 0)
       && (negb (bool_decide (rm_ErrorCode m = "")) || negb (bool_decide (rm_ErrorMessage m = "")));
     gr_ErrorCode := rm_ErrorCode m; gr_StatusCode := rm_StatusCode m; gr_Empty := bool_decide (rm_Payload m = []);
     gr_Parsed := is_object (rm_Payload m) |}.
Definition GetResult (route : string) (q : Q) : Q * result ResultMessage := lib_GetResult route q.
Definition ReceiveResult (route : string) (q : Q) : Q * result Claim :=
  if durable then lib_ReceiveResult route q else (q, Err ErrDurableResultsUnavailable).
Definition Cancel (ids : list string) (q : Q) : Q * result unit :=
  match ids with [] => (q, Ok tt) | _ => CancelRequests ids q end.

(** [receive] of the broadcaster: the result and, with leases, its claim. *)
Definition receive (route : string) (q : Q) : Q * result (ResultMessage * option Claim) :=
  match ReceiveResult route q with
  | (q', Ok c) => (q', Ok (cl_message c, Some c))
  | (q', Err e) =>
      if negb (bool_decide (e = ErrDurableResultsUnavailable)) then (q', Err e)
      else let '(q2, r) := GetResult route q' in (q2, match r with Ok m => Ok (m, None) | Err e => Err e end)
  end.
End Client.

(** ** A job *)

(** A result on its way to the checkpointer, with the claim to acknowledge;
    [pc_given_up] marks the results that stand for a request that was given up
    because the run is ending. *)
Record Parcel := { pc_item : ResultItem; pc_claim : option Claim; pc_given_up : bool }.
Definition local (r : ResultItem) : Parcel := {| pc_item := r; pc_claim := None; pc_given_up := false |}.
Definition given_up (r : ResultItem) : Parcel := {| pc_item := r; pc_claim := None; pc_given_up := true |}.

Inductive PrePhase := Reading | Rest (lost : bool) | PreClosed.
(** The source's output and the fence: requests not read yet, the request
    offered to the dispatcher, the result it is sending. *)
Record Fence := { fe_todo : list RequestItem; fe_phase : PrePhase; fe_offer : option RequestItem; fe_out : list Parcel }.
Inductive RunPhase := Submitting | Waited | Emitting | Closed.
(** The dispatcher and the goroutine that forwards its results. *)
Record Runner := { rn_phase : RunPhase; rn_out : list Parcel; rn_hand : option Parcel }.
(** The causes with which the job's context and the dispatch context ended. *)
Record Ctx := { cx_job : AbortCause; cx_dispatch : AbortCause }.
Record Job := {
  jb_sink : batchResultStore; jb_reqs : list RequestItem;
  jb_fence : Fence; jb_run : Runner; jb_inbox : list Parcel; jb_co : Collector; jb_ctx : Ctx }.

Definition with_fence (f : Fence) (j : Job) : Job :=
  {| jb_sink := jb_sink j; jb_reqs := jb_reqs j; jb_fence := f; jb_run := jb_run j; jb_inbox := jb_inbox j; jb_co := jb_co j; jb_ctx := jb_ctx j |}.
Definition with_run (r : Runner) (j : Job) : Job :=
  {| jb_sink := jb_sink j; jb_reqs := jb_reqs j; jb_fence := jb_fence j; jb_run := r; jb_inbox := jb_inbox j; jb_co := jb_co j; jb_ctx := jb_ctx j |}.
Definition with_inbox (l : list Parcel) (j : Job) : Job :=
  {| jb_sink := jb_sink j; jb_reqs := jb_reqs j; jb_fence := jb_fence j; jb_run := jb_run j; jb_inbox := l; jb_co := jb_co j; jb_ctx := jb_ctx j |}.
Definition with_co (c : Collector) (j : Job) : Job :=
  {| jb_sink := jb_sink j; jb_reqs := jb_reqs j; jb_fence := jb_fence j; jb_run := jb_run j; jb_inbox := jb_inbox j; jb_co := c; jb_ctx := jb_ctx j |}.
Definition with_ctx (c : Ctx) (j : Job) : Job :=
  {| jb_sink := jb_sink j; jb_reqs := jb_reqs j; jb_fence := jb_fence j; jb_run := jb_run j; jb_inbox := jb_inbox j; jb_co := jb_co j; jb_ctx := c |}.
Definition with_phase (p : RunPhase) (j : Job) : Job :=
  with_run {| rn_phase := p; rn_out := rn_out (jb_run j); rn_hand := rn_hand (jb_run j) |} j.
Definition with_pending (p : Pending) (c : Collector) : Collector :=
  {| co_world := co_world c; co_pending := p; co_tracker := co_tracker c; co_acked := co_acked c;
     co_firstErr := co_firstErr c; co_conflict := co_conflict c; co_aborted := co_aborted c |}.
(** The checkpointer at work on the current stores. *)
Definition on_stores (w : World) (c : Collector) : Collector :=
  {| co_world := w; co_pending := co_pending c; co_tracker := co_tracker c; co_acked := [];
     co_firstErr := co_firstErr c; co_conflict := co_conflict c; co_aborted := co_aborted c |}.

(** A context ends once: the first cause stays. *)
Definition first_cause (c c' : AbortCause) : AbortCause := if bool_decide (c = NotAborted) then c' else c.
Definition abort (c : AbortCause) (j : Job) : Job :=
  with_ctx {| cx_job := first_cause (cx_job (jb_ctx j)) c; cx_dispatch := first_cause (cx_dispatch (jb_ctx j)) c |} j.
Definition dispatching (j : Job) : bool := bool_decide (cx_dispatch (jb_ctx j) = NotAborted).
(** With its context ended a remote call fails before it is sent; the first
    call of a checkpoint looks the entry up. *)
Definition under_ctx (j : Job) (env : CkptEnv) : CkptEnv :=
  if bool_decide (cx_job (jb_ctx j) = NotAborted) then env
  else let n := ce_net env in
       {| ce_now := ce_now env; ce_suffix := ce_suffix env;
          ce_net := {| cn_find := NetErr false; cn_store := cn_store n; cn_verify := cn_verify n; cn_fallback := cn_fallback n;
                       cn_commit := cn_commit n; cn_probe := cn_probe n; cn_delete := cn_delete n |} |}.
Definition defaultResultBuffer : nat := 64.
Definition push (p : Parcel) (j : Job) : option Job :=
  if (length (jb_inbox j) <? defaultResultBuffer)%nat then Some (with_inbox (app (jb_inbox j) [p]) j) else None.

Inductive JobAct :=
| JPre (now : Z) (n1 n2 : net)        (** the fence handles the next request *)
| JPreSend                            (** it sends a result *)
| JSourceFails                        (** the source cannot read a request: the group's context ends *)
| JTake (now : Z) (deadline : option Z) (** the dispatcher takes and submits a request *)
| JWait                               (** its wait is over *)
| JGiveUp                             (** it gives up what is still pending *)
| JSend                               (** it sends a result *)
| JForward                            (** a result reaches the checkpointer's channel *)
| JClose                              (** it unsubscribes and closes its channel *)
| JDrain (env : CkptEnv)              (** the checkpointer handles a result *)
| JAbort (cause : AbortCause).        (** the job's context ends *)

Section Run.
Context {Q : Type} `{Transport Q} (is_object : bytes → bool) (model_of : bytes → string) (durable : bool).
Context (sha256hex : bytes → string) (marshal : ResultItem → option bytes) (known : string → bool).

Definition fence_step (now : Z) (n1 n2 : net) (w : World) (j : Job) : option (World * Job) :=
  let f := jb_fence j in
  match fe_out f, fe_offer f, fe_todo f, fe_phase f with
  | [], None, [], Reading | [], None, [], Rest _ =>
      Some (w, with_fence {| fe_todo := []; fe_phase := PreClosed; fe_offer := None; fe_out := [] |} j)
  | [], None, r :: rest, Reading =>
      let s := jb_sink j in
      let '(db, ev, nx) := pre_step (rs_batchID s) (rs_processorID s) (rs_epoch s)
        {| pi_req := r; pi_cause := cx_dispatch (jb_ctx j); pi_now := now; pi_net1 := n1; pi_net2 := n2 |} (w_db w) in
      let j' := with_fence {| fe_todo := rest;
                              fe_phase := match nx with PreGo => Reading | PreStop lost => Rest lost end;
                              fe_offer := match ev with Forward r => Some r | _ => None end;
                              fe_out := match ev with
                                        | Emit r code => [if dispatching j then local (Error r code) else given_up (Error r code)]
                                        | _ => [] end |} j in
      Some ({| w_db := db; w_fs := w_fs w |},
            match nx with PreStop true => abort CauseNeutral j' | _ => j' end)
  | [], None, r :: rest, Rest lost =>
      Some (w, with_fence {| fe_todo := rest; fe_phase := Rest lost; fe_offer := None;
                             fe_out := if lost then [] else [given_up (Error r (cancelCode (cx_dispatch (jb_ctx j))))] |} j)
  | _, _, _, _ => None
  end.

(** [known] tells whether the resolver has a client for the model. *)
Definition take_step (now : Z) (deadline : option Z) (q : Q) (j : Job) : option (Q * Job) :=
  let f := jb_fence j in
  match rn_phase (jb_run j), rn_out (jb_run j), fe_offer f with
  | Submitting, [], Some r =>
      let '(q', failed) := if known (rq_ModelID r) then Submit model_of now deadline r q else (q, None) in
      let '(p, out, _) := async_step known (λ _, failed) (co_pending (jb_co j), [], []) r in
      Some (q', with_co (with_pending p (jb_co j))
                 (with_run {| rn_phase := Submitting; rn_out := local <$> out; rn_hand := rn_hand (jb_run j) |}
                   (with_fence {| fe_todo := fe_todo f; fe_phase := fe_phase f; fe_offer := None; fe_out := fe_out f |} j)))
  | _, _, _ => None
  end.

Definition wait_step (q : Q) (j : Job) : option (Q * Job) :=
  match rn_phase (jb_run j), rn_out (jb_run j), fe_phase (jb_fence j), fe_offer (jb_fence j) with
  | Submitting, [], PreClosed, None =>
      let p := co_pending (jb_co j) in
      if wait_over p || negb (dispatching j)
      then Some ((Cancel (async_finish (cx_dispatch (jb_ctx j)) p).1 q).1, with_phase Waited j) else None
  | _, _, _, _ => None
  end.

Definition drain (env : CkptEnv) (w : World) (q : Q) (j : Job) : option (World * Q * Job) :=
  match jb_inbox j with
  | [] => None
  | p :: rest =>
      let d := {| dl_item := pc_item p; dl_durable := bool_decide (is_Some (pc_claim p)) |} in
      let c := drain_step sha256hex marshal (jb_sink j) (on_stores w (jb_co j)) (d, under_ctx j env) in
      let j' := with_co c (with_inbox rest j) in
      Some (co_world c,
            match pc_claim p, co_acked c with Some cl, _ :: _ => (AckResult cl q).1 | _, _ => q end,
            if co_aborted c
            then with_ctx {| cx_job := cx_job (jb_ctx j); cx_dispatch := first_cause (cx_dispatch (jb_ctx j)) CauseNeutral |} j'
            else j')
  end.

Definition job_step (a : JobAct) (w : World) (q : Q) (j : Job) : option (World * Q * Job) :=
  let f := jb_fence j in let r := jb_run j in
  match a with
  | JPre now n1 n2 => (λ x, (x.1, q, x.2)) <$> fence_step now n1 n2 w j
  | JPreSend =>
      match fe_out f with
      | p :: out => (λ j', (w, q, with_fence {| fe_todo := fe_todo f; fe_phase := fe_phase f; fe_offer := fe_offer f; fe_out := out |} j'))
                      <$> push p j
      | [] => None
      end
  | JSourceFails =>
      Some (w, q, abort CauseNeutral (with_fence {| fe_todo := []; fe_phase := fe_phase f; fe_offer := fe_offer f; fe_out := fe_out f |} j))
  | JTake now deadline => (λ x, (w, x.1, x.2)) <$> take_step now deadline q j
  | JWait => (λ x, (w, x.1, x.2)) <$> wait_step q j
  | JGiveUp =>
      match rn_phase r, rn_out r with
      | Waited, [] =>
          let p := co_pending (jb_co j) in
          Some (w, q, with_co (with_pending (DrainUnresolved p).1 (jb_co j))
                        (with_run {| rn_phase := Emitting; rn_out := given_up <$> (async_finish (cx_dispatch (jb_ctx j)) p).2;
                                     rn_hand := rn_hand r |} j))
      | _, _ => None
      end
  | JSend =>
      match rn_out r, rn_hand r with
      | p :: out, None => Some (w, q, with_run {| rn_phase := rn_phase r; rn_out := out; rn_hand := Some p |} j)
      | _, _ => None
      end
  | JForward =>
      match rn_hand r with
      | Some p => (λ j', (w, q, with_run {| rn_phase := rn_phase r; rn_out := rn_out r; rn_hand := None |} j')) <$> push p j
      | None => None
      end
  | JClose =>
      match rn_phase r, rn_out r with
      | Emitting, [] => Some (w, q, with_phase Closed j)
      | _, _ => None
      end
  | JDrain env => drain env w q j
  | JAbort cause => Some (w, q, abort cause j)
  end.

(** A job at its start: nothing aborted, the recovering entries pre-stored. *)
Definition newJob (sink : batchResultStore) (reqs : list RequestItem) (prestored : Pending) (t : ProgressTracker) (w : World) : Job :=
  {| jb_sink := sink; jb_reqs := reqs;
     jb_fence := {| fe_todo := reqs; fe_phase := Reading; fe_offer := None; fe_out := [] |};
     jb_run := {| rn_phase := Submitting; rn_out := []; rn_hand := None |}; jb_inbox := [];
     jb_co := {| co_world := w; co_pending := prestored; co_tracker := t; co_acked := []; co_firstErr := None;
                 co_conflict := None; co_aborted := false |};
     jb_ctx := {| cx_job := NotAborted; cx_dispatch := NotAborted |} |}.
(** [Execute] has returned: every actor is done and the channel is drained. *)
Definition executed (j : Job) : bool :=
  bool_decide (jb_inbox j = []) &&
  match rn_phase (jb_run j), rn_out (jb_run j), rn_hand (jb_run j), fe_out (jb_fence j) with
  | Closed, [], None, [] => true
  | _, _, _, _ => false
  end.
(** Its error: the checkpointer's, or the cause with which the group ended. *)
Definition Execute_err (j : Job) : option err :=
  match co_conflict (jb_co j), co_firstErr (jb_co j) with
  | Some e, _ => Some e
  | None, Some e => Some e
  | None, None => if bool_decide (cx_job (jb_ctx j) = NotAborted) then None
                  else Some (default (ErrOther "context canceled") (Cause (cx_job (jb_ctx j))))
  end.

(** ** The system *)

(** [ResultBroadcaster.Run] on one route: the subscribed jobs and how far the
    current result has come. *)
Inductive Stage :=
| Idle
| Received (m : ResultMessage) (c : option Claim)
| Sending (m : ResultMessage) (c : option Claim) (targets : list string)
| Residue (m : ResultMessage) (c : Claim)
| Acking (c : Claim).
Record Router := { ro_subs : list string; ro_stage : Stage }.
Record State := { st_world : World; st_queue : Q; st_jobs : gmap string Job; st_routers : gmap string Router }.

Definition with_jobs (js : gmap string Job) (s : State) : State :=
  {| st_world := st_world s; st_queue := st_queue s; st_jobs := js; st_routers := st_routers s |}.
Definition with_queue (q : Q) (s : State) : State :=
  {| st_world := st_world s; st_queue := q; st_jobs := st_jobs s; st_routers := st_routers s |}.
Definition with_router (i : string) (r : Router) (s : State) : State :=
  {| st_world := st_world s; st_queue := st_queue s; st_jobs := st_jobs s; st_routers := <[i := r]> (st_routers s) |}.
Definition with_routers (rs : gmap string Router) (s : State) : State :=
  {| st_world := st_world s; st_queue := st_queue s; st_jobs := st_jobs s; st_routers := rs |}.
Definition with_files (fs : FileStore) (s : State) : State :=
  {| st_world := {| w_db := w_db (st_world s); w_fs := fs |}; st_queue := st_queue s; st_jobs := st_jobs s; st_routers := st_routers s |}.
Definition at_stage (g : Stage) (r : Router) : Router := {| ro_subs := ro_subs r; ro_stage := g |}.

Definition subscribe (j : string) (group : list string) (rs : gmap string Router) : gmap string Router :=
  map_imap (λ i r, Some (if bool_decide (i ∈ group) then {| ro_subs := j :: ro_subs r; ro_stage := ro_stage r |} else r)) rs.
Definition unsubscribe (j : string) (rs : gmap string Router) : gmap string Router :=
  (λ r, {| ro_subs := filter (λ i, i ≠ j) (ro_subs r); ro_stage := ro_stage r |}) <$> rs.

(** The subscribers as the router sees them: each with its pending set. *)
Definition subscribers (js : gmap string Job) (ids : list string) : list Subscriber :=
  ids ≫= λ i, match js !! i with
              | Some j => [{| sb_id := i; sb_owns := Some (λ q, Has q (co_pending (jb_co j))) |}]
              | None => []
              end.
Definition item_of (m : ResultMessage) : ResultItem := asyncResult (generateResponseFrom is_object m).

(** [safeChannelSend]: a closed channel drops the result, a busy one blocks. *)
Definition send (p : Parcel) (target : string) (js : gmap string Job) : option (gmap string Job) :=
  match js !! target with
  | None => Some js
  | Some j =>
      match rn_phase (jb_run j), rn_hand (jb_run j) with
      | Closed, _ => Some js
      | ph, None => Some (<[target := with_run {| rn_phase := ph; rn_out := rn_out (jb_run j); rn_hand := Some p |} j]> js)
      | _, Some _ => None
      end
  end.

Inductive RouterAct := RReceive | RRoute | RSend | RCheck (n : net) | RAck.
Definition router_step (a : RouterAct) (i : string) (r : Router) (s : State) : option State :=
  match a, ro_stage r with
  | RReceive, Idle =>
      let '(q, res) := receive durable i (st_queue s) in
      Some (with_queue q (with_router i (at_stage (match res with Ok (m, c) => Received m c | Err _ => Idle end) r) s))
  | RRoute, Received m c =>
      let targets := (route (subscribers (st_jobs s) (ro_subs r)) false None (ri_RequestID (item_of m))).1 in
      Some (with_router i (at_stage (match targets, c with
                                     | [], Some c => Residue m c
                                     | [], None => Idle
                                     | _, _ => Sending m c targets end) r) s)
  | RSend, Sending m c [] => Some (with_router i (at_stage Idle r) s)
  | RSend, Sending m c (t :: ts) =>
      (λ js, with_router i (at_stage (Sending m c ts) r) (with_jobs js s))
        <$> send {| pc_item := item_of m; pc_claim := c; pc_given_up := false |} t (st_jobs s)
  | RCheck n, Residue m c =>
      let safe := (route [] true (Some (residueGate n (w_db (st_world s)))) (ri_RequestID (item_of m))).2 in
      Some (with_router i (at_stage (if safe then Acking c else Idle) r) s)
  | RAck, Acking c => Some (with_queue (AckResult c (st_queue s)).1 (with_router i (at_stage Idle r) s))
  | _, _ => None
  end.

Inductive Act :=
| AStmt (s : Stmt)                             (** another client of the database *)
| AFileStore (path : string) (data : bytes)    (** another client of the file store creates a file *)
| AFileDelete (path : string)                  (** or deletes one *)
| AQueue (q : Q)                               (** the queue: results appear, leases run out *)
| AStart (id : string) (sink : batchResultStore) (group : list string) (reqs : list RequestItem) (prestored : Pending)
         (t : ProgressTracker)                 (** a job starts and subscribes *)
| AJob (id : string) (a : JobAct)
| ACrash (id : string)                         (** the process of a job dies *)
| ARouterStart (i : string) | ARouterStop (i : string)
| ARouter (i : string) (a : RouterAct).

Definition step (a : Act) (s : State) : option State :=
  match a with
  | AStmt st => Some {| st_world := {| w_db := run st (w_db (st_world s)); w_fs := w_fs (st_world s) |}; st_queue := st_queue s;
                        st_jobs := st_jobs s; st_routers := st_routers s |}
  | AFileStore path data =>
      let fs := w_fs (st_world s) in
      Some (with_files (match fs !! path with Some _ => fs | None => <[path := data]> fs end) s)
  | AFileDelete path => Some (with_files (delete path (w_fs (st_world s))) s)
  | AQueue q => if bool_decide (recoverable (st_queue s) ⊆ recoverable q) then Some (with_queue q s) else None
  | AStart id sink group reqs prestored t =>
      match st_jobs s !! id with
      | Some _ => None
      | None => Some (with_routers (subscribe id group (st_routers s))
                       (with_jobs (<[id := newJob sink reqs prestored t (st_world s)]> (st_jobs s)) s))
      end
  | AJob id a =>
      match st_jobs s !! id with
      | None => None
      | Some j =>
          match job_step a (st_world s) (st_queue s) j with
          | None => None
          | Some (w, q, j') =>
              Some {| st_world := w; st_queue := q; st_jobs := <[id := j']> (st_jobs s);
                      st_routers := match a with JClose => unsubscribe id (st_routers s) | _ => st_routers s end |}
          end
      end
  | ACrash id => Some (with_routers (unsubscribe id (st_routers s)) (with_jobs (delete id (st_jobs s)) s))
  | ARouterStart i => match st_routers s !! i with
                      | Some _ => None
                      | None => Some (with_router i {| ro_subs := []; ro_stage := Idle |} s)
                      end
  | ARouterStop i => Some (with_routers (delete i (st_routers s)) s)
  | ARouter i a => match st_routers s !! i with Some r => router_step a i r s | None => None end
  end.
Fixpoint run_acts (l : list Act) (s : State) : option State :=
  match l with [] => Some s | a :: l => match step a s with Some s' => run_acts l s' | None => None end end.
End Run.
