(* ===== verification/AsyncResults.v ===== *)
(** * Asynchronous execution: no result is lost or invented

    Theorems about the interleavings of [AsyncRun].  Job-local invariants (what
    a job's own actions keep) come first, then the system-wide ones.

    A result that a worker has published stays recoverable until the entry it
    belongs to is terminal ([completed_results_survive]); a failure that a
    dispatcher only makes up because its run ends is never recorded
    ([given_up_is_never_recorded]); and a run that ends without an error has
    every one of its requests recorded ([clean_run_settles_everything]). *)

From Stdlib Require Import ZArith Lia Ascii String.
From stdpp Require Import base gmap strings list sorting pretty.
From S2P Require Import Prelude Openai Store StoreOps Ownership Fencing Planner Preprocess.
From S2P Require Import Files ResultStore Entries Finalizer JobRunner Pipeline Flow Dispatch AsyncRun.
Local Open Scope string_scope.
Local Open Scope Z_scope.

(** ** Entries *)

(** The entry is terminal. *)
Definition closed (b q : string) (db : DB) : Prop :=
  ∃ x, entries db !! (b, q) = Some x ∧ entry_terminal (e_status x) = true.

(** What the actors of a job do to the table: they change one open entry.  The
    fence marks it in flight. *)
Definition entry_moves (db db' : DB) : Prop :=
  db' = db ∨ ∃ k x y, entries db !! k = Some x ∧ entry_step x y ∧
    db' = {| items := items db; entries := <[k := y]> (entries db) |}.
Definition entry_marks (p : string) (db db' : DB) : Prop :=
  db' = db ∨ ∃ k x, entries db !! k = Some x ∧ entry_open x = true ∧
    db' = {| items := items db; entries := <[k := mark_entry p x]> (entries db) |}.

Lemma marks_moves p db db' : entry_marks p db db' → entry_moves db db'.
Proof. intros [->|(k & x & Hk & Ho & ->)]; [by left|right]. exists k, x, (mark_entry p x). by split_and!; [|constructor|]. Qed.
Lemma entry_moves_closed b q db db' : entry_moves db db' → closed b q db → closed b q db'.
Proof.
  intros [->|(k & x & y & Hk & Ho & ->)] (z & Hz & Ht); [by exists z|]. exists z. cbn. rewrite lookup_insert_ne; [done|].
  intros ->. apply entry_step_terminal in Ho. congruence.
Qed.
Lemma entry_moves_dom k db db' : entry_moves db db' → is_Some (entries db' !! k) ↔ is_Some (entries db !! k).
Proof.
  intros [->|(k0 & x & y & Hk & Ho & ->)]; [done|]. cbn. rewrite lookup_insert. case_decide; [subst|done]. rewrite Hk.
  by split; eexists.
Qed.
Lemma run_closed b q s db : admissible s → keeps b s → closed b q db → closed b q (run s db).
Proof.
  intros Ha Hk (x & Hx & Ht). destruct (run_entry_keeps s db (b, q)) as [y Hy]; [done|by eexists|]. exists y. split; [done|].
  destruct (run_entry s db (b, q) x y Ha Hx Hy) as [->|Hs]; [done|]. apply entry_step_terminal in Hs. congruence.
Qed.

Lemma commits_moves sink msg db db' : commits sink msg db db' → entry_moves db db'.
Proof.
  intros (x & res & Hx & Ho & Hr & ->). right. eexists _, x, _. split_and!; [done| |done]. constructor; [done|]. rewrite Hr.
  by destruct (Succeeded msg).
Qed.

(** The fence. *)
Lemma pre_step_outcome b p e x db db' ev nx : pre_step b p e x db = (db', ev, nx) →
  entry_marks p db db' ∧
  match nx with
  | PreStop lost => ev = (if lost then Drop (pi_req x) else Emit (pi_req x) (cancelCode (pi_cause x))) ∧
                    (lost = false → pi_cause x ≠ NotAborted)
  | PreGo => pi_cause x = NotAborted ∧
             match ev with
             | Forward r => r = pi_req x
             | Emit r _ => r = pi_req x
             | Drop r => r = pi_req x ∧ closed b (rq_RequestID r) db'
             end
  end.
Proof.
  unfold pre_step. case_bool_decide as Hc; cbn [negb]; [|intros [= <- <- <-]; split; [by left|done]].
  destruct (rq_ParseError (pi_req x)) as [pe|]; [intros [= <- <- <-]; split; [by left|done]|].
  unfold markEntryInFlightHook, bindM, try.
  destruct (MarkEntryInFlight _ _ _ _ _ _ _ db) as [db1 r] eqn:Hm.
  assert (entry_marks p db db1) as Hmv.
  { apply mark_outcome in Hm as [[-> _]|(row & y & _ & _ & Hy & Ho & ->)]; [by left|right]. by eexists _, y. }
  assert (r = Ok false → closed b (rq_RequestID (pi_req x)) db1) as Hdrop.
  { intros ->. revert Hm. unfold MarkEntryInFlight, bindM, exec, total. destruct (sql_mark _ _ _ _ _ _) as [d k].
    destruct (pi_net1 x) as [|[]]; cbn; try done. destruct k; [|done].
    destruct (entryNotUpdatable _ _ _ _ _ d) as [d1 [[]|er]] eqn:Hn; [|done]. intros [= <-].
    pose proof (entryNotUpdatable_pure (pi_net2 x) b (rq_RequestID (pi_req x)) p e d) as Hp. rewrite Hn in Hp. cbn in Hp. subst d1.
    by apply (entryNotUpdatable_ok {| rs_batchID := b; rs_folder := ""; rs_processorID := p; rs_epoch := e |}) in Hn. }
  destruct r as [[]|er]; cbn; [intros [= <- <- <-]; split; [done|split; done]|intros [= <- <- <-]; split; [done|]; split; [done|split; [done|auto]]|].
  case_bool_decide; intros [= <- <- <-]; done.
Qed.

(** ** A job's own actions *)
Section Job.
Context {Q : Type} `{Transport Q} (is_object : bytes → bool) (model_of : bytes → string) (durable : bool).
Context (sha256hex : bytes → string) (marshal : ResultItem → option bytes) (known : string → bool).
Abbreviation job_step := (job_step model_of sha256hex marshal known).

(** The results on their way to the checkpointer. *)
Definition parcels (j : Job) : list Parcel :=
  fe_out (jb_fence j) ++ rn_out (jb_run j) ++ option_list (rn_hand (jb_run j)) ++ jb_inbox j.
Definition healthy (j : Job) : Prop := cx_job (jb_ctx j) = NotAborted ∧ no_error (jb_co j).

(** One iteration of the checkpointer: the entry table changes by at most one
    open entry; what is acknowledged or no longer pending is terminal; and
    without an error the result itself is. *)
Definition abort_is_error (c : Collector) : Prop := co_aborted c = true → ¬ no_error c.

Lemma no_error_dec c : {no_error c} + {¬ no_error c}.
Proof. unfold no_error. destruct (co_firstErr c), (co_conflict c); [right; by intros [? ?]..|by left]. Qed.

Lemma Resolve_sub r p : (Resolve r p).1 ⊆ p.
Proof. unfold Resolve. repeat destruct_match; cbn [fst]; try apply delete_subseteq; done. Qed.

Lemma set_error_spec e c : ¬ no_error (set_error e c).
Proof. unfold set_error, no_error. cbn. case_bool_decide; intros [? ?]; done. Qed.

Lemma drain_step_outcome sink w c d env : abort_is_error c →
  let c' := drain_step sha256hex marshal sink (on_stores w c) (d, env) in
  let b := rs_batchID sink in let q := ri_RequestID (dl_item d) in
  entry_moves (w_db w) (w_db (co_world c')) ∧ abort_is_error c' ∧ (no_error c' → no_error c) ∧
  (co_acked c' ≠ [] → closed b q (w_db (co_world c'))) ∧
  (∀ r, is_Some (co_pending c !! r) → is_Some (co_pending c' !! r) ∨ closed b r (w_db (co_world c'))) ∧
  (∀ r, is_Some (co_pending c' !! r) → is_Some (co_pending c !! r)) ∧
  (no_error c' → ri_CustomID (dl_item d) ≠ "" → closed b q (w_db (co_world c'))) ∧
  (¬ no_error c → c' = on_stores w c).
Proof.
  intros Hab. cbv zeta. unfold drain_step. set (c0 := on_stores w c).
  assert (no_error c0 ↔ no_error c) as Hne by done. assert (abort_is_error c0) as Hab0 by done.
  destruct (Enrich _ _) as [msg|] eqn:He; cycle 1.
  { split_and!; try done; [by left|by left|]. intros _ Hc. exfalso. revert He. unfold Enrich.
    rewrite (bool_decide_eq_false_2 (ri_CustomID (dl_item d) = "")) by done. cbn [negb]. rewrite orb_true_r. by destruct (ri_Error _). }
  apply Enrich_id in He.
  destruct (_ || _) eqn:Herr.
  { assert (¬ no_error c) as Hn. { apply orb_true_iff in Herr as [Hx|Hx]; apply bool_decide_eq_true in Hx as [? Hx]; intros [? ?]; cbn in *; congruence. }
    split_and!; try done; [by left|by left]. }
  assert (no_error c) as Hno.
  { apply orb_false_iff in Herr as [Hx Hy]. apply bool_decide_eq_false in Hx, Hy. split; by apply eq_None_not_Some. }
  destruct (checkpoint _ _ _ env msg c0) as [c1 r] eqn:Hck. pose proof Hck as Hmv.
  apply checkpoint_outcome in Hck as (Hacked & Hfe & Hce & Hmono & Hr).
  assert (entry_moves (w_db w) (w_db (co_world c1)) ∧ co_aborted c1 = co_aborted c) as [Hmoves Habc].
  { revert Hmv. unfold checkpoint. destruct (MarshalResultLine _ _ _) as [[[line dg] sz]|e] eqn:Hml; [|intros [= <- <-]; by split; [left|]].
    unfold MarshalResultLine in Hml. destruct (marshal msg); [|done]. injection Hml as <- <- <-.
    destruct (Checkpoint _ _ _ _ _ _ _ _ _ _) as [w1 r1] eqn:Hc. apply Checkpoint_outcome in Hc.
    destruct r1 as [[]|]; intros [= <- <-]; cbn; (split; [|done]).
    - by eapply commits_moves.
    - destruct Hc as [-> _]. by left.
    - destruct Hc as [->|Hc]; [by left|by eapply commits_moves]. }
  assert (no_error c1) as Hno1 by (unfold no_error in *; rewrite Hfe, Hce; done).
  destruct r as [u|e].
  - destruct Hr as (Hp & Hs & _). rewrite He in Hs.
    assert (∀ r, is_Some (co_pending c !! r) → is_Some (co_pending c1 !! r) ∨ closed (rs_batchID sink) r (w_db (co_world c1))) as HP.
    { intros r Hr. rewrite Hp. destruct (Resolve_only msg (co_pending c0) r) as [->| ->]; [by left|right]. rewrite He. exact Hs. }
    assert (∀ r, is_Some (co_pending c1 !! r) → is_Some (co_pending c !! r)) as HP'.
    { intros r [x Hx]. rewrite Hp in Hx. exists x. by apply (lookup_weaken _ _ _ _ Hx), Resolve_sub. }
    assert (co_aborted c1 = true → False) as Hnab by (intros Ha; rewrite Habc in Ha; by apply Hab in Ha).
    destruct (dl_durable d); cbn; (split; [done|]); (split; [by intros ?%Hnab|]); split_and!; try done.
  - destruct Hr as [Hp _]. cbn. rewrite Hp, Hacked. split_and!; try done; auto using set_error_spec.
    + intros _. apply set_error_spec.
    + intros Hx. by apply set_error_spec in Hx.
Qed.

(** With the context ended nothing is recorded or acknowledged. *)
Lemma drain_step_ended sink w c d env : cn_find (ce_net env) = NetErr false →
  let c' := drain_step sha256hex marshal sink (on_stores w c) (d, env) in
  w_db (co_world c') = w_db w ∧ co_acked c' = [] ∧ co_pending c' = co_pending c.
Proof.
  intros Hn. cbv zeta. unfold drain_step. destruct (Enrich _ _) as [msg|]; [|done]. destruct (_ || _); [done|].
  unfold checkpoint. destruct (MarshalResultLine _ _ _) as [[[line dg] sz]|e]; [|done].
  unfold Checkpoint, bindM, on_db. rewrite Hn. done.
Qed.

(** *** The invariant of a job *)
Record job_ok (j : Job) : Prop := {
  ok_abort : abort_is_error (jb_co j);
  ok_dispatch : cx_dispatch (jb_ctx j) ≠ NotAborted → ¬ healthy j;
  ok_given : ∀ p, p ∈ parcels j → pc_given_up p = true → ¬ healthy j;
  ok_rest : ∀ lost, fe_phase (jb_fence j) = Rest lost → ¬ healthy j;
  ok_closed : fe_phase (jb_fence j) = PreClosed → fe_todo (jb_fence j) = [] ∧ fe_offer (jb_fence j) = None;
  ok_done : rn_phase (jb_run j) ≠ Submitting → fe_phase (jb_fence j) = PreClosed ∧ (healthy j → co_pending (jb_co j) = ∅) }.

Lemma newJob_ok sink reqs p t w : job_ok (newJob sink reqs p t w).
Proof. split; try done. intros x Hx. by apply elem_of_nil in Hx. Qed.

Lemma abort_unhealthy c j : c ≠ NotAborted → ¬ healthy (abort c j).
Proof. intros Hc [Hj _]. revert Hj. cbn. unfold first_cause. case_bool_decide; done. Qed.
Lemma abort_healthy c j : healthy (abort c j) → healthy j.
Proof. intros [Hj He]. split; [|done]. revert Hj. cbn. unfold first_cause. by case_bool_decide. Qed.
Lemma abort_ok c j : job_ok j → job_ok (abort c j).
Proof.
  intros [H1 H2 H3 H4 H5 H6]. assert (∀ P : Prop, (P → ¬ healthy j) → P → ¬ healthy (abort c j)) as Hh.
  { intros P HP Hp Hx. apply (HP Hp). by apply abort_healthy in Hx. }
  split; try done.
  - intros Hd [Hj He]. revert Hd Hj. cbn. unfold first_cause. repeat case_bool_decide; try done.
    intros _ Hj. by apply H2; [|split].
  - intros p Hp. exact (Hh _ (H3 p Hp)).
  - intros lost. exact (Hh _ (H4 lost)).
  - intros Hd. destruct (H6 Hd) as [Hc Hp]. split; [done|]. intros Hx%abort_healthy. auto.
Qed.

Lemma push_inv p j j' : push p j = Some j' → j' = with_inbox (jb_inbox j ++ [p]) j.
Proof. unfold push. case_match; by intros [= <-]. Qed.

(** A job is healthy until its context ends or the checkpointer fails. *)
Lemma healthy_same j j' : cx_job (jb_ctx j') = cx_job (jb_ctx j) → co_firstErr (jb_co j') = co_firstErr (jb_co j) →
  co_conflict (jb_co j') = co_conflict (jb_co j) → healthy j' ↔ healthy j.
Proof. unfold healthy, no_error. by intros -> -> ->. Qed.

Lemma fence_step_ok now n1 n2 w j w' j' : job_ok j → fence_step now n1 n2 w j = Some (w', j') →
  job_ok j' ∧ (healthy j' → healthy j).
Proof.
  intros [H1 H2 H3 H4 H5 H6] Hs. unfold fence_step in Hs.
  destruct (fe_out (jb_fence j)) eqn:Hout; [|done]. destruct (fe_offer (jb_fence j)) eqn:Hoff; [done|].
  assert (∀ p l, p ∈ (l ++ rn_out (jb_run j) ++ option_list (rn_hand (jb_run j)) ++ jb_inbox j)%list →
            p ∈ l ∨ p ∈ parcels j) as Hpar.
  { intros p l [?|?]%elem_of_app; [by left|right]. unfold parcels. rewrite Hout. done. }
  destruct (fe_todo (jb_fence j)) as [|r rest] eqn:Htodo; destruct (fe_phase (jb_fence j)) as [|lost|] eqn:Hph; try done.
  - injection Hs as <- <-. split; [|done]. split; try done.
    + intros p Hp. apply (Hpar p []) in Hp as [Hp%elem_of_nil|Hp]; [done|]. by apply H3.
    + intros Hd. by destruct (H6 Hd).
  - injection Hs as <- <-. split; [|done]. split; try done.
    + intros p Hp. apply (Hpar p []) in Hp as [Hp%elem_of_nil|Hp]; [done|]. by apply H3.
    + intros Hd. by destruct (H6 Hd).
  - destruct (pre_step _ _ _ _ _) as [[db ev] nx] eqn:Hpre. apply pre_step_outcome in Hpre as [_ Hnx]. cbn [pi_req pi_cause] in Hnx.
    set (j1 := with_fence _ j) in Hs.
    assert (∀ p, p ∈ parcels j1 → pc_given_up p = true → ¬ healthy j) as Hg.
    { intros p Hp Hg Hh. apply Hpar in Hp as [Hp|Hp]; [|by apply (H3 p Hp)].
      destruct ev; try by apply elem_of_nil in Hp. apply list_elem_of_singleton in Hp as ->. revert Hg. unfold dispatching.
      case_bool_decide as Hc; [done|]. by destruct (H2 Hc). }
    assert (∀ P, rn_phase (jb_run j) ≠ Submitting → P) as Hsub by (intros P Hd; by destruct (H6 Hd)).
    assert (job_ok (with_fence {| fe_todo := rest; fe_phase := Reading; fe_offer := fe_offer (jb_fence j1); fe_out := fe_out (jb_fence j1) |} j))
      as Hread by (split; try done; intros Hd; by apply Hsub).
    destruct nx as [|[]].
    + injection Hs as <- <-. by split.
    + injection Hs as <- <-. split; [|intros Hx; by apply abort_healthy in Hx].
      apply (abort_ok CauseNeutral) in Hread as [A1 A2 A3 A4 A5 A6].
      split; try done; [intros ? _; by apply abort_unhealthy|intros Hd; by apply Hsub].
    + injection Hs as <- <-. split; [|done]. split; try done; [intros ? _; apply H2; by apply Hnx|intros Hd; by apply Hsub].
  - injection Hs as <- <-. split; [|done]. split; try done.
    intros p Hp Hg. by apply (H4 lost).
Qed.

Lemma drain_ok env w q j w' q' j' : job_ok j → drain sha256hex marshal env w q j = Some (w', q', j') →
  job_ok j' ∧ (healthy j' → healthy j).
Proof.
  intros [H1 H2 H3 H4 H5 H6] Hs. unfold drain in Hs. destruct (jb_inbox j) as [|p rest] eqn:Hin; [done|].
  destruct (drain_step_outcome (jb_sink j) w (jb_co j)
    {| dl_item := pc_item p; dl_durable := bool_decide (is_Some (pc_claim p)) |} (under_ctx j env) H1)
    as (_ & Hab & Hne & _ & _ & Hsub & _ & _).
  set (c := drain_step _ _ _ _ _) in *. injection Hs as _ _ Hj.
  assert (jb_fence j' = jb_fence j ∧ jb_run j' = jb_run j ∧ jb_co j' = c ∧ jb_inbox j' = rest ∧ cx_job (jb_ctx j') = cx_job (jb_ctx j) ∧
    (co_aborted c = true ∨ cx_dispatch (jb_ctx j') = cx_dispatch (jb_ctx j))) as (Ef & Er & Ec & Ei & Ex & Ed).
  { subst j'. destruct (co_aborted c); split_and!; try done; [by left|by right]. }
  assert (healthy j' → healthy j) as Hh. { intros [Ha Hb]. rewrite Ec in Hb. split; [congruence|auto]. }
  split; [|done]. split; rewrite ?Ef, ?Er, ?Ec; try done.
  - intros Hd Hx. destruct Ed as [Ed|Ed]; [destruct Hx as [_ Hx]; rewrite Ec in Hx; by apply Hab|].
    rewrite Ed in Hd. by apply H2; auto.
  - intros x Hx Hg Hx'. apply (H3 x); [|done|auto]. revert Hx. unfold parcels. rewrite Ef, Er, Ei, Hin.
    rewrite !elem_of_app, elem_of_cons. tauto.
  - intros lost Hl Hx. by apply (H4 lost Hl); auto.
  - intros Hd. destruct (H6 Hd) as [Hc Hp]. split; [done|]. intros Hx%Hh. specialize (Hp Hx). apply map_eq. intros k.
    rewrite lookup_empty. destruct (co_pending c !! k) eqn:Hk; [|done]. destruct (Hsub k) as [? Hk']; [by eexists|].
    by rewrite Hp, lookup_empty in Hk'.
Qed.

Lemma job_step_ok a w q j w' q' j' : job_ok j → job_step a w q j = Some (w', q', j') → job_ok j' ∧ (healthy j' → healthy j).
Proof.
  intros Hok Hs. destruct a; cbn [AsyncRun.job_step] in Hs.
  - destruct (fence_step _ _ _ _ _) as [[w1 j1]|] eqn:Hf; [|done]. injection Hs as <- <- <-. by eapply fence_step_ok.
  - destruct (fe_out _) as [|p out] eqn:Ho; [done|]. destruct (push p j) as [j1|] eqn:Hp; [|done]. injection Hs as <- <- <-.
    apply push_inv in Hp as ->. split; [|done]. destruct Hok as [H1 H2 H3 H4 H5 H6]. split; try done.
    intros x Hx. apply H3. revert Hx. unfold parcels. cbn. rewrite Ho. set_unfold. tauto.
  - injection Hs as <- <- <-. split; [|intros Hx; by apply abort_healthy in Hx]. apply abort_ok.
    destruct Hok as [H1 H2 H3 H4 H5 H6]. split; try done. intros Hx. by destruct (H5 Hx).
  - unfold take_step in Hs. destruct (rn_phase _) eqn:Hr; try done. destruct (rn_out _) eqn:Ho; [|done].
    destruct (fe_offer _) as [r|] eqn:Hf; [|done]. destruct (if known _ then _ else _) as [q1 failed].
    destruct (async_step _ _ _ _) as [[p out] sent] eqn:Ha. injection Hs as <- <- <-. split; [|done].
    destruct Hok as [H1 H2 H3 H4 H5 H6]. split; try done.
    + intros x Hx Hg. apply (H3 x); [|done]. revert Hx. unfold parcels. cbn. rewrite Ho, !elem_of_app.
      intros [?|[(y & -> & _)%list_elem_of_fmap|?]]; [tauto|done|tauto].
    + intros Hc. cbn in Hc. by destruct (H5 Hc).
  - unfold wait_step in Hs. destruct (rn_phase _) eqn:Hr; try done. destruct (rn_out _) eqn:Ho; [|done].
    destruct (fe_phase _) eqn:Hp; try done. destruct (fe_offer _) eqn:Hf; [done|].
    destruct (wait_over _ || _) eqn:Hw; [|done]. injection Hs as <- <- <-. split; [|done].
    destruct Hok as [H1 H2 H3 H4 H5 H6]. split; try done.
    intros _. split; [done|]. intros Hh. apply orb_true_iff in Hw as [Hw%bool_decide_eq_true|Hw]; [done|].
    unfold dispatching in Hw. case_bool_decide as Hc; [done|]. by destruct (H2 Hc).
  - destruct (rn_phase _) eqn:Hr; try done. destruct (rn_out _) eqn:Ho; [|done]. injection Hs as <- <- <-. split; [|done].
    destruct Hok as [H1 H2 H3 H4 H5 H6]. destruct H6 as [Hc Hp]; [by rewrite Hr|]. split; try done.
    intros x Hx Hg Hh. revert Hx. unfold parcels. cbn [with_co with_run jb_fence jb_run rn_out rn_hand jb_inbox fe_out].
    unfold async_finish. rewrite (Hp Hh). cbn. rewrite map_to_list_empty. cbn. rewrite !elem_of_app. intros Hx. apply (H3 x); [|done..].
    unfold parcels. rewrite !elem_of_app. set_unfold. tauto.
  - destruct (rn_out _) as [|p out] eqn:Ho; [done|]. destruct (rn_hand _) eqn:Hh; [done|]. injection Hs as <- <- <-. split; [|done].
    destruct Hok as [H1 H2 H3 H4 H5 H6]. split; try done.
    intros x Hx. apply H3. revert Hx. unfold parcels. cbn. rewrite Ho, Hh. cbn. set_unfold. tauto.
  - destruct (rn_hand _) as [p|] eqn:Hh; [|done]. destruct (push p j) as [j1|] eqn:Hp; [|done]. injection Hs as <- <- <-.
    apply push_inv in Hp as ->. split; [|done]. destruct Hok as [H1 H2 H3 H4 H5 H6]. split; try done.
    intros x Hx. apply H3. revert Hx. unfold parcels. cbn. rewrite Hh. cbn. set_unfold. tauto.
  - destruct (rn_phase _) eqn:Hr; try done. destruct (rn_out _) eqn:Ho; [|done]. injection Hs as <- <- <-. split; [|done].
    destruct Hok as [H1 H2 H3 H4 H5 H6]. split; try done. intros _. apply H6. by rewrite Hr.
  - by eapply drain_ok.
  - injection Hs as <- <- <-. split; [by apply abort_ok|apply abort_healthy].
Qed.

(** *** Effects on the stores and the queue *)
Lemma fence_step_effect now n1 n2 w j w' j' : fence_step now n1 n2 w j = Some (w', j') →
  jb_sink j' = jb_sink j ∧ jb_reqs j' = jb_reqs j ∧ jb_co j' = jb_co j ∧ w_fs w' = w_fs w ∧
  entry_marks (rs_processorID (jb_sink j)) (w_db w) (w_db w') ∧
  ∀ p, p ∈ parcels j' → pc_claim p = None ∨ p ∈ parcels j.
Proof.
  unfold fence_step. intros Hs. destruct (fe_out (jb_fence j)) eqn:Hout; [|done]. destruct (fe_offer (jb_fence j)) eqn:Hoff; [done|].
  assert (∀ p l, (∀ x, x ∈ l → pc_claim x = None) →
     p ∈ (l ++ rn_out (jb_run j) ++ option_list (rn_hand (jb_run j)) ++ jb_inbox j)%list → pc_claim p = None ∨ p ∈ parcels j) as Hpar.
  { intros p l Hl [?|?]%elem_of_app; [left; auto|right]. unfold parcels. rewrite Hout. done. }
  assert (∀ x : Parcel, x ∈ [] → pc_claim x = None) as Hnil by (intros x Hx; by apply elem_of_nil in Hx).
  destruct (fe_todo (jb_fence j)) as [|r rest]; destruct (fe_phase (jb_fence j)) as [|lost|]; try done.
  - injection Hs as <- <-. split_and!; try done; [by left|]. intros p. by apply (Hpar p []).
  - injection Hs as <- <-. split_and!; try done; [by left|]. intros p. by apply (Hpar p []).
  - destruct (pre_step _ _ _ _ _) as [[db ev] nx] eqn:Hpre. apply pre_step_outcome in Hpre as [Hmv _].
    set (j1 := with_fence _ j) in Hs.
    assert (w' = {| w_db := db; w_fs := w_fs w |} ∧ (j' = j1 ∨ j' = abort CauseNeutral j1)) as [-> Hj].
    { destruct nx as [|[]]; injection Hs as <- <-; auto. }
    assert (∀ p, p ∈ parcels j1 → pc_claim p = None ∨ p ∈ parcels j) as Hp.
    { intros p. apply Hpar. intros x Hx. destruct ev; try by apply elem_of_nil in Hx. apply list_elem_of_singleton in Hx as ->.
      by destruct (dispatching j). }
    destruct Hj as [-> | ->]; split_and!; done.
  - injection Hs as <- <-. split_and!; try done; [by left|]. intros p. apply Hpar. intros x Hx.
    destruct lost; [by apply elem_of_nil in Hx|]. by apply list_elem_of_singleton in Hx as ->.
Qed.

Lemma drain_inv env w q j w' q' j' : abort_is_error (jb_co j) → drain sha256hex marshal env w q j = Some (w', q', j') →
  ∃ p rest, jb_inbox j = p :: rest ∧ jb_inbox j' = rest ∧ jb_sink j' = jb_sink j ∧ jb_reqs j' = jb_reqs j ∧
    jb_fence j' = jb_fence j ∧ jb_run j' = jb_run j ∧
    jb_co j' = drain_step sha256hex marshal (jb_sink j) (on_stores w (jb_co j))
      ({| dl_item := pc_item p; dl_durable := bool_decide (is_Some (pc_claim p)) |}, under_ctx j env) ∧
    w' = co_world (jb_co j') ∧
    q' = match pc_claim p, co_acked (jb_co j') with Some cl, _ :: _ => (AckResult cl q).1 | _, _ => q end.
Proof.
  unfold drain. intros Hab Hs. destruct (jb_inbox j) as [|p rest]; [done|]. exists p, rest.
  injection Hs as <- <- <-. by destruct (co_aborted _).
Qed.

Context {L : TransportLaws Q}.

Lemma job_step_effect a w q j w' q' j' : job_ok j → job_step a w q j = Some (w', q', j') →
  jb_sink j' = jb_sink j ∧ jb_reqs j' = jb_reqs j ∧ entry_moves (w_db w) (w_db w') ∧
  (∀ p, p ∈ parcels j' → pc_claim p = None ∨ p ∈ parcels j) ∧
  (recoverable q ⊆ recoverable q' ∨
   ∃ p c, p ∈ parcels j ∧ pc_claim p = Some c ∧ q' = (AckResult c q).1 ∧
     closed (rs_batchID (jb_sink j)) (ri_RequestID (pc_item p)) (w_db w')).
Proof.
  intros Hok Hs. assert (entry_moves (w_db w) (w_db w)) as Hrefl by by left.
  destruct a; cbn [AsyncRun.job_step] in Hs.
  - destruct (fence_step _ _ _ _ _) as [[w1 j1]|] eqn:Hf; [|done]. injection Hs as <- <- <-.
    apply fence_step_effect in Hf as (? & ? & _ & _ & Hmv & ?). apply marks_moves in Hmv. split_and!; auto.
  - destruct (fe_out _) as [|p out] eqn:Ho; [done|]. destruct (push p j) as [j1|] eqn:Hp; [|done]. injection Hs as <- <- <-.
    apply push_inv in Hp as ->. split_and!; auto. intros x. unfold parcels. cbn. rewrite Ho. set_unfold. tauto.
  - injection Hs as <- <- <-. split_and!; auto.
  - unfold take_step in Hs. destruct (rn_phase _) eqn:Hr; try done. destruct (rn_out _) eqn:Ho; [|done].
    destruct (fe_offer _) as [r|]; [|done]. destruct (if known _ then _ else _) as [q1 failed] eqn:Hq.
    destruct (async_step _ _ _ _) as [[p out] sent]. injection Hs as <- <- <-. split_and!; auto.
    + intros x. unfold parcels. cbn. rewrite Ho. set_unfold. intros [?|[(y & -> & _)|?]]; [tauto|by left|tauto].
    + left. destruct (known _); [|by injection Hq as <- <-]. unfold Submit in Hq.
      set (m := {| qm_ID := _ |}) in Hq. pose proof (submit_law m q) as Hl.
      destruct (SubmitRequest m q). by injection Hq as <- <-.
  - unfold wait_step in Hs. destruct (rn_phase _); try done. destruct (rn_out _) eqn:Ho; [|done].
    destruct (fe_phase _); try done. destruct (fe_offer _); [done|]. destruct (_ || _); [|done]. injection Hs as <- <- <-.
    split_and!; auto. left. unfold Cancel. case_match; [done|apply cancel_law].
  - destruct (rn_phase _); try done. destruct (rn_out _); [|done]. injection Hs as <- <- <-. split_and!; auto.
    intros x. unfold parcels. cbn [with_co with_run jb_fence jb_run rn_out rn_hand jb_inbox fe_out].
    rewrite !elem_of_app, list_elem_of_fmap. intros [?|[(y & -> & _)|?]]; [tauto|by left|tauto].
  - destruct (rn_out _) as [|p out] eqn:Ho; [done|]. destruct (rn_hand _) eqn:Hh; [done|]. injection Hs as <- <- <-. split_and!; auto.
    intros x. unfold parcels. cbn. rewrite Ho, Hh. cbn. set_unfold. tauto.
  - destruct (rn_hand _) as [p|] eqn:Hh; [|done]. destruct (push p j) as [j1|] eqn:Hp; [|done]. injection Hs as <- <- <-.
    apply push_inv in Hp as ->. split_and!; auto. intros x. unfold parcels. cbn. rewrite Hh. cbn. set_unfold. tauto.
  - destruct (rn_phase _); try done. destruct (rn_out _); [|done]. injection Hs as <- <- <-. split_and!; auto.
  - destruct (drain_inv _ _ _ _ _ _ _ (ok_abort _ Hok) Hs) as (p & rest & Hin & Hin' & Es & Er & Ef & Eu & Ec & -> & ->).
    destruct (drain_step_outcome (jb_sink j) w (jb_co j)
      {| dl_item := pc_item p; dl_durable := bool_decide (is_Some (pc_claim p)) |} (under_ctx j env) (ok_abort _ Hok))
      as (Hmv & _ & _ & Hack & _). rewrite <- Ec in Hmv, Hack. split_and!; auto.
    + intros x. unfold parcels. rewrite Ef, Eu, Hin', Hin. set_unfold. tauto.
    + destruct (pc_claim p) as [c|] eqn:Hc; [|by left]. destruct (co_acked (jb_co j')) eqn:Ha; [by left|right].
      exists p, c. split_and!; try done; [|by apply Hack]. unfold parcels. rewrite Hin. set_unfold. tauto.
  - injection Hs as <- <- <-. split_and!; auto.
Qed.

(** *** Where a request of the run is *)
Definition accounted (j : Job) (db : DB) (r : RequestItem) : Prop :=
  r ∈ fe_todo (jb_fence j) ∨ fe_offer (jb_fence j) = Some r ∨ is_Some (co_pending (jb_co j) !! rq_RequestID r) ∨
  (∃ p, p ∈ parcels j ∧ ri_RequestID (pc_item p) = rq_RequestID r ∧ ri_CustomID (pc_item p) ≠ "") ∨
  closed (rs_batchID (jb_sink j)) (rq_RequestID r) db.

(** The parts of [accounted] that an action leaves alone. *)
Lemma accounted_moves j j' db db' r :
  jb_sink j' = jb_sink j → entry_moves db db' →
  (r ∈ fe_todo (jb_fence j) → r ∈ fe_todo (jb_fence j') ∨ accounted j' db' r) →
  (fe_offer (jb_fence j) = Some r → fe_offer (jb_fence j') = Some r ∨ accounted j' db' r) →
  (is_Some (co_pending (jb_co j) !! rq_RequestID r) → is_Some (co_pending (jb_co j') !! rq_RequestID r) ∨ accounted j' db' r) →
  (∀ p, p ∈ parcels j → ri_RequestID (pc_item p) = rq_RequestID r → ri_CustomID (pc_item p) ≠ "" →
     p ∈ parcels j' ∨ accounted j' db' r) →
  accounted j db r → accounted j' db' r.
Proof.
  intros Es Hmv H1 H2 H3 H4 [Ht|[Ho|[Hp|[(p & Hp & Hid & Hc)|Hcl]]]].
  - destruct (H1 Ht); [by left|done].
  - destruct (H2 Ho); [by right; left|done].
  - destruct (H3 Hp); [by do 2 right; left|done].
  - destruct (H4 p Hp Hid Hc); [|done]. do 3 right. left. by exists p.
  - do 4 right. rewrite Es. by eapply entry_moves_closed.
Qed.
(** A result for the request is on its way. *)
Lemma accounted_parcel j db r p : p ∈ parcels j → ri_RequestID (pc_item p) = rq_RequestID r → ri_CustomID (pc_item p) ≠ "" → accounted j db r.
Proof. intros. do 3 right. left. by exists p. Qed.

Lemma fence_step_tracks now n1 n2 w j w' j' r : job_ok j → fence_step now n1 n2 w j = Some (w', j') → healthy j' →
  rq_CustomID r ≠ "" → accounted j (w_db w) r → accounted j' (w_db w') r.
Proof.
  intros Hok Hs Hh Hc Hacc. pose proof Hs as Hf. apply fence_step_effect in Hf as (Es & _ & Eco & _ & Hmv%marks_moves & _).
  destruct (fence_step_ok _ _ _ _ _ _ _ Hok Hs) as [Hok' Hhj]. specialize (Hhj Hh).
  apply (accounted_moves j j' (w_db w) (w_db w')); [done|done|..|done]; clear Hacc;
    unfold fence_step in Hs; destruct (fe_out (jb_fence j)) eqn:Hout; try done; destruct (fe_offer (jb_fence j)) eqn:Hoff; try done.
  - intros Hin. destruct (fe_todo (jb_fence j)) as [|r0 rest] eqn:Ht; [by apply elem_of_nil in Hin|].
    destruct (fe_phase (jb_fence j)) as [|lost|] eqn:Hp; try done; [|by destruct (ok_rest _ Hok lost Hp)].
    destruct (pre_step _ _ _ _ _) as [[db ev] nx] eqn:Hpre. apply pre_step_outcome in Hpre as [_ Hnx].
    destruct nx as [|lost]; cycle 1.
    { destruct (ok_rest _ Hok' lost); [|done]. destruct lost; by injection Hs as <- <-. }
    destruct Hnx as [_ Hev]. cbn [pi_req] in Hev. injection Hs as <- <-.
    apply elem_of_cons in Hin as [->|Hin]; [right|by left]. destruct ev as [r1|r1 code|r1].
    + subst r1. by right; left.
    + subst r1. eapply accounted_parcel; [by left|..]; by destruct (dispatching j).
    + destruct Hev as [-> Hcl]. by do 4 right.
  - intros Hin. left. by rewrite Eco.
  - intros p Hp _ _. left. unfold parcels in *. rewrite Hout in Hp. cbn in Hp.
    destruct (fe_todo (jb_fence j)) as [|r0 rest]; destruct (fe_phase (jb_fence j)) as [|lost|]; try done.
    1-2: by injection Hs as <- <-.
    + destruct (pre_step _ _ _ _ _) as [[db ev] nx]. destruct nx as [|[]]; injection Hs as <- <-; cbn; rewrite !elem_of_app in *; tauto.
    + injection Hs as <- <-. cbn. rewrite !elem_of_app in *. tauto.
Qed.

Lemma job_step_tracks a w q j w' q' j' r : job_ok j → job_step a w q j = Some (w', q', j') → healthy j' →
  rq_CustomID r ≠ "" → accounted j (w_db w) r → accounted j' (w_db w') r.
Proof.
  intros Hok Hs Hh Hc Hacc.
  destruct (job_step_ok _ _ _ _ _ _ _ Hok Hs) as [Hok' Hhj]. specialize (Hhj Hh).
  assert (entry_moves (w_db w) (w_db w)) as Hrefl by by left.
  destruct a; cbn [AsyncRun.job_step] in Hs.
  - destruct (fence_step _ _ _ _ _) as [[w1 j1]|] eqn:Hf; [|done]. injection Hs as <- <- <-. exact (fence_step_tracks _ _ _ _ _ _ _ _ Hok Hf Hh Hc Hacc).
  - destruct (fe_out _) as [|p out] eqn:Ho; [done|]. destruct (push p j) as [j1|] eqn:Hp; [|done]. injection Hs as <- <- <-.
    apply push_inv in Hp as ->. revert Hacc. apply accounted_moves; auto.
    intros x Hx _ _. left. revert Hx. unfold parcels. cbn. rewrite Ho. set_unfold. tauto.
  - injection Hs as <- <- <-. by apply abort_unhealthy in Hh.
  - unfold take_step in Hs. destruct (rn_phase _) eqn:Hr; try done. destruct (rn_out _) eqn:Ho; [|done].
    destruct (fe_offer _) as [r0|] eqn:Hoff; [|done]. destruct (if known _ then _ else _) as [q1 failed] eqn:Hq.
    destruct (async_step _ _ _ _) as [[p out] sent] eqn:Ha. injection Hs as <- <- <-.
    assert (∀ x, is_Some (co_pending (jb_co j) !! x) → is_Some (p !! x)) as Hmono.
    { intros x Hx. unfold async_step in Ha. destruct (known (rq_ModelID r0)); cbn in Ha; [destruct failed|]; injection Ha as <- _ _; try done;
        (unfold PStore; rewrite lookup_insert; case_decide; [by eexists|done]). }
    revert Hacc. apply accounted_moves; auto.
    + rewrite Hoff. intros [= ->]. right. unfold async_step in Ha. destruct (known (rq_ModelID r)); cbn in Ha.
      * do 2 right. left. destruct failed; injection Ha as <- _ _; unfold PStore; cbn; rewrite lookup_insert_eq; by eexists.
      * injection Ha as _ <- _. eapply (accounted_parcel _ _ _ (local (ModelNotFound r))); [|done|done].
        unfold parcels. cbn. set_unfold. tauto.
    + intros x Hx _ _. left. revert Hx. unfold parcels. cbn. rewrite Ho. set_unfold. tauto.
  - unfold wait_step in Hs. destruct (rn_phase _); try done. destruct (rn_out _) eqn:Ho; [|done].
    destruct (fe_phase _); try done. destruct (fe_offer _); [done|]. destruct (_ || _); [|done]. injection Hs as <- <- <-. done.
  - destruct (rn_phase _) eqn:Hr; try done. destruct (rn_out _) eqn:Ho; [|done]. injection Hs as <- <- <-.
    destruct (ok_done _ Hok) as [_ Hp]; [by rewrite Hr|]. specialize (Hp Hhj). revert Hacc. apply accounted_moves; auto.
    + rewrite Hp, lookup_empty. by intros [? ?].
    + intros x Hx _ _. left. revert Hx. unfold parcels. cbn [with_co with_run jb_fence jb_run rn_out rn_hand jb_inbox fe_out].
      rewrite Ho, !elem_of_app. set_unfold. tauto.
  - destruct (rn_out _) as [|p out] eqn:Ho; [done|]. destruct (rn_hand _) eqn:Hhd; [done|]. injection Hs as <- <- <-.
    revert Hacc. apply accounted_moves; auto.
    intros x Hx _ _. left. revert Hx. unfold parcels. cbn. rewrite Ho, Hhd. cbn. set_unfold. tauto.
  - destruct (rn_hand _) as [p|] eqn:Hhd; [|done]. destruct (push p j) as [j1|] eqn:Hp; [|done]. injection Hs as <- <- <-.
    apply push_inv in Hp as ->. revert Hacc. apply accounted_moves; auto.
    intros x Hx _ _. left. revert Hx. unfold parcels. cbn. rewrite Hhd. cbn. set_unfold. tauto.
  - destruct (rn_phase _); try done. destruct (rn_out _); [|done]. injection Hs as <- <- <-. done.
  - destruct (drain_inv _ _ _ _ _ _ _ (ok_abort _ Hok) Hs) as (p & rest & Hin & Hin' & Es & Er & Ef & Eu & Ec & -> & _).
    destruct (drain_step_outcome (jb_sink j) w (jb_co j)
      {| dl_item := pc_item p; dl_durable := bool_decide (is_Some (pc_claim p)) |} (under_ctx j env) (ok_abort _ Hok))
      as (Hmv & _ & _ & _ & Hpend & _ & Hset & _). rewrite <- Ec in Hmv, Hpend, Hset.
    revert Hacc. apply accounted_moves; rewrite ?Ef; auto.
    + intros Hx. destruct (Hpend _ Hx) as [?|Hcl]; [by left|right]. do 4 right. by rewrite Es.
    + intros x Hx Hid Hcx. revert Hx. unfold parcels. rewrite Ef, Eu, Hin', Hin, !elem_of_app, elem_of_cons.
      intros [?|[?|[?|[->|?]]]]; [tauto..| |tauto]. right. do 4 right. rewrite Es, <- Hid. apply Hset; [apply Hh|done].
  - injection Hs as <- <- <-. done.
Qed.

(** ** The system *)
Abbreviation State := (State (Q := Q)).
Abbreviation step := (step is_object model_of durable sha256hex marshal known).
Abbreviation run_acts := (run_acts is_object model_of durable sha256hex marshal known).
Abbreviation item_of := (item_of is_object).
Abbreviation the_db s := (w_db (st_world s)).

Lemma run_acts_inv (P : State → Prop) l s s' :
  (∀ a s s', a ∈ l → P s → step a s = Some s' → P s') → P s → run_acts l s = Some s' → P s'.
Proof.
  revert s. induction l as [|a l IH]; intros s Hst Hp; cbn [AsyncRun.run_acts]; [by intros [= <-]|].
  destruct (step a s) as [s1|] eqn:Hs; [|done]. apply IH; [|by eapply Hst; eauto; left].
  intros ? ? ? Hin. apply Hst. by right.
Qed.

(** *** Every job is in order *)
Definition jobs_ok (s : State) : Prop := ∀ id j, st_jobs s !! id = Some j → job_ok j.

(** A send reaches the hand of an open job. *)
Lemma send_inv p t js js' : send p t js = Some js' → js' = js ∨
  ∃ j, js !! t = Some j ∧ rn_hand (jb_run j) = None ∧ rn_phase (jb_run j) ≠ Closed ∧
    js' = <[t := with_run {| rn_phase := rn_phase (jb_run j); rn_out := rn_out (jb_run j); rn_hand := Some p |} j]> js.
Proof.
  unfold send. destruct (js !! t) as [j|]; [|by intros [= <-]; left].
  destruct (rn_phase (jb_run j)) eqn:Hp, (rn_hand (jb_run j)) eqn:Hh; try done; intros [= <-]; try (by left); right; exists j;
    by rewrite Hp.
Qed.

(** A step changes one job, or all jobs stay. *)
Lemma step_job a s s' id j' : step a s = Some s' → st_jobs s' !! id = Some j' →
  st_jobs s !! id = Some j' ∨
  (∃ sink group reqs p t, a = AStart id sink group reqs p t ∧ j' = newJob sink reqs p t (st_world s)) ∨
  (∃ ja j w q, a = AJob id ja ∧ st_jobs s !! id = Some j ∧ job_step ja (st_world s) (st_queue s) j = Some (w, q, j') ∧
     st_world s' = w ∧ st_queue s' = q) ∨
  (∃ i j r m c ts, a = ARouter i RSend ∧ st_routers s !! i = Some r ∧ ro_stage r = Sending m c ts ∧ st_jobs s !! id = Some j ∧
     j' = with_run {| rn_phase := rn_phase (jb_run j); rn_out := rn_out (jb_run j);
            rn_hand := Some {| pc_item := item_of m; pc_claim := c; pc_given_up := false |} |} j ∧
     rn_hand (jb_run j) = None ∧ st_world s' = st_world s).
Proof.
  intros Hs Hj. destruct a; cbn [AsyncRun.step] in Hs.
  - injection Hs as <-. by left.
  - injection Hs as <-. by left.
  - injection Hs as <-. by left.
  - case_bool_decide; [|done]. injection Hs as <-. by left.
  - destruct (st_jobs s !! id0) eqn:Hid; [done|]. injection Hs as <-. cbn in Hj. rewrite lookup_insert in Hj. case_decide; [|by left].
    subst. right. left. injection Hj as <-. by repeat eexists.
  - destruct (st_jobs s !! id0) as [j|] eqn:Hid; [|done]. destruct (AsyncRun.job_step _ _ _ _ _ _ _ _) as [[[w q] j1]|] eqn:Hst; [|done].
    injection Hs as <-. cbn in Hj. rewrite lookup_insert in Hj. case_decide; [|by left]. subst. injection Hj as <-.
    right. right. left. by exists a, j, w, q.
  - injection Hs as <-. cbn in Hj. rewrite lookup_delete in Hj. case_decide; [done|]. by left.
  - destruct (st_routers s !! i); [done|]. injection Hs as <-. by left.
  - injection Hs as <-. by left.
  - destruct (st_routers s !! i) as [r|] eqn:Hr; [|done]. unfold router_step in Hs.
    destruct a, (ro_stage r) as [|m c|m c [|t ts]|m c|c] eqn:Hg; try done.
    all: try (injection Hs as <-; by left).
    + destruct (receive _ _ _). injection Hs as <-. by left.
    + destruct (send _ _ _) as [js|] eqn:Hsend; [|done]. injection Hs as <-. cbn in Hj.
      apply send_inv in Hsend as [->|(j & Ht & Hh & _ & ->)]; [by left|]. rewrite lookup_insert in Hj. case_decide; [|by left].
      subst. injection Hj as <-. do 3 right. by exists i, j, r, m, c, (id :: ts).
Qed.

Lemma hand_ok p j : job_ok j → pc_given_up p = false → rn_hand (jb_run j) = None →
  job_ok (with_run {| rn_phase := rn_phase (jb_run j); rn_out := rn_out (jb_run j); rn_hand := Some p |} j).
Proof.
  intros [H1 H2 H3 H4 H5 H6] Hg Hh. split; try done. intros x Hx Hgx. apply (H3 x); [|done]. revert Hx. unfold parcels. cbn. rewrite Hh.
  rewrite !elem_of_app, elem_of_cons. intros [?|[?|[->|?]]]; try tauto. congruence.
Qed.

Lemma step_jobs_ok a s s' : jobs_ok s → step a s = Some s' → jobs_ok s'.
Proof.
  intros Hok Hs id j' Hj. destruct (step_job _ _ _ _ _ Hs Hj) as [Ho|[Ho|[Ho|Ho]]].
  - by apply (Hok id).
  - destruct Ho as (sink & group & reqs & p & t & _ & ->). apply newJob_ok.
  - destruct Ho as (ja & j & w & q & _ & Hid & Hst & _). by destruct (job_step_ok _ _ _ _ _ _ _ (Hok _ _ Hid) Hst).
  - destruct Ho as (i & j & r & m & c & ts & _ & _ & _ & Hid & -> & Hh & _). apply hand_ok; [by apply (Hok id)|done|done].
Qed.
Lemma run_jobs_ok l s s' : st_jobs s = ∅ → run_acts l s = Some s' → jobs_ok s'.
Proof.
  intros He. apply run_acts_inv; [intros a ? ? _; apply step_jobs_ok|]. intros id j Hj. by rewrite He in Hj.
Qed.

(** *** Invented failures *)

(** Once its context has ended or it failed to record a result, a job's
    checkpointer changes neither the entries nor the queue. *)
Lemma unhealthy_drain env w q j w' q' j' : job_ok j → ¬ healthy j → drain sha256hex marshal env w q j = Some (w', q', j') →
  w_db w' = w_db w ∧ q' = q ∧ co_pending (jb_co j') = co_pending (jb_co j).
Proof.
  intros Hok Hh Hs. destruct (drain_inv _ _ _ _ _ _ _ (ok_abort _ Hok) Hs) as (p & rest & _ & _ & _ & _ & _ & _ & Ec & -> & ->).
  set (d := {| dl_item := pc_item p; dl_durable := _ |}) in Ec.
  assert (w_db (co_world (jb_co j')) = w_db w ∧ co_acked (jb_co j') = [] ∧ co_pending (jb_co j') = co_pending (jb_co j)) as (-> & -> & ->).
  { rewrite Ec. destruct (decide (cx_job (jb_ctx j) = NotAborted)) as [Hc|Hc].
    - destruct (drain_step_outcome (jb_sink j) w (jb_co j) d (under_ctx j env) (ok_abort _ Hok)) as (_ & _ & _ & _ & _ & _ & _ & Hsame).
      rewrite Hsame; [done|]. intros He. by apply Hh.
    - apply drain_step_ended. unfold under_ctx. by rewrite bool_decide_eq_false_2. }
  by destruct (pc_claim p).
Qed.

(** [C13] A failure that is only made up is never recorded: when a dispatcher
    or the fence gives up a request because the run is ending (shutdown, lost
    ownership, cancellation, expiry, a checkpoint that failed), it sends the
    checkpointer a result for it; in every interleaving, handling that result
    leaves the entry table, the queue and the pending set as they are, so that
    the request is still open for the next run. *)
Theorem given_up_is_never_recorded l s0 s id j p env :
  st_jobs s0 = ∅ → run_acts l s0 = Some s → st_jobs s !! id = Some j → head (jb_inbox j) = Some p → pc_given_up p = true →
  ∃ s' j', step (AJob id (JDrain env)) s = Some s' ∧ st_jobs s' !! id = Some j' ∧ jb_inbox j' = tail (jb_inbox j) ∧
    the_db s' = the_db s ∧ st_queue s' = st_queue s ∧ co_pending (jb_co j') = co_pending (jb_co j).
Proof.
  intros Hs0 Hrun Hj Hhd Hg. pose proof (run_jobs_ok _ _ _ Hs0 Hrun id j Hj) as Hok.
  destruct (jb_inbox j) as [|x rest] eqn:Hin; [done|]. injection Hhd as ->.
  assert (¬ healthy j) as Hh. { apply (ok_given _ Hok p); [|done]. unfold parcels. rewrite Hin. set_unfold. tauto. }
  destruct (drain sha256hex marshal env (st_world s) (st_queue s) j) as [[[w q] j']|] eqn:Hd; cycle 1.
  { unfold drain in Hd. by rewrite Hin in Hd. }
  destruct (unhealthy_drain _ _ _ _ _ _ _ Hok Hh Hd) as (Hw & -> & Hp).
  destruct (drain_inv _ _ _ _ _ _ _ (ok_abort _ Hok) Hd) as (p' & rest' & Hi & Hi' & _). rewrite Hin in Hi. injection Hi as <- <-.
  eexists _, j'. cbn [AsyncRun.step]. rewrite Hj. cbn [AsyncRun.job_step]. rewrite Hd. split; [done|]. cbn. rewrite lookup_insert_eq. done.
Qed.

(** *** Complete runs *)

(** The other clients of the database keep the batch. *)
Definition keeps_batch (b : string) (a : Act (Q := Q)) : Prop :=
  match a with AStmt s => admissible s ∧ keeps b s | _ => True end.

(** The database in one step: a statement of another client, or one open entry. *)
Lemma step_db a s s' : jobs_ok s → step a s = Some s' →
  (∃ st, a = AStmt st ∧ the_db s' = run st (the_db s)) ∨ entry_moves (the_db s) (the_db s').
Proof.
  intros Hok Hs. destruct a; cbn [AsyncRun.step] in Hs.
  - injection Hs as <-. left. by exists s0.
  - injection Hs as <-. right. by left.
  - injection Hs as <-. right. by left.
  - case_bool_decide; [|done]. injection Hs as <-. right. by left.
  - destruct (st_jobs s !! id) eqn:Hid; [done|]. injection Hs as <-. right. by left.
  - destruct (st_jobs s !! id) as [j|] eqn:Hid; [|done]. destruct (AsyncRun.job_step _ _ _ _ _ _ _ _) as [[[w q] j1]|] eqn:Hst; [|done].
    injection Hs as <-. right. by destruct (job_step_effect _ _ _ _ _ _ _ (Hok _ _ Hid) Hst) as (_ & _ & ? & _).
  - injection Hs as <-. right. by left.
  - destruct (st_routers s !! i); [done|]. injection Hs as <-. right. by left.
  - injection Hs as <-. right. by left.
  - right. left. destruct (st_routers s !! i) as [r|]; [|done]. unfold router_step in Hs.
    destruct a, (ro_stage r) as [|m c|m c [|t ts]|m c|c]; try done; try by injection Hs as <-.
    + destruct (receive _ _ _). by injection Hs as <-.
    + destruct (send _ _ _); [|done]. by injection Hs as <-.
Qed.

Lemma step_closed b q a s s' : jobs_ok s → keeps_batch b a → step a s = Some s' → closed b q (the_db s) → closed b q (the_db s').
Proof.
  intros Hok Hk Hs Hc. destruct (step_db _ _ _ Hok Hs) as [(st & -> & ->)|Hm]; [|by eapply entry_moves_closed].
  destruct Hk. by apply run_closed.
Qed.

Definition tracked (b : string) (s : State) : Prop :=
  ∀ id j r, st_jobs s !! id = Some j → rs_batchID (jb_sink j) = b → healthy j → r ∈ jb_reqs j → rq_CustomID r ≠ "" →
    accounted j (the_db s) r.

Lemma step_tracked b a s s' : jobs_ok s → keeps_batch b a → step a s = Some s' → tracked b s → tracked b s'.
Proof.
  intros Hok Hk Hs Ht id j' r Hj Hb Hh Hr Hc.
  assert (∀ j, rs_batchID (jb_sink j) = b → accounted j (the_db s) r → accounted j (the_db s') r) as Hmono.
  { intros j Hbj [?|[?|[?|[?|Hcl]]]]; [by left|by right; left|by do 2 right; left|by do 3 right; left|]. do 4 right. rewrite Hbj in *.
    by eapply step_closed. }
  destruct (step_job _ _ _ _ _ Hs Hj) as [Ho|[Ho|[Ho|Ho]]].
  - apply Hmono; [done|]. by eapply Ht.
  - destruct Ho as (sink & group & reqs & p & t & _ & ->). left. done.
  - destruct Ho as (ja & j & w & q & _ & Hid & Hst & Hw & _). pose proof (Hok _ _ Hid) as Hokj.
    destruct (job_step_effect _ _ _ _ _ _ _ Hokj Hst) as (Es & Er & _). destruct (job_step_ok _ _ _ _ _ _ _ Hokj Hst) as [_ Hhj].
    rewrite Hw. eapply job_step_tracks; [done|done|done|done|]. apply (Ht id); try done; [by rewrite <- Es|auto|by rewrite <- Er].
  - destruct Ho as (i & j & rt & m & c & ts & _ & _ & _ & Hid & -> & Hhand & Hw). rewrite Hw.
    apply (accounted_moves j _ (the_db s)); [done|by left|by left|by left|by left| |by apply (Ht id)].
    intros x Hx _ _. left. revert Hx. unfold parcels. cbn. rewrite Hhand. set_unfold. tauto.
Qed.

Lemma clean_run_closes l s0 s id j r :
  st_jobs s0 = ∅ → Forall (keeps_batch (rs_batchID (jb_sink j))) l → run_acts l s0 = Some s → st_jobs s !! id = Some j →
  executed j = true → Execute_err j = None → r ∈ jb_reqs j → rq_CustomID r ≠ "" →
  closed (rs_batchID (jb_sink j)) (rq_RequestID r) (the_db s).
Proof.
  intros Hs0 Hk Hrun Hj Hex Herr Hr Hc. set (b := rs_batchID (jb_sink j)) in *.
  assert (jobs_ok s ∧ tracked b s) as [Hok Ht].
  { revert Hrun. apply (run_acts_inv (λ s, jobs_ok s ∧ tracked b s)); cycle 1; [split; [intros ? ? Hx|intros ? ? ? Hx]; by rewrite Hs0 in Hx|].
    rewrite Forall_forall in Hk. intros a s1 s2 Ha [H1 H2] Hst. split; [by eapply step_jobs_ok|eapply step_tracked; eauto]. }
  pose proof (Hok _ _ Hj) as Hokj. unfold executed in Hex. apply andb_true_iff in Hex as [Hin Hex].
  apply bool_decide_eq_true in Hin. destruct (rn_phase (jb_run j)) eqn:Hph; try done. destruct (rn_out (jb_run j)) eqn:Hro; [|done].
  destruct (rn_hand (jb_run j)) eqn:Hhand; [done|]. destruct (fe_out (jb_fence j)) eqn:Hfo; [|done].
  assert (healthy j) as Hh.
  { unfold Execute_err in Herr. destruct (co_conflict (jb_co j)) eqn:H1; [done|]. destruct (co_firstErr (jb_co j)) eqn:H2; [done|].
    case_bool_decide; done. }
  destruct (ok_done _ Hokj) as [Hpc Hp]; [by rewrite Hph|]. destruct (ok_closed _ Hokj Hpc) as [Htodo Hoff].
  destruct (Ht id j r Hj eq_refl Hh Hr Hc) as [Hx|[Hx|[[? Hx]|[(p & Hx & _)|Hx]]]]; [| | | |done]; exfalso.
  - rewrite Htodo in Hx. by apply elem_of_nil in Hx.
  - congruence.
  - by rewrite (Hp Hh), lookup_empty in Hx.
  - revert Hx. unfold parcels. rewrite Hfo, Hro, Hhand, Hin. apply not_elem_of_nil.
Qed.

(** A run that reports success has recorded everything: however its
    actors, the routers, the other jobs and the other clients of the database
    interleave, when [Execute] has returned without an error, every request of
    the run has a terminal entry in the batch (as long as the batch is not
    deleted meanwhile). *)
Theorem clean_run_settles_everything l s0 s id j r :
  st_jobs s0 = ∅ → Forall (keeps_batch (rs_batchID (jb_sink j))) l → run_acts l s0 = Some s → st_jobs s !! id = Some j →
  executed j = true → Execute_err j = None → r ∈ jb_reqs j → rq_CustomID r ≠ "" →
  closed (rs_batchID (jb_sink j)) (rq_RequestID r) (the_db s).
Proof. apply clean_run_closes. Qed.

(** *** Results in the queue *)

(** No other batch has, or gets, an entry for the request. *)
Definition sole_entry (b q : string) (db : DB) : Prop :=
  is_Some (entries db !! (b, q)) ∧ ∀ b', is_Some (entries db !! (b', q)) → b' = b.
Definition keeps_entry (b q : string) (a : Act (Q := Q)) : Prop :=
  keeps_batch b a ∧
  match a with
  | AStmt (SActivate _ act) => ra_BatchID act ≠ b → q ∉ a_request_id <$> ra_Entries act
  | _ => True
  end.

Lemma asyncResult_id m : ri_RequestID (item_of m) = rm_ID m.
Proof. unfold AsyncRun.item_of, asyncResult. repeat destruct_match; done. Qed.

(** A claim in flight belongs to the result it travels with. *)
Definition parcel_ok (p : Parcel) : Prop := ∀ c, pc_claim p = Some c → ri_RequestID (pc_item p) = rm_ID (cl_message c).
Definition carries (g : Stage) : Prop :=
  match g with Received m (Some c) | Sending m (Some c) _ | Residue m c => cl_message c = m | _ => True end.
Record flight_ok (s : State) : Prop := {
  fl_jobs : jobs_ok s;
  fl_parcels : ∀ id j p, st_jobs s !! id = Some j → p ∈ parcels j → parcel_ok p;
  fl_routers : ∀ i r, st_routers s !! i = Some r → carries (ro_stage r) }.
(** A result about to be acknowledged as residue is not needed any more. *)
Definition residue_ok (b q : string) (s : State) : Prop :=
  ∀ i r c, st_routers s !! i = Some r → ro_stage r = Acking c → rm_ID (cl_message c) = q → closed b q (the_db s).
Record claims_ok (b q : string) (s : State) : Prop := {
  cs_flight : flight_ok s; cs_entry : sole_entry b q (the_db s); cs_residue : residue_ok b q s }.

Lemma step_sole b q a s s' : jobs_ok s → keeps_entry b q a → step a s = Some s' → sole_entry b q (the_db s) → sole_entry b q (the_db s').
Proof.
  intros Hok [Hk Hf] Hs [He Ho]. destruct (step_db _ _ _ Hok Hs) as [(st & -> & ->)|Hm]; cycle 1.
  { split; [by apply (entry_moves_dom _ _ _ Hm)|]. intros b' Hb'. apply Ho. by apply (entry_moves_dom _ _ _ Hm). }
  destruct Hk as [Ha Hk]. split; [by apply run_entry_keeps|]. intros b' [e He'].
  destruct (entries (the_db s) !! (b', q)) eqn:Hold; [by apply Ho; rewrite Hold|].
  destruct (run_entry_origin _ _ _ _ Hold He') as (now & act & x & -> & Hin & [= -> ->] & _).
  destruct (decide (ra_BatchID act = b)) as [|Hne]; [done|]. destruct (Hf Hne). apply list_elem_of_fmap. by exists x.
Qed.

(** The stage of a router after a step: as before, idle, or moved on by the
    router's own action. *)
Lemma step_router a s s' i r' : step a s = Some s' → st_routers s' !! i = Some r' →
  (∃ r, st_routers s !! i = Some r ∧ ro_stage r' = ro_stage r) ∨ ro_stage r' = Idle ∨
  ∃ r, st_routers s !! i = Some r ∧ the_db s' = the_db s ∧
    match ro_stage r' with
    | Received m c => (∀ c', c = Some c' → cl_message c' = m)
    | Sending m c _ => ro_stage r = Received m c ∨ ∃ ts, ro_stage r = Sending m c ts
    | Residue m c => ro_stage r = Received m (Some c)
    | Acking c => ∃ m n, ro_stage r = Residue m c ∧ residueGate n (the_db s) (ri_RequestID (item_of m)) = Ok true
    | Idle => True
    end.
Proof.
  intros Hs Hi. destruct a; cbn [AsyncRun.step] in Hs.
  - injection Hs as <-. left. by exists r'.
  - injection Hs as <-. left. by exists r'.
  - injection Hs as <-. left. by exists r'.
  - case_bool_decide; [|done]. injection Hs as <-. left. by exists r'.
  - destruct (st_jobs s !! id) eqn:Hid; [done|]. injection Hs as <-. cbn in Hi. unfold subscribe in Hi.
    rewrite map_lookup_imap in Hi. destruct (st_routers s !! i) as [r|] eqn:Hri; [|done]. injection Hi as <-.
    left. exists r. split; [done|]. by case_bool_decide.
  - destruct (st_jobs s !! id) as [j|] eqn:Hid; [|done]. destruct (AsyncRun.job_step _ _ _ _ _ _ _ _) as [[[w q1] j1]|] eqn:Hst; [|done].
    injection Hs as <-. cbn in Hi. destruct a; try (left; by exists r').
    unfold unsubscribe in Hi. rewrite lookup_fmap in Hi. destruct (st_routers s !! i) as [r|] eqn:Hri; [|done]. injection Hi as <-.
    left. by exists r.
  - injection Hs as <-. cbn in Hi. unfold unsubscribe in Hi. rewrite lookup_fmap in Hi.
    destruct (st_routers s !! i) as [r|] eqn:Hri; [|done]. injection Hi as <-. left. by exists r.
  - destruct (st_routers s !! i0) eqn:Hri; [done|]. injection Hs as <-. cbn in Hi. rewrite lookup_insert in Hi.
    case_decide; [injection Hi as <-; by right; left|left; by exists r'].
  - injection Hs as <-. cbn in Hi. rewrite lookup_delete in Hi. case_decide; [done|left; by exists r'].
  - destruct (st_routers s !! i0) as [r|] eqn:Hri; [|done]. unfold router_step in Hs.
    assert (∀ g, st_routers s' = <[i0 := at_stage g r]> (st_routers s) →
      (∃ r, st_routers s !! i = Some r ∧ ro_stage r' = ro_stage r) ∨ (i = i0 ∧ ro_stage r' = g)) as Hset.
    { intros g Hrs. rewrite Hrs, lookup_insert in Hi. case_decide; [injection Hi as <-; by right|left; by exists r']. }
    destruct a, (ro_stage r) as [|m c|m c [|t ts]|m c|c] eqn:Hst; try done.
    + destruct (receive durable i0 (st_queue s)) as [q1 res] eqn:Hrec. injection Hs as <-.
      edestruct Hset as [?|[-> ->]]; [reflexivity|by left|right]. destruct res as [[m c]|e]; [right|by left].
      exists r. split_and!; try done. intros c' ->. revert Hrec. unfold receive.
      destruct (ReceiveResult _ _ _) as [q2 [c|e]]; [by intros [= _ <- <-]|]. destruct (negb _); [done|].
      destruct (GetResult _ _) as [q3 [m'|e']]; by intros [= _ _].
    + injection Hs as <-. edestruct Hset as [?|[-> Hg]]; [reflexivity|by left|right]. rewrite Hg.
      destruct (route _ _ _ _).1, c; [right|by left|right|right]; exists r; auto.
    + injection Hs as <-. edestruct Hset as [?|[-> ->]]; [reflexivity|by left|by right; left].
    + destruct (send _ _ _); [|done]. injection Hs as <-. edestruct Hset as [?|[-> ->]]; [reflexivity|by left|right; right].
      exists r. split_and!; try done. right. by eexists.
    + injection Hs as <-. edestruct Hset as [?|[-> Hg]]; [reflexivity|by left|right]. rewrite Hg. cbn.
      destruct (residueGate n (the_db s) (ri_RequestID (item_of m))) as [[]|] eqn:Hgate; [right|by left|by left].
      exists r. split_and!; try done. by exists m, n.
    + injection Hs as <-. edestruct Hset as [?|[-> ->]]; [reflexivity|by left|by right; left].
Qed.

Lemma step_flight a s s' : flight_ok s → step a s = Some s' → flight_ok s'.
Proof.
  intros [Hok Hp Hr] Hs. split.
  - by eapply step_jobs_ok.
  - intros id j' p Hj Hin. destruct (step_job _ _ _ _ _ Hs Hj) as [Ho|[Ho|[Ho|Ho]]].
    + by eapply Hp.
    + destruct Ho as (sink & group & reqs & p' & t & _ & ->). by apply elem_of_nil in Hin.
    + destruct Ho as (ja & j & w & q1 & _ & Hid & Hst & _).
      destruct (job_step_effect _ _ _ _ _ _ _ (Hok _ _ Hid) Hst) as (_ & _ & _ & Hpar & _).
      destruct (Hpar _ Hin) as [Hn|Hold]; [intros c Hc'; congruence|by eapply Hp].
    + destruct Ho as (i & j & r & m & c & ts & _ & Hri & Hst & Hid & -> & Hh & _). revert Hin. unfold parcels. cbn.
      rewrite !elem_of_app, elem_of_cons. intros [Hx|[Hx|[->|Hx]]].
      4: apply (Hp id j); [done|]; unfold parcels; rewrite Hh, !elem_of_app; tauto.
      1-2: apply (Hp id j); [done|]; unfold parcels; rewrite !elem_of_app; tauto.
      intros c' [= ->]. cbn [pc_item]. rewrite asyncResult_id. pose proof (Hr _ _ Hri) as Hg. rewrite Hst in Hg. cbn in Hg. by rewrite Hg.
  - intros i r' Hi. destruct (step_router _ _ _ _ _ Hs Hi) as [(r & Hri & ->)|[->|(r & Hri & _ & Hg)]]; [by eapply Hr|done|].
    specialize (Hr _ _ Hri). destruct (ro_stage r') as [|m [c|]|m c ts|m c|c]; try done; cbn.
    + by apply Hg.
    + destruct Hg as [Hg|[ts' Hg]]; by rewrite Hg in Hr.
    + by rewrite Hg in Hr.
Qed.

Lemma step_claims b q a s s' : claims_ok b q s → keeps_entry b q a → step a s = Some s' → claims_ok b q s'.
Proof.
  intros [Hf He Hres] Hk Hs. pose proof (fl_jobs _ Hf) as Hok. split; [by eapply step_flight|by eapply step_sole|].
  intros i r' c Hi Hst Hq. destruct (step_router _ _ _ _ _ Hs Hi) as [(r & Hri & Hg)|[Hg|(r & Hri & Hdb & Hg)]].
  - apply (step_closed b q a s s'); [done|by destruct Hk|done|]. apply (Hres i r c); [done|congruence|done].
  - congruence.
  - rewrite Hst in Hg. destruct Hg as (m & n & Hg & Hgate). pose proof (fl_routers _ Hf _ _ Hri) as Hc. rewrite Hg in Hc. cbn in Hc.
    rewrite Hdb. destruct (residue_is_safe [] true n (the_db s) (ri_RequestID (item_of m)) [] _ eq_refl) as [_ Hack].
    cbn in Hack. rewrite Hgate in Hack. destruct (Hack eq_refl) as (_ & _ & _ & Hopen). destruct He as [[x Hx] _].
    exists x. split; [done|]. rewrite asyncResult_id, <- Hc, Hq in Hopen. specialize (Hopen _ _ Hx).
    unfold entry_open in Hopen. by apply negb_false_iff in Hopen.
Qed.

(** A step that takes a result out of the queue leaves its entry terminal. *)
Lemma step_recoverable b q a s s' h m : durable = true → claims_ok b q s → keeps_entry b q a → step a s = Some s' → rm_ID m = q →
  recoverable (st_queue s) !! h = Some m → recoverable (st_queue s') !! h = Some m ∨ closed b q (the_db s').
Proof.
  intros Hdur [[Hok Hp _] [He Hsole] Hr] Hk Hs Hm Hrec.
  assert (st_queue s' = st_queue s → recoverable (st_queue s') !! h = Some m) as Hsame by by intros ->.
  destruct a; cbn [AsyncRun.step] in Hs.
  - injection Hs as <-. by left.
  - injection Hs as <-. by left.
  - injection Hs as <-. by left.
  - case_bool_decide as Hsub; [|done]. injection Hs as <-. left. by eapply lookup_weaken.
  - destruct (st_jobs s !! id) eqn:Hid; [done|]. injection Hs as <-. by left.
  - destruct (st_jobs s !! id) as [j|] eqn:Hid; [|done]. destruct (AsyncRun.job_step _ _ _ _ _ _ _ _) as [[[w q1] j1]|] eqn:Hst; [|done].
    injection Hs as <-. cbn [st_queue st_world].
    destruct (job_step_effect _ _ _ _ _ _ _ (Hok _ _ Hid) Hst) as (_ & _ & Hmv & _ & [Hsub|(p & c & Hin & Hcl & -> & Hset)]);
      [left; by eapply lookup_weaken|].
    destruct (ack_law c _ h m Hrec) as [|[-> ->]]; [by left|right].
    rewrite (Hp _ _ _ Hid Hin c Hcl), Hm in Hset. destruct Hset as (x & Hx & Ht).
    assert (is_Some (entries (the_db s) !! (rs_batchID (jb_sink j), q))) as Hb by (by apply (entry_moves_dom _ _ _ Hmv); rewrite Hx).
    apply Hsole in Hb. exists x. by rewrite <- Hb.
  - injection Hs as <-. by left.
  - destruct (st_routers s !! i); [done|]. injection Hs as <-. by left.
  - injection Hs as <-. by left.
  - destruct (st_routers s !! i) as [r|] eqn:Hri; [|done]. pose proof (λ c, Hr _ _ c Hri) as Hg. unfold router_step in Hs.
    destruct a, (ro_stage r) as [|m' c|m' c [|t ts]|m' c|c]; try done; try (injection Hs as <-; by left).
    + unfold receive, ReceiveResult in Hs. rewrite Hdur in Hs. destruct (receive_law i (st_queue s)) as (Hl & _ & Hne).
      destruct (lib_ReceiveResult i (st_queue s)) as [q1 [c|e]]; cbn in Hl, Hne; [injection Hs as <-; left; cbn; by rewrite Hl|].
      rewrite bool_decide_eq_false_2 in Hs by congruence. injection Hs as <-. left. cbn. by rewrite Hl.
    + destruct (send _ _ _); [|done]. injection Hs as <-. by left.
    + injection Hs as <-. cbn. destruct (ack_law c _ h m Hrec) as [|[-> ->]]; [by left|right]. by apply (Hg c).
Qed.

(** *** No result is lost *)

(** A router is about to discard a result of the request as residue. *)
Definition discarding (q : string) (s : State) : Prop :=
  ∃ i r c, st_routers s !! i = Some r ∧ ro_stage r = Acking c ∧ rm_ID (cl_message c) = q.

(** [C12] No completed result is lost: from a moment on at which the batch has
    an entry for the request, and as long as the batch is kept, a result that
    is in the (durable) queue stays recoverable there until the entry is
    terminal.  This holds in every interleaving of jobs that start, submit,
    checkpoint, crash or are taken over, of routers that claim, deliver, drop
    and acknowledge, of lost responses, expired leases and other clients. *)
Theorem completed_results_survive l0 l1 l2 s00 s0 s1 s2 b q h m :
  durable = true → st_jobs s00 = ∅ → st_routers s00 = ∅ → run_acts l0 s00 = Some s0 →
  sole_entry b q (the_db s0) → ¬ discarding q s0 → Forall (keeps_entry b q) (l1 ++ l2)%list →
  run_acts l1 s0 = Some s1 → recoverable (st_queue s1) !! h = Some m → rm_ID m = q → run_acts l2 s1 = Some s2 →
  recoverable (st_queue s2) !! h = Some m ∨ closed b q (the_db s2).
Proof.
  intros Hdur Hj Hr H0 He Hd [Hk1 Hk2]%Forall_app H1 Hrec Hm H2. rewrite Forall_forall in Hk1, Hk2.
  assert (flight_ok s0) as Hf0.
  { revert H0. apply (run_acts_inv flight_ok); [intros a s s' _; apply step_flight|].
    split; [intros ? ? Hx|intros ? ? ? Hx|intros ? ? Hx]; by rewrite ?Hj, ?Hr in Hx. }
  assert (claims_ok b q s0) as Hc0. { split; [done|done|]. intros i r c ? ? ?. destruct Hd. by exists i, r, c. }
  assert (claims_ok b q s1) as Hc1.
  { revert H1. apply (run_acts_inv (claims_ok b q)); [|done]. intros a s s' Hin Hc. apply step_claims; auto. }
  enough (claims_ok b q s2 ∧ (recoverable (st_queue s2) !! h = Some m ∨ closed b q (the_db s2))) by tauto.
  revert H2. apply (run_acts_inv (λ s, claims_ok b q s ∧ (recoverable (st_queue s) !! h = Some m ∨ closed b q (the_db s)))); [|auto].
  intros a s s' Hin [Hc Hor] Hst. pose proof (Hk2 _ Hin) as Hk. split; [by eapply step_claims|].
  destruct Hor as [Hq|Hcl]; [by eapply step_recoverable|right].
  apply (step_closed b q a s s'); [apply Hc|by destruct Hk|done|done].
Qed.
End Job.
