(* ===== verification/AsyncRuns.v ===== *)
(** * A queue in memory, and runs of asynchronous execution

    An instance of the queue library's interface of [AsyncRun]: requests in
    order, results by handle with the route they are on.  Claiming a result
    leaves it in place, so that it is delivered again until it is acknowledged.
    The runs instantiate the theorems of [AsyncResults]. *)

From Stdlib Require Import ZArith Lia Ascii String.
From stdpp Require Import base gmap strings list sorting pretty.
From S2P Require Import Prelude Openai Store StoreOps Ownership Fencing Lifecycle Examples Planner Preprocess.
From S2P Require Import Files ResultStore Entries Finalizer JobRunner Pipeline Flow Dispatch Runs AsyncRun AsyncResults.
Local Open Scope string_scope.
Local Open Scope Z_scope.

Module AsyncRuns.

Record MemQueue := { mq_requests : list RequestMessage; mq_results : gmap nat (string * ResultMessage) }.
Definition on_route (route : string) (q : MemQueue) : option (nat * ResultMessage) :=
  head (omap (λ x : nat * (string * ResultMessage), if bool_decide (x.2.1 = route) then Some (x.1, x.2.2) else None)
         (map_to_list (mq_results q))).
Definition drop_result (h : nat) (q : MemQueue) : MemQueue :=
  {| mq_requests := mq_requests q; mq_results := delete h (mq_results q) |}.

#[export] Instance mem_transport : Transport MemQueue := {
  SubmitRequest m q := ({| mq_requests := app (mq_requests q) [m]; mq_results := mq_results q |}, Ok tt);
  lib_GetResult route q :=
    match on_route route q with Some (h, m) => (drop_result h q, Ok m) | None => (q, Err (ErrOther "timeout")) end;
  lib_ReceiveResult route q :=
    match on_route route q with
    | Some (h, m) => (q, Ok {| cl_handle := h; cl_message := m |})
    | None => (q, Err (ErrOther "timeout"))
    end;
  AckResult c q :=
    if bool_decide (snd <$> mq_results q !! cl_handle c = Some (cl_message c)) then (drop_result (cl_handle c) q, Ok tt)
    else (q, Err (ErrOther "unknown delivery"));
  CancelRequests ids q :=
    ({| mq_requests := filter (λ m, qm_ID m ∉ ids) (mq_requests q); mq_results := mq_results q |}, Ok tt);
  recoverable q := snd <$> mq_results q }.

Lemma on_route_in route q h m : on_route route q = Some (h, m) → recoverable q !! h = Some m.
Proof.
  unfold on_route. intros Hh. apply head_Some_elem_of in Hh. apply list_elem_of_omap in Hh as ([k [r m']] & Hin & Hx).
  apply elem_of_map_to_list in Hin. cbn in Hx. case_bool_decide; [|done]. injection Hx as <- <-. cbn. by rewrite lookup_fmap, Hin.
Qed.

#[export] Instance mem_laws : TransportLaws MemQueue.
Proof.
  split.
  - done.
  - intros route q. cbn. destruct (on_route route q) as [[h m]|] eqn:Ho; split_and!; try done.
    cbn. intros c [= <-]. by apply on_route_in in Ho.
  - intros c q k m Hk. cbn in *. case_bool_decide as Hb; [|by left]. cbn. rewrite lookup_fmap in *.
    destruct (decide (k = cl_handle c)) as [->|Hne]; [right; split; congruence|left].
    by rewrite lookup_delete_ne.
  - done.
Qed.

(** Processor p1 runs the open batch b1: its second request is fenced,
    submitted, answered by a worker and checkpointed. *)
Definition marshal (r : ResultItem) : option bytes := Some [65].
Abbreviation run := (run_acts (λ _, true) (λ _, "m") true demo_sha marshal (λ _, true)).
Abbreviation step := (step (λ _, true) (λ _, "m") true demo_sha marshal (λ _, true)).
Definition start : State := {| st_world := demo_world; st_queue := {| mq_requests := []; mq_results := ∅ |}; st_jobs := ∅; st_routers := ∅ |}.
Definition answer : ResultMessage :=
  {| rm_ID := "q2"; rm_Payload := [123; 125]; rm_StatusCode := 200; rm_ErrorCode := ""; rm_ErrorMessage := "" |}.
Definition answered : MemQueue := {| mq_requests := []; mq_results := {[7%nat := ("r1", answer)]} |}.
Definition env : CkptEnv := {| ce_now := 1000; ce_net := calm; ce_suffix := "u" |}.
Definition submitted : list (Act (Q := MemQueue)) :=
  [ARouterStart "r1"; AStart "j1" demo_sink ["r1"] [toy_request] ∅ (NewProgressTracker 2);
   AJob "j1" (JPre 1000 NetOk NetOk); AJob "j1" (JTake 1 None); AQueue answered].
Definition delivered : list (Act (Q := MemQueue)) :=
  [ARouter "r1" RReceive; ARouter "r1" RRoute; ARouter "r1" RSend; AJob "j1" JForward].
Definition finished : list (Act (Q := MemQueue)) :=
  [AJob "j1" (JDrain env); AJob "j1" (JPre 1000 NetOk NetOk); AJob "j1" JWait; AJob "j1" JGiveUp; AJob "j1" JClose].
Definition after (l : list (Act (Q := MemQueue))) : State := default start (run l start).
Definition the_job (s : State (Q := MemQueue)) : Job := default (newJob demo_sink [] ∅ (NewProgressTracker 0) demo_world) (st_jobs s !! "j1").

Lemma clean_run_settles_everything_run :
  closed "b1" "q2" (w_db (st_world (after (submitted ++ delivered ++ finished)%list))).
Proof.
  apply (clean_run_settles_everything (λ _, true) (λ _, "m") true demo_sha marshal (λ _, true)
    (submitted ++ delivered ++ finished)%list start (after (submitted ++ delivered ++ finished)%list) "j1"
    (the_job (after (submitted ++ delivered ++ finished)%list)) toy_request);
    try (vm_compute; reflexivity); try done.
  - repeat constructor.
  - vm_compute. left.
Defined.

(** The processor dies with the delivered result in its hands. *)
Lemma completed_results_survive_run :
  let s := after (submitted ++ delivered ++ [ACrash "j1"])%list in
  ¬ closed "b1" "q2" (w_db (st_world s)) ∧ recoverable (st_queue s) !! 7%nat = Some answer.
Proof.
  cbv zeta. assert (¬ closed "b1" "q2" (w_db (st_world (after (submitted ++ delivered ++ [ACrash "j1"])%list)))) as Hno.
  { intros (x & Hx & Ht). vm_compute in Hx. injection Hx as <-. vm_compute in Ht. done. }
  split; [exact Hno|].
  destruct (completed_results_survive (λ _, true) (λ _, "m") true demo_sha marshal (λ _, true)
    [] submitted (delivered ++ [ACrash "j1"])%list start start (after submitted)
    (after (submitted ++ delivered ++ [ACrash "j1"])%list) "b1" "q2" 7 answer) as [Hr|Hc];
    try (vm_compute; reflexivity); try done.
  - split; [by eexists|]. intros b' [x Hx]. revert Hx. cbn [start st_world demo_world w_db active_db entries].
    rewrite !lookup_insert. repeat case_decide; simplify_eq; done.
  - intros (i & r & c & Hi & _). cbn [start st_routers] in Hi. by apply lookup_empty_Some in Hi.
  - repeat constructor.
Defined.

(** The processor is told to shut down before it submits the request. *)
Definition shutting_down : list (Act (Q := MemQueue)) :=
  [AStart "j1" demo_sink ["r1"] [toy_request] ∅ (NewProgressTracker 2); AJob "j1" (JAbort CauseShutdown);
   AJob "j1" (JPre 1000 NetOk NetOk); AJob "j1" JPreSend].
Lemma given_up_is_never_recorded_run :
  ∃ s', step (AJob "j1" (JDrain env)) (after shutting_down) = Some s' ∧ w_db (st_world s') = active_db.
Proof.
  destruct (given_up_is_never_recorded (λ _, true) (λ _, "m") true demo_sha marshal (λ _, true)
    shutting_down start (after shutting_down) "j1" (the_job (after shutting_down)) (given_up (Error toy_request "batch_failed")) env)
    as (s' & j' & Hs & _ & _ & Hdb & _); try (vm_compute; reflexivity).
  exists s'. split; [exact Hs|]. rewrite Hdb. vm_compute. reflexivity.
Defined.
End AsyncRuns.
