(* ===== verification/Execution.v ===== *)
(** * What execution promises to the phases around it

    A batch is executed asynchronously ([AsyncRun]) or synchronously ([SyncRun]).
    Ingestion, activation and finalization depend on neither: [world_step] is
    what may happen to the stores while jobs run, as far as one batch is
    concerned, and the class [Execution] with its laws says that an execution
    system changes the stores by such steps only and that a job that returns
    without an error has a terminal entry for each of its requests.

    The invariant of the batch ([batch_ok]: the entries are those of the
    manifest, each terminal one has its stored result) and the terminal entries
    survive every [world_step]; [EndToEnd] is proved against the interface. *)

From Stdlib Require Import ZArith Lia Ascii String.
From stdpp Require Import base gmap strings list sorting pretty.
From S2P Require Import Prelude Openai Store StoreOps Ownership Fencing Lifecycle Planner Preprocess.
From S2P Require Import Files ResultStore Entries Finalizer Assembly JobRunner Pipeline Flow Dispatch Source AsyncRun AsyncResults.
Local Open Scope string_scope.
Local Open Scope Z_scope.

(** ** The stores while jobs run *)
Section Stores.
Context (sha256hex : bytes → string) (marshal : ResultItem → option bytes) (b folder : string).

(** A job of the batch stores into the tenant's folder. *)
Definition sink_ok (sink : batchResultStore) : Prop := rs_batchID sink = b → rs_folder sink = folder.
Definition not_a_result (path : string) : Prop := ∀ rest, path ≠ join folder ("results/" +:+ b +:+ "/" +:+ rest).
(** A statement of another client keeps the batch and leaves the recording of
    its results to its jobs. *)
Definition stmt_ok (st : Stmt) : Prop :=
  admissible st ∧ keeps b st ∧ match st with SCheckpoint _ b' _ _ _ _ => b' ≠ b | _ => True end.

Inductive world_step : World → World → Prop :=
| ws_stmt st w : stmt_ok st → world_step w {| w_db := run st (w_db w); w_fs := w_fs w |}
| ws_create path data w : w_fs w !! path = None → world_step w {| w_db := w_db w; w_fs := <[path := data]> (w_fs w) |}
| ws_delete path w : not_a_result path → world_step w {| w_db := w_db w; w_fs := delete path (w_fs w) |}
| ws_mark p w w' : w_fs w' = w_fs w → entry_marks p (w_db w) (w_db w') → world_step w w'
| ws_record sink c d env w : sink_ok sink → abort_is_error c →
    world_step w (co_world (drain_step sha256hex marshal sink (on_stores w c) (d, env))).

(** The batch's results are complete and lie under its own prefix. *)
Definition stored (w : World) : Prop := results_intact sha256hex b folder w ∧ keys_ok b (w_db w).
(** The entries are those of the manifest, their results stored. *)
Definition batch_ok (manifest : requestManifest) (w : World) : Prop := listed b manifest (w_db w) ∧ stored w.

Lemma stored_grows w fs : stored w → w_fs w ⊆ fs → stored {| w_db := w_db w; w_fs := fs |}.
Proof. intros [Hi Hk] Hg. split; [|done]. intros q e He Ht. eapply intact_grows; [done|by eapply Hi]. Qed.

Lemma stored_marks p w w' : stored w → w_fs w' = w_fs w → entry_marks p (w_db w) (w_db w') → stored w'.
Proof.
  intros [Hi Hk] Hfs Hm. destruct w' as [db' fs']. cbn in *. subst fs'. destruct Hm as [->|(k & x & Hx & Ho & ->)]; [by split|].
  split.
  - intros q e He Ht. cbn in He. rewrite lookup_insert in He. case_decide; [by simplify_eq|]. by eapply Hi.
  - intros q e key He Hkey. cbn in He. rewrite lookup_insert in He. case_decide; [|by eapply Hk]. simplify_eq. by eapply Hk.
Qed.

Lemma drain_step_stored sink w c d env : sink_ok sink → stored w →
  stored (co_world (drain_step sha256hex marshal sink (on_stores w c) (d, env))).
Proof.
  intros Hs Hst. unfold drain_step. destruct (Enrich _ _) as [msg|]; [|done]. destruct (_ || _); [done|].
  unfold checkpoint. destruct (MarshalResultLine _ _ _) as [[[line dg] sz]|e] eqn:Hm; [|done].
  unfold MarshalResultLine in Hm. destruct (marshal msg) as [l|]; [|done]. simplify_eq.
  destruct (Checkpoint _ _ _ _ _ _ _ _ _ _) as [w' r] eqn:Hc. cbn [on_stores co_world] in Hc.
  destruct Hst as [Hi Hk]. pose proof (Checkpoint_keys _ _ _ _ _ _ _ _ _ _ _ _ b eq_refl eq_refl Hk Hc) as Hk'.
  destruct (Checkpoint_keeps _ _ _ _ _ _ _ _ _ _ _ _ b folder eq_refl eq_refl Hs Hi Hc) as [Hi' _].
  destruct r as [[]|]; cbn; [destruct (dl_durable d)..|]; by split.
Qed.

Lemma listed_moves manifest db db' : listed b manifest db → entry_moves db db' → listed b manifest db'.
Proof.
  intros [H1 H2] Hm. split.
  - intros q e He. assert (is_Some (entries db !! (b, q))) as [e0 He0] by (by apply (entry_moves_dom _ _ _ Hm); rewrite He). by eapply H1.
  - intros m Hin. destruct (H2 m Hin) as (e & He & Ho & Hc). destruct Hm as [->|(k & x & y & Hk & Hst & ->)]; [by exists e|].
    cbn. rewrite lookup_insert. case_decide as Hkb; [|by exists e]. subst k. apply entry_step_identity in Hst as (Ho' & Hc' & _).
    exists y. simplify_eq. split_and!; [done|congruence|congruence].
Qed.
Lemma listed_run manifest st db : manifest ≠ [] → admissible st → keeps b st → listed b manifest db → listed b manifest (run st db).
Proof.
  intros Hne Ha Hk [H1 H2]. assert (batch_entries b db ≠ ∅) as Hbe.
  { destruct manifest as [|m ms]; [done|]. destruct (H2 m) as (e & He & _); [left|]. intros Hemp.
    by rewrite (batch_entries_empty b db (b, me_RequestID m) Hemp eq_refl) in He. }
  split.
  - intros q e He. destruct (entries db !! (b, q)) as [e0|] eqn:He0; [by eapply H1|].
    pose proof (run_all_no_new_entries [st] b db q ltac:(by constructor) ltac:(by constructor) Hbe He0) as Hn. cbn in Hn. congruence.
  - intros m Hin. destruct (H2 m Hin) as (e & He & Ho & Hc).
    destruct (run_entry_keeps st db (b, me_RequestID m)) as [e' He']; [done|by eexists|].
    exists e'. split; [done|]. destruct (run_entry st db _ e e' Ha He He') as [->|Hst]; [done|].
    apply entry_step_identity in Hst as (Ho' & Hc' & _). split; congruence.
Qed.

Lemma stored_run st w : stmt_ok st →
  (∀ q, entries (w_db w) !! (b, q) = None → entries (run st (w_db w)) !! (b, q) = None) →
  stored w → stored {| w_db := run st (w_db w); w_fs := w_fs w |}.
Proof.
  intros (Ha & Hk & Hc) Hnew [Hi Hkeys]. assert (∀ now q p e res, st ≠ SCheckpoint now b q p e res) as Hck by (by intros ? ? ? ? ? ->).
  split.
  - intros q e' He Ht. cbn in *. destruct (entries (w_db w) !! (b, q)) as [e|] eqn:Hq; [|by rewrite Hnew in He].
    destruct (run_entry_terminal st (w_db w) (b, q) e e') as [->|(now & p & ep & res & ->)]; [done..|by eapply Hi|].
    by destruct (Hck now q p ep res).
  - intros q e' key He Hkey. destruct (entries (w_db w) !! (b, q)) as [e|] eqn:Hq; [|by rewrite Hnew in He].
    destruct (run_entry st (w_db w) (b, q) e e' Ha Hq He) as [->|Hst]; [by eapply Hkeys|].
    destruct (entry_terminal (e_status e')) eqn:Ht.
    + destruct (run_entry_terminal st (w_db w) (b, q) e e') as [->|(now & p & ep & res & ->)]; [done..|by eapply Hkeys|].
      by destruct (Hck now q p ep res).
    + destruct Hst as [p x|res x _ Hr|p x]; [by eapply Hkeys|cbn in Ht; congruence|by eapply Hkeys].
Qed.

Lemma delete_stored w path : stored w → not_a_result path → stored {| w_db := w_db w; w_fs := delete path (w_fs w) |}.
Proof.
  intros [Hi Hk] Hp. split; [|done]. intros q e He Ht. cbn in *. destruct (Hi q e He Ht) as (key & data & Hkey & Hne & Hd & Hrest).
  exists key, data. split_and!; try naive_solver. rewrite lookup_delete_ne; [done|]. intros ->.
  destruct (Hk q e key He Hkey) as [rest ->]. by destruct (Hp rest).
Qed.

(** A step is a statement of another client, or changes one open entry. *)
Lemma world_step_db w w' : world_step w w' →
  (∃ st, stmt_ok st ∧ w_db w' = run st (w_db w)) ∨ entry_moves (w_db w) (w_db w').
Proof.
  intros [st w0 Hs|path data w0 _|path w0 _|p w0 w1 _ Hm|sink c d env w0 _ Hc]; [left; by exists st|right..].
  - by left.
  - by left.
  - by eapply marks_moves.
  - by destruct (drain_step_outcome sha256hex marshal sink w0 c d env Hc) as (? & _).
Qed.
Lemma world_step_closed q w w' : world_step w w' → closed b q (w_db w) → closed b q (w_db w').
Proof.
  intros [(st & (? & ? & _) & ->)|Hm]%world_step_db Hc; [by apply run_closed|by eapply entry_moves_closed].
Qed.
Lemma world_step_ok manifest w w' : manifest ≠ [] → world_step w w' → batch_ok manifest w → batch_ok manifest w'.
Proof.
  intros Hne Hw [Hl Hst]. assert (listed b manifest (w_db w')) as Hl'.
  { apply world_step_db in Hw as [(st & (? & ? & _) & ->)|Hm]; [by apply listed_run|by eapply listed_moves]. }
  split; [done|]. destruct Hw as [st w Hs|path data w Hn|path w Hp|p w w' Hf Hm|sink c d env w Hs Hc].
  - apply stored_run; [done| |done]. intros q Hq. destruct Hl' as [H1 _], Hl as [_ H2]. cbn in H1.
    destruct (entries (run st (w_db w)) !! (b, q)) as [e|] eqn:He; [|done]. destruct (H1 q e He) as (m & Hin & <-).
    destruct (H2 m Hin) as (e' & He' & _). congruence.
  - apply stored_grows; [done|]. by apply insert_subseteq.
  - by apply delete_stored.
  - by eapply stored_marks.
  - by apply drain_step_stored.
Qed.
Lemma world_steps_closed q w w' : rtc world_step w w' → closed b q (w_db w) → closed b q (w_db w').
Proof. induction 1; [done|]. intros Hc. eauto using world_step_closed. Qed.
Lemma world_steps_ok manifest w w' : manifest ≠ [] → rtc world_step w w' → batch_ok manifest w → batch_ok manifest w'.
Proof. intros Hne. induction 1; [done|]. intros Hb. eauto using world_step_ok. Qed.

Lemma listed_ordinals manifest db : listed b manifest db → (∀ i m, manifest !! i = Some m → me_Ordinal m = Z.of_nat i) →
  ordinals_ok b db.
Proof.
  intros [H1 H2] Ho. assert (∀ q e, entries db !! (b, q) = Some e → ∃ i m, manifest !! i = Some m ∧ me_RequestID m = q ∧
    e_ordinal e = Z.of_nat i) as Hall.
  { intros q e He. destruct (H1 q e He) as (m & Hm & Hq). destruct (H2 m Hm) as (e' & He' & Hoe & _).
    apply list_elem_of_lookup in Hm as [i Hi]. exists i, m. split_and!; [done|done|]. rewrite <- (Ho i m Hi), <- Hoe. congruence. }
  split.
  - intros q e He. destruct (Hall q e He) as (i & m & _ & _ & ->). lia.
  - intros q1 q2 e1 e2 E1 E2 Heq. destruct (Hall q1 e1 E1) as (i1 & m1 & Hi1 & <- & Ho1).
    destruct (Hall q2 e2 E2) as (i2 & m2 & Hi2 & <- & Ho2). assert (i1 = i2) as -> by lia. congruence.
Qed.
End Stores.

(** ** The interface *)
Class Execution (A S : Type) := {
  ex_step : A → S → option S;
  ex_world : S → World;
  (** no job runs *)
  ex_idle : S → Prop;
  (** what an action may do to a batch with this folder *)
  ex_allowed : string → string → A → Prop;
  (** a job of the batch that was started with these requests has returned
      without an error *)
  ex_clean : string → list RequestItem → S → Prop }.
Section Interface.
Context {A S : Type} `{Execution A S}.
Fixpoint ex_run (l : list A) (s : S) : option S :=
  match l with [] => Some s | a :: l => match ex_step a s with Some s' => ex_run l s' | None => None end end.
Lemma ex_run_app l1 l2 s : ex_run (app l1 l2) s = ex_run l1 s ≫= ex_run l2.
Proof. revert s. induction l1 as [|a l1 IH]; intros s; cbn; [done|]. by destruct (ex_step a s). Qed.
Lemma ex_run_inv (P : S → Prop) l s s' :
  (∀ a s s', a ∈ l → P s → ex_step a s = Some s' → P s') → P s → ex_run l s = Some s' → P s'.
Proof.
  revert s. induction l as [|a l IH]; intros s Hst Hp; cbn; [by intros [= <-]|].
  destruct (ex_step a s) as [s1|] eqn:Hs; [|done]. apply IH; [|by eapply Hst; eauto; left].
  intros ? ? ? Hin. apply Hst. by right.
Qed.
End Interface.

(** The laws; [ex_inv] is an invariant of the system that the laws may use. *)
Class ExecutionLaws (A S : Type) `{Execution A S} (sha256hex : bytes → string) (marshal : ResultItem → option bytes) := {
  ex_inv : string → string → S → Prop;
  ex_inv_idle b folder s : ex_idle s → ex_inv b folder s;
  ex_inv_step b folder a s s' : ex_inv b folder s → ex_allowed b folder a → ex_step a s = Some s' → ex_inv b folder s';
  ex_refines b folder a s s' : ex_inv b folder s → ex_allowed b folder a → ex_step a s = Some s' →
    rtc (world_step sha256hex marshal b folder) (ex_world s) (ex_world s');
  ex_settles b folder l s0 s reqs r : ex_idle s0 → Forall (ex_allowed b folder) l → ex_run l s0 = Some s → ex_clean b reqs s →
    r ∈ reqs → rq_CustomID r ≠ "" → closed b (rq_RequestID r) (w_db (ex_world s)) }.

Section Runs.
Context {A S : Type} `{ExecutionLaws A S sha256hex marshal} (b folder : string).

Lemma ex_run_refines l s s' : ex_inv b folder s → Forall (ex_allowed b folder) l → ex_run l s = Some s' →
  ex_inv b folder s' ∧ rtc (world_step sha256hex marshal b folder) (ex_world s) (ex_world s').
Proof.
  rewrite Forall_forall. intros Hi Hl. apply (ex_run_inv (λ s', ex_inv b folder s' ∧
    rtc (world_step sha256hex marshal b folder) (ex_world s) (ex_world s'))); [|by split].
  intros a s1 s2 Ha [H1 H2] Hs. specialize (Hl a Ha). split; [by eapply ex_inv_step|].
  etrans; [exact H2|by eapply ex_refines].
Qed.
Lemma ex_run_batch manifest l s s' : manifest ≠ [] → ex_inv b folder s → Forall (ex_allowed b folder) l → ex_run l s = Some s' →
  batch_ok sha256hex b folder manifest (ex_world s) → batch_ok sha256hex b folder manifest (ex_world s').
Proof. intros Hne Hi Hl Hr. destruct (ex_run_refines _ _ _ Hi Hl Hr) as [_ Hw]. by eapply world_steps_ok. Qed.
Lemma ex_run_closed q l s s' : ex_inv b folder s → Forall (ex_allowed b folder) l → ex_run l s = Some s' →
  closed b q (w_db (ex_world s)) → closed b q (w_db (ex_world s')).
Proof. intros Hi Hl Hr. destruct (ex_run_refines _ _ _ Hi Hl Hr) as [_ Hw]. by eapply world_steps_closed. Qed.
End Runs.

(** ** Asynchronous execution *)
Section Async.
Context {Q : Type} `{TransportLaws Q} (is_object : bytes → bool) (model_of : bytes → string) (durable : bool).
Context (sha256hex : bytes → string) (marshal : ResultItem → option bytes) (known : string → bool).
Abbreviation State := (State (Q := Q)).
Abbreviation job_step := (job_step model_of sha256hex marshal known).
Abbreviation step := (step is_object model_of durable sha256hex marshal known).

(** What the other actions may do: statements keep the batch and leave the
    recording of its results to its jobs; its jobs use the tenant's folder; no
    other client deletes its result objects. *)
Definition keeps_results (b folder : string) (a : Act (Q := Q)) : Prop :=
  keeps_batch b a ∧
  match a with
  | AStmt (SCheckpoint _ b' _ _ _ _) => b' ≠ b
  | AFileDelete path => not_a_result b folder path
  | AStart _ sink _ _ _ _ => sink_ok b folder sink
  | _ => True
  end.
Definition sinks_ok (b folder : string) (s : State) : Prop := ∀ id j, st_jobs s !! id = Some j → sink_ok b folder (jb_sink j).

Lemma job_step_refines b folder a w q j w' q' j' : job_ok j → sink_ok b folder (jb_sink j) → job_step a w q j = Some (w', q', j') →
  rtc (world_step sha256hex marshal b folder) w w'.
Proof.
  intros Hok Hsk Hs. destruct a; cbn [AsyncRun.job_step] in Hs.
  1: { destruct (fence_step _ _ _ _ _) as [[w1 j1]|] eqn:Hf; [|done]. injection Hs as <- <- <-.
       apply fence_step_effect in Hf as (_ & _ & _ & Hfs & Hm & _). apply rtc_once. by eapply ws_mark. }
  all: try (repeat destruct_match_in Hs; simplify_eq; done).
  - destruct (fe_out _) as [|p out]; [done|]. destruct (push p j); [|done]. by injection Hs as <- <- <-.
  - destruct (take_step _ _ _ _ _ _) as [[q1 j1]|]; [|done]. by injection Hs as <- <- <-.
  - destruct (wait_step _ _) as [[q1 j1]|]; [|done]. by injection Hs as <- <- <-.
  - destruct (rn_hand _) as [p|]; [|done]. destruct (push p j); [|done]. by injection Hs as <- <- <-.
  - destruct (drain_inv _ _ _ _ _ _ _ _ _ (ok_abort _ Hok) Hs) as (p & rest & _ & _ & _ & _ & _ & _ & Ec & -> & _).
    rewrite Ec. apply rtc_once. apply ws_record; [done|apply Hok].
Qed.

Lemma step_sinks b folder a s s' : keeps_results b folder a → step a s = Some s' → jobs_ok s → sinks_ok b folder s → sinks_ok b folder s'.
Proof.
  intros [_ Hk] Hs Hok Hsk id j' Hj. destruct (step_job _ _ _ _ _ _ _ _ _ _ _ Hs Hj) as [Ho|[Ho|[Ho|Ho]]].
  - by eapply Hsk.
  - by destruct Ho as (sink & group & reqs & p & t & -> & ->).
  - destruct Ho as (ja & j & w & q & _ & Hid & Hst & _).
    destruct (job_step_effect _ _ _ _ _ _ _ _ _ _ _ (Hok _ _ Hid) Hst) as (-> & _). by eapply Hsk.
  - destruct Ho as (i & j & r & m & c & ts & _ & _ & _ & Hid & -> & _). by apply (Hsk _ _ Hid).
Qed.

Lemma step_refines b folder a s s' : jobs_ok s → sinks_ok b folder s → keeps_results b folder a → step a s = Some s' →
  rtc (world_step sha256hex marshal b folder) (st_world s) (st_world s').
Proof.
  intros Hok Hsk [Hkb Hk] Hs. destruct a; cbn [AsyncRun.step] in Hs.
  - injection Hs as <-. destruct Hkb as [Ha Hkp]. apply rtc_once. apply (ws_stmt _ _ _ _ s0). by split_and!.
  - injection Hs as <-. cbn. destruct (w_fs (st_world s) !! path) eqn:Hp; [by destruct (st_world s)|]. apply rtc_once. by constructor.
  - injection Hs as <-. apply rtc_once. by constructor.
  - case_bool_decide; [|done]. by injection Hs as <-.
  - destruct (st_jobs s !! id); [done|]. by injection Hs as <-.
  - destruct (st_jobs s !! id) as [j|] eqn:Hj; [|done]. destruct (AsyncRun.job_step _ _ _ _ _ _ _ _) as [[[w q] j1]|] eqn:Hjs; [|done].
    injection Hs as <-. cbn. eapply job_step_refines; [by eapply Hok|by eapply Hsk|done].
  - by injection Hs as <-.
  - destruct (st_routers s !! i); [done|]. by injection Hs as <-.
  - by injection Hs as <-.
  - destruct (st_routers s !! i) as [r|]; [|done]. unfold router_step in Hs.
    destruct a, (ro_stage r) as [|m c|m c [|t ts]|m c|c]; try done; try by injection Hs as <-.
    + destruct (receive _ _ _). by injection Hs as <-.
    + destruct (send _ _ _); [|done]. by injection Hs as <-.
Qed.

#[export] Instance async_execution : Execution Act State := {
  ex_step := step; ex_world := st_world; ex_idle s := st_jobs s = ∅; ex_allowed := keeps_results;
  ex_clean b reqs s := ∃ id j, st_jobs s !! id = Some j ∧ rs_batchID (jb_sink j) = b ∧ jb_reqs j = reqs ∧
    executed j = true ∧ Execute_err j = None }.
#[export] Instance async_execution_laws : ExecutionLaws Act State sha256hex marshal.
Proof.
  refine {| ex_inv b folder s := jobs_ok s ∧ sinks_ok b folder s |}.
  - intros b folder s Hj. change (st_jobs s = ∅) in Hj. split; intros id j Hx; by rewrite Hj in Hx.
  - intros b folder a s s' [H1 H2] Ha Hs. split; [eapply step_jobs_ok; [exact H1|exact Hs]|eapply step_sinks; [exact Ha|exact Hs|done|done]].
  - intros b folder a s s' [H1 H2] Ha Hs. by apply (step_refines b folder a).
  - intros b folder l s0 s reqs r Hj Hl Hr (id & j & Hid & <- & <- & He & Herr) Hin Hc.
    eapply clean_run_closes; [done|exact Hj| |exact Hr|exact Hid|done..]. eapply Forall_impl; [exact Hl|]. by intros a [? _].
Qed.
End Async.
