(* ===== verification/SyncRun.v ===== *)
(** * Synchronous execution: jobs that share the endpoints of their processor

    The actors that run at the same time in synchronous mode: per job the
    source, the fence ([pipeline/dispatcher_pre.go]), the dispatcher
    ([dispatcher_aimd.go] around [dispatcher_direct.go], modelled in [Flow]) and
    the checkpointer, wired by [pipeline/executor.go] as in asynchronous mode.
    The parts that both modes share are those of [AsyncRun]; the pending set
    stays empty, since a synchronous result carries its custom ID.

    A result that the feeder or the result loop of the dispatcher is sending
    blocks that goroutine alone until the checkpointer's channel has room: the
    two sends in progress are [rn_out] and [rn_hand]. *)

From Stdlib Require Import ZArith Lia Ascii String.
From stdpp Require Import base gmap strings list sorting pretty.
From S2P Require Import Prelude Openai Store StoreOps Ownership Planner Preprocess.
From S2P Require Import Files ResultStore Entries Finalizer JobRunner Pipeline Semaphore Flow AsyncRun.
Local Open Scope string_scope.
Local Open Scope Z_scope.

(** ** No queue *)
Definition noQueue : err := ErrOther "no queue".
#[export] Instance no_transport : Transport unit := {
  SubmitRequest _ q := (q, Err noQueue); lib_GetResult _ q := (q, Err noQueue); lib_ReceiveResult _ q := (q, Err noQueue);
  AckResult _ q := (q, Err noQueue); CancelRequests _ q := (q, Err noQueue); recoverable _ := ∅ }.
#[export] Instance no_transport_laws : TransportLaws unit.
Proof. by split. Qed.

(** ** A job: the actors both modes have, and the dispatcher *)
Record SyncJob := { sj_job : AsyncRun.Job; sj_flow : Flow.Job }.
Definition with_job (j : AsyncRun.Job) (x : SyncJob) : SyncJob := {| sj_job := j; sj_flow := sj_flow x |}.

(** The dispatcher at work: its context is the dispatch context, and what it
    has sent is not its own any more. *)
Definition at_work (j : AsyncRun.Job) (f : Flow.Job) : Flow.Job :=
  {| j_models := j_models f; j_global := j_global f; j_cause := cx_dispatch (jb_ctx j); j_input := j_input f;
     j_feeder := j_feeder f; j_inner := j_inner f; j_settle := j_settle f; j_out := [] |}.
Definition with_input (l : list RequestItem) (f : Flow.Job) : Flow.Job :=
  {| j_models := j_models f; j_global := j_global f; j_cause := j_cause f; j_input := l;
     j_feeder := j_feeder f; j_inner := j_inner f; j_settle := j_settle f; j_out := j_out f |}.

(** A result of the dispatcher; an error under an ended context stands for a
    request that was given up. *)
Definition parcel_of (j : AsyncRun.Job) (r : DispResult) : Parcel :=
  {| pc_item := dr_item r; pc_claim := None;
     pc_given_up := negb (dispatching j) && bool_decide (is_Some (ri_Error (dr_item r))) |}.

(** Which goroutine acts. *)
Inductive Goroutine := TheFeeder | TheResultLoop.
Definition goroutine_of (a : Flow.Act) : option Goroutine :=
  match a with
  | AcquireEndpoint | GiveUpEndpoint | AcquireGlobal | GiveUpGlobal | Send | DrainInput => Some TheFeeder
  | Answer _ _ _ | Settle => Some TheResultLoop
  | Abort _ => None
  end.
Definition sending (g : Goroutine) (r : Runner) : bool :=
  match g with TheFeeder => negb (bool_decide (rn_out r = [])) | TheResultLoop => bool_decide (is_Some (rn_hand r)) end.

Inductive SyncAct :=
| SShared (a : JobAct)        (** an actor both modes have *)
| SReceive                    (** the feeder receives a request from the fence *)
| SFlow (a : Flow.Act)        (** the dispatcher *)
| SSend (g : Goroutine)       (** a send succeeds *)
| SClose.                     (** the dispatcher closes its channel *)

(** The fence, the source, the checkpointer and the job's context. *)
Definition shared (a : JobAct) : bool :=
  match a with JPre _ _ _ | JPreSend | JSourceFails | JDrain _ | JAbort _ => true | _ => false end.

Section Run.
Context (sha256hex : bytes → string) (marshal : ResultItem → option bytes) (client : string → bool).

Definition receive_step (x : SyncJob) : option SyncJob :=
  let j := sj_job x in let f := sj_flow x in let fe := jb_fence j in
  match rn_phase (jb_run j), rn_out (jb_run j), j_input f, j_feeder f, fe_offer fe with
  | Submitting, [], [], Ready, Some r | Submitting, [], [], Draining, Some r =>
      Some {| sj_job := with_fence {| fe_todo := fe_todo fe; fe_phase := fe_phase fe; fe_offer := None; fe_out := fe_out fe |} j;
              sj_flow := with_input [r] f |}
  | _, _, _, _, _ => None
  end.

Definition flow_step (a : Flow.Act) (eps : gmap string EndpointAIMD) (x : SyncJob)
    : option (gmap string EndpointAIMD * SyncJob) :=
  let j := sj_job x in let r := jb_run j in
  match goroutine_of a, rn_phase r with
  | Some g, Submitting =>
      if sending g r then None else
      match act client a eps (at_work j (sj_flow x)) with
      | None => None
      | Some (eps', f) =>
          let out := parcel_of j <$> j_out f in
          Some (eps', {| sj_job := with_run (match g with
                                             | TheFeeder => {| rn_phase := Submitting; rn_out := out; rn_hand := rn_hand r |}
                                             | TheResultLoop => {| rn_phase := Submitting; rn_out := rn_out r; rn_hand := head out |}
                                             end) j;
                         sj_flow := at_work j f |})
      end
  | _, _ => None
  end.

Definition send_step (g : Goroutine) (x : SyncJob) : option SyncJob :=
  let j := sj_job x in let r := jb_run j in
  match g, rn_out r, rn_hand r with
  | TheFeeder, p :: out, _ =>
      (λ j', with_job (with_run {| rn_phase := rn_phase r; rn_out := out; rn_hand := rn_hand r |} j') x) <$> push p j
  | TheResultLoop, _, Some p =>
      (λ j', with_job (with_run {| rn_phase := rn_phase r; rn_out := rn_out r; rn_hand := None |} j') x) <$> push p j
  | _, _, _ => None
  end.

(** The request channel is closed and drained, the requests in flight are
    answered, their results sent. *)
Definition close_step (x : SyncJob) : option SyncJob :=
  let j := sj_job x in
  match rn_phase (jb_run j), rn_out (jb_run j), rn_hand (jb_run j), fe_phase (jb_fence j), fe_offer (jb_fence j) with
  | Submitting, [], None, PreClosed, None => if finished (sj_flow x) then Some (with_job (with_phase Closed j) x) else None
  | _, _, _, _, _ => None
  end.

Definition sync_job_step (a : SyncAct) (w : World) (eps : gmap string EndpointAIMD) (x : SyncJob)
    : option (World * gmap string EndpointAIMD * SyncJob) :=
  match a with
  | SShared a => if shared a then
                   (λ y : World * unit * AsyncRun.Job, (y.1.1, eps, with_job y.2 x)) <$> job_step (λ _, "") sha256hex marshal client a w () (sj_job x)
                 else None
  | SReceive => (λ x', (w, eps, x')) <$> receive_step x
  | SFlow a => (λ y, (w, y.1, y.2)) <$> flow_step a eps x
  | SSend g => (λ x', (w, eps, x')) <$> send_step g x
  | SClose => (λ x', (w, eps, x')) <$> close_step x
  end.

(** A job at its start, around a dispatcher that [NewAIMDDispatcher] built. *)
Definition newSyncJob (sink : batchResultStore) (f : Flow.Job) (reqs : list RequestItem) (t : ProgressTracker) (w : World) : SyncJob :=
  {| sj_job := newJob sink reqs ∅ t w; sj_flow := f |}.

(** ** The system *)
Record SyncState := { sy_world : World; sy_eps : gmap string EndpointAIMD; sy_jobs : gmap string SyncJob }.
Definition with_world (w : World) (s : SyncState) : SyncState := {| sy_world := w; sy_eps := sy_eps s; sy_jobs := sy_jobs s |}.
Definition with_sync_jobs (js : gmap string SyncJob) (s : SyncState) : SyncState :=
  {| sy_world := sy_world s; sy_eps := sy_eps s; sy_jobs := js |}.

Inductive SyncSysAct :=
| YStmt (s : Stmt)                             (** another client of the database *)
| YFileStore (path : string) (data : bytes)    (** another client of the file store creates a file *)
| YFileDelete (path : string)                  (** or deletes one *)
| YEndpoints (eps : gmap string EndpointAIMD)  (** a processor sets up the limits of its endpoints *)
| YStart (id : string) (sink : batchResultStore) (models : gmap string string) (global : Z) (reqs : list RequestItem)
         (t : ProgressTracker)                 (** a job starts *)
| YJob (id : string) (a : SyncAct)
| YCrash (id : string).                        (** the process of a job dies *)

Definition sync_step (a : SyncSysAct) (s : SyncState) : option SyncState :=
  let w := sy_world s in
  match a with
  | YStmt st => Some (with_world {| w_db := run st (w_db w); w_fs := w_fs w |} s)
  | YFileStore path data =>
      Some (with_world {| w_db := w_db w; w_fs := match w_fs w !! path with Some _ => w_fs w | None => <[path := data]> (w_fs w) end |} s)
  | YFileDelete path => Some (with_world {| w_db := w_db w; w_fs := delete path (w_fs w) |} s)
  | YEndpoints eps => Some {| sy_world := w; sy_eps := sy_eps s ∪ eps; sy_jobs := sy_jobs s |}
  | YStart id sink models global reqs t =>
      match sy_jobs s !! id, NewAIMDDispatcher models global [] with
      | None, Ok f => Some (with_sync_jobs (<[id := newSyncJob sink f reqs t w]> (sy_jobs s)) s)
      | _, _ => None
      end
  | YJob id a =>
      match sy_jobs s !! id with
      | None => None
      | Some x => match sync_job_step a w (sy_eps s) x with
                  | None => None
                  | Some (w', eps, x') => Some {| sy_world := w'; sy_eps := eps; sy_jobs := <[id := x']> (sy_jobs s) |}
                  end
      end
  | YCrash id => Some (with_sync_jobs (delete id (sy_jobs s)) s)
  end.
Fixpoint sync_run (l : list SyncSysAct) (s : SyncState) : option SyncState :=
  match l with [] => Some s | a :: l => match sync_step a s with Some s' => sync_run l s' | None => None end end.
End Run.
