(* ===== verification/SyncResults.v ===== *)
(** * Synchronous execution: every request is accounted for

    Theorems about the interleavings of [SyncRun].  A request of a healthy run is
    with the source, the fence, the dispatcher, on its way to the checkpointer,
    or its entry is terminal ([sync_accounted]); so a run that ends without an
    error has recorded everything ([sync_run_settles_everything]), whatever the
    jobs that share its endpoints do.  The job-local invariants of the actors
    that both modes have are those of [AsyncResults].  The last section is the
    instance of the interface of [Execution]. *)

From Stdlib Require Import ZArith Lia Ascii String.
From stdpp Require Import base gmap strings list sorting pretty.
From S2P Require Import Prelude Openai Store StoreOps Ownership Fencing Planner Preprocess.
From S2P Require Import Files ResultStore Entries Finalizer JobRunner Pipeline Semaphore Flow Throttle Dispatch.
From S2P Require Import AsyncRun AsyncResults Execution SyncRun.
Local Open Scope string_scope.
Local Open Scope Z_scope.

(** ** Requests in the dispatcher *)
Definition feeding (f : Feeder) : list RequestItem := match f with AtGlobal m | AtSend m => [m] | _ => [] end.
Definition answers (r : RequestItem) (i : ResultItem) : Prop := ri_RequestID i = rq_RequestID r ∧ ri_CustomID i ≠ "".
Definition in_flow (f : Flow.Job) (r : RequestItem) : Prop :=
  r ∈ j_input f ∨ r ∈ feeding (j_feeder f) ∨ r ∈ j_inner f ∨ ∃ x d, j_settle f = Some (x, d) ∧ answers r (dr_item d).

Lemma handleMessage_custom cl c msg resp e : ri_CustomID (dr_item (handleMessage cl c msg resp e)) = rq_CustomID msg.
Proof.
  unfold handleMessage, submitRequest, buildResult, handleClientError, handleSuccess.
  by repeat case_match.
Qed.
Lemma handleMessage_answers cl c msg resp e : rq_CustomID msg ≠ "" → answers msg (dr_item (handleMessage cl c msg resp e)).
Proof. intros Hc. split; [apply handleMessage_ids|by rewrite handleMessage_custom]. Qed.

(** An action sends at most one result, and only aborted dispatchers drain. *)
Lemma act_out cl a eps f eps' f' : act cl a eps f = Some (eps', f') → j_out f = [] →
  (j_out f' = [] ∨ ∃ d, j_out f' = [d]) ∧ (j_feeder f' = Draining → j_feeder f = Draining ∨ j_cause f ≠ NotAborted).
Proof.
  intros H Ho. act_cases H; cbn; rewrite ?Ho; cbn; (split; [eauto|]); intros Hd; rewrite ?Hf in *; cbn in Hd; try done; try (by left);
    right; repeat match goal with E : _ && _ = true |- _ => apply andb_true_iff in E as [E _] end;
    match goal with E : negb _ = true |- _ => apply negb_true_iff, bool_decide_eq_false in E; exact E end.
Qed.

(** No request is dropped. *)
Lemma act_keeps cl a eps f eps' f' r : act cl a eps f = Some (eps', f') → rq_CustomID r ≠ "" → in_flow f r →
  in_flow f' r ∨ ∃ d, d ∈ j_out f' ∧ answers r (dr_item d).
Proof.
  intros H Hc Hr. assert (∀ m code l, r = m → ∃ d, d ∈ (l ++ [disp_error m code])%list ∧ answers r (dr_item d)) as Herr.
  { intros m code l <-. exists (disp_error r code). split; [apply elem_of_app; right; by left|done]. }
  unfold in_flow in *. unfold act in H. destruct a as [| | | | | |i resp ce| |c].
  - destruct (j_feeder f) eqn:Hf; try done. destruct (j_input f) as [|m l] eqn:Hi; [done|].
    apply fmap_Some in H as (? & _ & H). simplify_eq. cbn in *. rewrite elem_of_cons, ?list_elem_of_singleton, ?elem_of_nil in *. tauto.
  - destruct (j_feeder f) eqn:Hf; try done. destruct (j_input f) as [|m l] eqn:Hi; [done|]. destruct (_ && _); [|done].
    simplify_eq. cbn in *. rewrite elem_of_cons, ?elem_of_nil in *. destruct Hr as [[Hr|Hr]|Hr]; [right; by apply Herr|tauto|tauto].
  - destruct (j_feeder f) eqn:Hf; try done. apply fmap_Some in H as (? & _ & H). simplify_eq. cbn in *. tauto.
  - destruct (j_feeder f) as [|m|m|] eqn:Hf; try done. destruct (negb _); [|done]. simplify_eq. cbn in *.
    rewrite ?list_elem_of_singleton, ?elem_of_nil in *. destruct Hr as [Hr|[Hr|Hr]]; [tauto|right; by apply Herr|tauto].
  - destruct (j_feeder f) as [|m|m|] eqn:Hf; try done. simplify_eq. cbn in *.
    rewrite ?elem_of_cons, ?list_elem_of_singleton, ?elem_of_nil in *. tauto.
  - destruct (j_feeder f) eqn:Hf; try done. destruct (j_input f) as [|m l] eqn:Hi; [done|].
    simplify_eq. cbn in *. rewrite elem_of_cons, ?elem_of_nil in *. destruct Hr as [[Hr|Hr]|Hr]; [right; by apply Herr|tauto|tauto].
  - assert (∃ m, j_settle f = None ∧ j_inner f !! i = Some m ∧ f' = set_settle (j_settle f') (set_inner (delete i (j_inner f)) f) ∧
      ∃ x d, j_settle f' = Some (x, d) ∧ d = handleMessage cl (j_cause f) m resp ce) as (m & Hst & Hm & -> & x & d & Hx & Hd).
    { destruct (j_feeder f), (j_input f); destruct (j_settle f); try done; destruct (j_inner f !! i) as [m|]; try done;
        destruct (settle_ep _ _ _); simplify_eq; exists m; cbn; eauto 10. }
    cbn in *. rewrite Hst, Hx in *. destruct Hr as [Hr|[Hr|[Hr|(? & ? & ? & _)]]]; [tauto|tauto| |done].
    rewrite (delete_Permutation _ _ _ Hm), elem_of_cons in Hr. destruct Hr as [->|Hr]; [|tauto]. left. do 3 right.
    exists x, d. split; [done|]. subst d. by apply handleMessage_answers.
  - assert (∃ x d, j_settle f = Some (x, d) ∧ j_input f' = j_input f ∧ j_feeder f' = j_feeder f ∧ j_inner f' = j_inner f ∧
      j_out f' = (j_out f ++ [d])%list) as (x & d & Hst & -> & -> & -> & ->).
    { destruct (j_feeder f), (j_input f), (j_settle f) as [[x d]|]; simplify_eq; by exists x, d. }
    destruct Hr as [Hr|[Hr|[Hr|(y & d' & Hy & Hd)]]]; [tauto..|]. right. exists d. rewrite Hst in Hy. injection Hy as <- <-.
    split; [apply elem_of_app; right; by left|done].
  - assert (f' = set_cause c f) as ->; [|left; exact Hr]. destruct (j_feeder f), (j_input f); destruct (_ && _); by simplify_eq.
Qed.

(** ** A job's own actions *)
Section Job.
Context (sha256hex : bytes → string) (marshal : ResultItem → option bytes) (client : string → bool).
Abbreviation shared_step := (job_step (Q := unit) (λ _, "") sha256hex marshal client).
Abbreviation sync_job_step := (sync_job_step sha256hex marshal client).

Record sync_ok (x : SyncJob) : Prop := {
  so_job : job_ok (sj_job x);
  so_pending : co_pending (jb_co (sj_job x)) = ∅;
  so_out : j_out (sj_flow x) = [];
  so_drain : j_feeder (sj_flow x) = Draining → ¬ healthy (sj_job x);
  so_closed : rn_phase (jb_run (sj_job x)) ≠ Submitting → finished (sj_flow x) = true }.
Definition sync_accounted (x : SyncJob) (db : DB) (r : RequestItem) : Prop :=
  accounted (sj_job x) db r ∨ in_flow (sj_flow x) r.

Lemma newSyncJob_ok sink models global reqs t w f : NewAIMDDispatcher models global [] = Ok f → sync_ok (newSyncJob sink f reqs t w).
Proof.
  unfold NewAIMDDispatcher. destruct (Channel.New global); [|done]. intros [= <-]. split; try done. apply newJob_ok.
Qed.

(** The actors of both modes leave the dispatcher alone and the pending set empty. *)
Lemma shared_keeps a w j w' q' j' : shared a = true → job_ok j → shared_step a w () j = Some (w', q', j') →
  jb_run j' = jb_run j ∧ (co_pending (jb_co j) = ∅ → co_pending (jb_co j') = ∅).
Proof.
  intros Ha Hok Hs. destruct a; try done; cbn [AsyncRun.job_step] in Hs.
  - destruct (fence_step _ _ _ _ _) as [[w1 j1]|] eqn:Hf; [|done]. injection Hs as <- <- <-.
    pose proof (fence_step_effect _ _ _ _ _ _ _ Hf) as (_ & _ & -> & _). split; [|done].
    unfold fence_step in Hf. repeat destruct_match_in Hf; by simplify_eq.
  - destruct (fe_out _) as [|p out]; [done|]. destruct (push p j) as [j1|] eqn:Hp; [|done]. injection Hs as <- <- <-.
    by apply push_inv in Hp as ->.
  - by injection Hs as <- <- <-.
  - destruct (drain_inv _ _ _ _ _ _ _ _ _ (ok_abort _ Hok) Hs) as (p & rest & _ & _ & _ & _ & _ & Eu & Ec & _ & _). split; [done|].
    destruct (drain_step_outcome sha256hex marshal (jb_sink j) w (jb_co j)
      {| dl_item := pc_item p; dl_durable := bool_decide (is_Some (pc_claim p)) |} (under_ctx j env) (ok_abort _ Hok))
      as (_ & _ & _ & _ & _ & Hsub & _). rewrite <- Ec in Hsub. intros He. apply map_eq. intros k. rewrite lookup_empty.
    destruct (co_pending (jb_co j') !! k) eqn:Hk; [|done]. destruct (Hsub k) as [y Hy]; [by eexists|].
    by rewrite He, lookup_empty in Hy.
  - by injection Hs as <- <- <-.
Qed.

Lemma parcel_given j r : job_ok j → pc_given_up (parcel_of j r) = true → ¬ healthy j.
Proof.
  intros Hok Hg. apply (ok_dispatch _ Hok). cbn in Hg. apply andb_true_iff in Hg as [Hg _]. unfold dispatching in Hg.
  by case_bool_decide.
Qed.

Lemma sync_job_step_ok a w eps x w' eps' x' : sync_ok x → sync_job_step a w eps x = Some (w', eps', x') →
  sync_ok x' ∧ (healthy (sj_job x') → healthy (sj_job x)) ∧
  jb_sink (sj_job x') = jb_sink (sj_job x) ∧ jb_reqs (sj_job x') = jb_reqs (sj_job x).
Proof.
  intros [Hok Hp Ho Hd Hc] Hs. destruct a as [a| |a|g|]; cbn [SyncRun.sync_job_step] in Hs.
  - destruct (shared a) eqn:Ha; [|done]. destruct (job_step _ _ _ _ _ _ _ _) as [[[w1 q1] j1]|] eqn:Hj; [|done].
    injection Hs as <- <- <-. destruct (job_step_ok _ _ _ _ _ _ _ _ _ _ _ Hok Hj) as [Hok' Hh].
    destruct (job_step_effect _ _ _ _ _ _ _ _ _ _ _ Hok Hj) as (Es & Er & _).
    destruct (shared_keeps _ _ _ _ _ _ Ha Hok Hj) as [Eu Ep]. split_and!; try done. split; cbn; [done|by apply Ep|done| |by rewrite Eu].
    intros Hx Hy. by apply (Hd Hx), Hh.
  - unfold receive_step in Hs.
    assert (∃ r, rn_phase (jb_run (sj_job x)) = Submitting ∧ fe_offer (jb_fence (sj_job x)) = Some r ∧ w' = w ∧ eps' = eps ∧
      x' = {| sj_job := with_fence {| fe_todo := fe_todo (jb_fence (sj_job x)); fe_phase := fe_phase (jb_fence (sj_job x));
                                      fe_offer := None; fe_out := fe_out (jb_fence (sj_job x)) |} (sj_job x);
              sj_flow := with_input [r] (sj_flow x) |}) as (r & Hph & Hoff & -> & -> & ->).
    { destruct (rn_phase _); try done. destruct (rn_out _); [|done]. destruct (j_input _); [|done].
      destruct (j_feeder _); try done; destruct (fe_offer _) as [r|]; try done; injection Hs as <- <- <-; by exists r. }
    split_and!; try done. destruct Hok as [H1 H2 H3 H4 H5 H6]. split; cbn; try done.
    split; try done. intros Hcl. cbn in Hcl. by destruct (H5 Hcl).
  - unfold flow_step in Hs. destruct (goroutine_of a) as [g|]; [|done]. destruct (rn_phase _) eqn:Hph; try done.
    destruct (sending g _); [done|]. destruct (act _ _ _ _) as [[eps1 f]|] eqn:Hact; [|done]. injection Hs as <- <- <-.
    destruct (act_out _ _ _ _ _ _ Hact eq_refl) as [_ Hdr]. split_and!; try done; [|by destruct g..]. split; cbn; try done.
    + destruct Hok as [H1 H2 H3 H4 H5 H6]. split; try by destruct g.
      intros p Hin Hg. assert (p ∈ parcels (sj_job x) ∨ p ∈ parcel_of (sj_job x) <$> j_out f) as [Hold|(d & -> & _)%list_elem_of_fmap].
      { revert Hin. clear. unfold parcels. destruct g; cbn; rewrite !elem_of_app; [tauto|].
        destruct (j_out f); cbn; rewrite ?elem_of_cons, ?elem_of_nil; tauto. }
      * by apply (H3 p).
      * apply (parcel_given (sj_job x) d); [by split|done].
    + intros [Hf|Hf]%Hdr; [by apply Hd|]. by apply (ok_dispatch _ Hok).
    + by destruct g.
  - assert (∃ p rn, (∀ y, y ∈ parcels (with_run rn (with_inbox (jb_inbox (sj_job x) ++ [p]) (sj_job x))) → y ∈ parcels (sj_job x)) ∧
      rn_phase rn = rn_phase (jb_run (sj_job x)) ∧
      w' = w ∧ eps' = eps ∧ x' = with_job (with_run rn (with_inbox (jb_inbox (sj_job x) ++ [p]) (sj_job x))) x)
      as (p & rn & Hpar & Hph & -> & -> & ->).
    { unfold send_step in Hs. destruct g.
      - destruct (rn_out _) as [|p out] eqn:Hout; [done|]. destruct (push p _) as [j1|] eqn:Hpu; [|done]. apply push_inv in Hpu as ->.
        injection Hs as <- <- <-. exists p, {| rn_phase := rn_phase (jb_run (sj_job x)); rn_out := out; rn_hand := rn_hand (jb_run (sj_job x)) |}.
        split_and!; [|done..]. intros y. unfold parcels. cbn. rewrite Hout, !elem_of_app, !elem_of_cons, elem_of_nil. tauto.
      - destruct (rn_hand _) as [p|] eqn:Hhand; [|done]. destruct (push p _) as [j1|] eqn:Hpu; [|done].
        apply push_inv in Hpu as ->.
        injection Hs as <- <- <-.
        exists p, {| rn_phase := rn_phase (jb_run (sj_job x)); rn_out := rn_out (jb_run (sj_job x)); rn_hand := None |}.
        split_and!; [|done..]. intros y. unfold parcels. cbn. rewrite Hhand. cbn. rewrite !elem_of_app, !elem_of_cons, !elem_of_nil. tauto. }
    split_and!; try done. destruct Hok as [H1 H2 H3 H4 H5 H6]. split; cbn; try done; [|by rewrite Hph].
    split; cbn; try done; [|by rewrite Hph]. intros y Hy%Hpar. by apply H3.
  - unfold close_step in Hs. destruct (rn_phase _) eqn:Hph; try done. destruct (rn_out _) eqn:Hro; [|done]. destruct (rn_hand _) eqn:Hrh; [done|].
    destruct (fe_phase _) eqn:Hfe; try done. destruct (fe_offer _) eqn:Hfo; [done|]. destruct (finished _) eqn:Hfin; [|done].
    injection Hs as <- <- <-. split_and!; try done. destruct Hok as [H1 H2 H3 H4 H5 H6]. split; cbn; done.
Qed.

Lemma sync_job_step_refines b folder a w eps x w' eps' x' : sync_ok x → sink_ok b folder (jb_sink (sj_job x)) →
  sync_job_step a w eps x = Some (w', eps', x') → rtc (world_step sha256hex marshal b folder) w w'.
Proof.
  intros [Hok _ _ _ _] Hsk Hs. destruct a as [a| |a|g|]; cbn [SyncRun.sync_job_step] in Hs.
  - destruct (shared a); [|done]. destruct (job_step _ _ _ _ _ _ _ _) as [[[w1 q1] j1]|] eqn:Hj; [|done].
    injection Hs as <- <- <-. by eapply job_step_refines.
  - destruct (receive_step x); [|done]. by injection Hs as <- _ _.
  - destruct (flow_step _ _ _ x) as [[? ?]|]; [|done]. by injection Hs as <- _ _.
  - destruct (send_step _ x); [|done]. by injection Hs as <- _ _.
  - destruct (close_step x); [|done]. by injection Hs as <- _ _.
Qed.

Lemma sync_job_step_tracks a w eps x w' eps' x' r : sync_ok x → sync_job_step a w eps x = Some (w', eps', x') →
  healthy (sj_job x') → rq_CustomID r ≠ "" → sync_accounted x (w_db w) r → sync_accounted x' (w_db w') r.
Proof.
  intros Hx Hs Hh Hc Hacc. destruct (sync_job_step_ok _ _ _ _ _ _ _ Hx Hs) as (_ & Hhx & _). specialize (Hhx Hh).
  pose proof (so_job _ Hx) as Hok. destruct a as [a| |a|g|]; cbn [SyncRun.sync_job_step] in Hs.
  - destruct (shared a); [|done]. destruct (job_step _ _ _ _ _ _ _ _) as [[[w1 q1] j1]|] eqn:Hj; [|done].
    injection Hs as <- <- <-. destruct Hacc as [Hacc|Hacc]; [left; by eapply job_step_tracks|by right].
  - destruct (receive_step x) as [y|] eqn:Hr; [|done]. injection Hs as <- <- <-. unfold receive_step in Hr.
    destruct (rn_phase _); try done. destruct (rn_out _); [|done]. destruct (j_input (sj_flow x)) eqn:Hi; [|done].
    assert (∃ m, fe_offer (jb_fence (sj_job x)) = Some m ∧ (j_feeder (sj_flow x) = Ready ∨ j_feeder (sj_flow x) = Draining) ∧
      y = {| sj_job := with_fence {| fe_todo := fe_todo (jb_fence (sj_job x)); fe_phase := fe_phase (jb_fence (sj_job x));
                                     fe_offer := None; fe_out := fe_out (jb_fence (sj_job x)) |} (sj_job x);
             sj_flow := with_input [m] (sj_flow x) |}) as (m & Hoff & _ & ->).
    { destruct (j_feeder _); try done; destruct (fe_offer _) as [m|]; try done; injection Hr as <-; exists m; auto. }
    destruct Hacc as [[?|[E|[?|[?|?]]]]|[Hf|Hf]].
    + left. by left.
    + right. left. cbn. rewrite Hoff in E. injection E as ->. by left.
    + left. by do 2 right; left.
    + left. by do 3 right; left.
    + left. by do 4 right.
    + rewrite Hi in Hf. by apply elem_of_nil in Hf.
    + right. by right.
  - destruct (flow_step _ _ _ x) as [[eps1 y]|] eqn:Hf; [|done]. injection Hs as <- <- <-. unfold flow_step in Hf.
    destruct (goroutine_of a) as [g|]; [|done]. destruct (rn_phase _); try done. destruct (sending g _) eqn:Hsend; [done|].
    destruct (act _ _ _ _) as [[eps2 f]|] eqn:Hact; [|done]. injection Hf as <- <-.
    destruct (act_out _ _ _ _ _ _ Hact eq_refl) as [Hout _]. set (x1 := {| sj_job := _; sj_flow := _ |}) in *.
    assert (∀ p, p ∈ parcels (sj_job x) ∨ p ∈ parcel_of (sj_job x) <$> j_out f → p ∈ parcels (sj_job x1)) as Hpar.
    { clear -Hsend Hout. intros p. unfold x1, parcels. destruct g; cbn in *; rewrite !elem_of_app.
      - case_bool_decide as Hro; [rewrite Hro, elem_of_nil; tauto|done].
      - case_bool_decide as Hrh; [done|]. destruct (rn_hand _); [by destruct Hrh|]. cbn. rewrite elem_of_nil.
        destruct Hout as [->|[d ->]]; cbn; rewrite ?elem_of_cons, ?elem_of_nil; tauto. }
    destruct Hacc as [Hacc|Hacc].
    + left. revert Hacc. apply accounted_moves; [by destruct g|by left|by destruct g; left|by destruct g; left|by destruct g; left|].
      intros p Hp _ _. left. apply Hpar. by left.
    + destruct (act_keeps _ _ _ _ _ _ r Hact Hc Hacc) as [Hin|(d & Hd & Hid & Hcd)]; [by right|left].
      eapply (accounted_parcel _ _ _ (parcel_of (sj_job x) d)); [|exact Hid|exact Hcd]. apply Hpar. right.
      apply list_elem_of_fmap. eauto.
  - destruct (send_step g x) as [y|] eqn:Hsd; [|done]. injection Hs as <- <- <-. unfold send_step in Hsd.
    destruct Hacc as [Hacc|Hacc]; [left|right].
    + destruct g.
      * destruct (rn_out _) as [|p out] eqn:Hro; [done|]. destruct (push p _) as [j1|] eqn:Hpu; [|done]. apply push_inv in Hpu as ->.
        injection Hsd as <-. revert Hacc. apply accounted_moves; try done; [by left..|]. intros y Hy _ _. left. revert Hy.
        unfold parcels. cbn. rewrite Hro, !elem_of_app, !elem_of_cons, elem_of_nil. clear. tauto.
      * destruct (rn_hand _) as [p|] eqn:Hrh; [|done]. destruct (push p _) as [j1|] eqn:Hpu; [|done]. apply push_inv in Hpu as ->.
        injection Hsd as <-. revert Hacc. apply accounted_moves; try done; [by left..|]. intros y Hy _ _. left. revert Hy.
        unfold parcels. cbn. rewrite Hrh. cbn. rewrite !elem_of_app, !elem_of_cons, elem_of_nil. clear. tauto.
    + assert (sj_flow y = sj_flow x) as ->; [|done].
      destruct g; [destruct (rn_out _) as [|p out]|destruct (rn_hand _) as [p|]]; try done; destruct (push p _); try done; by injection Hsd as <-.
  - destruct (close_step x) as [y|] eqn:Hcl; [|done]. injection Hs as <- <- <-. unfold close_step in Hcl.
    destruct (rn_phase _); try done. destruct (rn_out _) eqn:Hro; [|done]. destruct (rn_hand _) eqn:Hrh; [done|].
    destruct (fe_phase _); try done. destruct (fe_offer _); [done|]. destruct (finished _); [|done]. injection Hcl as <-.
    destruct Hacc as [Hacc|Hacc]; [left; exact Hacc|by right].
Qed.
End Job.

(** ** The system *)
Section System.
Context (sha256hex : bytes → string) (marshal : ResultItem → option bytes) (client : string → bool).
Abbreviation sync_job_step := (sync_job_step sha256hex marshal client).
Abbreviation sync_step := (sync_step sha256hex marshal client).
Abbreviation the_db s := (w_db (sy_world s)).

(** What the other actions may do to a batch. *)
Definition sync_keeps (b folder : string) (a : SyncSysAct) : Prop :=
  match a with
  | YStmt st => stmt_ok b st
  | YFileDelete path => not_a_result b folder path
  | YStart _ sink _ _ _ _ => sink_ok b folder sink
  | _ => True
  end.
Record sync_inv (b folder : string) (s : SyncState) : Prop := {
  si_jobs : ∀ id x, sy_jobs s !! id = Some x → sync_ok x;
  si_sinks : ∀ id x, sy_jobs s !! id = Some x → sink_ok b folder (jb_sink (sj_job x));
  si_tracked : ∀ id x r, sy_jobs s !! id = Some x → rs_batchID (jb_sink (sj_job x)) = b → healthy (sj_job x) →
    r ∈ jb_reqs (sj_job x) → rq_CustomID r ≠ "" → sync_accounted x (the_db s) r }.
#[export] Instance sync_execution : Execution SyncSysAct SyncState := {
  ex_step := sync_step; ex_world := sy_world; ex_idle s := sy_jobs s = ∅; ex_allowed := sync_keeps;
  ex_clean b reqs s := ∃ id x, sy_jobs s !! id = Some x ∧ rs_batchID (jb_sink (sj_job x)) = b ∧ jb_reqs (sj_job x) = reqs ∧
    executed (sj_job x) = true ∧ Execute_err (sj_job x) = None }.

Lemma sync_idle_inv b folder s : sy_jobs s = ∅ → sync_inv b folder s.
Proof. intros Hj. split; intros id x; rewrite Hj, lookup_empty; done. Qed.

(** A step starts a job, or one job acts, or all jobs stay. *)
Lemma sync_step_job a s s' id x' : sync_step a s = Some s' → sy_jobs s' !! id = Some x' →
  sy_jobs s !! id = Some x' ∨
  (∃ sink models global reqs t f, a = YStart id sink models global reqs t ∧ NewAIMDDispatcher models global [] = Ok f ∧
     x' = newSyncJob sink f reqs t (sy_world s)) ∨
  (∃ ja x w eps, a = YJob id ja ∧ sy_jobs s !! id = Some x ∧ sync_job_step ja (sy_world s) (sy_eps s) x = Some (w, eps, x') ∧
     sy_world s' = w).
Proof.
  intros Hs Hx. destruct a; cbn [SyncRun.sync_step] in Hs; try (injection Hs as <-; by left).
  - destruct (sy_jobs s !! id0) eqn:Hid; [done|]. destruct (NewAIMDDispatcher _ _ _) as [f|] eqn:Hf; [|done]. injection Hs as <-.
    cbn in Hx. rewrite lookup_insert in Hx. case_decide; [|by left]. subst. right. left. injection Hx as <-.
    by exists sink, models, global, reqs, t, f.
  - destruct (sy_jobs s !! id0) as [x|] eqn:Hid; [|done]. destruct (SyncRun.sync_job_step _ _ _ _ _ _ _) as [[[w eps] x1]|] eqn:Hj; [|done].
    injection Hs as <-. cbn in Hx. rewrite lookup_insert in Hx. case_decide; [|by left]. subst. injection Hx as <-.
    right. right. by exists a, x, w, eps.
  - injection Hs as <-. cbn in Hx. rewrite lookup_delete in Hx. case_decide; [done|]. by left.
Qed.

Lemma sync_step_refines b folder a s s' : sync_inv b folder s → sync_keeps b folder a → sync_step a s = Some s' →
  rtc (world_step sha256hex marshal b folder) (sy_world s) (sy_world s').
Proof.
  intros [Hok Hsk _] Hk Hs. destruct a; cbn [SyncRun.sync_step] in Hs.
  - injection Hs as <-. apply rtc_once. by apply (ws_stmt _ _ _ _ s0).
  - injection Hs as <-. cbn. destruct (w_fs (sy_world s) !! path) eqn:Hp; [by destruct (sy_world s)|]. apply rtc_once. by constructor.
  - injection Hs as <-. apply rtc_once. by constructor.
  - by injection Hs as <-.
  - destruct (sy_jobs s !! id); [done|]. destruct (NewAIMDDispatcher _ _ _); [|done]. by injection Hs as <-.
  - destruct (sy_jobs s !! id) as [x|] eqn:Hid; [|done]. destruct (SyncRun.sync_job_step _ _ _ _ _ _ _) as [[[w eps] x1]|] eqn:Hj; [|done].
    injection Hs as <-. cbn. eapply sync_job_step_refines; [by eapply Hok|by eapply Hsk|done].
  - by injection Hs as <-.
Qed.

Lemma sync_step_inv b folder a s s' : sync_inv b folder s → sync_keeps b folder a → sync_step a s = Some s' → sync_inv b folder s'.
Proof.
  intros Hi Hk Hs. pose proof (sync_step_refines _ _ _ _ _ Hi Hk Hs) as Hw. destruct Hi as [Hok Hsk Ht].
  assert (∀ x r, rs_batchID (jb_sink (sj_job x)) = b → sync_accounted x (the_db s) r → sync_accounted x (the_db s') r) as Hmono.
  { intros x r Hb [[?|[?|[?|[?|Hcl]]]]|?]; [left..|by right]; [by left|by right; left|by do 2 right; left|by do 3 right; left|].
    do 4 right. rewrite Hb in *. by eapply world_steps_closed. }
  split; intros id x'; [intros Hx|intros Hx|intros r Hx Hb Hh Hr Hc];
    destruct (sync_step_job _ _ _ _ _ Hs Hx) as [Ho|[(sink & models & global & reqs & t & f & -> & Hf & ->)|(ja & x & w & eps & -> & Hid & Hj & Hw')]].
  - by eapply Hok.
  - by eapply newSyncJob_ok.
  - by destruct (sync_job_step_ok _ _ _ _ _ _ _ _ _ _ (Hok _ _ Hid) Hj) as (? & _).
  - by eapply Hsk.
  - exact Hk.
  - destruct (sync_job_step_ok _ _ _ _ _ _ _ _ _ _ (Hok _ _ Hid) Hj) as (_ & _ & -> & _). by eapply Hsk.
  - apply Hmono; [done|]. by eapply Ht.
  - left. left. exact Hr.
  - destruct (sync_job_step_ok _ _ _ _ _ _ _ _ _ _ (Hok _ _ Hid) Hj) as (_ & Hhx & Es & Er). rewrite Hw'.
    eapply sync_job_step_tracks; [by eapply Hok|exact Hj|done|done|]. rewrite Es in Hb. rewrite Er in Hr. eapply Ht; eauto.
Qed.

Lemma sync_clean_closes b folder s id x r : sync_inv b folder s → sy_jobs s !! id = Some x → rs_batchID (jb_sink (sj_job x)) = b →
  executed (sj_job x) = true → Execute_err (sj_job x) = None → r ∈ jb_reqs (sj_job x) → rq_CustomID r ≠ "" →
  closed b (rq_RequestID r) (the_db s).
Proof.
  intros [Hok _ Ht] Hx Hb Hex Herr Hr Hc. pose proof (Hok _ _ Hx) as [Hj Hp _ _ Hcl]. unfold executed in Hex.
  apply andb_true_iff in Hex as [Hin Hex]. apply bool_decide_eq_true in Hin.
  destruct (rn_phase (jb_run (sj_job x))) eqn:Hph; try done. destruct (rn_out (jb_run (sj_job x))) eqn:Hro; [|done].
  destruct (rn_hand (jb_run (sj_job x))) eqn:Hhand; [done|]. destruct (fe_out (jb_fence (sj_job x))) eqn:Hfo; [|done].
  assert (healthy (sj_job x)) as Hh.
  { unfold Execute_err in Herr. destruct (co_conflict _) eqn:H1; [done|]. destruct (co_firstErr _) eqn:H2; [done|].
    case_bool_decide; done. }
  destruct (ok_done _ Hj) as [Hpc _]; [by rewrite Hph|]. destruct (ok_closed _ Hj Hpc) as [Htodo Hoff].
  assert (finished (sj_flow x) = true) as Hfin by (apply Hcl; done).
  destruct (Ht id x r Hx Hb Hh Hr Hc) as [[Hy|[Hy|[[? Hy]|[(p & Hy & _)|Hy]]]]|Hy]; [| | | |by rewrite <- Hb|]; exfalso.
  - rewrite Htodo in Hy. by apply elem_of_nil in Hy.
  - congruence.
  - by rewrite Hp, lookup_empty in Hy.
  - revert Hy. unfold parcels. rewrite Hfo, Hro, Hhand, Hin. apply not_elem_of_nil.
  - unfold finished in Hfin. unfold in_flow in Hy. destruct (j_input _); [|done]. destruct (j_feeder _); try done;
      destruct (j_inner _); try done; destruct (j_settle _); try done; cbn in Hy; rewrite !elem_of_nil in Hy; naive_solver.
Qed.

#[export] Instance sync_execution_laws : ExecutionLaws SyncSysAct SyncState sha256hex marshal.
Proof.
  refine {| ex_inv := sync_inv |}.
  - exact sync_idle_inv.
  - exact sync_step_inv.
  - exact sync_step_refines.
  - intros b folder l s0 s reqs r Hj Hl Hrun (id & x & Hx & Hb & <- & Hex & Herr) Hin Hc.
    eapply sync_clean_closes; try done. revert Hrun. apply (ex_run_inv (sync_inv b folder)); [|by apply sync_idle_inv].
    rewrite Forall_forall in Hl. intros a s1 s2 Ha Hi Hs. by eapply sync_step_inv; [exact Hi|by apply Hl|exact Hs].
Qed.
Lemma sync_run_inv b folder l s0 s : sy_jobs s0 = ∅ → Forall (sync_keeps b folder) l → sync_run sha256hex marshal client l s0 = Some s →
  sync_inv b folder s.
Proof.
  intros Hj Hl Hrun. change (ex_run l s0 = Some s) in Hrun. revert Hrun. apply (ex_run_inv (sync_inv b folder)); [|by apply sync_idle_inv].
  rewrite Forall_forall in Hl. intros a s1 s2 Ha Hi Hs. by eapply sync_step_inv; [exact Hi|by apply Hl|exact Hs].
Qed.

(** A synchronous run that reports success has recorded everything: however its
    actors, the jobs that share its endpoints and the other clients of the
    stores interleave, when [Execute] has returned without an error, every
    request of the run has a terminal entry in the batch. *)
Theorem sync_run_settles_everything folder l s0 s id x r :
  let b := rs_batchID (jb_sink (sj_job x)) in
  sy_jobs s0 = ∅ → Forall (sync_keeps b folder) l → sync_run sha256hex marshal client l s0 = Some s → sy_jobs s !! id = Some x →
  executed (sj_job x) = true → Execute_err (sj_job x) = None → r ∈ jb_reqs (sj_job x) → rq_CustomID r ≠ "" →
  closed b (rq_RequestID r) (the_db s).
Proof. intros b Hj Hl Hrun Hx Hex Herr Hr Hc. eapply sync_clean_closes; try done. by eapply sync_run_inv. Qed.

(** A failure that the dispatcher only makes up because its run is ending is not
    recorded: handling it leaves the entries as they are. *)
Theorem sync_given_up_is_never_recorded folder l s0 s id x p env :
  let b := rs_batchID (jb_sink (sj_job x)) in
  sy_jobs s0 = ∅ → Forall (sync_keeps b folder) l → sync_run sha256hex marshal client l s0 = Some s → sy_jobs s !! id = Some x →
  head (jb_inbox (sj_job x)) = Some p → pc_given_up p = true →
  ∃ s' x', sync_step (YJob id (SShared (JDrain env))) s = Some s' ∧ sy_jobs s' !! id = Some x' ∧
    jb_inbox (sj_job x') = tail (jb_inbox (sj_job x)) ∧ the_db s' = the_db s.
Proof.
  intros b Hj0 Hl Hrun Hx Hhd Hg. pose proof (si_jobs _ _ _ (sync_run_inv _ _ _ _ _ Hj0 Hl Hrun) _ _ Hx) as Hsx.
  pose proof (so_job _ Hsx) as Hok. destruct (jb_inbox (sj_job x)) as [|y rest] eqn:Hin; [done|]. injection Hhd as ->.
  assert (¬ healthy (sj_job x)) as Hh by (apply (ok_given _ Hok p); [unfold parcels; rewrite Hin; set_unfold; tauto|done]).
  destruct (drain sha256hex marshal env (sy_world s) () (sj_job x)) as [[[w []] j']|] eqn:Hd; [|unfold drain in Hd; by rewrite Hin in Hd].
  destruct (unhealthy_drain _ _ _ _ _ _ _ _ _ Hok Hh Hd) as (Hw & _).
  destruct (drain_inv _ _ _ _ _ _ _ _ _ (ok_abort _ Hok) Hd) as (p' & rest' & Hi & Hi' & _). rewrite Hin in Hi. injection Hi as <- <-.
  eexists _, (with_job j' x). cbn [SyncRun.sync_step]. rewrite Hx. cbn [SyncRun.sync_job_step shared AsyncRun.job_step]. rewrite Hd.
  split; [done|]. cbn. rewrite lookup_insert_eq. done.
Qed.
End System.
