(* ===== verification/EndToEndRuns.v ===== *)
(** * A batch of two lines, from input to artifacts

    Instances of the theorems of [EndToEnd]: one line for a configured model and
    one for an unknown model, executed over the queue of [AsyncRuns], without
    interruption, resumed by a second job, and with a line that the source
    cannot decode. *)

From Stdlib Require Import ZArith Lia Ascii String.
From stdpp Require Import base gmap strings list sorting pretty.
From S2P Require Import Prelude Openai Store StoreOps Ownership Fencing Lifecycle Examples Planner Preprocess.
From S2P Require Import Files ResultStore Entries Finalizer Assembly JobRunner Pipeline Semaphore Flow Dispatch Runs Source.
From S2P Require Import AsyncRun AsyncResults AsyncRuns Execution SyncRun SyncResults EndToEnd.
Import PreprocessDemo(decode, uuid, errline, registry, reader, env, dir0).
Import AsyncRuns(MemQueue, mem_transport, mem_laws, marshal, mq_requests, mq_results).
#[local] Existing Instances mem_transport mem_laws.
Local Open Scope string_scope.
Local Open Scope Z_scope.

Module EndToEndRuns.

Definition decodeRequest (l : bytes) : option Request :=
  option_map (λ pr, {| req_CustomID := pr_CustomID pr; req_URL := pr_URL pr; req_Body := l |}) (decode l).
Definition ingest : JobDir * result requestManifest :=
  preProcessJob decode uuid errline demo_sha emptyAllowlist EndpointChatCompletions "job" "t" registry "plans" env "file" dir0.
Definition dir1 : JobDir := fst ingest.
Definition manifest : requestManifest := match snd ingest with Ok m => m | Err _ => [] end.
Definition model_map : modelMapFile :=
  default {| mm_ModelToSafe := ∅; mm_SafeToModel := ∅; mm_LineCount := 0; mm_RejectedCount := 0 |} (jd_map dir1).
Definition requests : list RequestItem :=
  fst (Produce (skip_terminal None) (recoveryPlan None "p1" true).1
    (plan_items (jd_plans dir1) "plans"
      (read uuid "job" "t" decodeRequest RouteKeyMethodModel ∅ (λ _, None) (λ _, "") false (λ _, "") (default [] (jd_input dir1)))
      (map_to_list (mm_SafeToModel model_map)))).

(** Processor p1 has claimed the batch. *)
Definition claimed_row : Row := set_r_epoch 1 (set_r_processor (Some "p1") (queued_row (Some 20))).
Definition world0 : World := {| w_db := {| items := {[ "job" := claimed_row ]}; entries := ∅ |}; w_fs := ∅ |}.
Definition activated : World * result batchResultStore :=
  activateResumable demo_sha 1000 30000000000 (λ _, (NetOk, NetOk)) NetOk "job" "t" "p1" "p1" 1 manifest world0.
Definition sink : batchResultStore := match snd activated with Ok s => s | Err _ => demo_sink end.

Definition request_id : string := "batch_req_job" +:+ String Ascii.zero "a".
Definition answered : MemQueue :=
  {| mq_requests := []; mq_results := {[ 1%nat := ("r1", {| rm_ID := request_id; rm_Payload := [123; 125]; rm_StatusCode := 200;
       rm_ErrorCode := ""; rm_ErrorMessage := "" |}) ]} |}.
Definition ckpt : CkptEnv := {| ce_now := 2000; ce_net := ResultStore.calm; ce_suffix := "u" |}.
Definition acts : list (Act (Q := MemQueue)) :=
  [ARouterStart "r1"; AStart "j1" sink ["r1"] requests ∅ (NewProgressTracker 2);
   AJob "j1" (JPre 2000 NetOk NetOk); AJob "j1" (JTake 1 None); AQueue answered;
   ARouter "r1" RReceive; ARouter "r1" RRoute; ARouter "r1" RSend; AJob "j1" JForward; AJob "j1" (JDrain ckpt);
   AJob "j1" (JPre 2000 NetOk NetOk); AJob "j1" JWait; AJob "j1" JGiveUp; AJob "j1" JClose].
Definition state0 : State (Q := MemQueue) :=
  {| st_world := fst activated; st_queue := {| mq_requests := []; mq_results := ∅ |}; st_jobs := ∅; st_routers := ∅ |}.
Definition state1 : State (Q := MemQueue) :=
  default state0 (run_acts (λ _, true) (λ _, "llama") true demo_sha marshal (λ _, true) acts state0).
Definition job : Job := default (newJob sink [] ∅ (NewProgressTracker 0) world0) (st_jobs state1 !! "j1").
Definition not_run (r c code msg : string) : bytes := [88].

Lemma demo_lines : lines_small (input_lines (rd_data reader)).
Proof. repeat apply Forall_cons_2; try apply Forall_nil_2; vm_compute; reflexivity. Qed.
Lemma demo_decodes : Forall (decodes_alike decode decodeRequest) (input_lines (rd_data reader)).
Proof.
  repeat apply Forall_cons_2; try apply Forall_nil_2; intros pr Hpr;
    (eexists; split; [unfold decodeRequest; rewrite Hpr; reflexivity|reflexivity]).
Qed.
Lemma demo_uuids : uuids_distinct uuid "job" manifest.
Proof.
  split; [|vm_compute; discriminate]. intros c1 c2 _ _ H. unfold uuid in H. apply (inj (String.append "job")) in H. by injection H.
Qed.


(** The first job marks its request in flight and is never heard of again; the
    batch is resumed: ingested again, its entries read, and its one unfinished
    request executed by a second job. *)
Definition lost_acts : list (Act (Q := MemQueue)) :=
  [AStart "j1" sink ["r1"] requests ∅ (NewProgressTracker 2); AJob "j1" (JPre 2000 NetOk NetOk)].
Definition interrupted : State (Q := MemQueue) :=
  default state0 (run_acts (λ _, true) (λ _, "llama") true demo_sha marshal (λ _, true) lost_acts state0).
Definition recovered : DB * result (batchResultStore * ResumableResumeState) :=
  recoverResumable demo_sha 3 (λ _, NetOk) "job" "t" "p1" 1 manifest (w_db (st_world interrupted)).
Definition seed : ResumableResumeState := match snd recovered with Ok x => snd x | Err _ => empty_seed end.
Definition open_requests : list RequestItem :=
  fst (Produce (skip_terminal (Some seed)) (recoveryPlan (Some seed) "p1" true).1
    (plan_items (jd_plans dir1) "plans"
      (read uuid "job" "t" decodeRequest RouteKeyMethodModel ∅ (λ _, None) (λ _, "") false (λ _, "") (default [] (jd_input dir1)))
      (map_to_list (mm_SafeToModel model_map)))).
Definition resumed_acts : list (Act (Q := MemQueue)) :=
  [ARouterStart "r1"; AStart "j2" sink ["r1"] open_requests ∅ (NewProgressTracker 2);
   AJob "j2" (JPre 2000 NetOk NetOk); AJob "j2" (JTake 1 None); AQueue answered;
   ARouter "r1" RReceive; ARouter "r1" RRoute; ARouter "r1" RSend; AJob "j2" JForward; AJob "j2" (JDrain ckpt);
   AJob "j2" (JPre 2000 NetOk NetOk); AJob "j2" JWait; AJob "j2" JGiveUp; AJob "j2" JClose].
Definition state2 : State (Q := MemQueue) :=
  default state0 (run_acts (λ _, true) (λ _, "llama") true demo_sha marshal (λ _, true) resumed_acts interrupted).
Definition second_job : Job := default job (st_jobs state2 !! "j2").

Definition resumed_sink : batchResultStore := match snd recovered with Ok x => fst x | Err _ => demo_sink end.

(** The same with synchronous dispatch: the endpoint allows one request at a
    time and has no adaptive limit. *)
Definition endpoints : gmap string EndpointAIMD := match newEndpoint 1 None with Ok e => {[ "e1" := e ]} | Err _ => ∅ end.
Definition models : gmap string string := {[ "llama" := "e1" ]}.
Definition sync_lost : list SyncSysAct :=
  [YEndpoints endpoints; YStart "j1" sink models 2 requests (NewProgressTracker 2);
   YJob "j1" (SShared (JPre 2000 NetOk NetOk)); YCrash "j1"].
Definition sync0 : SyncState := {| sy_world := fst activated; sy_eps := ∅; sy_jobs := ∅ |}.
Abbreviation run_sync := (sync_run demo_sha marshal (λ _, true)).
Definition sync1 : SyncState := default sync0 (run_sync sync_lost sync0).
Definition sync_recovered : DB * result (batchResultStore * ResumableResumeState) :=
  recoverResumable demo_sha 3 (λ _, NetOk) "job" "t" "p1" 1 manifest (w_db (sy_world sync1)).
Definition sync_seed : ResumableResumeState := match snd sync_recovered with Ok x => snd x | Err _ => empty_seed end.
Definition sync_sink : batchResultStore := match snd sync_recovered with Ok x => fst x | Err _ => demo_sink end.
Definition sync_requests : list RequestItem :=
  fst (Produce (skip_terminal (Some sync_seed)) (recoveryPlan (Some sync_seed) "p1" false).1
    (plan_items (jd_plans dir1) "plans"
      (read uuid "job" "t" decodeRequest RouteKeyMethodModel ∅ (λ _, None) (λ _, "") false (λ _, "") (default [] (jd_input dir1)))
      (map_to_list (mm_SafeToModel model_map)))).
Definition reply : Generated := {| gn_Empty := false; gn_Parsed := true; gn_HadCapacityRetry := false |}.
Definition sync_acts : list SyncSysAct :=
  YStart "j2" sync_sink models 2 sync_requests (NewProgressTracker 2) ::
  (YJob "j2" <$> [SShared (JPre 2000 NetOk NetOk); SReceive; SFlow AcquireEndpoint; SFlow AcquireGlobal; SFlow Send;
                  SShared (JPre 2000 NetOk NetOk); SFlow (Answer 0 (Some reply) None); SFlow Settle; SSend TheResultLoop;
                  SClose; SShared (JDrain ckpt)]).
Definition sync2 : SyncState := default sync0 (run_sync sync_acts sync1).
Definition no_flow : Flow.Job :=
  {| j_models := ∅; j_global := {| Channel.capacity := 0; Channel.tokens := 0; Channel.doubleReleased := false |}; j_cause := NotAborted;
     j_input := []; j_feeder := Ready; j_inner := []; j_settle := None; j_out := [] |}.
Definition sync_job : SyncJob := default {| sj_job := job; sj_flow := no_flow |} (sy_jobs sync2 !! "j2").

(** The source cannot decode the first line, which ingestion accepted. *)
Definition strict (l : bytes) : option Request := None.
Abbreviation strict_read :=
  (read uuid "job" "t" strict RouteKeyMethodModel ∅ (λ _, None) (λ _, "") false (λ _, "u") [1; 10; 2; 10]).
Definition first_line : planEntry := {| Offset := 0; Length := 2; PrefixHash := fnv32a "hi" |}.
Definition broken : RequestItem := match strict_read first_line "llama" with Ok r => r | Err _ => toy_request end.
Definition stuck_acts : list (Act (Q := MemQueue)) :=
  [AStart "j1" sink ["r1"] [broken] ∅ (NewProgressTracker 2);
   AJob "j1" (JPre 2000 NetOk NetOk); AJob "j1" JPreSend; AJob "j1" (JPre 2000 NetOk NetOk); AJob "j1" (JDrain ckpt);
   AJob "j1" JWait; AJob "j1" JGiveUp; AJob "j1" JClose].
Definition stuck : State (Q := MemQueue) :=
  default state0 (run_acts (λ _, true) (λ _, "llama") true demo_sha marshal (λ _, true) stuck_acts state0).
Definition stuck_job : Job := default job (st_jobs stuck !! "j1").

End EndToEndRuns.
