(* ===== verification/PodWatcher.v ===== *)
(** * The pod watcher and the reconciler's loop

    [internal/gc/podwatcher/watcher.go] turns StatefulSet notifications and pod
    listings into the set of live processors; [RunLoop] of
    [internal/gc/reconciler/reconciler.go] runs a cycle per tick or trigger;
    [cmd/batch-gc/main.go] wires the two.  The three run concurrently: an
    action of [step] is a change in the cluster, one notification, the start of
    a cycle, the triage of one job or a statement of another database client.
    The pods that match the label selector are the state [k_pods] of the API
    server; a listing returns them or fails. *)

From Stdlib Require Import ZArith Lia.
From stdpp Require Import base gmap strings list sorting.
From S2P Require Import Prelude Openai Store StoreOps Ownership Fencing Query Reconciler Config Examples Sweeps.
Local Open Scope string_scope.
Local Open Scope Z_scope.

(** ** Kubernetes objects *)
Inductive ConditionStatus := ConditionTrue | ConditionFalse | ConditionUnknown.
#[export] Instance ConditionStatus_eq_dec : EqDecision ConditionStatus.
Proof. solve_decision. Defined.
Definition PodReady : string := "Ready".
Record PodCondition := { cond_Type : string; cond_Status : ConditionStatus }.
Record Pod := { pod_Name : string; pod_Conditions : list PodCondition }.
(** [Spec.Replicas] is a nullable int32. *)
Record StatefulSet := { sts_Name : string; sts_Replicas : option Z; sts_ReadyReplicas : Z }.
(** What the informer passes: a StatefulSet or an object of another type. *)
Inductive Obj := ObjStatefulSet (sts : StatefulSet) | ObjOther.

Definition isPodReady (pod : Pod) : bool :=
  existsb (λ cond, bool_decide (cond_Type cond = PodReady) && bool_decide (cond_Status cond = ConditionTrue))
          (pod_Conditions pod).

(** ** The watcher *)
Record Watcher := { namespace : string; stsName : string; podLabelSelector : string }.

(** [mounted] is the service account's namespace file. *)
Definition detectNamespace (mounted : result string) : result string :=
  and_then mounted (λ data, Ok (TrimSpace data)).
Definition New (inCluster clients : result unit) (mounted : result string) (sts selector : string) : result Watcher :=
  and_then inCluster (λ _, and_then clients (λ _, and_then (detectNamespace mounted) (λ ns,
    Ok {| namespace := ns; stsName := sts; podLabelSelector := selector |}))).

Definition live_of (pods : list Pod) : gmap string bool :=
  foldl (λ live pod, if isPodReady pod then <[pod_Name pod := true]> live else live) ∅ pods.
Definition LivePods (podList : result (list Pod)) : result (gmap string bool) :=
  and_then podList (λ pods, Ok (live_of pods)).

(** The live set the handler is called with, if it is called. *)
Definition onStatefulSetChange (w : Watcher) (obj : Obj) (podList : result (list Pod)) : option (gmap string bool) :=
  match obj with
  | ObjOther => None
  | ObjStatefulSet sts =>
      if negb (bool_decide (sts_Name sts = stsName w)) then None
      else if negb (sts_ReadyReplicas sts =? default 1 (sts_Replicas sts)) then None
      else match LivePods podList with Ok live => Some live | Err _ => None end
  end.
(** The handlers [Run] registers; a deletion has none. *)
Inductive Notification := OnAdd (obj : Obj) | OnUpdate (oldObj newObj : Obj) | OnDelete (obj : Obj).
Definition notify (w : Watcher) (n : Notification) (podList : result (list Pod)) : option (gmap string bool) :=
  match n with
  | OnAdd obj => onStatefulSetChange w obj podList
  | OnUpdate _ newObj => onStatefulSetChange w newObj podList
  | OnDelete _ => None
  end.
(** What [Run] returns once the context is cancelled with [cause]. *)
Definition Run (addHandler : option err) (synced : bool) (cause : err) : err :=
  match addHandler with
  | Some e => e
  | None => if synced then cause else ErrOther "failed to sync StatefulSet informer cache"
  end.

(** ** The running process *)
Inductive Phase := Idle | Reading | Triaging (jobs : list Job) (res : Result) | Stopped.
(** [triggerCh] has capacity one.  [s_seen] records the pod list behind the
    last [SetLiveProcessors], [s_done] what [onCycleComplete] was called with. *)
Record Sys := {
  k_pods : list Pod; s_rec : Reconciler; triggerCh : bool; s_phase : Phase; s_db : DB;
  s_seen : option (list Pod); s_done : list Result }.

(** [Trigger] never blocks: a pending token is enough. *)
Definition Trigger (s : Sys) : Sys :=
  {| k_pods := k_pods s; s_rec := s_rec s; triggerCh := true; s_phase := s_phase s; s_db := s_db s;
     s_seen := s_seen s; s_done := s_done s |}.
Definition set_live (live : gmap string bool) (s : Sys) : Sys :=
  {| k_pods := k_pods s; s_rec := SetLiveProcessors live (s_rec s); triggerCh := triggerCh s; s_phase := s_phase s;
     s_db := s_db s; s_seen := Some (k_pods s); s_done := s_done s |}.
(** The handler [main] installs. *)
Definition handler (live : gmap string bool) (s : Sys) : Sys := Trigger (set_live live s).

Definition with_pods (pods : list Pod) (s : Sys) : Sys :=
  {| k_pods := pods; s_rec := s_rec s; triggerCh := triggerCh s; s_phase := s_phase s; s_db := s_db s;
     s_seen := s_seen s; s_done := s_done s |}.
Definition with_db (db : DB) (s : Sys) : Sys :=
  {| k_pods := k_pods s; s_rec := s_rec s; triggerCh := triggerCh s; s_phase := s_phase s; s_db := db;
     s_seen := s_seen s; s_done := s_done s |}.
Definition with_loop (ch : bool) (ph : Phase) (s : Sys) : Sys :=
  {| k_pods := k_pods s; s_rec := s_rec s; triggerCh := ch; s_phase := ph; s_db := s_db s;
     s_seen := s_seen s; s_done := s_done s |}.
Definition finish (res : Result) (s : Sys) : Sys :=
  {| k_pods := k_pods s; s_rec := s_rec s; triggerCh := triggerCh s; s_phase := Idle; s_db := s_db s;
     s_seen := s_seen s; s_done := res :: s_done s |}.

(** The listing of the pods at this moment. *)
Definition pod_list (fault : option err) (s : Sys) : result (list Pod) :=
  match fault with Some e => Err e | None => Ok (k_pods s) end.

(** [run] up to the first job: the refresh [main] installs with the snapshot
    check, then the reading of the jobs. *)
Definition refresh_live (fault : option err) (s : Sys) : Sys :=
  match LivePods (pod_list fault s) with Ok live => set_live live s | Err _ => s end.
Definition begin_cycle (fault : option err) (ch : bool) (s : Sys) : Sys :=
  let s := refresh_live fault (with_loop ch Idle s) in
  if negb (snapshotReady (s_rec s)) then finish noResult s else with_loop ch Reading s.
Definition triage_from (jobs : list Job) (res : Result) (s : Sys) : Sys :=
  match jobs with [] => finish res s | _ => with_loop (triggerCh s) (Triaging jobs res) s end.
Definition fetch_jobs (pages : list PageEnv) (s : Sys) : Sys :=
  match s_phase s with
  | Reading =>
      match fetchNonTerminalJobs pages 0 [] (s_db s) with
      | (db, Err _) => finish (bump CountError noResult) (with_db db s)
      | (db, Ok jobs) => triage_from jobs noResult (with_db db s)
      end
  | _ => s
  end.
Definition triage_next (env : TriageEnv) (s : Sys) : Sys :=
  match s_phase s with
  | Triaging (job :: jobs) res =>
      let '(db, o) := triage (s_rec s) env job (run_all (te_before env) (s_db s)) in
      triage_from jobs (bump o res) (with_db db s)
  | _ => s
  end.

Inductive Act :=
| APods (pods : list Pod)
| ANotify (n : Notification) (fault : option err)
| ATick (fault : option err)
| ATriggered (fault : option err)
| AFetch (pages : list PageEnv)
| ATriage (env : TriageEnv)
| AStmt (s : Stmt)
| ACancel.

Definition idle (s : Sys) : bool := match s_phase s with Idle => true | _ => false end.
(** [RunLoop] picks a tick, a trigger or the cancellation only between two
    cycles; everything else happens at any time. *)
Definition step (w : Watcher) (s : Sys) (a : Act) : Sys :=
  match a with
  | APods pods => with_pods pods s
  | ANotify n fault => match notify w n (pod_list fault s) with Some live => handler live s | None => s end
  | ATick fault => if idle s then begin_cycle fault (triggerCh s) s else s
  | ATriggered fault => if idle s && triggerCh s then begin_cycle fault false s else s
  | AFetch pages => fetch_jobs pages s
  | ATriage env => triage_next env s
  | AStmt st => with_db (Ownership.run st (s_db s)) s
  | ACancel => if idle s then with_loop (triggerCh s) Stopped s else s
  end.
Definition run_acts (w : Watcher) (acts : list Act) (s : Sys) : Sys := foldl (step w) s acts.

Definition boot (pods : list Pod) (dry : bool) (db : DB) : Sys :=
  {| k_pods := pods; s_rec := {| liveProcessors := ∅; snapshotReady := false; dryRun := dry |}; triggerCh := false;
     s_phase := Idle; s_db := db; s_seen := None; s_done := [] |}.

(** ** The live set is the last pod list *)
Definition ready_in (pods : list Pod) (name : string) : bool :=
  existsb (λ pod, bool_decide (pod_Name pod = name) && isPodReady pod) pods.

Lemma live_of_acc pods (live : gmap string bool) name :
  default false (foldl (λ (live : gmap string bool) pod, if isPodReady pod then <[pod_Name pod := true]> live else live) live pods !! name)
  = default false (live !! name) || ready_in pods name.
Proof.
  revert live. induction pods as [|pod pods IH]; intros live; cbn; [by rewrite orb_false_r|]. rewrite IH.
  destruct (isPodReady pod); [|by rewrite andb_false_r]. rewrite andb_true_r. case_bool_decide as Hn.
  - subst. by rewrite lookup_insert_eq, orb_true_r.
  - by rewrite lookup_insert_ne.
Qed.
Lemma live_of_ready pods name : default false (live_of pods !! name) = ready_in pods name.
Proof. apply live_of_acc. Qed.

(** Until a listing succeeds there is no snapshot and no cycle goes past its
    check; afterwards the live set is the Ready pods of the last listing. *)
Definition snapshot_ok (s : Sys) : Prop :=
  match s_seen s with
  | None => snapshotReady (s_rec s) = false ∧ (s_phase s = Idle ∨ s_phase s = Stopped)
  | Some pods => snapshotReady (s_rec s) = true ∧ liveProcessors (s_rec s) = live_of pods
  end.

Lemma set_live_ok s : snapshot_ok (set_live (live_of (k_pods s)) s).
Proof. done. Qed.
Lemma notify_live w n fault s live : notify w n (pod_list fault s) = Some live → live = live_of (k_pods s).
Proof.
  assert (∀ obj, onStatefulSetChange w obj (pod_list fault s) = Some live → live = live_of (k_pods s)) as H.
  { intros [sts|]; [|done]. cbn. repeat (case_match; [done|]). by destruct fault; [|intros [= <-]]. }
  destruct n; cbn; eauto; done.
Qed.
Lemma begin_cycle_ok fault ch s : snapshot_ok s → snapshot_ok (begin_cycle fault ch s).
Proof.
  unfold snapshot_ok, begin_cycle, refresh_live. destruct fault; cbn.
  - destruct (s_seen s) as [pods|] eqn:E.
    + intros [H1 H2]. rewrite H1. cbn. rewrite E. done.
    + intros [H1 _]. rewrite H1. cbn. rewrite E. auto.
  - done.
Qed.
Lemma triage_from_ok jobs res s pods :
  s_seen s = Some pods → snapshot_ok s → snapshot_ok (triage_from jobs res s).
Proof. unfold snapshot_ok. intros E. destruct jobs; cbn; rewrite E; done. Qed.

Lemma triage_from_db jobs res s : s_db (triage_from jobs res s) = s_db s.
Proof. by destruct jobs. Qed.
Lemma owner_epoch p e r : owner_is p e r = true → r_epoch r = e.
Proof. unfold owner_is. intros [_ H]%andb_prop. lia. Qed.

Lemma step_snapshot w s a : snapshot_ok s → snapshot_ok (step w s a).
Proof.
  intros Hs. assert (Hseen : ∀ P : Prop, (s_seen s = None → s_phase s ≠ Idle ∧ s_phase s ≠ Stopped → P)).
  { unfold snapshot_ok in Hs. intros P E [? ?]. rewrite E in Hs. naive_solver. }
  destruct a as [pods|n fault|fault|fault|pages|env|st|]; cbn [step].
  - exact Hs.
  - destruct (notify _ _ _) as [live|] eqn:E; [|done]. apply notify_live in E as ->. done.
  - destruct (idle s); [|done]. by apply begin_cycle_ok.
  - destruct (_ && _); [|done]. by apply begin_cycle_ok.
  - unfold fetch_jobs. destruct (s_phase s) eqn:Ep; try done.
    destruct (s_seen s) as [pods|] eqn:Es; [|apply Hseen; [done|]; by split].
    destruct (fetchNonTerminalJobs _ _ _ _) as [db [jobs|e]].
    + by eapply triage_from_ok.
    + unfold snapshot_ok in *. cbn. by rewrite Es in *.
  - unfold triage_next. destruct (s_phase s) as [| |[|job jobs] res|] eqn:Ep; try done.
    destruct (s_seen s) as [pods|] eqn:Es; [|apply Hseen; [done|]; by split].
    destruct (triage _ _ _ _) as [db o]. by eapply triage_from_ok.
  - exact Hs.
  - unfold idle. destruct (s_phase s) eqn:Ep; try done. unfold snapshot_ok in *. cbn. destruct (s_seen s); naive_solver.
Qed.
Lemma run_acts_snapshot w acts s : snapshot_ok s → snapshot_ok (run_acts w acts s).
Proof. revert s. induction acts as [|a acts IH]; intros s Hs; [done|]. apply IH, step_snapshot, Hs. Qed.

Lemma step_dryRun w s a : dryRun (s_rec (step w s a)) = dryRun (s_rec s).
Proof.
  destruct a as [pods|n fault|fault|fault|pages|env|st|]; cbn [step]; try done.
  - by case_match.
  - unfold begin_cycle, refresh_live. repeat case_match; done.
  - unfold begin_cycle, refresh_live. repeat case_match; done.
  - unfold fetch_jobs, triage_from. repeat case_match; done.
  - unfold triage_next, triage_from. repeat case_match; done.
  - by case_match.
Qed.
Lemma run_acts_dryRun w acts s : dryRun (s_rec (run_acts w acts s)) = dryRun (s_rec s).
Proof. revert s. induction acts as [|a acts IH]; intros s; [done|].
  change (run_acts w (a :: acts) s) with (run_acts w acts (step w s a)). by rewrite IH, step_dryRun.
Qed.

(** ** Who is displaced *)


(** ** An undisturbed cycle is [Reconciler.run] *)
Lemma idle_triages w envs s : s_phase s = Idle → run_acts w (ATriage <$> envs) s = s.
Proof.
  intros Hp. induction envs as [|env envs IH]; [done|].
  change (run_acts w (ATriage <$> env :: envs) s) with (run_acts w (ATriage <$> envs) (triage_next env s)).
  unfold triage_next. by rewrite Hp.
Qed.
Lemma triage_steps w jobs envs res s :
  s_phase s = Triaging jobs res → jobs ≠ [] →
  let s' := run_acts w (ATriage <$> envs) s in
  s_rec s' = s_rec s ∧ s_db s' = (triage_all (s_rec s) jobs envs (s_db s, res)).1 ∧
  ((length jobs ≤ length envs)%nat →
   s_phase s' = Idle ∧ s_done s' = (triage_all (s_rec s) jobs envs (s_db s, res)).2 :: s_done s).
Proof.
  revert jobs res s. induction envs as [|env envs IH]; intros jobs res s Hp Hne.
  { destruct jobs; [done|]. cbn. split_and!; [done..|lia]. }
  destruct jobs as [|job jobs]; [done|]. cbn [triage_all fst snd].
  change (run_acts w (ATriage <$> env :: envs) s) with (run_acts w (ATriage <$> envs) (triage_next env s)).
  unfold triage_next. rewrite Hp. destruct (triage _ _ _ _) as [db o]. destruct jobs as [|job' jobs].
  - cbn [triage_from]. rewrite idle_triages by done. destruct envs; cbn; split_and!; done.
  - destruct (IH (job' :: jobs) (bump o res) (triage_from (job' :: jobs) (bump o res) (with_db db s)))
      as (H1 & H2 & H3); [done..|]. split_and!; [done..|]. cbn [length] in *. intros Hle. apply H3. lia.
Qed.

(** The loop does what a cycle is specified to do: when nothing else
    happens between its steps, a tick followed by the reading of the jobs and
    their triages leaves the live set and the store as [Reconciler.run] does
    with the pods listed at the tick, and once every job had its triage the
    loop is idle again and has reported exactly the result of that run. *)
Theorem tick_runs_the_cycle w fault pages envs s rc db res :
  s_phase s = Idle →
  Reconciler.run (Some (LivePods (pod_list fault s))) pages envs (s_rec s) (s_db s) = (rc, (db, res)) →
  let s' := run_acts w (ATick fault :: AFetch pages :: (ATriage <$> envs)) s in
  s_rec s' = rc ∧ s_db s' = db ∧
  ((∀ jobs, (fetchNonTerminalJobs pages 0 [] (s_db s)).2 = Ok jobs → (length jobs ≤ length envs)%nat) →
   s_phase s' = Idle ∧ s_done s' = res :: s_done s).
Proof.
  intros Hp Hrun.
  change (run_acts w (ATick fault :: AFetch pages :: (ATriage <$> envs)) s)
    with (run_acts w (ATriage <$> envs) (step w (step w s (ATick fault)) (AFetch pages))).
  cbn [step]. unfold idle. rewrite Hp. unfold begin_cycle, Reconciler.run in *.
  set (s1 := refresh_live fault (with_loop (triggerCh s) Idle s)).
  assert (s_rec s1 = match LivePods (pod_list fault s) with Ok live => SetLiveProcessors live (s_rec s) | Err _ => s_rec s end
    ∧ s_db s1 = s_db s ∧ s_done s1 = s_done s) as (Hrec & Hdb & Hdone) by (unfold s1, refresh_live; by destruct fault).
  assert (Hrun' : (if negb (snapshotReady (s_rec s1)) then (s_rec s1, (s_db s, noResult)) else
     match fetchNonTerminalJobs pages 0 [] (s_db s) with
     | (db', Err _) => (s_rec s1, (db', bump CountError noResult))
     | (db', Ok jobs) => (s_rec s1, triage_all (s_rec s1) jobs envs (db', noResult)) end) = (rc, (db, res)))
    by (rewrite Hrec; by destruct fault).
  destruct (negb (snapshotReady (s_rec s1))).
  { injection Hrun' as <- <- <-. unfold fetch_jobs. cbn. rewrite idle_triages by done. by rewrite <- Hdone. }
  unfold fetch_jobs. cbn [s_phase with_loop s_db]. rewrite Hdb.
  destruct (fetchNonTerminalJobs pages 0 [] (s_db s)) as [db1 [jobs|e]].
  - destruct jobs as [|job jobs].
    + injection Hrun' as <- <- <-. cbn [triage_from]. rewrite idle_triages by done. cbn. by rewrite Hdone.
    + set (s2 := triage_from (job :: jobs) noResult (with_db db1 (with_loop (triggerCh s) Reading s1))).
      destruct (triage_steps w (job :: jobs) envs noResult s2) as (H1 & H2 & H3); [done..|].
      change (s_rec s2) with (s_rec s1) in *. change (s_db s2) with db1 in *. change (s_done s2) with (s_done s1) in *.
      assert (Htr : triage_all (s_rec s1) (job :: jobs) envs (db1, noResult) = (db, res)) by congruence.
      injection Hrun' as <- _. rewrite Htr in H2, H3. rewrite Hdone in H3. split_and!; [done..|]. intros Hle. by apply H3, Hle.
  - injection Hrun' as <- <- <-. rewrite idle_triages by done. cbn. by rewrite Hdone.
Qed.

(** ** A fresh replica can be displaced *)

(** [C40] A replica that became Ready after the cycle listed the pods is a
    false orphan: although the pod is Ready and its lease runs, the triage of
    the resumable batch it claimed meanwhile takes the batch away and charges
    a recovery attempt.  ([main] and [LivePods] say that this never happens;
    what does hold is [displaced_owner_was_not_ready].) *)
Theorem fresh_replica_is_displaced w s env id r p jobs res :
  s_phase s = Triaging (without_spec (id, r) :: jobs) res → items (s_db s) !! id = Some r →
  r_resumable r = true → nonTerminalCondition r = true → r_processor r = Some p →
  ready_in (k_pods s) p = true → lease_valid (te_go env) r = true → lease_expired (te_db env) r = false →
  isProcessorAlive (s_rec s) p = false → dryRun (s_rec s) = false → calm_env env →
  items (s_db (step w s (ATriage env))) !! id = Some (requeue_row true r).
Proof.
  intros Hp Hr Hres Hnt Ho _ _ _ Hal Hdry (Hb & Hn1 & Hn2). cbn [step]. unfold triage_next. rewrite Hp, Hb. cbn [run_all foldl].
  unfold triage. cbn [without_spec snd r_resumable]. rewrite Hres. unfold triageResumable.
  assert (job_processor (without_spec (id, r)) = p) as Hjp by (unfold job_processor; cbn; by rewrite Ho).
  unfold without_spec in *. cbn [fst snd r_epoch] in *. rewrite Hjp, Hal, Hdry. cbn [andb].
  unfold RequeueResumableOrphan, bindM, exec, total, sql_requeue, update_row. rewrite Hr, Hn1, Hn2.
  assert (owner_is p (r_epoch r) r = true) as -> by (unfold owner_is; rewrite bool_decide_eq_true_2, Z.eqb_refl by done; done).
  rewrite Hres, Hnt. cbn. rewrite triage_from_db. cbn. by rewrite lookup_insert_eq.
Qed.

(** ** Concrete runs *)
Definition pod (name : string) (ready : ConditionStatus) : Pod :=
  {| pod_Name := name; pod_Conditions := [{| cond_Type := "Initialized"; cond_Status := ConditionTrue |};
                                          {| cond_Type := PodReady; cond_Status := ready |}] |}.
Definition watcher : Watcher := {| namespace := "ns"; stsName := "processor"; podLabelSelector := "app=processor" |}.
Definition stable (n : Z) : Obj := ObjStatefulSet {| sts_Name := "processor"; sts_Replicas := Some n; sts_ReadyReplicas := n |}.
(** The batch of [active_db] was given back; p2 starts while p1 is listed. *)
Definition requeued_db : DB := run_all [SRequeue 70000000 "b1" "p1" 1 true true; SBackfill "b1" "p1"] active_db.
Definition p2_joins : list Act :=
  [ANotify (OnAdd (stable 1)) None; ATriggered None;
   APods [pod "p1" ConditionTrue; pod "p2" ConditionTrue]; AStmt (SDequeue 80000000 ∅ 30 "p2" 5);
   AFetch [one_page]].
Definition joined : Sys := run_acts watcher p2_joins (boot [pod "p1" ConditionTrue; pod "p2" ConditionFalse] false requeued_db).
Definition claimed_row : Row := default active_row (items (s_db joined) !! "b1").
Definition t85 : TriageEnv := calm_triage 85000000.

Lemma fresh_replica_is_displaced_run :
  items (s_db (step watcher joined (ATriage t85))) !! "b1" = Some (requeue_row true claimed_row) ∧
  r_processor claimed_row = Some "p2".
Proof.
  split; [|vm_compute; reflexivity].
  apply (fresh_replica_is_displaced watcher joined t85 "b1" claimed_row "p2" [] noResult);
    try (vm_compute; reflexivity); split_and!; reflexivity.
Defined.

(** With p1 and p2 listed, the triage of a batch of p9 displaces it. *)
Definition crash_acts : list Act :=
  [ANotify (OnUpdate (stable 2) (stable 2)) None; ATick (Some ErrIO); AFetch [one_page]; ATriage (calm_triage 1000000)].
Definition crashed : Sys := run_acts watcher crash_acts (boot [pod "p1" ConditionTrue; pod "p2" ConditionTrue] false fleet_db).

Lemma tick_runs_the_cycle_run :
  let s := boot [pod "p1" ConditionTrue] false fleet_db in
  let s' := run_acts watcher (ATick None :: AFetch [one_page] :: (ATriage <$> [calm_triage 1000000; calm_triage 2000000])) s in
  s_phase s' = Idle ∧ s_done s' = [bump CountReEnqueued noResult].
Proof.
  intros s s'.
  destruct (Reconciler.run (Some (LivePods (pod_list None s))) [one_page] [calm_triage 1000000; calm_triage 2000000]
              (s_rec s) (s_db s)) as [rc [db res]] eqn:E.
  destruct (tick_runs_the_cycle watcher None [one_page] [calm_triage 1000000; calm_triage 2000000] s rc db res eq_refl E)
    as (_ & _ & H).
  assert (res = bump CountReEnqueued noResult) as <-.
  { transitivity (Reconciler.run (Some (LivePods (pod_list None s))) [one_page] [calm_triage 1000000; calm_triage 2000000]
                    (s_rec s) (s_db s)).2.2; [by rewrite E|vm_compute; reflexivity]. }
  apply H. intros jobs Hj. vm_compute in Hj. injection Hj as <-. cbn. lia.
Defined.
