(* ===== verification/GcLife.v ===== *)
(** * The garbage collector process

    [cmd/batch-gc/main.go]: start-up, the errgroup under which the collector,
    the event sweep, the pod watcher and the reconciler run, readiness, and the
    order in which everything is given back.

    [run] starts its members one by one and may return in between; from then on
    the process is a state machine whose actions are a signal, a failure of the
    metrics server, a member that returns and the end of [Wait].  Deferred calls
    run in reverse order when [run] returns: the clients are closed, then the
    context is cancelled. *)

From Stdlib Require Import ZArith Lia.
From stdpp Require Import base gmap strings list.
From S2P Require Import Prelude.
Local Open Scope string_scope.

(** ** Start-up *)
Inductive Member := MetricsWatch | Collecting | EventSweep | PodWatch | Reconcile.
#[export] Instance member_eq_dec : EqDecision Member.
Proof. solve_decision. Defined.

(** The settings [run] reads, and what the calls of start-up return. *)
Record GcSetup := {
  gs_DryRun : bool; gs_ReconcilerEnabled : bool;
  gs_Load : result unit; gs_InitTracer : result unit; gs_InitMetrics : result unit; gs_NewClientset : result unit;
  gs_Listen : result unit; gs_EventGC : bool; gs_NewReconciler : result unit; gs_NewPodWatcher : result unit }.

(** What [run] has opened and not yet given back. *)
Record GcProc := {
  g_running : list Member;      (* goroutines of the group that have not returned *)
  g_returned : option (result unit);  (* what [run] returned *)
  g_signal : bool;              (* the signal context is done *)
  g_err : option err;           (* the group's first error, which cancels its context *)
  g_metrics_failed : bool;      (* an error waits in the channel of the metrics server *)
  g_ready : bool; g_listening : bool; g_clients : bool; g_tracer : bool }.
Definition noProc : GcProc :=
  {| g_running := []; g_returned := None; g_signal := false; g_err := None; g_metrics_failed := false; g_ready := false;
     g_listening := false; g_clients := false; g_tracer := false |}.
Definition set_running ms (p : GcProc) : GcProc :=
  {| g_running := ms; g_returned := g_returned p; g_signal := g_signal p; g_err := g_err p;
     g_metrics_failed := g_metrics_failed p; g_ready := g_ready p; g_listening := g_listening p; g_clients := g_clients p;
     g_tracer := g_tracer p |}.
Definition set_err e (p : GcProc) : GcProc :=
  {| g_running := g_running p; g_returned := g_returned p; g_signal := g_signal p; g_err := e;
     g_metrics_failed := g_metrics_failed p; g_ready := g_ready p; g_listening := g_listening p; g_clients := g_clients p;
     g_tracer := g_tracer p |}.
Definition set_signal (p : GcProc) : GcProc :=
  {| g_running := g_running p; g_returned := g_returned p; g_signal := true; g_err := g_err p;
     g_metrics_failed := g_metrics_failed p; g_ready := g_ready p; g_listening := g_listening p; g_clients := g_clients p;
     g_tracer := g_tracer p |}.
Definition set_metrics_failed (p : GcProc) : GcProc :=
  {| g_running := g_running p; g_returned := g_returned p; g_signal := g_signal p; g_err := g_err p;
     g_metrics_failed := true; g_ready := g_ready p; g_listening := false; g_clients := g_clients p;
     g_tracer := g_tracer p |}.
Definition set_ready (p : GcProc) : GcProc :=
  {| g_running := g_running p; g_returned := g_returned p; g_signal := g_signal p; g_err := g_err p;
     g_metrics_failed := g_metrics_failed p; g_ready := true; g_listening := g_listening p; g_clients := g_clients p;
     g_tracer := g_tracer p |}.
Definition opened (listening clients tracer : bool) (p : GcProc) : GcProc :=
  {| g_running := g_running p; g_returned := g_returned p; g_signal := g_signal p; g_err := g_err p;
     g_metrics_failed := g_metrics_failed p; g_ready := g_ready p; g_listening := listening; g_clients := clients;
     g_tracer := tracer |}.
(** [g.Go]. *)
Definition Go (m : Member) (p : GcProc) : GcProc := set_running (app (g_running p) [m]) p.

(** The deferred calls, last in first out: [clients.Close], [cancel] (which
    shuts the metrics server down), the tracer. *)
Definition returns (r : result unit) (p : GcProc) : GcProc :=
  {| g_running := g_running p; g_returned := Some r; g_signal := true; g_err := g_err p;
     g_metrics_failed := g_metrics_failed p; g_ready := g_ready p; g_listening := false; g_clients := false;
     g_tracer := false |}.
Definition orReturn (r : result unit) (k : GcProc → GcProc) (p : GcProc) : GcProc :=
  match r with Ok _ => k p | Err e => returns (Err e) p end.

Definition run_gc (c : GcSetup) : GcProc :=
  orReturn (gs_Load c) (λ p,
  orReturn (gs_InitTracer c) (λ p, let p := opened false false true p in
  orReturn (gs_InitMetrics c) (λ p,
  orReturn (gs_NewClientset c) (λ p, let p := opened false true true p in
  orReturn (gs_Listen c) (λ p, let p := opened true true true p in
  let p := Go Collecting (Go MetricsWatch p) in
  orReturn (if gs_DryRun c || gs_EventGC c then Ok tt else Err (ErrOther "event GC is not configured")) (λ p,
  let p := if gs_DryRun c then p else Go EventSweep p in
  if gs_ReconcilerEnabled c then
    orReturn (gs_NewReconciler c) (λ p,
    orReturn (gs_NewPodWatcher c) (λ p, set_ready (Go Reconcile (Go PodWatch p))) p) p
  else set_ready p) p) p) p) p) p) noProc.

(** The [/health] handler. *)
Definition health (p : GcProc) : Z := if g_ready p then 200 else 503.

(** ** Running *)
(** The context of the group. *)
Definition gctx_done (p : GcProc) : bool := g_signal p || bool_decide (g_err p ≠ None).

Definition ErrCanceled : err := ErrOther "context canceled".
(** Whether a member may return now with this result: the watch of the metrics
    server and the pod watcher can fail on their own, everything else ends with
    the context of the group; the event sweep then returns nil. *)
Definition may_return (m : Member) (r : result unit) (p : GcProc) : bool :=
  match m, r with
  | EventSweep, Ok _ => gctx_done p
  | EventSweep, Err _ => false
  | _, Ok _ => false
  | MetricsWatch, Err e => (gctx_done p && bool_decide (e = ErrCanceled))
                           || (g_metrics_failed p && bool_decide (e = ErrOther "metrics server"))
  | PodWatch, Err e => (gctx_done p && (bool_decide (e = ErrCanceled) || bool_decide (e = ErrOther "failed to sync")))
                       || bool_decide (e = ErrOther "failed to add event handler")
  | (Collecting | Reconcile), Err e => gctx_done p && bool_decide (e = ErrCanceled)
  end.

Inductive GcAct := GSignal | GMetricsFail | GReturn (m : Member) (r : result unit) | GWait.
(** A member returns: an error is recorded if it is the group's first. *)
Definition member_leaves (m : Member) (r : result unit) (p : GcProc) : GcProc :=
  let p := set_running (filter (λ x, x ≠ m) (g_running p)) p in
  match r, g_err p with Err e, None => set_err (Some e) p | _, _ => p end.
Definition gc_step (a : GcAct) (p : GcProc) : option GcProc :=
  match g_returned p with
  | Some _ => None
  | None =>
      match a with
      | GSignal => Some (set_signal p)
      | GMetricsFail => if g_listening p then Some (set_metrics_failed p) else None
      | GReturn m r =>
          if bool_decide (m ∈ g_running p) && may_return m r p then Some (member_leaves m r p) else None
      | GWait =>
          if bool_decide (g_running p = []) then
            Some (returns (match g_err p with Some e => if g_signal p then Ok tt else Err e | None => Ok tt end) p)
          else None
      end
  end.
Fixpoint gc_run (as_ : list GcAct) (p : GcProc) : option GcProc :=
  match as_ with
  | [] => Some p
  | a :: as_ => match gc_step a p with Some p' => gc_run as_ p' | None => None end
  end.

(** ** Theorems *)

(** A start-up that fails returns the error, was never ready and holds nothing
    open; one that succeeds is ready with its members running on open clients. *)
Theorem gc_startup c :
  let p := run_gc c in
  g_err p = None ∧ g_metrics_failed p = false ∧
  match g_returned p with
  | Some r => (∃ e, r = Err e) ∧ health p = 503%Z ∧ g_clients p = false ∧ g_listening p = false ∧ g_tracer p = false
  | None => health p = 200%Z ∧ g_clients p = true ∧ g_signal p = false ∧ NoDup (g_running p) ∧
            Collecting ∈ g_running p ∧ (Reconcile ∈ g_running p ↔ gs_ReconcilerEnabled c = true)
  end.
Proof.
  destruct c as [[] [] [|] [|] [|] [|] [|] [] [|] [|]]; cbn;
    (split; [reflexivity|]); (split; [reflexivity|]); repeat (apply conj);
    first [reflexivity | eexists; reflexivity | apply (bool_decide_unpack _); vm_compute; exact I | set_solver].
Qed.

Lemma member_leaves_spec m r p :
  g_running (member_leaves m r p) = filter (λ x, x ≠ m) (g_running p) ∧ g_returned (member_leaves m r p) = g_returned p ∧
  g_clients (member_leaves m r p) = g_clients p ∧ g_signal (member_leaves m r p) = g_signal p ∧
  (g_err (member_leaves m r p) ≠ None ↔ g_err p ≠ None ∨ ∃ e, r = Err e).
Proof.
  unfold member_leaves. cbn [g_err set_running]. destruct r as [u|e], (g_err p) eqn:Ee; cbn; rewrite ?Ee; split_and!; naive_solver.
Qed.

(** While [run] has not returned: the clients are open, and the collector runs
    unless the group has an error. *)
Record running_inv (p : GcProc) : Prop := {
  ri_clients : g_returned p = None → g_clients p = true;
  ri_members : g_returned p ≠ None → g_running p = [];
  ri_nodup : NoDup (g_running p);
  ri_collecting : Collecting ∈ g_running p ∨ g_err p ≠ None }.
Lemma started_inv c : g_returned (run_gc c) = None → running_inv (run_gc c).
Proof. intros Hr. pose proof (gc_startup c) as (He & _ & H). rewrite Hr in H. destruct H as (_ & Hc & _ & Hn & Hm & _). split; auto; congruence. Qed.
Lemma gc_step_inv a p p' : running_inv p → gc_step a p = Some p' → running_inv p'.
Proof.
  intros [Hc Hm Hn Hg] H. unfold gc_step in H. destruct (g_returned p) eqn:Hr; [done|]. specialize (Hc eq_refl). destruct a as [| |m r|].
  - injection H as <-. split; cbn; auto; congruence.
  - destruct (g_listening p); [|done]. injection H as <-. split; cbn; auto; congruence.
  - destruct (bool_decide (m ∈ g_running p) && may_return m r p) eqn:E; [|done]. apply andb_true_iff in E as [_ Hmay].
    assert (NoDup (filter (λ x, x ≠ m) (g_running p))) as Hnd by by apply NoDup_filter.
    assert (Collecting ∈ filter (λ x, x ≠ m) (g_running p) ∨ g_err p ≠ None ∨ ∃ e, r = Err e) as Hd.
    { destruct Hg as [Hin|]; [|by right; left]. destruct (decide (m = Collecting)) as [->|].
      - destruct r; [done|]. right. right. by eexists.
      - left. apply list_elem_of_filter. done. }
    injection H as <-. destruct (member_leaves_spec m r p) as (E1 & E2 & E3 & _ & E5).
    split; rewrite ?E1, ?E2, ?E3, ?E5; [done|congruence|done|tauto].
  - destruct (bool_decide (g_running p = [])) eqn:E; [|done]. apply bool_decide_eq_true in E. injection H as <-.
    by split.
Qed.
Lemma gc_run_inv as_ p p' : running_inv p → gc_run as_ p = Some p' → running_inv p'.
Proof.
  revert p. induction as_ as [|a as_ IH]; intros p Hi H; cbn in H; [by simplify_eq|].
  destruct (gc_step a p) as [p1|] eqn:E; [|done]. eauto using gc_step_inv.
Qed.

(** The clients outlive the members: once started, no collector, sweep, watcher
    or reconciler ever works on a closed client. *)
Theorem gc_clients_outlive_members c as_ p :
  g_returned (run_gc c) = None → gc_run as_ (run_gc c) = Some p → g_running p ≠ [] → g_clients p = true.
Proof.
  intros Hs Hrun Hne. destruct (gc_run_inv _ _ _ (started_inv c Hs) Hrun) as [Hc Hm _ _].
  destruct (g_returned p); [|auto]. by rewrite Hm in Hne.
Qed.

(** The result of a process that started is its signal: it ends without an error
    exactly when it was asked to stop, whatever its members returned; and it
    never ends by itself without one. *)
Lemma gc_run_result as_ p p' :
  running_inv p → g_returned p = None → gc_run as_ p = Some p' →
  match g_returned p' with
  | Some r => g_running p' = [] ∧ g_clients p' = false ∧ (r = Ok tt ↔ g_signal p = true ∨ GSignal ∈ as_)
  | None => g_signal p' = true ↔ g_signal p = true ∨ GSignal ∈ as_
  end.
Proof.
  revert p. induction as_ as [|a as_ IH]; intros p Hi Hr H; cbn in H.
  { injection H as <-. rewrite Hr. set_solver. }
  destruct (gc_step a p) as [p1|] eqn:E; [|done]. pose proof (gc_step_inv _ _ _ Hi E) as Hi1.
  destruct (g_returned p1) as [r|] eqn:Hr1.
  - destruct as_ as [|a' as_]; cycle 1. { cbn in H. unfold gc_step in H at 1. by rewrite Hr1 in H. }
    cbn in H. injection H as <-. rewrite Hr1. destruct Hi as [_ _ _ Hg]. unfold gc_step in E. rewrite Hr in E. destruct a as [| |m q|].
    + injection E as <-. cbn in Hr1. congruence.
    + destruct (g_listening p); [|done]. injection E as <-. cbn in Hr1. congruence.
    + destruct (_ && _); [|done]. injection E as <-. destruct (member_leaves_spec m q p) as (_ & E2 & _). congruence.
    + destruct (bool_decide _) eqn:Eb; [|done]. apply bool_decide_eq_true in Eb. injection E as <-. cbn in Hr1. injection Hr1 as <-.
      cbn [g_running g_clients returns]. split_and!; [done..|]. destruct Hg as [Hg|Hg]; [rewrite Eb in Hg; set_solver|].
      destruct (g_err p) as [e|]; [|done]. destruct (g_signal p); [set_solver|]. split; [done|]. intros [?|?]; [done|set_solver].
  - specialize (IH p1 Hi1 Hr1 H).
    assert (g_signal p1 = true ↔ g_signal p = true ∨ a = GSignal) as Hsig.
    { unfold gc_step in E. rewrite Hr in E. destruct a as [| |m q|].
      - injection E as <-. cbn. naive_solver.
      - destruct (g_listening p); [|done]. injection E as <-. cbn. naive_solver.
      - destruct (_ && _); [|done]. injection E as <-. destruct (member_leaves_spec m q p) as (_ & _ & _ & -> & _). naive_solver.
      - destruct (bool_decide _); [|done]. by injection E as <-. }
    destruct (g_returned p') as [r|]; rewrite elem_of_cons; naive_solver.
Qed.
Theorem gc_exit_is_the_signal c as_ p r :
  g_returned (run_gc c) = None → gc_run as_ (run_gc c) = Some p → g_returned p = Some r →
  g_running p = [] ∧ g_clients p = false ∧ (r = Ok tt ↔ GSignal ∈ as_).
Proof.
  intros Hs Hrun Hr. pose proof (gc_run_result _ _ _ (started_inv c Hs) Hs Hrun) as H. rewrite Hr in H.
  destruct H as (? & ? & H). pose proof (gc_startup c) as (_ & _ & Hst). rewrite Hs in Hst. destruct Hst as (_ & _ & Hsig & _).
  split_and!; [done..|]. rewrite H, Hsig. naive_solver.
Qed.

(** Shutdown completes: from the moment of a signal or of the first error, the
    members that still run can return in any order, one step each, and then
    [run] returns. *)
Definition last_words (m : Member) : result unit := match m with EventSweep => Ok tt | _ => Err ErrCanceled end.
Lemma last_words_allowed m p : gctx_done p = true → may_return m (last_words m) p = true.
Proof. intros Hd. destruct m; cbn; rewrite ?Hd; cbn; rewrite ?(bool_decide_eq_true_2 (ErrCanceled = ErrCanceled)) by done; done. Qed.
Theorem gc_shutdown_completes p ms :
  g_returned p = None → gctx_done p = true → NoDup (g_running p) → ms ≡ₚ g_running p →
  ∃ p' r, gc_run (app ((λ m, GReturn m (last_words m)) <$> ms) [GWait]) p = Some p' ∧ g_returned p' = Some r.
Proof.
  revert p. induction ms as [|m ms IH]; intros p Hr Hd Hn Hp.
  - apply Permutation_nil_l in Hp. cbn [fmap list_fmap app gc_run]. unfold gc_step. rewrite Hr, <- Hp, bool_decide_eq_true_2 by done.
    by do 2 eexists.
  - cbn [fmap list_fmap app gc_run]. unfold gc_step at 1. rewrite Hr.
    rewrite bool_decide_eq_true_2 by (rewrite <- Hp; left). rewrite last_words_allowed by done. cbn [andb].
    assert (NoDup (m :: ms)) as Hnd by by rewrite Hp.
    assert (ms ≡ₚ filter (λ x, x ≠ m) (g_running p)) as Hp'.
    { apply NoDup_cons in Hnd as [Hni Hnd]. apply NoDup_Permutation; [done|by apply NoDup_filter|].
      intros x. rewrite list_elem_of_filter, <- Hp, elem_of_cons. naive_solver. }
    destruct (member_leaves_spec m (last_words m) p) as (E1 & E2 & _ & E4 & E5). apply IH; [congruence| |by rewrite E1; apply NoDup_filter|by rewrite E1].
    unfold gctx_done in *. rewrite E4, orb_true_iff, bool_decide_eq_true, E5. rewrite orb_true_iff, bool_decide_eq_true in Hd. tauto.
Qed.

(** A start-up that fails after the collector was started closes the clients
    under it: without a cluster configuration the pod watcher cannot be created,
    [run] returns without waiting for the group, and the deferred calls close
    the clients before they cancel the context. *)
Definition outside_cluster : GcSetup :=
  {| gs_DryRun := false; gs_ReconcilerEnabled := true; gs_Load := Ok tt; gs_InitTracer := Ok tt; gs_InitMetrics := Ok tt;
     gs_NewClientset := Ok tt; gs_Listen := Ok tt; gs_EventGC := true; gs_NewReconciler := Ok tt;
     gs_NewPodWatcher := Err (ErrOther "in-cluster config") |}.
Theorem gc_failed_startup_closes_clients_in_use :
  let p := run_gc outside_cluster in
  g_returned p = Some (Err (ErrOther "in-cluster config")) ∧ Collecting ∈ g_running p ∧ EventSweep ∈ g_running p ∧
  g_clients p = false.
Proof. cbn. split_and!; try reflexivity; set_solver. Qed.
