(* ===== verification/ProcessorLife.v ===== *)
(** * Life of a processor

    [Processor.Run], [Stop] and [validate] of
    [internal/processor/worker/worker.go], the registry of result broadcasters
    ([worker/broadcasters.go], [Run] and [Wait]) and [run] of
    [cmd/batch-processor/main.go]: start-up, readiness, the two contexts, the
    guard that stops the intake of jobs, and shutdown.

    [pstep] executes one action of the main goroutine, of the goroutines it
    starts or of the outside world; a list of actions is an interleaving.  The
    polling loop, the jobs and the broadcasters are modelled in [JobRunner] and
    [AsyncRun]; here they only run and end. *)

From Stdlib Require Import ZArith Lia.
From stdpp Require Import base gmap strings list.
From S2P Require Import Prelude Openai Store Preprocess Semaphore Flow Throttle Rest Config Gateways.
Local Open Scope string_scope.
Local Open Scope Z_scope.

(** ** Pre-flight check *)

(** A component that is missing, or what its own check says. *)
Definition component (name : string) (c : option (result unit)) : result unit :=
  match c with None => Err (ErrOther name) | Some r => r end.
Record Dependencies := {
  dp_poller : option (result unit); dp_updater : option (result unit); dp_batchDB : bool; dp_event : bool;
  dp_inference : bool; dp_asyncInference : bool; dp_files : result unit }.
Definition validate (p : Dependencies) : result unit :=
  and_then (component "poller is missing" (dp_poller p)) (λ _,
  and_then (component "status updater is missing" (dp_updater p)) (λ _,
  and_then (first_failure
    [ (negb (dp_batchDB p), "batch DB client is missing"); (negb (dp_event p), "event channel client is missing");
      (negb (dp_inference p) && negb (dp_asyncInference p), "inference client is missing");
      (dp_inference p && dp_asyncInference p, "sync and async inference clients are mutually exclusive") ]) (λ _,
  dp_files p))).
Definition prepare (p : Dependencies) : result unit := validate p.

(** ** From the configuration to a processor

    The fields of a client set that [NewProcessor] hands on are those whose
    handles [NewClientset] added; [BatchProgressDB] is the batch client. *)
Definition poller_validate (pq db : bool) : result unit :=
  first_failure [(negb pq, "priority queue client is missing"); (negb db, "database client is missing")].
Definition updater_validate (db : bool) : result unit := first_failure [(negb db, "database client is missing")].
Definition files_validate (storage db : bool) : result unit :=
  first_failure [(negb storage, "files client is missing"); (negb db, "file database client is missing")].
Definition has (cs : Clientset) (name : string) : bool := bool_decide (name ∈ cl_handles cs).
Definition dependencies (cs : Clientset) : Dependencies :=
  {| dp_poller := Some (poller_validate (has cs "queue") (has cs "batchDB")); dp_updater := Some (updater_validate (has cs "batchDB"));
     dp_batchDB := has cs "batchDB"; dp_event := has cs "event"; dp_inference := bool_decide (is_Some (cl_Inference cs));
     dp_asyncInference := match cl_AsyncInference cs with Some _ => true | None => false end;
     dp_files := files_validate (has cs "file") (has cs "fileDB") |}.
Definition NewProcessor (c : ProcessorConfig) (cs : Clientset) : result Dependencies :=
  and_then (first_failure
    [ (pc_NumWorkers c <=? 0, "worker semaphore"); (cc_Global (pc_Concurrency c) <=? 0, "global semaphore");
      (negb (has cs "resumable"), "resumable store client is required"); (negb (has cs "file"), "files store client is required") ])
    (λ _, and_then (NewEndpointAllowlist (pc_ExtraEndpoints c)) (λ _, Ok (dependencies cs))).

Section Clients.
(** The files with keys, the constructors of the clients, the order in which a
    Go map is walked, and the types of the database and file clients. *)
Context (ReadFile ReadSecretFile : string → result string) (env : ClientsetEnv)
  (walk_models : gmap string AsyncModelPoolConfig → list (string * AsyncModelPoolConfig))
  (walk_gateways : gmap string GatewayClientConfig → list (string * GatewayClientConfig)) (dbType fileType : string).

Definition inference_option (processorID : string) (rg : ResolvedGateways) : InferenceOption :=
  match rg_Async rg, rg_Global rg with
  | Some a, _ => AsyncInference processorID a (walk_models (ac_Models a))
  | None, Some g => GlobalInference g
  | None, None => if bool_decide (rg_PerModel rg = ∅) then NoInference else PerModelInference (walk_gateways (rg_PerModel rg))
  end.
Definition buildProcessorClients (c : ProcessorConfig) (processorID : string) : M Handles Clientset := λ s,
  match ResolveModelGateways ReadFile ReadSecretFile c with
  | Err e => (s, Err e)
  | Ok resolved =>
      NewClientset env ComponentProcessor
        {| cs_fileType := Some fileType; cs_dbType := Some dbType; cs_inference := inference_option processorID resolved |} s
  end.

(** *** A client set of the processor

    [extends l b] : when the step [b] succeeds it has added the handles [l] and
    left the inference clients alone. *)
Definition extends (l : list string) (b : Build) : Prop := ∀ cs s s' cs',
  b cs s = (s', Ok cs') →
  cl_handles cs' = (cl_handles cs ++ l)%list ∧ cl_Inference cs' = cl_Inference cs ∧ cl_AsyncInference cs' = cl_AsyncInference cs.
Lemma extends_done : extends [] done_building.
Proof. intros cs s s' cs' [= <- <-]. by rewrite app_nil_r. Qed.
Lemma extends_failing l e : extends l (failing e).
Proof. by intros cs s s' cs'. Qed.
Lemma extends_opening name o : extends [name] (opening name o).
Proof.
  intros cs s s' cs'. unfold opening. destruct (acquire_handle _ _ _) as [s1 [u|e]]; [by intros [= <- <-]|].
  apply extends_failing.
Qed.
Lemma extends_then l1 l2 b1 b2 : extends l1 b1 → extends l2 b2 → extends (l1 ++ l2) (then_build b1 b2).
Proof.
  intros H1 H2 cs s s' cs'. unfold then_build, bindM. destruct (b1 cs s) as [s1 [cs1|e]] eqn:E; [|done].
  intros (-> & -> & ->)%H2. apply H1 in E as (-> & -> & ->). by rewrite app_assoc.
Qed.
Lemma extends_db cfg t : cs_dbType cfg = Some t →
  extends ["batchDB"; "fileDB"; "queue"; "resumable"; "event"] (build_db env ComponentProcessor cfg).
Proof.
  intros Ht. unfold build_db. rewrite Ht. case_bool_decide; [apply extends_failing|].
  apply (extends_then ["batchDB"; "fileDB"] ["queue"; "resumable"; "event"]).
  { intros cs s s' cs'. destruct (NewPostgreSQLDBClients env s) as [s1 [u|e]]; [|done]. intros [= <- <-]. cbn.
    by rewrite <- app_assoc. }
  apply (extends_then [] ["queue"; "resumable"; "event"]); [destruct (ce_Hostname env); [apply extends_done|apply extends_failing]|].
  apply (extends_then ["queue"] ["resumable"; "event"]); [apply extends_opening|].
  apply (extends_then ["resumable"] ["event"]); apply extends_opening.
Qed.
Lemma extends_file cfg t : cs_fileType cfg = Some t → extends ["file"] (build_file env cfg).
Proof. intros Ht. unfold build_file. rewrite Ht. case_bool_decide; [apply extends_opening|apply extends_failing]. Qed.

(** Which resolver a successful construction leaves behind. *)
Lemma build_inference_which cfg cs s s' cs' : build_inference env cfg cs s = (s', Ok cs') →
  cl_handles cs' = cl_handles cs ∧
  match cs_inference cfg with
  | NoInference => cl_Inference cs' = cl_Inference cs ∧ cl_AsyncInference cs' = cl_AsyncInference cs
  | AsyncInference _ _ _ => cl_Inference cs' = None ∧ is_Some (cl_AsyncInference cs')
  | GlobalInference _ => is_Some (cl_Inference cs') ∧ cl_AsyncInference cs' = None
  | PerModelInference entries => entries = [] ∨ is_Some (cl_Inference cs') ∧ cl_AsyncInference cs' = None
  end.
Proof.
  unfold build_inference. destruct (cs_inference cfg) as [|id config entries|config|entries].
  - by intros [= <- <-].
  - destruct (NormalizeAsyncTransport _); [|done].
    match goal with |- match ?x with _ => _ end = _ → _ => destruct x; [|done] end.
    destruct (NewAsyncResolver _ _ _ _ _) as [s1 [r|e]]; [|done]. intros [= <- <-]. cbn. eauto.
  - destruct (NewGlobalResolver _ _); [|done]. intros [= <- <-]. cbn. eauto.
  - case_bool_decide; [intros [= <- <-]; auto|]. destruct (NewPerModelResolver _ _); [|done]. intros [= <- <-]. cbn. eauto.
Qed.
Lemma processor_clientset cfg s s' cs t1 t2 : cs_fileType cfg = Some t1 → cs_dbType cfg = Some t2 →
  NewClientset env ComponentProcessor cfg s = (s', Ok cs) →
  cl_handles cs = ["file"; "batchDB"; "fileDB"; "queue"; "resumable"; "event"] ∧
  ∃ cs0 s0, build_inference env cfg cs0 s0 = (s', Ok cs) ∧ cl_Inference cs0 = None ∧ cl_AsyncInference cs0 = None.
Proof.
  intros H1 H2. unfold NewClientset, then_build, bindM.
  destruct (build_file env cfg empty_clientset s) as [s1 [cs1|e]] eqn:E1; [|done].
  destruct (build_db env ComponentProcessor cfg cs1 s1) as [s2 [cs2|e]] eqn:E2; [|done]. intros E3.
  apply (extends_file _ _ H1) in E1 as (A1 & A2 & A3). apply (extends_db _ _ H2) in E2 as (B1 & B2 & B3).
  pose proof (build_inference_which _ _ _ _ _ E3) as [C1 _]. split; [by rewrite C1, B1, A1|].
  exists cs2, s2. split; [done|]. by rewrite B2, B3, A2, A3.
Qed.

(** A validated configuration names one way to dispatch. *)
Lemma validated_modes stat PQ c c' : Validate stat PQ c = (c', Ok tt) →
  IsAsync c' = true ∨ pc_GlobalInferenceGateway c' ≠ None ∨ pc_ModelGateways c' ≠ ∅.
Proof.
  intros (_ & _ & _ & _ & _ & _ & Hg)%Validate_settings. unfold validateGateways in Hg. case_bool_decide as Hm.
  - injection Hg as <- Hg. apply and_then_ok in Hg as ([] & Hg & _).
    cbn in *. destruct (bool_decide (pc_GlobalInferenceGateway c = None)) eqn:E; boolify; [|by auto].
    destruct (bool_decide (pc_ModelGateways c = ∅)) eqn:E'; boolify; [done|by auto].
  - case_bool_decide as Ha; [|done]. injection Hg as <- _. left. unfold IsAsync. by rewrite Ha.
Qed.

Lemma NewProcessor_ok stat PQ c c' cs : Validate stat PQ c = (c', Ok tt) →
  cl_handles cs = ["file"; "batchDB"; "fileDB"; "queue"; "resumable"; "event"] → NewProcessor c' cs = Ok (dependencies cs).
Proof.
  intros HV Hh. destruct (Validate_settings _ _ _ _ HV) as (_ & Hcc & Hn & He & _).
  apply concurrency_validate_ok in Hcc as ([Hp Hg] & _).
  rewrite <- (Validate_same _ _ _ _ pc_Concurrency HV) in Hp, Hg by done.
  rewrite <- (Validate_same _ _ _ _ pc_NumWorkers HV) in Hn by done.
  rewrite <- (Validate_same _ _ _ _ pc_ExtraEndpoints HV) in He by done.
  unfold NewProcessor, has. rewrite Hh, (proj2 (Z.leb_gt _ _) Hn), (proj2 (Z.leb_gt (cc_Global _) 0)) by lia. cbn.
  by destruct (NewEndpointAllowlist _).
Qed.
(** The option that the resolved gateways give, and the clients built for it. *)
Lemma resolved_which stat PQ c c' rg processorID (cs0 cs : Clientset) :
  (∀ m, walk_gateways m ≡ₚ map_to_list m) → Validate stat PQ c = (c', Ok tt) →
  ResolveModelGateways ReadFile ReadSecretFile c' = Ok rg →
  match inference_option processorID rg with
  | NoInference => cl_Inference cs = cl_Inference cs0 ∧ cl_AsyncInference cs = cl_AsyncInference cs0
  | AsyncInference _ _ _ => cl_Inference cs = None ∧ is_Some (cl_AsyncInference cs)
  | GlobalInference _ => is_Some (cl_Inference cs) ∧ cl_AsyncInference cs = None
  | PerModelInference entries => entries = [] ∨ is_Some (cl_Inference cs) ∧ cl_AsyncInference cs = None
  end →
  if IsAsync c' then cl_Inference cs = None ∧ is_Some (cl_AsyncInference cs)
  else is_Some (cl_Inference cs) ∧ cl_AsyncInference cs = None.
Proof.
  intros Hwalk HV Hrg Hw. pose proof (validated_modes _ _ _ _ HV) as Hmodes. destruct (IsAsync c') eqn:Ha.
  { unfold ResolveModelGateways in Hrg. rewrite Ha in Hrg. by injection Hrg as <-. }
  destruct Hmodes as [[=]|Hmodes]. pose proof (resolved_dom ReadFile ReadSecretFile c' rg Ha) as Hdom. unfold inference_option in Hw.
  unfold ResolveModelGateways in Hrg, Hdom. rewrite Ha in Hrg, Hdom. destruct (pc_GlobalInferenceGateway c') as [gw|].
  - apply and_then_ok in Hrg as (g & Hg & Hrg). apply and_then_ok in Hg as (gc & _ & [= <-]).
    apply and_then_ok in Hrg as (pm & _ & [= <-]). done.
  - specialize (Hdom eq_refl Hrg). cbn [and_then] in Hrg. apply and_then_ok in Hrg as (pm & _ & [= <-]). cbn in *.
    assert (pm ≠ ∅) as Hpm.
    { intros ->. destruct Hmodes as [[]|Hm]; [done|]. apply Hm, dom_empty_inv_L. rewrite <- Hdom. by rewrite dom_empty_L. }
    rewrite bool_decide_eq_false_2 in Hw by done. destruct Hw as [Hw|]; [|done].
    specialize (Hwalk pm). rewrite Hw in Hwalk. apply Permutation_nil, map_to_list_empty_iff in Hwalk. done.
Qed.

(** The processor that [run] builds passes its own pre-flight check: with a
    configuration that [Validate] accepted, once the clients are built
    [NewProcessor] succeeds, [prepare] finds nothing missing, and the processor
    dispatches asynchronously exactly when the configuration says so. *)
Theorem built_processor_is_prepared stat PQ c c' processorID s s' cs :
  (∀ m, walk_gateways m ≡ₚ map_to_list m) →
  Validate stat PQ c = (c', Ok tt) →
  buildProcessorClients c' processorID s = (s', Ok cs) →
  ∃ d, NewProcessor c' cs = Ok d ∧ prepare d = Ok tt ∧ dp_asyncInference d = IsAsync c'.
Proof.
  intros Hwalk HV. unfold buildProcessorClients.
  destruct (ResolveModelGateways ReadFile ReadSecretFile c') as [rg|] eqn:Hrg; [|done]. intros Hcs.
  apply (processor_clientset _ _ _ _ fileType dbType) in Hcs as (Hh & cs0 & s0 & Hb & N1 & N2); [|done..].
  apply build_inference_which in Hb as [_ Hw]. cbn [cs_inference] in Hw.
  exists (dependencies cs). split; [by apply NewProcessor_ok with stat PQ c|].
  assert (Hx : match IsAsync c' with
               | true => cl_Inference cs = None ∧ is_Some (cl_AsyncInference cs)
               | false => is_Some (cl_Inference cs) ∧ cl_AsyncInference cs = None
               end) by (by eapply resolved_which).
  unfold prepare, validate, dependencies, has. cbn [dp_poller dp_updater dp_batchDB dp_event dp_inference dp_asyncInference dp_files].
  rewrite Hh. destruct (IsAsync c'), Hx as [Hi Ha].
  - destruct Ha as [r ->]. by rewrite Hi.
  - destruct Hi as [r ->]. by rewrite Ha.
Qed.
End Clients.

(** ** Start-up of [run]

    The outcomes of reading the configuration, of the tracer and of the metrics
    are inputs; a processor that cannot be created leaves the deferred [Close] to
    release the clients. *)
Section Startup.
Context (ReadFile ReadSecretFile : string → result string) (env : ClientsetEnv)
  (walk_models : gmap string AsyncModelPoolConfig → list (string * AsyncModelPoolConfig))
  (walk_gateways : gmap string GatewayClientConfig → list (string * GatewayClientConfig)) (dbType fileType : string)
  (stat : string → bool) (PQ : string → option Z).

Definition run_startup (hostname : result string) (loaded : result ProcessorConfig) (tracer metrics : result unit)
    : M Handles (Clientset * Dependencies) := λ s,
  match and_then hostname (λ h, and_then loaded (λ c,
          match Validate stat PQ c with
          | (c', Ok _) => and_then tracer (λ _, and_then metrics (λ _, Ok (h, c')))
          | (_, Err e) => Err e
          end)) with
  | Err e => (s, Err e)
  | Ok (h, c') =>
      match buildProcessorClients ReadFile ReadSecretFile env walk_models walk_gateways dbType fileType c' h s with
      | (s1, Err e) => (s1, Err e)
      | (s1, Ok cs) => match NewProcessor c' cs with
                       | Ok d => (s1, Ok (cs, d))
                       | Err e => (clientset_Close cs s1, Err e)
                       end
      end
  end.

(** Start-up succeeds with a processor that passes its pre-flight check, or
    fails and leaves nothing open. *)
Theorem startup_prepared_or_nothing_open hostname loaded tracer metrics s' r :
  (∀ m, walk_gateways m ≡ₚ map_to_list m) → is_ok (ce_BatchDB env) = false ∨ is_ok (ce_FileDB env) = true →
  run_startup hostname loaded tracer metrics ∅ = (s', r) →
  match r with Ok (cs, d) => prepare d = Ok tt ∧ clientset_Close cs s' = ∅ | Err _ => s' = ∅ end.
Proof.
  intros Hwalk Hdb. unfold run_startup.
  destruct hostname as [h|]; [|by intros [= <- <-]]. destruct loaded as [c|]; [|by intros [= <- <-]]. cbn [and_then].
  destruct (Validate stat PQ c) as [c' [[]|e]] eqn:HV; [|by intros [= <- <-]].
  destruct tracer; [|by intros [= <- <-]]. destruct metrics; [|by intros [= <- <-]]. cbn [and_then].
  destruct (buildProcessorClients _ _ _ _ _ _ _ c' h ∅) as [s1 r1] eqn:Hb. pose proof Hb as Hb'.
  unfold buildProcessorClients in Hb. destruct (ResolveModelGateways _ _ c'); [|simplify_eq; by intros [= <- <-]].
  apply clientset_leaks_nothing in Hb; [|done]. destruct r1 as [cs|e]; [|by intros [= <- <-]].
  destruct (built_processor_is_prepared _ _ _ _ _ _ _ _ _ _ _ _ _ _ _ Hwalk HV Hb') as (d & -> & Hp & _).
  by intros [= <- <-].
Qed.
End Startup.

(** ** The process *)

(** Where the main goroutine is: in [Run] before, during and after the polling
    loop (its deferred [bs.Wait]), behind [Run], waiting for the cause of an
    observability failure, in the deferred [proc.Stop], at the end. *)
Inductive Phase :=
| Starting | Recovering | Initialising | Polling | Waiting
| RunReturned (r : result unit) | Reporting (r : result unit) | Stopping (r : result unit) | Exited (r : result unit).
(** The contexts ([p_ctx]: SIGTERM or [cancel]; [p_stopped]: [pollingCtx]),
    [ready], whether the goroutine that clears it has run, the broadcasters of
    the configured models, those of recovery routes, the jobs that run, the
    clients, and the published cause of an observability failure. *)
Record Proc := {
  p_phase : Phase; p_ctx : bool; p_stopped : bool; p_ready : bool; p_cleared : bool; p_broadcasters : nat;
  p_recovery : nat; p_jobs : nat; p_clients : bool; p_obsFatal : option err }.
Definition proc0 : Proc :=
  {| p_phase := Starting; p_ctx := false; p_stopped := false; p_ready := false; p_cleared := false; p_broadcasters := 0;
     p_recovery := 0; p_jobs := 0; p_clients := true; p_obsFatal := None |}.
Definition set_phase (x : Phase) (s : Proc) : Proc :=
  {| p_phase := x; p_ctx := p_ctx s; p_stopped := p_stopped s; p_ready := p_ready s; p_cleared := p_cleared s;
     p_broadcasters := p_broadcasters s; p_recovery := p_recovery s; p_jobs := p_jobs s; p_clients := p_clients s;
     p_obsFatal := p_obsFatal s |}.
Definition set_ready (b : bool) (s : Proc) : Proc :=
  {| p_phase := p_phase s; p_ctx := p_ctx s; p_stopped := p_stopped s; p_ready := b; p_cleared := p_cleared s;
     p_broadcasters := p_broadcasters s; p_recovery := p_recovery s; p_jobs := p_jobs s; p_clients := p_clients s;
     p_obsFatal := p_obsFatal s |}.
Definition set_loops (own recovery : nat) (s : Proc) : Proc :=
  {| p_phase := p_phase s; p_ctx := p_ctx s; p_stopped := p_stopped s; p_ready := p_ready s; p_cleared := p_cleared s;
     p_broadcasters := own; p_recovery := recovery; p_jobs := p_jobs s; p_clients := p_clients s;
     p_obsFatal := p_obsFatal s |}.
Definition set_jobs (n : nat) (s : Proc) : Proc :=
  {| p_phase := p_phase s; p_ctx := p_ctx s; p_stopped := p_stopped s; p_ready := p_ready s; p_cleared := p_cleared s;
     p_broadcasters := p_broadcasters s; p_recovery := p_recovery s; p_jobs := n; p_clients := p_clients s;
     p_obsFatal := p_obsFatal s |}.
(** Cancelling a context cancels those derived from it. *)
Definition cancel_with (ctx : bool) (cause : option err) (s : Proc) : Proc :=
  {| p_phase := p_phase s; p_ctx := p_ctx s || ctx; p_stopped := true; p_ready := p_ready s; p_cleared := p_cleared s;
     p_broadcasters := p_broadcasters s; p_recovery := p_recovery s; p_jobs := p_jobs s; p_clients := p_clients s;
     p_obsFatal := match p_obsFatal s with Some x => Some x | None => cause end |}.
Definition stopAccepting (s : Proc) : Proc := cancel_with false None s.
Definition cancel (s : Proc) : Proc := cancel_with true None s.
(** The failed observability server: in best-effort mode the failure is only
    logged, otherwise the first one is published and the process cancelled. *)
Definition reportFatal (terminate : bool) (e : err) (s : Proc) : Proc :=
  if terminate then cancel_with true (Some e) s else s.
(** The goroutine of [run] that waits for the end of its context. *)
Definition clear_ready (s : Proc) : Proc :=
  {| p_phase := p_phase s; p_ctx := p_ctx s; p_stopped := p_stopped s; p_ready := false; p_cleared := true;
     p_broadcasters := p_broadcasters s; p_recovery := p_recovery s; p_jobs := p_jobs s; p_clients := p_clients s;
     p_obsFatal := p_obsFatal s |}.
(** The deferred [procClients.Close] and [cancel], behind [proc.Stop]. *)
Definition close_clients (r : result unit) (s : Proc) : Proc :=
  {| p_phase := Exited r; p_ctx := true; p_stopped := true; p_ready := p_ready s; p_cleared := p_cleared s;
     p_broadcasters := p_broadcasters s; p_recovery := p_recovery s; p_jobs := p_jobs s; p_clients := false;
     p_obsFatal := p_obsFatal s |}.
(** [Stop] returns once the jobs have ended or its own context has expired. *)
Definition Stop (expired : bool) (jobs : nat) : bool := expired || (jobs =? 0)%nat.
(** The error of [run]: a published observability failure goes before the error
    of [Run]. *)
Definition run_result (obsFatalCh : option err) (r : result unit) : result unit :=
  match obsFatalCh with Some e => Err e | None => r end.
(** The registry starts a loop per configured model; [Wait] also waits for the
    recovery routes. *)
Definition bs_Run (models : nat) (s : Proc) : Proc := set_loops models 0 s.
Definition bs_Wait (s : Proc) : bool := ((p_broadcasters s =? 0) && (p_recovery s =? 0))%nat.
(** Behind [Run]: not ready from here on. *)
Definition after_run (terminate : bool) (r : result unit) (s : Proc) : Proc :=
  set_ready false (set_phase (if terminate then Reporting r else Stopping r) s).
(** [/ready] of the observability server. *)
Definition ready_status (s : Proc) : Z := if p_ready s then 200 else 503.

Inductive PAct :=
| PPrepare (p : Dependencies) | PRecover (r : result unit) | PInit (r : result unit) (models : nat)
| PLaunch | PJobEnd | PRouteStart | PRouteEnd | PGuard | PSigterm | PObsFail (e : err) | PClear | PLoopEnd | PBroadcasterEnd
| PWaitEnd | PAfterRun | PReport | PStop (expired : bool).

Section Process.
(** Asynchronous dispatch, and [TerminateOnObservabilityFailure]. *)
Context (async terminate : bool).

Definition pstep (a : PAct) (s : Proc) : option Proc :=
  match a, p_phase s with
  | PPrepare p, Starting =>
      if Bool.eqb (dp_asyncInference p) async then Some (set_phase (match prepare p with Ok _ => Recovering | Err e => RunReturned (Err e) end) s)
      else None
  (* [onReady] is called once recovery is done *)
  | PRecover r, Recovering => Some (match r with
                                    | Ok _ => set_ready true (set_phase Initialising s)
                                    | Err e => set_phase (RunReturned (Err e)) s
                                    end)
  | PInit r models, Initialising => Some (match r with
                                          | Ok _ => bs_Run (if async then models else 0) (set_phase Polling s)
                                          | Err e => stopAccepting (set_phase (RunReturned (Err e)) s)
                                          end)
  (* a round that has begun goes on when the polling context ends *)
  | PLaunch, Polling => Some (set_jobs (S (p_jobs s)) s)
  | PJobEnd, _ => match p_jobs s with O => None | S n => Some (set_jobs n s) end
  (* a running job consumes the route of a former submitter *)
  | PRouteStart, _ => if async && negb (p_jobs s =? 0)%nat then Some (set_loops (p_broadcasters s) (S (p_recovery s)) s) else None
  | PRouteEnd, _ => match p_recovery s with O => None | S n => Some (set_loops (p_broadcasters s) n s) end
  (* the semaphores exist from [initConcurrencyControls] on *)
  | PGuard, (Polling | Waiting | RunReturned _ | Reporting _ | Stopping _) => Some (stopAccepting s)
  | PSigterm, _ => Some (cancel s)
  | PObsFail e, _ => Some (reportFatal terminate e s)
  | PClear, _ => if p_ctx s && negb (p_cleared s) then Some (clear_ready s) else None
  | PLoopEnd, Polling => if p_stopped s then Some (set_phase (if async then Waiting else RunReturned (Ok tt)) s) else None
  (* a broadcaster of a configured model runs until the processor's context ends *)
  | PBroadcasterEnd, _ => match p_broadcasters s with
                          | O => None
                          | S n => if p_ctx s then Some (set_loops n (p_recovery s) s) else None
                          end
  | PWaitEnd, Waiting => if bs_Wait s then Some (set_phase (RunReturned (Ok tt)) s) else None
  | PAfterRun, RunReturned r => Some (after_run terminate r s)
  (* [waitObservabilityFatalError] *)
  | PReport, Reporting r => Some (set_phase (Stopping (run_result (p_obsFatal s) r)) s)
  | PStop expired, Stopping r => if Stop expired (p_jobs s) then Some (close_clients r s) else None
  | _, _ => None
  end.
Fixpoint psteps (l : list PAct) (s : Proc) : option Proc :=
  match l with [] => Some s | a :: l' => match pstep a s with Some s' => psteps l' s' | None => None end end.
Lemma psteps_app l1 l2 s : psteps (app l1 l2) s = psteps l1 s ≫= psteps l2.
Proof. revert s. induction l1 as [|a l1 IH]; intros s; cbn; [done|]. by destruct (pstep a s). Qed.

(** ** Readiness and shutdown *)
(** Where [ready] may be true: from the end of recovery to the return of [Run]. *)
Definition may_serve (x : Phase) : bool :=
  match x with Initialising | Polling | Waiting | RunReturned _ => true | _ => false end.
Definition exited (x : Phase) : bool := match x with Exited _ => true | _ => false end.
Record pinv (s : Proc) : Prop := {
  pi_ready : p_ready s = true → may_serve (p_phase s) = true;
  pi_loops : async = false → p_broadcasters s = O ∧ p_recovery s = O;
  pi_stopped : p_ctx s = true → p_stopped s = true;
  pi_clients : p_clients s = negb (exited (p_phase s)) }.
Lemma proc0_inv : pinv proc0.
Proof. by split. Qed.
Ltac pstep_cases Hs :=
  unfold pstep, reportFatal in Hs; cbn in Hs; repeat destruct_match_in Hs; simplify_eq; cbn in *.
Lemma pstep_inv a s s' : pinv s → pstep a s = Some s' → pinv s'.
Proof.
  intros [H1 H2 H3 H4] Hs. destruct s as [ph c st rd cl b rc j ok f]; cbn in *.
  destruct a; pstep_cases Hs; split; cbn; rewrite ?orb_true_r, ?orb_false_r in *; try done; auto;
    try (by destruct terminate); intros Hf; try congruence; destruct (H2 Hf); by simplify_eq.
Qed.
Lemma psteps_inv l s s' : pinv s → psteps l s = Some s' → pinv s'.
Proof.
  revert s. induction l as [|a l IH]; intros s Hi; cbn; [by intros [= <-]|].
  destruct (pstep a s) as [s1|] eqn:Ha; [|done]. apply IH. by eapply pstep_inv.
Qed.

(** A probe is answered with 200 only between the end of recovery and the
    return of [Run]; the clients are closed at the very end. *)
Theorem ready_only_while_running l s :
  psteps l proc0 = Some s →
  (ready_status s = 200 → may_serve (p_phase s) = true) ∧ (p_clients s = false ↔ ∃ r, p_phase s = Exited r).
Proof.
  intros [H1 _ _ H4]%(psteps_inv _ _ _ proc0_inv). split.
  - unfold ready_status. destruct (p_ready s); [auto|done].
  - rewrite H4. destruct (p_phase s); cbn; naive_solver.
Qed.

(** ** Stopping the intake *)

(** Actions that end the processor's context. *)
Definition cancels (a : PAct) : bool := match a with PSigterm => true | PObsFail _ => terminate | _ => false end.
(** Asynchronous dispatch with a broadcaster that runs and nothing that ends it. *)
Record stuck (s : Proc) : Prop := {
  st_async : async = true;
  st_phase : p_phase s = Polling ∨ p_phase s = Waiting;
  st_ctx : p_ctx s = false;
  st_ready : p_ready s = true;
  st_loops : p_broadcasters s ≠ O }.
Lemma pstep_stuck a s s' : cancels a = false → stuck s → pstep a s = Some s' → stuck s'.
Proof.
  intros Hc [H0 H1 H2 H3 H4] Hs. destruct s as [ph c st rd cl b rc j ok f]; cbn in *.
  destruct H1 as [-> | ->]; destruct a; pstep_cases Hs; try congruence; split; cbn; auto.
  all: unfold bs_Wait in *; cbn in *; by destruct b.
Qed.
Lemma psteps_stuck l s s' : forallb (negb ∘ cancels) l = true → stuck s → psteps l s = Some s' → stuck s'.
Proof.
  revert s. induction l as [|a l IH]; intros s; cbn; [by intros _ ? [= <-]|].
  intros [Ha%negb_true_iff Hl]%andb_true_iff Hk. destruct (pstep a s) as [s1|] eqn:Hs; [|done].
  apply IH; [done|by eapply pstep_stuck].
Qed.
(** Without a cancellation the context lives and [ready] follows the phase. *)
Record calm (s : Proc) : Prop := {
  ca_ctx : exited (p_phase s) = false → p_ctx s = false;
  ca_ready : p_phase s = Initialising → p_ready s = true }.
Lemma pstep_calm a s s' : cancels a = false → calm s → pstep a s = Some s' → calm s'.
Proof.
  intros Hc [H1 H2] Hs. destruct s as [ph c st rd cl b rc j ok f]; cbn in *.
  destruct a; pstep_cases Hs; try congruence; split; cbn in *; rewrite ?orb_false_r; auto; intros; try congruence.
  - subst ph. by rewrite H1 in *.
  - by destruct terminate.
Qed.
Lemma psteps_calm l s s' : forallb (negb ∘ cancels) l = true → calm s → psteps l s = Some s' → calm s'.
Proof.
  revert s. induction l as [|a l IH]; intros s; cbn; [by intros _ ? [= <-]|].
  intros [Ha%negb_true_iff Hl]%andb_true_iff Hk. destruct (pstep a s) as [s1|] eqn:Hs; [|done].
  apply IH; [done|by eapply pstep_calm].
Qed.
Lemma psteps_calm0 l s : forallb (negb ∘ cancels) l = true → psteps l proc0 = Some s → calm s.
Proof. intros Hl. by apply psteps_calm. Qed.

(** [C39] With asynchronous dispatch the semaphore guard does not stop the
    processor. The guard ends the polling context alone, and [Run] waits, in its
    deferred [bs.Wait], for broadcasters that run until the processor's own
    context ends. Whatever happens from the start of the polling loop on, short of
    SIGTERM or a terminating observability failure, [Run] does not return: the
    process never becomes not-ready, and once the loop is left it answers its
    readiness probe with 200 while it takes no job. With synchronous dispatch,
    [Run] returns after the guard and the next step of [run] makes the process
    not-ready, as its comment says. *)
Theorem guard_shutdown_hangs l1 models l2 s :
  forallb (negb ∘ cancels) (l1 ++ l2) = true →
  psteps (l1 ++ PInit (Ok tt) models :: l2) proc0 = Some s →
  if async then
    models ≠ O →
    (p_phase s = Polling ∨ p_phase s = Waiting) ∧ ready_status s = 200 ∧
    (p_phase s = Waiting → pstep PLaunch s = None ∧ pstep PAfterRun s = None ∧ pstep PWaitEnd s = None)
  else
    p_phase s = Polling → p_stopped s = true →
    ∃ s', psteps [PLoopEnd; PAfterRun] s = Some s' ∧ ready_status s' = 503.
Proof.
  rewrite forallb_app, psteps_app. intros [Hl1 Hl2]%andb_true_iff Hs.
  destruct (psteps l1 proc0) as [s1|] eqn:H1; [|done]. cbn [mbind option_bind psteps] in Hs.
  pose proof (psteps_calm0 _ _ Hl1 H1) as [Hc Hr].
  destruct (pstep (PInit (Ok tt) models) s1) as [s2|] eqn:H2; [|done].
  unfold pstep in H2. destruct (p_phase s1) eqn:Hp; try done. injection H2 as <-.
  destruct async eqn:Ha; intros Hm.
  - assert (stuck s) as [_ Hph _ Hrd Hb].
    { eapply (psteps_stuck _ _ _ Hl2); [|apply Hs]. split; cbn; rewrite ?Ha; auto. }
    split_and!; [done|unfold ready_status; by rewrite Hrd|].
    intros Hw. cbn. rewrite Hw. split_and!; try done. unfold bs_Wait. by destruct (p_broadcasters s).
  - intros Hst. cbn. rewrite Hm, Hst. cbn. rewrite Ha. eexists. split; [reflexivity|done].
Qed.

(** ** Shutdown *)

(** What is left to do before the process exits; every action of [winds_down]
    takes something of it away. *)
Definition rank (x : Phase) : nat :=
  match x with
  | Starting => 8 | Recovering => 7 | Initialising => 6 | Polling => 5 | Waiting => 4
  | RunReturned _ => 3 | Reporting _ => 2 | Stopping _ => 1 | Exited _ => 0
  end.
Definition winds_down (a : PAct) : bool :=
  match a with
  | PLoopEnd | PBroadcasterEnd | PRouteEnd | PWaitEnd | PAfterRun | PReport | PStop _ | PJobEnd => true
  | _ => false
  end.
Definition left_to_do (s : Proc) : nat := (rank (p_phase s) + p_jobs s + p_broadcasters s + p_recovery s)%nat.
Lemma winds_down_less a s s' :
  p_ctx s = true → winds_down a = true → pstep a s = Some s' → p_ctx s' = true ∧ (left_to_do s' < left_to_do s)%nat.
Proof.
  intros Hc Ha Hs. destruct s as [ph c st rd cl b rc j ok f]; unfold left_to_do; cbn in *.
  destruct a; try done; pstep_cases Hs; try done; split; try done; try (destruct terminate; cbn; lia); lia.
Qed.
Definition polled (x : Phase) : bool := match x with Starting | Recovering | Initialising => false | _ => true end.
Lemma winds_down_enabled s :
  p_ctx s = true → p_stopped s = true → polled (p_phase s) = true → exited (p_phase s) = false →
  ∃ a s', winds_down a = true ∧ pstep a s = Some s' ∧ polled (p_phase s') = true.
Proof.
  intros Hc Hst Hp He. unfold pstep. destruct (p_phase s) eqn:Hx; try done.
  - exists PLoopEnd. rewrite Hst. eexists. split_and!; [done..|]. by destruct async.
  - destruct (p_broadcasters s) as [|n] eqn:Hb; [destruct (p_recovery s) as [|m] eqn:Hm|].
    + exists PWaitEnd. unfold bs_Wait. rewrite Hb, Hm. by eexists.
    + exists PRouteEnd. eexists. rewrite ?Hm. split_and!; [done..|]. cbn. by rewrite Hx.
    + exists PBroadcasterEnd. eexists. rewrite ?Hb, ?Hc. split_and!; [done..|]. cbn. by rewrite Hx.
  - exists PAfterRun. eexists. split_and!; [done..|]. by destruct terminate.
  - exists PReport. by eexists.
  - exists (PStop true). by eexists.
Qed.

(** Once its context has ended, a processor that polls shuts down: what its
    goroutines do by themselves takes away from [left_to_do], one of them can act
    until the process has exited, and then it is not ready and its clients are
    closed. *)
Theorem shutdown_completes l s :
  psteps l proc0 = Some s → p_ctx s = true → polled (p_phase s) = true →
  (∀ a s', winds_down a = true → pstep a s = Some s' → (left_to_do s' < left_to_do s)%nat) ∧
  ∃ l' s', forallb winds_down l' = true ∧ (length l' ≤ left_to_do s)%nat ∧ psteps l' s = Some s' ∧
    exited (p_phase s') = true ∧ ready_status s' = 503 ∧ p_clients s' = false.
Proof.
  intros Hs Hc Hp. pose proof (psteps_inv _ _ _ proc0_inv Hs) as Hi. clear Hs l.
  split; [intros a s' Ha Hs; by apply (winds_down_less a s s')|].
  induction s as [s IH] using (induction_ltof1 _ left_to_do).
  destruct (exited (p_phase s)) eqn:He.
  - exists [], s. destruct Hi as [H1 _ _ H4]. split_and!; cbn; try done; [lia| |by rewrite H4, He].
    unfold ready_status. destruct (p_ready s); [|done]. specialize (H1 eq_refl). by destruct (p_phase s).
  - destruct (winds_down_enabled s Hc (pi_stopped _ Hi Hc) Hp He) as (a & s1 & Ha & Hs1 & Hp1).
    destruct (winds_down_less a s s1 Hc Ha Hs1) as [Hc1 Hlt].
    destruct (IH s1 Hlt Hc1 Hp1 (pstep_inv a s s1 Hi Hs1)) as (l' & s' & Hw & Hn & Hl & Hrest).
    exists (a :: l'), s'. cbn [forallb length psteps]. rewrite Ha, Hs1. split_and!; try done; [lia|naive_solver..].
Qed.
End Process.

(** ** Runs *)
Definition allDependencies (async : bool) : Dependencies :=
  {| dp_poller := Some (Ok tt); dp_updater := Some (Ok tt); dp_batchDB := true; dp_event := true; dp_inference := negb async;
     dp_asyncInference := async; dp_files := Ok tt |}.
Definition startup (async : bool) : list PAct := [PPrepare (allDependencies async); PRecover (Ok tt)].
(** A double release while a job runs: the loop ends, the job ends, and the
    processor of the queue with one model stays ready for ever. *)
Definition after_guard : list PAct := [PLaunch; PGuard; PLoopEnd; PJobEnd].
Lemma guard_shutdown_hangs_run :
  (∃ s, psteps true false (startup true ++ PInit (Ok tt) 1 :: after_guard) proc0 = Some s ∧ p_jobs s = O ∧
    p_phase s = Waiting ∧ ready_status s = 200 ∧ pstep true false PAfterRun s = None) ∧
  (∃ s s', psteps false false (startup false ++ PInit (Ok tt) 0 :: [PGuard]) proc0 = Some s ∧
    psteps false false [PLoopEnd; PAfterRun] s = Some s' ∧ ready_status s' = 503).
Proof.
  split.
  - eexists. split; [vm_compute; reflexivity|]. split; [reflexivity|]. split; [reflexivity|].
    destruct (guard_shutdown_hangs true false (startup true) 1 after_guard _ eq_refl eq_refl ltac:(discriminate)) as (_ & Hr & Hw).
    split; [exact Hr|]. by apply Hw.
  - eexists. destruct (guard_shutdown_hangs false false (startup false) 0 [PGuard] _ eq_refl eq_refl eq_refl eq_refl) as (s' & Hs & Hr).
    exists s'. split; [vm_compute; reflexivity|]. by split.
Defined.
Example shutdown_run :
  option_map (λ s, (p_phase s, ready_status s, p_clients s))
    (psteps true true (startup true ++ [PInit (Ok tt) 1; PLaunch; PObsFail (ErrOther "listen"); PClear; PLoopEnd; PBroadcasterEnd;
                                   PWaitEnd; PAfterRun; PReport; PJobEnd; PStop false]) proc0)
  = Some (Exited (Err (ErrOther "listen")), 503, false).
Proof. reflexivity. Qed.
Example two_inference_clients :
  validate {| dp_poller := Some (Ok tt); dp_updater := Some (Ok tt); dp_batchDB := true; dp_event := true; dp_inference := true;
              dp_asyncInference := true; dp_files := Ok tt |}
  = Err (ErrOther "sync and async inference clients are mutually exclusive").
Proof. reflexivity. Qed.
